(* ===== verification/_CoqProject ===== *)
-Q . S2P
Prelude.v
Schema.v
Store.v
Concurrency.v
Worker.v
JobModels.v
JobQueue.v
JobInvariant.v
JobSafety.v
JobTxn.v
JobPool.v
JobSpec.v
JobPlans.v
JobWorker.v
EventModels.v
EventMatch.v
EventOutbox.v
EventPlans.v
EventReads.v
EventInvariant.v
EventSafety.v
EventClaim.v
EventPlanSafety.v
EventPool.v
EventSpec.v
EventWake.v
EventPublish.v
EventPlanSpec.v
EventDispatch.v
EventReconcile.v
EventReadSpec.v
BTree.v
Text.v
Address.v
Manifest.v
Consent.v
ConsentSpec.v
ConsentUse.v
Egress.v
Authority.v
AuthoritySpec.v
ProxyModel.v
ProxySpec.v
EventWorker.v
EventWorkerSpec.v
Instances.v
JobWitnesses.v
EventWitnesses.v
WorkerWitnesses.v
ConsentWitnesses.v
AuthorityWitnesses.v
Mp4Bytes.v
Mp4Edit.v
Mp4Read.v
Mp4File.v
Mp4Chapters.v
Mp4Remux.v
Mp4Walk.v
Mp4Tree.v
Mp4Splice.v
Mp4Search.v
Mp4Retable.v
Mp4Layout.v
Mp4Tables.v
Mp4Slack.v
Mp4ChaptersTree.v
Mp4ChaptersPut.v
Mp4ChaptersSpec.v
Mp4RemuxSpec.v
Mp4Titles.v
Mp4Witnesses.v
