(* ===== verification/Prelude.v ===== *)
(** * Bookclerk: durable work, plugin authority and audiobook files

    ** The program

    Bookclerk is an audiobook library daemon.  Everything that must survive a crash or run once
    among several daemon replicas goes through two tables-with-leases in its library database:
    the durable job queue ([crates/bookclerk-library/src/store/job_queue.rs]: scans, downloads,
    plugin copies) and the domain-event outbox ([store/event_outbox.rs]: events published by
    transactions, fanned out to plugin subscribers, delivered at least once, suspended and woken).
    Workers claim rows under a lease with a generation (the fence), heartbeat, checkpoint, suspend,
    retry with backoff, and lose their lease when they stop; retention and cancellation run beside
    them.  A database may also live behind a plugin: then admission, claim, publication and dispatch
    run as SQL batches ([sql_plan/named.rs]) sent by [RpcAtomicBackend]
    ([bookclerk-plugin-host/src/host/database.rs]).  The daemon drives both with worker loops
    ([bookclerkd/src/job_worker.rs], [event_worker.rs]): a handler runs beside a heartbeat task that
    shares cancellation flags with it, over a link that may lose calls.

    Handlers are plugins.  A plugin declares what it wants in a manifest
    ([bookclerk-plugin-manifest]), the operator approves a grant ([bookclerk-plugin-host/src/consent.rs],
    [bookclerkd/src/api.rs]), every spawn computes the effective grant from both, and the grant
    becomes an egress policy ([egress.rs], [address.rs]) that the socket proxy
    ([bookclerk-workerd/src/socket_proxy.rs]) enforces for guests without sockets of their own.  The
    event worker's subscriber catalog is filtered by the same grants.  A running session carries the
    revision of the grant it was spawned under, and a watcher of the grants file fences it when that
    is no longer the stored one ([bookclerk-plugin-host/src/authority.rs]).

    What the daemon works on are M4B files.  [bookclerk-mp4] parses them, rewrites a file into one with
    its index ([moov]) before its media, and edits a [moov] in place; [bookclerk-media] puts an edited
    [moov] back into its file and writes chapters ([moov.rs], [chapters_mp4.rs]).

    ** The model

    A store operation is a [prog Db] (this file): a tree of atomic accesses to the database, each a
    function on the whole store [Db] ([Schema]).  [let*] sequences accesses, [let?] is Rust's [?] on
    [Result], [txn] runs a body as one access and rolls back on [Err], [for_each] and [for_until]
    are the loops.  [run] executes a program alone; [Concurrency.step] interleaves a pool of
    programs access by access, with arbitrary changes by the environment and threads abandoned at
    any point, and [Concurrency.wp] with [pool_sound] is the rely-guarantee logic for it.  Rows are
    records with the columns of the entities; SQL statements are [update_rows], [delete_rows],
    [List.filter] and [order_by] on the list of rows, with unique keys, foreign keys and cascades
    written out in the inserts and deletes.  Text compares bytewise.  Integers are [Z], with the
    saturating, truncating and fallible conversions of the source spelled out where it makes them
    ([i64_try_from], [u64_saturating_add], …).

    A worker is a [prog WorkerState] ([Worker]): the store with the process's flags, its monotonic
    clock and the fate of its next calls; [call] is a library call that may be lost before or after
    it took effect.  A proxy session is an [io] program ([ProxyModel]): every read, write, lookup and
    dial is an operation the outside answers, raced against the session's flag, and [step] runs it
    while that flag may be set at any moment.  Manifests, grants and policies are records and pure
    functions; a [BTreeSet] is a sorted list.  The registry of live sessions is a store of its own,
    [Authority.Host] (the table, the grants file, the flags), and its operations are programs on it.

    A file is a list of bytes ([Mp4Bytes]).  Code on a buffer or a file returns an [outcome]: a result,
    an [Mp4Error], a panic (an index out of range), or [Spin] when a loop uses up its fuel.  A reader
    ([Mp4Read.reader]) threads the position of the file.  Sums of [u64] and [usize] wrap as they do in a
    release build.

    Third-party code is a parameter with the documented laws it is used for: [Chrono] (RFC 3339
    text, ordered as its instants), [Uuid] (fresh draws), [SerdeJson] and [SerdeValue] (round trips
    of JSON text), [JulianDay] (the SQLite function), [Idna] and [UrlCrate] (host names and URLs,
    without laws), [HostCpu] (the number of CPUs), [Sha256] (the digest, without laws).  [Instances] gives each a concrete
    implementation, and the witness files run the program on it.

    ** The files

    - [Prelude]: column setters, the [prog] monad, SQL on rows, machine integers, the third-party
      interfaces, list and text lemmas, tactics.
    - [Schema], [Store]: the tables ([entities/*.rs], [migrations/unreleased_ops.rs]), the store,
      the statements on each table, clock, UUIDs and the serialization slots ([sql_plan/slots.rs]).
    - [Concurrency]: pools, [wp], soundness.
    - [JobModels]: [JobKind], [JobState], [JobResourceClass], [JobTrigger], envelope, dedup key,
      backoff ([models.rs]).  [JobQueue]: every operation of [store/job_queue.rs] on [jobs] and
      [job_temp_paths].
    - [JobInvariant], [JobSafety], [JobPool]: the invariant [wf], the history relation [evolves],
      one [safe_*] lemma per operation, and what follows for every interleaving.
    - [JobTxn], [JobSpec]: the operations run alone against their specifications.
    - [JobPlans]: the SQL batches of admission, claim and reservation against the local code.
    - [EventModels], [EventMatch]: envelopes, subscriptions, payload filters, wake grants, the
      collapse of the node catalog ([models.rs]).
    - [EventOutbox]: the operations of [store/event_outbox.rs] on a local database.
    - [EventPlans], [EventReads]: the outbox behind a database plugin, late-join reconciliation,
      metrics and listings.
    - [EventInvariant], [EventSafety], [EventPlanSafety], [EventPool]: invariant, history, fences,
      interleavings.
    - [EventClaim], [EventSpec], [EventWake], [EventPublish]: claim, dispatch, failure, reclaim,
      suspension, the wake pass, publication and retention, each run alone.
    - [EventPlanSpec], [EventDispatch]: claim through a batch per candidate, publication, and
      dispatch in pages over a frozen snapshot, against the local path.
    - [EventReconcile], [EventReadSpec]: late joiners, metrics and listings, run alone.
    - [Worker], [JobWorker]: the process around the store, heartbeats, the job worker's loop and
      what holds for any number of them.
    - [EventWorker], [EventWorkerSpec]: delivery workers, dispatcher and catalog heartbeat.
    - [BTree], [Text], [Address]: ordered sets, strings and IP addresses as the standard library has
      them, and [address.rs].
    - [Manifest]: the plugin descriptor, its validation ([types.rs], [id.rs], [logo.rs]) and host
      names ([egress.rs]).  [Consent]: requests, approval, effective grants, [describe()], the grant
      store ([consent.rs]) and the approval call ([api.rs]).
    - [ConsentSpec], [ConsentUse]: what approval and the effective grant guarantee; approval to
      spawn, [describe()] and the store.
    - [Egress]: the policies of [egress.rs] and their decisions.
    - [ProxyModel], [ProxySpec]: a CONNECT session of [socket_proxy.rs] and its guarantees.
    - [Authority], [AuthoritySpec]: live sessions, the two revisions of a grant, fences, the watcher
      of the grants file and the spawn sections that read it ([authority.rs], [rpc_session.rs],
      [consent.rs]), interleaved with writers of the file.
    - [Mp4Bytes]: bytes, big-endian integers, outcomes.  [Mp4Edit]: searches and splices of a [moov]
      ([edit.rs]), its slack and chunk offsets ([patch.rs]).  [Mp4Read]: box headers, walks, sample
      tables, the parser ([boxutil.rs], [samples.rs], [parser.rs]).  [Mp4File]: the [moov] in its file
      ([patch.rs], [moov.rs]).  [Mp4Chapters]: [chapters_mp4.rs].  [Mp4Remux]: [remux.rs].
    - [Mp4Walk]: every edit returns.  [Mp4Tree]: boxes as trees ([atom]) and their bytes; [Mp4Splice],
      [Mp4Search], [Mp4Retable], [Mp4Layout], [Mp4Tables]: what splices, searches, table rewrites,
      top-level walks and table readers do on the bytes of a tree.  [Mp4Slack]: padding, shifting and
      swapping a [moov].  [Mp4ChaptersTree], [Mp4ChaptersPut], [Mp4ChaptersSpec], [Mp4Titles]: the
      chapter edits as edits of a tree, chapters over chapters, titles read back.  [Mp4RemuxSpec]: the
      remuxed file.
    - [Instances], [JobWitnesses], [EventWitnesses], [WorkerWitnesses], [ConsentWitnesses],
      [AuthorityWitnesses], [Mp4Witnesses]: concrete parameters, and the properties with hypotheses
      applied at a concrete store or file.

    ** What is proved

    - In every interleaving of queue calls, and of outbox calls on either path: unique keys, one active job
      per dedup key, lease columns consistent with each state, attempts within the budget,
      reservations within the quota, deliveries in flight within the cap; rows only move forward.
    - Fencing: a lost fence never matches again, its holder cannot write, a generation has one
      owner; finished rows are final; cancellation sticks; reclaim never takes a live lease.
    - Functional correctness of admission, claim, failure, suspension and resumption, reclaim,
      cancellation, retention, scratch reservations, publication, dispatch, delivery claim, wake
      pass, wake grants and late-join reconciliation, error branches included.
    - The paged loops end and equal one scan of their table: [claim_pages], the wake pass,
      [reconcile_pages], the frozen dispatch.
    - The plugin path equals the local path (admission, publication, delivery claim, dispatch), and
      the places where it does not: jobs of kind [plugin_copy], attempts of resumed jobs, cancelled
      pending rows, late joiners.

    - Workers: any pool of job and event workers keeps both invariants whatever the handlers do
      through the store; a handler that outlived its lease writes nothing; the result of one that
      did not is recorded in its row alone; the replay of a lost claim is bounded.
    - Authority: the effective grant is within the stored grant, the manifest and the host's caps;
      approval adds nothing structural; what was approved is what is spawned; [describe()] is
      confined, and a truthful guest is admitted; catalog rows are consented; a policy from consent
      decides as the manifest's; [is_public_internet] is the complement of the special blocks.
    - Proxy: only granted hosts are looked up, only allowed addresses dialled, nothing starts after
      the session is fenced, the relay forwards prefixes of what it read, the handshake is bounded.
    - Live sessions: whatever is interleaved, once the watcher has caught up with the file every session
      that may still act runs under a revision the file grants; a turn fences exactly the stale ones; equal revisions are equal authority.  Where this is more or less than meant: a
      package update is fenced at once, a file restored between two turns is not seen.
    - Files: every edit of a [moov] returns on any bytes; a splice is the substitution of a subtree with
      all enclosing sizes corrected; padding and stripping, and shifting there and back, undo each
      other; an edited [moov] put back leaves every chunk offset at the media it was at; chapters over
      chapters are the chapters alone, and their titles are what the parser reads; a remux ends within
      four rounds and its samples are found again, in order and in place; sample tables of any content
      are samples or refused.  Where it fails: chapters on a file that ends with its [moov], sizes that
      wrap, searches with several tracks.

    ** Bounds and fuel

    Loops of the source that read until a page is empty are given one page more than the table has
    rows ([claim_fuel], [reconcile_fuel]); the theorems show that run alone they end before.  The
    bounded loops keep the source's bounds: 16 rounds of cancellation, 8 candidates per job claim,
    32 rows per sanitizing pass, 32 dispatches and wakes per pass, 33 header lines of 2048 bytes.
    The claim replay has the twelve attempts that fit its budget ([replay_fuel], shown enough);
    heartbeat loops and the relay take an arbitrary number of turns, and their theorems hold for each.
    Walks over a buffer get one step more than it has bytes ([walk_fuel]), which [Mp4Walk] shows enough;
    the loop of the remux gets four rounds ([settle_rounds]; three are shown to suffice); the parser
    takes its fuel as an argument, and the theorems say how much is enough, or that none is.
    Lease generations, attempt counters and statistics are unbounded
    [Z]: overflow of an [i64] by one increment per claim is out of reach.

    ** Assumptions

    A transaction is one access: it runs as if alone, which the serialization slots and SQLite's
    writer lock provide.  A database error ends a call as an abandoned thread does.  The clock of
    the store is an arbitrary value the environment may change.  Texts of [serde] errors are
    parameters.  History theorems of the outbox take [retain]: with retention running, rows may be
    removed and only the invariant is claimed, and the claim behind a plugin is left out.
    Disks do not fail and a file has one writer at a time; the readers and transforms of samples are
    arguments of the remux.  The theorems on trees ask for 32-bit box sizes and for a [moov] within the
    64 MiB the code reads.

    ** Not modelled

    Fault injection and other test-only hooks; receipts and replay of a batch by its operation id;
    [list_orphaned_acquire_books], [reconcile_orphaned_acquire_rows] and [set_acquire_status], which
    need the books table; the scratch-directory sweep, prune timer and node id file of the workers;
    the staging file behind a save of the grants, the display of a request, the host overlays and the
    floating-point CPU override; the accept loops, permits and challenge of the proxy; the decoder
    configuration of an AAC sample entry and path validation of [bookclerk-mp4].  Command handlers and
    guests are parameters.  Of the rest of the repository: the other tables of the library, the SQL
    lowering, plugin ABI, the plugin host's processes, the catalog of packages, tagging, encoding and
    packaging of media, naming templates, configuration, search, the HTTP daemon and the web packages,
    listed one by one in the manifest: these are calls of operating system, network and libraries for
    the most part, or plain rows of a table. *)

From stdpp Require Import base option list strings countable pretty gmap.
From Stdlib Require Import ZArith Lia Permutation Sorted.

(** ** Column setters

    SeaORM statements assign named columns ([col_expr (Column, value)]).  A row is a
    [Record]; [set_field proj v r] is [r] with the column [proj] replaced by [v], written
    [r <| proj := v |>].  Instances are generated from the eta-expansion of the record. *)

Class Setter {R T : Type} (proj : R → T) := set_field : T → R → R.
Arguments set_field {R T} proj {_} v r : simpl nomatch.

Declare Scope row_scope.
Delimit Scope row_scope with row.
Notation "r <| proj := v |>" := (set_field proj v r)
  (at level 1, left associativity, format "r  <| proj  :=  v |>") : row_scope.
Open Scope row_scope.

(** [set_column eta proj] builds the setter of [proj] from [eta r := {| f1 := f1 r; … |}]. *)
Ltac set_column eta proj :=
  let v := fresh "v" in
  let r := fresh "r" in
  intros v r;
  let t := eval cbv beta delta [eta] in (eta r) in
  let t' := eval pattern (proj r) in t in
  match t' with
  | ?f _ => let u := eval cbv beta in (f v) in exact u
  end.

(** ** Results

    [crate::error::LibraryError], with the variants the modelled code builds or inspects;
    [sea_orm::DbErr] is seen by the code only through [is_unique_violation]. *)

Inductive DbErr : Type :=
| UniqueViolation
| ForeignKeyViolation
| OtherDbErr.

Inductive LibraryError : Type :=
| Orm (e : DbErr)
| NotFound (what : string)
| Unavailable (msg : string)
| Other (msg : string).

Inductive result (A : Type) : Type :=
| Ok (a : A)
| Err (e : LibraryError).
Arguments Ok {A} a.
Arguments Err {A} e.

(** ** Programs over a shared store

    An operation of the store is a sequence of atomic store accesses (one SQL statement, one
    committed transaction, one clock reading) with Rust code in between: a resumption.
    [run] executes it alone; [Concurrency] interleaves many of them. *)

Inductive prog (S A : Type) : Type :=
| Ret (a : A)
| Atom {X : Type} (f : S → X * S) (k : X → prog S A).
Arguments Ret {S A} a.
Arguments Atom {S A X} f k.

Fixpoint bind {S A B} (p : prog S A) (k : A → prog S B) : prog S B :=
  match p with
  | Ret a => k a
  | Atom f c => Atom f (λ x, bind (c x) k)
  end.

(** [x ← p?; k]: the [?] operator, an [Err] returns at once. *)
Definition try_bind {S A B} (p : prog S (result A)) (k : A → prog S (result B)) :
    prog S (result B) :=
  bind p (λ r, match r with Ok a => k a | Err e => Ret (Err e) end).

Declare Scope prog_scope.
Delimit Scope prog_scope with prog.
Notation "'let*' x ':=' p 'in' k" := (bind p (λ x, k))
  (at level 10, x name, p at level 100, k at level 200) : prog_scope.
Notation "'let?' x ':=' p 'in' k" := (try_bind p (λ x, k))
  (at level 10, x name, p at level 100, k at level 200) : prog_scope.
Open Scope prog_scope.

Definition query {S X} (f : S → X) : prog S X := Atom (λ s, (f s, s)) Ret.
Definition exec {S X} (f : S → X * S) : prog S X := Atom f Ret.

Fixpoint run {S A} (p : prog S A) (s : S) : A * S :=
  match p with
  | Ret a => (a, s)
  | Atom f k => run (k (f s).1) (f s).2
  end.

(** [db.begin() … commit()/rollback()]: one atomic access; an [Err] restores the store. *)
Definition txn {S A} (p : prog S (result A)) : prog S (result A) :=
  exec (λ s, match run p s with
             | (Ok a, s') => (Ok a, s')
             | (Err e, _) => (Err e, s)
             end).

(** [for x in xs { … }] over a vector read earlier, with the loop-carried value [acc]. *)
Fixpoint for_each {S A B} (xs : list A) (acc : B)
    (body : B → A → prog S (result B)) : prog S (result B) :=
  match xs with
  | [] => Ret (Ok acc)
  | x :: xs => let? acc := body acc x in for_each xs acc body
  end.

(** A loop whose body may [return] early: [inl] continues with the next element. *)
Fixpoint for_until {S A R} (xs : list A) (body : A → prog S (result (option R)))
    : prog S (result (option R)) :=
  match xs with
  | [] => Ret (Ok None)
  | x :: xs =>
      let? r := body x in
      match r with Some v => Ret (Ok (Some v)) | None => for_until xs body end
  end.

(** ** SQL statements on a table

    A table is the list of its rows in insertion order; SQL gives no order without [ORDER BY],
    and the theorems on ordered reads hold for every order of rows with equal sort keys. *)

Definition update_rows {R} (p : R → bool) (f : R → R) (t : list R) : nat * list R :=
  (length (List.filter p t), map (λ r, if p r then f r else r) t).

Definition delete_rows {R} (p : R → bool) (t : list R) : nat * list R :=
  (length (List.filter p t), List.filter (λ r, negb (p r)) t).

Fixpoint insert_by {R} (le : R → R → bool) (x : R) (l : list R) : list R :=
  match l with
  | [] => [x]
  | y :: l' => if le x y then x :: y :: l' else y :: insert_by le x l'
  end.

(** [ORDER BY]: a stable sort. *)
Definition order_by {R} (le : R → R → bool) (l : list R) : list R :=
  foldr (insert_by le) [] l.

(** Text columns compare bytewise (SQLite [BINARY], the contract of BookclerkSQL). *)
Definition text_eq (a b : string) : bool := String.eqb a b.
Definition text_le (a b : string) : bool := String.leb a b.
Definition text_lt (a b : string) : bool := String.ltb a b.

(** A comparison with [NULL] is not true. *)
Definition sql_eq (a : option string) (b : string) : bool :=
  match a with Some a => text_eq a b | None => false end.
Definition sql_le (a : option string) (b : string) : bool :=
  match a with Some a => text_le a b | None => false end.
Definition is_null {A} (a : option A) : bool :=
  match a with Some _ => false | None => true end.
Definition is_in (a : string) (l : list string) : bool := existsb (text_eq a) l.

(** ** Machine integers *)

Definition i64_MAX : Z := 9223372036854775807.
Definition u64_MAX : Z := 18446744073709551615.
Definition u32_MAX : Z := 4294967295.

(** [i64::try_from (n : u64)]. *)
Definition i64_try_from (n : Z) : option Z :=
  if (n <=? i64_MAX)%Z then Some n else None.
(** [u64::try_from (n : i64)]. *)
Definition u64_try_from (n : Z) : option Z :=
  if (0 <=? n)%Z then Some n else None.

Definition u64_saturating_add (a b : Z) : Z := Z.min (a + b) u64_MAX.
Definition u64_saturating_sub (a b : Z) : Z := Z.max (a - b) 0.
Definition u32_saturating_add (a b : Z) : Z := Z.min (a + b) u32_MAX.

(** ** Third-party interfaces

    The crates the code calls are parameters; the [Laws] classes state the documented
    behaviour the theorems rely on. *)

(** [chrono]: an instant is its number of nanoseconds since the Unix epoch. *)
Class Chrono := {
  to_rfc3339 : Z → string;
  parse_from_rfc3339 : string → option Z;
}.

(** Instants of the years 0000 to 9999, which RFC 3339 writes with four year digits. *)
Definition representable (t : Z) : Prop :=
  (-62167219200 * 1000000000 ≤ t < 253402300800 * 1000000000)%Z.

Class ChronoLaws (C : Chrono) : Prop := {
  parse_to_rfc3339 t : representable t → parse_from_rfc3339 (to_rfc3339 t) = Some t;
  to_rfc3339_le a b :
    representable a → representable b →
    text_le (to_rfc3339 a) (to_rfc3339 b) = (a <=? b)%Z;
}.

(** [chrono::Duration::seconds] and [::days], in nanoseconds. *)
Definition seconds (n : Z) : Z := n * 1000000000.
Definition days (n : Z) : Z := n * 86400 * 1000000000.

(** [serde_json]: [to_string] fails only when a [Serialize] implementation fails;
    [from_str_error s] is the text of the error [from_str] reports for [s]. *)
Class SerdeJson (A : Type) := {
  to_string : A → option string;
  from_str : string → option A;
  from_str_error : string → string;
}.

Class SerdeLaws (A : Type) `{SerdeJson A} : Prop := {
  serde_roundtrip (a : A) : ∃ s, to_string a = Some s ∧ from_str s = Some a;
}.

(** [uuid]: the [n]-th [Uuid::new_v4] drawn by the cluster. *)
Class Uuid := { new_v4 : nat → string }.
Class UuidLaws (U : Uuid) : Prop := { new_v4_inj :: Inj (=) (=) new_v4 }.

(** ** [str::trim] on UTF-8 bytes

    Byte length of the [White_Space] character at the head of the string, if there is one. *)
Definition byte (n : N) : Ascii.ascii := Ascii.ascii_of_N n.

Definition white_space (s : string) : option nat :=
  match s with
  | "" => None
  | String a s1 =>
      let n := Ascii.N_of_ascii a in
      if ((9 <=? n) && (n <=? 13) || (n =? 32))%N then Some 1%nat else
      match s1 with
      | "" => None
      | String b s2 =>
          let m := Ascii.N_of_ascii b in
          if ((n =? 194) && ((m =? 133) || (m =? 160)))%N then Some 2%nat else
          match s2 with
          | "" => None
          | String c _ =>
              let k := Ascii.N_of_ascii c in
              if ((n =? 225) && (m =? 154) && (k =? 128)
                  || (n =? 226) && (m =? 128)
                     && ((128 <=? k) && (k <=? 138) || (k =? 168) || (k =? 169) || (k =? 175))
                  || (n =? 226) && (m =? 129) && (k =? 159)
                  || (n =? 227) && (m =? 128) && (k =? 128))%N
              then Some 3%nat else None
          end
      end
  end%string.

(** [skip] bytes of a white-space character remain to be dropped. *)
Fixpoint trim_start_go (skip : nat) (s : string) : string :=
  match s with
  | EmptyString => EmptyString
  | String c s' =>
      match skip with
      | S n => trim_start_go n s'
      | O => match white_space s with
             | Some (S n) => trim_start_go n s'
             | _ => s
             end
      end
  end.
Definition trim_start (s : string) : string := trim_start_go 0 s.

Fixpoint trim_end (s : string) : string :=
  match s with
  | EmptyString => EmptyString
  | String c s' => if text_eq (trim_start s) "" then EmptyString else String c (trim_end s')
  end.

Definition trim (s : string) : string := trim_end (trim_start s).
Definition str_is_empty (s : string) : bool := text_eq s "".

(** ** Shared lemmas and automation *)

Lemma text_eq_true a b : text_eq a b = true ↔ a = b.
Proof. apply String.eqb_eq. Qed.

Lemma text_eq_false a b : text_eq a b = false ↔ a ≠ b.
Proof. apply String.eqb_neq. Qed.

Lemma text_eq_refl a : text_eq a a = true.
Proof. by apply text_eq_true. Qed.

Lemma sql_eq_true a b : sql_eq a b = true ↔ a = Some b.
Proof. destruct a as [a|]; simpl; [rewrite text_eq_true|]; naive_solver. Qed.

Lemma is_null_true {A} (a : option A) : is_null a = true ↔ a = None.
Proof. destruct a; simpl; naive_solver. Qed.

Lemma is_in_true a l : is_in a l = true ↔ a ∈ l.
Proof.
  unfold is_in. rewrite existsb_exists. split.
  - intros (x & Hx & ->%text_eq_true). by apply list_elem_of_In.
  - intros H. exists a. split; [by apply list_elem_of_In|apply text_eq_refl].
Qed.

Lemma negb_Zeqb_true a b : negb (a =? b)%Z = true ↔ a ≠ b.
Proof. rewrite negb_true_iff. apply Z.eqb_neq. Qed.

Lemma existsb_false {A} (p : A → bool) l :
  existsb p l = false ↔ ∀ x, x ∈ l → p x = false.
Proof.
  rewrite <-not_true_iff_false, existsb_exists. split.
  - intros H x Hx%list_elem_of_In. apply not_true_iff_false. intros Hp. apply H. eauto.
  - intros H (x & Hx%list_elem_of_In & Hp). rewrite H in Hp; done.
Qed.

(** Turn the boolean [WHERE] clauses of the context into propositions. *)
Ltac where_clauses :=
  repeat match goal with
  | H : _ && _ = true |- _ => apply andb_prop in H; destruct H
  | H : text_eq _ _ = true |- _ => apply text_eq_true in H
  | H : text_eq _ _ = false |- _ => apply text_eq_false in H
  | H : sql_eq _ _ = true |- _ => apply sql_eq_true in H
  | H : is_in _ _ = true |- _ => apply is_in_true in H
  | H : negb (_ =? _)%Z = true |- _ => apply negb_Zeqb_true in H
  | H : (_ =? _)%Z = true |- _ => apply Z.eqb_eq in H
  | H : (_ =? _)%Z = false |- _ => apply Z.eqb_neq in H
  | H : (_ <? _)%Z = true |- _ => apply Z.ltb_lt in H
  | H : (_ <? _)%Z = false |- _ => apply Z.ltb_ge in H
  | H : (_ <=? _)%Z = true |- _ => apply Z.leb_le in H
  | H : (_ <=? _)%Z = false |- _ => apply Z.leb_gt in H
  | H : negb _ = true |- _ => apply negb_true_iff in H
  | H : negb _ = false |- _ => apply negb_false_iff in H
  end.

(** Split on the condition of the first [if] of the goal. *)
Ltac split_if :=
  match goal with
  | |- context [if ?b then _ else _] =>
      lazymatch b with
      | context [if _ then _ else _] => fail
      | context [match _ with _ => _ end] => fail
      | _ => destruct b eqn:?
      end
  end.

Lemma elem_of_where {A} (p : A → bool) l x : x ∈ List.filter p l ↔ x ∈ l ∧ p x = true.
Proof. rewrite !list_elem_of_In. apply filter_In. Qed.

Lemma find_where {A} (p : A → bool) l x : List.find p l = Some x → x ∈ l ∧ p x = true.
Proof. intros [H Hp]%find_some. by rewrite list_elem_of_In. Qed.

Lemma find_where_none {A} (p : A → bool) l x : List.find p l = None → x ∈ l → p x = false.
Proof. intros H Hx%list_elem_of_In. by eapply find_none. Qed.

(** A key that identifies rows picks one row per value. *)
Lemma NoDup_key {A K} (key : A → K) l x y :
  NoDup (map key l) → x ∈ l → y ∈ l → key x = key y → x = y.
Proof.
  intros Hnd [i Hi]%list_elem_of_lookup [j Hj]%list_elem_of_lookup Hk.
  assert (i = j) as <-; [|congruence].
  eapply NoDup_lookup; [exact Hnd|rewrite list_lookup_fmap, Hi; done|].
  rewrite list_lookup_fmap, Hj. simpl. by rewrite Hk.
Qed.

Lemma find_map {A} (p : A → bool) (f : A → A) l :
  (∀ x, p (f x) = p x) → List.find p (map f l) = f <$> List.find p l.
Proof.
  intros Hf. induction l as [|x l IH]; [done|]. cbn [map List.find]. rewrite Hf.
  by destruct (p x).
Qed.

Lemma find_by_key {A} (key : A → string) l x k :
  NoDup (map key l) → x ∈ l → key x = k →
  List.find (λ y, text_eq (key y) k) l = Some x.
Proof.
  intros Hnd Hx Hk. destruct (List.find _ l) as [y|] eqn:Hf.
  - apply find_where in Hf as [Hy Hyk%text_eq_true].
    by rewrite (NoDup_key key l x y) by congruence.
  - apply (find_where_none _ _ x) in Hf; [|done]. by apply text_eq_false in Hf.
Qed.

Lemma sublist_where {A} (p : A → bool) l : List.filter p l `sublist_of` l.
Proof. induction l as [|x l IH]; simpl; [constructor|]. destruct (p x); by constructor. Qed.

(** A conditional update by a unique key touches at most one row. *)
Lemma where_key_le_1 {A K} (key : A → K) (p : A → bool) k l :
  NoDup (map key l) → (∀ x, p x = true → key x = k) → length (List.filter p l) ≤ 1.
Proof.
  intros Hnd Hp. induction l as [|x l IH]; simpl; [lia|].
  apply NoDup_cons in Hnd as [Hx Hnd]. destruct (p x) eqn:Epx; [|by apply IH].
  simpl. destruct (List.filter p l) as [|y r] eqn:Er; [done|]. exfalso. apply Hx.
  assert (y ∈ List.filter p l) as [Hy Hpy]%elem_of_where by (rewrite Er; left).
  rewrite (Hp _ Epx), <-(Hp _ Hpy). by apply list_elem_of_fmap_2.
Qed.

Lemma where_key_1 {A K} (key : A → K) (p : A → bool) x l :
  NoDup (map key l) → x ∈ l → p x = true → (∀ y, p y = true → key y = key x) →
  length (List.filter p l) = 1.
Proof.
  intros Hnd Hx Hp Hk. pose proof (where_key_le_1 key p (key x) l Hnd Hk).
  assert (x ∈ List.filter p l) as Hin by (apply elem_of_where; done).
  destruct (List.filter p l) as [|y [|z r]]; simpl in *; [by apply not_elem_of_nil in Hin|done|lia].
Qed.

Lemma where_by_key {A K} (key : A → K) (p : A → bool) x l :
  NoDup (map key l) → x ∈ l → p x = true → (∀ y, p y = true → key y = key x) →
  List.filter p l = [x].
Proof.
  intros Hnd Hx Hp Hk. pose proof (where_key_1 key p x l Hnd Hx Hp Hk) as Hl.
  assert (x ∈ List.filter p l) as Hin by (apply elem_of_where; done).
  destruct (List.filter p l) as [|y [|z r]]; try done. by apply list_elem_of_singleton in Hin as ->.
Qed.

Lemma where_all {A} (l : list A) : List.filter (λ _, true) l = l.
Proof. induction l; simpl; by f_equal. Qed.

Lemma where_partition {A} (p : A → bool) l :
  length (List.filter p l) + length (List.filter (λ x, negb (p x)) l) = length l.
Proof. induction l as [|x l IH]; simpl; [done|]. destruct (p x); simpl; lia. Qed.

Lemma where_none {A} (p : A → bool) l : (∀ x, x ∈ l → p x = false) → List.filter p l = [].
Proof.
  induction l as [|x l IH]; intros H; simpl; [done|].
  rewrite H by left. apply IH. intros. apply H. by right.
Qed.

Lemma update_rows_none {A} (p : A → bool) (f : A → A) l :
  (∀ x, x ∈ l → p x = false) → update_rows p f l = (0, l).
Proof.
  intros H. unfold update_rows. rewrite where_none by done. f_equal.
  induction l as [|x l IH]; simpl; [done|]. rewrite H by left. f_equal. apply IH.
  intros. apply H. by right.
Qed.

Lemma where_unique {A} (p : A → bool) x l :
  NoDup l → x ∈ l → p x = true → (∀ y, y ∈ l → p y = true → y = x) → List.filter p l = [x].
Proof.
  intros Hnd Hx Hp Hu. apply list_elem_of_split in Hx as (l1 & l2 & ->).
  apply NoDup_app in Hnd as (_ & Hd & Hnd). apply NoDup_cons in Hnd as [Hn _].
  rewrite List.filter_app. simpl. rewrite Hp, !where_none; [done|..];
    intros y Hy; apply not_true_iff_false; intros Hpy.
  - apply Hn. rewrite <-(Hu y) at 1; [done|set_solver|done].
  - apply (Hd y Hy). rewrite (Hu y); [left|set_solver|done].
Qed.

Lemma where_update {A} (q p : A → bool) (f : A → A) l :
  (∀ x, x ∈ l → p x = true → q x = false ∧ q (f x) = false) →
  List.filter q (update_rows p f l).2 = List.filter q l.
Proof.
  unfold update_rows. simpl. induction l as [|x l IH]; intros H; simpl; [done|].
  rewrite IH by (intros; apply H; [by right|done]).
  destruct (p x) eqn:E; [|done]. destruct (H x) as [-> ->]; [left|done..].
Qed.

(** The rows after an [UPDATE], and a key it leaves alone. *)
Lemma elem_of_update {R} (p : R → bool) f (l : list R) x :
  x ∈ (update_rows p f l).2 ↔ ∃ y, y ∈ l ∧ x = if p y then f y else y.
Proof. unfold update_rows. simpl. rewrite list_elem_of_fmap. split; intros (y & ? & ?); eauto. Qed.

Lemma update_key {R K} (key : R → K) p f (l : list R) :
  (∀ m, m ∈ l → p m = true → key (f m) = key m) →
  map key (update_rows p f l).2 = map key l.
Proof.
  intros H. unfold update_rows. simpl. rewrite map_map. apply map_ext_in.
  intros m Hm%list_elem_of_In. destruct (p m) eqn:E; auto.
Qed.

(** The table with the row under one key replaced: what a statement that selects by it does. *)
Definition set_by {R} (key : R → string) (k : string) (r' : R) (t : list R) : list R :=
  map (λ r, if text_eq (key r) k then r' else r) t.

Lemma update_by_key {R} (key : R → string) (p : R → bool) f m t :
  NoDup (map key t) → m ∈ t → p m = true → (∀ r, p r = true → key r = key m) →
  update_rows p f t = (1%nat, set_by key (key m) (f m) t).
Proof.
  intros Hnd Hm Hp Hid. unfold update_rows, set_by. f_equal; [by apply (where_key_1 key p m)|].
  apply map_ext_in. intros r Hr%list_elem_of_In. destruct (text_eq _ _) eqn:E; where_clauses.
  - rewrite (NoDup_key key t r m) by done. by rewrite Hp.
  - destruct (p r) eqn:Ep; [|done]. by apply Hid in Ep.
Qed.

Lemma set_by_elem {R} (key : R → string) m m' t : m ∈ t → m' ∈ set_by key (key m) m' t.
Proof. intros Hm. apply list_elem_of_fmap. exists m. by rewrite text_eq_refl. Qed.

Lemma set_by_other {R} (key : R → string) k m' r t : r ∈ t → key r ≠ k → r ∈ set_by key k m' t.
Proof.
  intros Hr Hne. apply list_elem_of_fmap. exists r. by rewrite (proj2 (text_eq_false _ _) Hne).
Qed.

Lemma set_by_twice {R} (key : R → string) (a b : R) k t :
  key a = k → set_by key k b (set_by key k a t) = set_by key k b t.
Proof.
  intros Hk. unfold set_by. rewrite map_map. apply map_ext. intros r.
  destruct (text_eq (key r) k) eqn:E; [by rewrite Hk, text_eq_refl|by rewrite E].
Qed.

Lemma set_by_key {R} (key : R → string) (a : R) k t :
  key a = k → map key (set_by key k a t) = map key t.
Proof.
  intros Hk. unfold set_by. rewrite map_map. apply map_ext. intros r.
  destruct (text_eq _ _) eqn:E; [|done]. apply text_eq_true in E. congruence.
Qed.

(** [ORDER BY] permutes the rows and sorts them when the order is total and transitive. *)
Lemma insert_by_perm {A} (le : A → A → bool) x l : insert_by le x l ≡ₚ x :: l.
Proof.
  induction l as [|y l IH]; simpl; [done|]. destruct (le x y); [done|].
  rewrite IH. apply Permutation_swap.
Qed.

Lemma order_by_perm {A} (le : A → A → bool) l : order_by le l ≡ₚ l.
Proof. induction l as [|x l IH]; simpl; [done|]. by rewrite insert_by_perm, IH. Qed.

Lemma elem_of_order_by {A} (le : A → A → bool) l x : x ∈ order_by le l ↔ x ∈ l.
Proof. by rewrite order_by_perm. Qed.

Section OrderBy.
Context {A : Type} (le : A → A → bool).
Context (le_total : ∀ x y, le x y = true ∨ le y x = true).
Context (le_trans : ∀ x y z, le x y = true → le y z = true → le x z = true).

Lemma insert_by_sorted x l :
  StronglySorted (λ a b, le a b = true) l → StronglySorted (λ a b, le a b = true) (insert_by le x l).
Proof.
  induction 1 as [|y l Hl IH Hy]; simpl; [repeat constructor|].
  destruct (le x y) eqn:E.
  - constructor; [by constructor|]. constructor; [done|].
    eapply Forall_impl; [exact Hy|]. eauto.
  - constructor; [done|]. rewrite insert_by_perm. constructor; [|done].
    destruct (le_total x y); congruence.
Qed.

Lemma order_by_sorted l : StronglySorted (λ a b, le a b = true) (order_by le l).
Proof. induction l; simpl; [constructor|by apply insert_by_sorted]. Qed.
End OrderBy.

(** Text comparison is a total order. *)
Lemma text_le_total a b : text_le a b = true ∨ text_le b a = true.
Proof.
  unfold text_le, String.leb. rewrite (String.compare_antisym b a).
  destruct (String.compare a b); simpl; auto.
Qed.

Lemma text_le_cons a s b t :
  text_le (String a s) (String b t) = true ↔
  (Ascii.N_of_ascii a < Ascii.N_of_ascii b)%N ∨ a = b ∧ text_le s t = true.
Proof.
  unfold text_le, String.leb. simpl. unfold Ascii.compare.
  destruct (N.compare_spec (Ascii.N_of_ascii a) (Ascii.N_of_ascii b)) as [E|E|E].
  - apply (f_equal Ascii.ascii_of_N) in E. rewrite !Ascii.ascii_N_embedding in E. subst.
    destruct (String.compare s t); naive_solver lia.
  - naive_solver.
  - split; [discriminate|]. intros [?|[-> _]]; lia.
Qed.

Lemma text_le_trans a b c : text_le a b = true → text_le b c = true → text_le a c = true.
Proof.
  revert b c. induction a as [|x a IH]; intros [|y b] [|z c]; try done.
  rewrite !text_le_cons. intros [?|[-> ?]] [?|[-> ?]]; [left; lia|auto..|]. right. eauto.
Qed.

Lemma text_le_antisym a b : text_le a b = true → text_le b a = true → a = b.
Proof.
  revert b. induction a as [|x a IH]; intros [|y b]; try done.
  rewrite !text_le_cons. intros [?|[-> ?]] [?|[? ?]]; try lia; simplify_eq; try lia.
  f_equal. auto.
Qed.

Lemma text_lt_spec a b : text_lt a b = true ↔ text_le a b = true ∧ a ≠ b.
Proof.
  unfold text_lt, text_le, String.ltb, String.leb. destruct (String.compare a b) eqn:E.
  - apply String.compare_eq_iff in E. naive_solver.
  - split; [|done]. intros _. split; [done|]. intros ->.
    pose proof (String.compare_antisym b b) as H. rewrite E in H. done.
  - naive_solver.
Qed.

Lemma text_lt_trans a b c : text_lt a b = true → text_lt b c = true → text_lt a c = true.
Proof.
  rewrite !text_lt_spec. intros [Hab Hne] [Hbc Hne']. split; [by eapply text_le_trans|].
  intros ->. apply Hne. by apply text_le_antisym.
Qed.

Lemma text_lt_total a b : a ≠ b → text_lt a b = false → text_lt b a = true.
Proof.
  intros Hne H. apply text_lt_spec. split; [|congruence].
  destruct (text_le_total a b) as [Hl|]; [|done].
  rewrite (proj2 (text_lt_spec a b)) in H; done.
Qed.

(** [ORDER BY] commutes with [WHERE]. *)
Section OrderByWhere.
Context {A : Type} (le : A → A → bool).
Context (le_total : ∀ x y, le x y = true ∨ le y x = true).
Context (le_trans : ∀ x y z, le x y = true → le y z = true → le x z = true).

Lemma insert_by_least x l : (∀ y, y ∈ l → le x y = true) → insert_by le x l = x :: l.
Proof. destruct l as [|y l]; simpl; [done|]. intros H. by rewrite (H y) by left. Qed.

Lemma where_insert_by p x l :
  StronglySorted (λ a b, le a b = true) l →
  List.filter p (insert_by le x l) =
  if p x then insert_by le x (List.filter p l) else List.filter p l.
Proof.
  induction 1 as [|y l Hl IH Hy]; simpl; [by destruct (p x)|].
  destruct (le x y) eqn:E; simpl.
  - destruct (p x) eqn:Ex, (p y) eqn:Ey; simpl; rewrite ?E; try done.
    rewrite insert_by_least; [done|]. intros z [Hz _]%elem_of_where.
    eapply le_trans; [exact E|]. by apply (proj1 (Forall_forall _ _) Hy).
  - rewrite IH. destruct (p x), (p y); simpl; rewrite ?E; done.
Qed.

Lemma where_order_by p l : List.filter p (order_by le l) = order_by le (List.filter p l).
Proof.
  induction l as [|x l IH]; simpl; [done|].
  rewrite where_insert_by by (by apply order_by_sorted). rewrite IH. by destruct (p x).
Qed.
End OrderByWhere.

Lemma where_where {A} (p q : A → bool) l :
  List.filter q (List.filter p l) = List.filter (λ x, p x && q x) l.
Proof.
  induction l as [|x l IH]; simpl; [done|]. destruct (p x); simpl; [|done].
  destruct (q x); by rewrite IH.
Qed.

Create HintDb store.
#[export] Hint Resolve text_eq_refl : store.
