(* ===== verification/Schema.v ===== *)
(** * The tables of [library.db] the durable-work core reads and writes

    One [Module] per SeaORM entity with its [Model] row, then the store [Db]: the tables, the
    serialization slots, the wall clock and the count of UUIDs drawn so far.  The inserts
    enforce the primary keys and unique indexes of [migrations/unreleased_ops.rs]. *)

From stdpp Require Import base option list strings gmap.
From Stdlib Require Import ZArith.
From S2P Require Import Prelude.

(** [entities/jobs.rs]: the durable daemon queue. *)
Module jobs.
Record Model : Type := mk_Model {
  id : string;
  kind : string;
  state : string;
  priority : Z;
  resource_class : string;
  payload : string;
  progress : option string;
  attempt_count : Z;
  max_attempts : Z;
  run_after : string;
  lease_owner : option string;
  lease_expires_at : option string;
  dedup_key : string;
  error_kind : option string;
  error_message : option string;
  cancel_requested : Z;
  created_at : string;
  updated_at : string;
  started_at : option string;
  finished_at : option string;
  lease_generation : Z;
}.

Definition eta (r : Model) : Model :=
  mk_Model (id r) (kind r) (state r) (priority r) (resource_class r) (payload r) (progress
    r) (attempt_count r) (max_attempts r) (run_after r) (lease_owner r) (lease_expires_at r)
    (dedup_key r) (error_kind r) (error_message r) (cancel_requested r) (created_at r)
    (updated_at r) (started_at r) (finished_at r) (lease_generation r).

#[global] Instance set_id : Setter id := ltac:(set_column eta id).
#[global] Instance set_kind : Setter kind := ltac:(set_column eta kind).
#[global] Instance set_state : Setter state := ltac:(set_column eta state).
#[global] Instance set_priority : Setter priority := ltac:(set_column eta priority).
#[global] Instance set_resource_class : Setter resource_class := ltac:(set_column eta resource_class).
#[global] Instance set_payload : Setter payload := ltac:(set_column eta payload).
#[global] Instance set_progress : Setter progress := ltac:(set_column eta progress).
#[global] Instance set_attempt_count : Setter attempt_count := ltac:(set_column eta attempt_count).
#[global] Instance set_max_attempts : Setter max_attempts := ltac:(set_column eta max_attempts).
#[global] Instance set_run_after : Setter run_after := ltac:(set_column eta run_after).
#[global] Instance set_lease_owner : Setter lease_owner := ltac:(set_column eta lease_owner).
#[global] Instance set_lease_expires_at : Setter lease_expires_at := ltac:(set_column eta lease_expires_at).
#[global] Instance set_dedup_key : Setter dedup_key := ltac:(set_column eta dedup_key).
#[global] Instance set_error_kind : Setter error_kind := ltac:(set_column eta error_kind).
#[global] Instance set_error_message : Setter error_message := ltac:(set_column eta error_message).
#[global] Instance set_cancel_requested : Setter cancel_requested := ltac:(set_column eta cancel_requested).
#[global] Instance set_created_at : Setter created_at := ltac:(set_column eta created_at).
#[global] Instance set_updated_at : Setter updated_at := ltac:(set_column eta updated_at).
#[global] Instance set_started_at : Setter started_at := ltac:(set_column eta started_at).
#[global] Instance set_finished_at : Setter finished_at := ltac:(set_column eta finished_at).
#[global] Instance set_lease_generation : Setter lease_generation := ltac:(set_column eta lease_generation).
End jobs.

(** [entities/job_temp_paths.rs]: scratch paths and their quota reservations. *)
Module job_temp_paths.
Record Model : Type := mk_Model {
  id : Z;
  job_id : string;
  path : string;
  created_at : string;
  reserved_bytes : Z;
}.

Definition eta (r : Model) : Model :=
  mk_Model (id r) (job_id r) (path r) (created_at r) (reserved_bytes r).

#[global] Instance set_id : Setter id := ltac:(set_column eta id).
#[global] Instance set_job_id : Setter job_id := ltac:(set_column eta job_id).
#[global] Instance set_path : Setter path := ltac:(set_column eta path).
#[global] Instance set_created_at : Setter created_at := ltac:(set_column eta created_at).
#[global] Instance set_reserved_bytes : Setter reserved_bytes := ltac:(set_column eta reserved_bytes).
End job_temp_paths.

(** [entities/domain_events.rs]: the event outbox. *)
Module domain_events.
Record Model : Type := mk_Model {
  id : string;
  event_type : string;
  schema_version : Z;
  occurred_at : string;
  account_id : string;
  source : string;
  correlation_id : string;
  causation_id : string;
  dedup_key : string;
  payload : string;
  ordering_key : string;
  dispatch_state : string;
  created_at : string;
  wake_pending : Z;
  wake_lease_owner : option string;
  wake_lease_expires_at : option string;
  wake_cursor_at : string;
  wake_cursor_id : string;
  dispatch_snapshot_json : string;
}.

Definition eta (r : Model) : Model :=
  mk_Model (id r) (event_type r) (schema_version r) (occurred_at r) (account_id r) (source
    r) (correlation_id r) (causation_id r) (dedup_key r) (payload r) (ordering_key r)
    (dispatch_state r) (created_at r) (wake_pending r) (wake_lease_owner r)
    (wake_lease_expires_at r) (wake_cursor_at r) (wake_cursor_id r) (dispatch_snapshot_json
    r).

#[global] Instance set_id : Setter id := ltac:(set_column eta id).
#[global] Instance set_event_type : Setter event_type := ltac:(set_column eta event_type).
#[global] Instance set_schema_version : Setter schema_version := ltac:(set_column eta schema_version).
#[global] Instance set_occurred_at : Setter occurred_at := ltac:(set_column eta occurred_at).
#[global] Instance set_account_id : Setter account_id := ltac:(set_column eta account_id).
#[global] Instance set_source : Setter source := ltac:(set_column eta source).
#[global] Instance set_correlation_id : Setter correlation_id := ltac:(set_column eta correlation_id).
#[global] Instance set_causation_id : Setter causation_id := ltac:(set_column eta causation_id).
#[global] Instance set_dedup_key : Setter dedup_key := ltac:(set_column eta dedup_key).
#[global] Instance set_payload : Setter payload := ltac:(set_column eta payload).
#[global] Instance set_ordering_key : Setter ordering_key := ltac:(set_column eta ordering_key).
#[global] Instance set_dispatch_state : Setter dispatch_state := ltac:(set_column eta dispatch_state).
#[global] Instance set_created_at : Setter created_at := ltac:(set_column eta created_at).
#[global] Instance set_wake_pending : Setter wake_pending := ltac:(set_column eta wake_pending).
#[global] Instance set_wake_lease_owner : Setter wake_lease_owner := ltac:(set_column eta wake_lease_owner).
#[global] Instance set_wake_lease_expires_at : Setter wake_lease_expires_at := ltac:(set_column eta wake_lease_expires_at).
#[global] Instance set_wake_cursor_at : Setter wake_cursor_at := ltac:(set_column eta wake_cursor_at).
#[global] Instance set_wake_cursor_id : Setter wake_cursor_id := ltac:(set_column eta wake_cursor_id).
#[global] Instance set_dispatch_snapshot_json : Setter dispatch_snapshot_json := ltac:(set_column eta dispatch_snapshot_json).
End domain_events.

(** [entities/event_deliveries.rs]: one row per event and subscriber. *)
Module event_deliveries.
Record Model : Type := mk_Model {
  id : string;
  event_id : string;
  plugin_id : string;
  idempotency_key : string;
  state : string;
  attempt_count : Z;
  max_attempts : Z;
  lease_owner : option string;
  lease_expires_at : option string;
  lease_generation : Z;
  run_after : string;
  invocation_sequence : Z;
  resume_pending : Z;
  checkpoint_json : option string;
  checkpoint_schema_version : Z;
  ordering_key : string;
  outcome : option string;
  error_message : option string;
  created_at : string;
  updated_at : string;
  cancel_requested : Z;
  resource_class : string;
  wake_event_type : string;
  wake_filter_json : string;
  wake_grants_json : string;
}.

Definition eta (r : Model) : Model :=
  mk_Model (id r) (event_id r) (plugin_id r) (idempotency_key r) (state r) (attempt_count r)
    (max_attempts r) (lease_owner r) (lease_expires_at r) (lease_generation r) (run_after r)
    (invocation_sequence r) (resume_pending r) (checkpoint_json r)
    (checkpoint_schema_version r) (ordering_key r) (outcome r) (error_message r) (created_at
    r) (updated_at r) (cancel_requested r) (resource_class r) (wake_event_type r)
    (wake_filter_json r) (wake_grants_json r).

#[global] Instance set_id : Setter id := ltac:(set_column eta id).
#[global] Instance set_event_id : Setter event_id := ltac:(set_column eta event_id).
#[global] Instance set_plugin_id : Setter plugin_id := ltac:(set_column eta plugin_id).
#[global] Instance set_idempotency_key : Setter idempotency_key := ltac:(set_column eta idempotency_key).
#[global] Instance set_state : Setter state := ltac:(set_column eta state).
#[global] Instance set_attempt_count : Setter attempt_count := ltac:(set_column eta attempt_count).
#[global] Instance set_max_attempts : Setter max_attempts := ltac:(set_column eta max_attempts).
#[global] Instance set_lease_owner : Setter lease_owner := ltac:(set_column eta lease_owner).
#[global] Instance set_lease_expires_at : Setter lease_expires_at := ltac:(set_column eta lease_expires_at).
#[global] Instance set_lease_generation : Setter lease_generation := ltac:(set_column eta lease_generation).
#[global] Instance set_run_after : Setter run_after := ltac:(set_column eta run_after).
#[global] Instance set_invocation_sequence : Setter invocation_sequence := ltac:(set_column eta invocation_sequence).
#[global] Instance set_resume_pending : Setter resume_pending := ltac:(set_column eta resume_pending).
#[global] Instance set_checkpoint_json : Setter checkpoint_json := ltac:(set_column eta checkpoint_json).
#[global] Instance set_checkpoint_schema_version : Setter checkpoint_schema_version := ltac:(set_column eta checkpoint_schema_version).
#[global] Instance set_ordering_key : Setter ordering_key := ltac:(set_column eta ordering_key).
#[global] Instance set_outcome : Setter outcome := ltac:(set_column eta outcome).
#[global] Instance set_error_message : Setter error_message := ltac:(set_column eta error_message).
#[global] Instance set_created_at : Setter created_at := ltac:(set_column eta created_at).
#[global] Instance set_updated_at : Setter updated_at := ltac:(set_column eta updated_at).
#[global] Instance set_cancel_requested : Setter cancel_requested := ltac:(set_column eta cancel_requested).
#[global] Instance set_resource_class : Setter resource_class := ltac:(set_column eta resource_class).
#[global] Instance set_wake_event_type : Setter wake_event_type := ltac:(set_column eta wake_event_type).
#[global] Instance set_wake_filter_json : Setter wake_filter_json := ltac:(set_column eta wake_filter_json).
#[global] Instance set_wake_grants_json : Setter wake_grants_json := ltac:(set_column eta wake_grants_json).
End event_deliveries.

(** [entities/event_subscriber_nodes.rs]: per-node subscriber heartbeats. *)
Module event_subscriber_nodes.
Record Model : Type := mk_Model {
  node_id : string;
  plugin_id : string;
  subscriptions_json : string;
  enabled : Z;
  heartbeat_at : string;
}.

Definition eta (r : Model) : Model :=
  mk_Model (node_id r) (plugin_id r) (subscriptions_json r) (enabled r) (heartbeat_at r).

#[global] Instance set_node_id : Setter node_id := ltac:(set_column eta node_id).
#[global] Instance set_plugin_id : Setter plugin_id := ltac:(set_column eta plugin_id).
#[global] Instance set_subscriptions_json : Setter subscriptions_json := ltac:(set_column eta subscriptions_json).
#[global] Instance set_enabled : Setter enabled := ltac:(set_column eta enabled).
#[global] Instance set_heartbeat_at : Setter heartbeat_at := ltac:(set_column eta heartbeat_at).
End event_subscriber_nodes.

(** [entities/event_outbox_stats.rs]: the singleton counters row. *)
Module event_outbox_stats.
Record Model : Type := mk_Model {
  id : Z;
  retries_total : Z;
  suspensions_total : Z;
  dead_letters_total : Z;
  dispatch_latency_ms_sum : Z;
  dispatch_count : Z;
  handler_latency_ms_sum : Z;
  handler_count : Z;
}.

Definition eta (r : Model) : Model :=
  mk_Model (id r) (retries_total r) (suspensions_total r) (dead_letters_total r)
    (dispatch_latency_ms_sum r) (dispatch_count r) (handler_latency_ms_sum r) (handler_count
    r).

#[global] Instance set_id : Setter id := ltac:(set_column eta id).
#[global] Instance set_retries_total : Setter retries_total := ltac:(set_column eta retries_total).
#[global] Instance set_suspensions_total : Setter suspensions_total := ltac:(set_column eta suspensions_total).
#[global] Instance set_dead_letters_total : Setter dead_letters_total := ltac:(set_column eta dead_letters_total).
#[global] Instance set_dispatch_latency_ms_sum : Setter dispatch_latency_ms_sum := ltac:(set_column eta dispatch_latency_ms_sum).
#[global] Instance set_dispatch_count : Setter dispatch_count := ltac:(set_column eta dispatch_count).
#[global] Instance set_handler_latency_ms_sum : Setter handler_latency_ms_sum := ltac:(set_column eta handler_latency_ms_sum).
#[global] Instance set_handler_count : Setter handler_count := ltac:(set_column eta handler_count).
End event_outbox_stats.

(** The store: its tables, the wall clock (nanoseconds) and the UUIDs drawn so far. *)
Record Db : Type := mk_Db {
  jobs_t : list jobs.Model;
  job_temp_paths_t : list job_temp_paths.Model;
  job_temp_paths_seq : Z;
  domain_events_t : list domain_events.Model;
  event_deliveries_t : list event_deliveries.Model;
  event_subscriber_nodes_t : list event_subscriber_nodes.Model;
  event_outbox_stats_t : list event_outbox_stats.Model;
  bookclerk_slots_t : gmap string Z;
  clock : Z;
  uuids_drawn : nat;
}.

Definition db_eta (r : Db) : Db :=
  mk_Db (jobs_t r) (job_temp_paths_t r) (job_temp_paths_seq r) (domain_events_t r)
    (event_deliveries_t r) (event_subscriber_nodes_t r) (event_outbox_stats_t r) (bookclerk_slots_t r) (clock r)
    (uuids_drawn r).

#[global] Instance set_jobs_t : Setter jobs_t := ltac:(set_column db_eta jobs_t).
#[global] Instance set_job_temp_paths_t : Setter job_temp_paths_t := ltac:(set_column db_eta job_temp_paths_t).
#[global] Instance set_job_temp_paths_seq : Setter job_temp_paths_seq := ltac:(set_column db_eta job_temp_paths_seq).
#[global] Instance set_domain_events_t : Setter domain_events_t := ltac:(set_column db_eta domain_events_t).
#[global] Instance set_event_deliveries_t : Setter event_deliveries_t := ltac:(set_column db_eta event_deliveries_t).
#[global] Instance set_event_subscriber_nodes_t : Setter event_subscriber_nodes_t := ltac:(set_column db_eta event_subscriber_nodes_t).
#[global] Instance set_event_outbox_stats_t : Setter event_outbox_stats_t := ltac:(set_column db_eta event_outbox_stats_t).
#[global] Instance set_bookclerk_slots_t : Setter bookclerk_slots_t := ltac:(set_column db_eta bookclerk_slots_t).
#[global] Instance set_clock : Setter clock := ltac:(set_column db_eta clock).
#[global] Instance set_uuids_drawn : Setter uuids_drawn := ltac:(set_column db_eta uuids_drawn).
