(* ===== verification/Store.v ===== *)
(** * Store primitives shared by the queue and the outbox

    Clock and UUID draws, RFC 3339 parsing with its fallback, the SQL statements on each table
    and the [bookclerk_slots] serialization lock ([store.rs], [sql_plan/slots.rs] and the
    unique indexes of [migrations/unreleased_ops.rs]). *)

From stdpp Require Import base option list strings gmap.
From Stdlib Require Import ZArith.
From S2P Require Import Prelude Schema.

Local Open Scope Z_scope.

Section Primitives.
Context {C : Chrono} {U : Uuid}.

Definition Utc_now : prog Db Z := query clock.
Definition now_str : prog Db string := let* now := Utc_now in Ret (to_rfc3339 now).

Lemma run_clock s : run Utc_now s = (clock s, s).
Proof. done. Qed.

Lemma run_now_str s : run now_str s = (to_rfc3339 (clock s), s).
Proof. done. Qed.

(** [Uuid::new_v4().to_string()]. *)
Definition draw_uuid : prog Db string :=
  exec (λ s, (new_v4 (uuids_drawn s), s <| uuids_drawn := S (uuids_drawn s) |>)).

(** [parse_dt]: a malformed timestamp reads as the current instant. *)
Definition parse_dt (now : Z) (value : string) : Z :=
  default now (parse_from_rfc3339 value).
Definition parse_dt_opt (now : Z) (value : option string) : option Z :=
  parse_dt now <$> value.

(** The same with the clock reading of the fallback made explicit. *)
Definition parse_dt_io (value : string) : prog Db Z :=
  match parse_from_rfc3339 value with
  | Some t => Ret t
  | None => Utc_now
  end.
End Primitives.

(** ** [bookclerk_slots] *)

(** [lock_serialization_slot]: insert the slot row with [bump = 0] unless it exists, then bump
    it; the row lock is held until the transaction ends. *)
Definition lock_serialization_slot (slot_key : string) : prog Db (result unit) :=
  let* _ := exec (λ s,
    ((), match bookclerk_slots_t s !! slot_key with
         | Some _ => s
         | None => s <| bookclerk_slots_t := <[slot_key := 0]> (bookclerk_slots_t s) |>
         end)) in
  let* _ := exec (λ s,
    ((), s <| bookclerk_slots_t := alter (λ b, b + 1) slot_key (bookclerk_slots_t s) |>)) in
  Ret (Ok ()).

Definition JOB_QUEUE_SLOT : string := "job-queue".

(** ** Statements on [jobs] *)

Definition job_is_active (m : jobs.Model) : bool :=
  is_in (jobs.state m) ["pending"; "running"].

Definition jobs_find_by_id (id : string) : prog Db (option jobs.Model) :=
  query (λ s, List.find (λ m, text_eq (jobs.id m) id) (jobs_t s)).

Definition jobs_select (p : jobs.Model → bool) : prog Db (list jobs.Model) :=
  query (λ s, List.filter p (jobs_t s)).

Definition jobs_update (p : jobs.Model → bool) (f : jobs.Model → jobs.Model) : prog Db nat :=
  exec (λ s, let r := update_rows p f (jobs_t s) in (r.1, s <| jobs_t := r.2 |>)).

(** [DELETE FROM jobs WHERE p]; [job_temp_paths] rows cascade. *)
Definition jobs_delete (p : jobs.Model → bool) : prog Db nat :=
  exec (λ s,
    let r := delete_rows p (jobs_t s) in
    let gone := map jobs.id (List.filter p (jobs_t s)) in
    (r.1, s <| jobs_t := r.2 |>
            <| job_temp_paths_t :=
                 List.filter (λ t, negb (is_in (job_temp_paths.job_id t) gone))
                   (job_temp_paths_t s) |>)).

(** Primary key [id] and the partial unique index [idx_jobs_dedup_active]. *)
Definition jobs_insert (m : jobs.Model) : prog Db (result unit) :=
  exec (λ s,
    if existsb (λ r, text_eq (jobs.id r) (jobs.id m)) (jobs_t s)
       || (job_is_active m
           && existsb (λ r, text_eq (jobs.dedup_key r) (jobs.dedup_key m) && job_is_active r)
                (jobs_t s))
    then (Err (Orm UniqueViolation), s)
    else (Ok (), s <| jobs_t := jobs_t s ++ [m] |>)).

(** ** Statements on [job_temp_paths] *)

Definition job_temp_paths_select (p : job_temp_paths.Model → bool)
    : prog Db (list job_temp_paths.Model) :=
  query (λ s, List.filter p (job_temp_paths_t s)).

Definition job_temp_paths_update (p : job_temp_paths.Model → bool)
    (f : job_temp_paths.Model → job_temp_paths.Model) : prog Db nat :=
  exec (λ s, let r := update_rows p f (job_temp_paths_t s) in
             (r.1, s <| job_temp_paths_t := r.2 |>)).

Definition job_temp_paths_delete (p : job_temp_paths.Model → bool) : prog Db nat :=
  exec (λ s, let r := delete_rows p (job_temp_paths_t s) in
             (r.1, s <| job_temp_paths_t := r.2 |>)).

(** Autoincrement key, [UNIQUE (job_id, path)] and the foreign key to [jobs]. *)
Definition job_temp_paths_insert (job_id path created_at : string) (reserved_bytes : Z)
    : prog Db (result unit) :=
  exec (λ s,
    if existsb (λ r, text_eq (job_temp_paths.job_id r) job_id
                     && text_eq (job_temp_paths.path r) path) (job_temp_paths_t s)
    then (Err (Orm UniqueViolation), s)
    else if negb (existsb (λ r, text_eq (jobs.id r) job_id) (jobs_t s))
    then (Err (Orm ForeignKeyViolation), s)
    else
      let n := job_temp_paths_seq s + 1 in
      (Ok (), s <| job_temp_paths_t := job_temp_paths_t s
                     ++ [job_temp_paths.mk_Model n job_id path created_at reserved_bytes] |>
                <| job_temp_paths_seq := n |>)).
