(* ===== verification/Concurrency.v ===== *)
(** * Interleaved execution of store programs

    The daemon replicas, workers and HTTP handlers run store operations concurrently against one
    database.  [step] interleaves a pool of [prog]s one atomic access at a time, with arbitrary
    environment steps in between; a crashed worker is a thread that is never scheduled again.
    [wp] is a rely-guarantee weakest precondition on one [prog], and [pool_sound] lifts it to
    every schedule of every pool. *)

From stdpp Require Import base option list relations.
From S2P Require Import Prelude.

Section Pool.
Context {S A : Type} (spawnable : prog S A → Prop) (env : S → S → Prop).

(** One scheduling step of the pool [c.1] over the store [c.2]. *)
Inductive step : list (prog S A) * S → list (prog S A) * S → Prop :=
| step_access ts s i X (f : S → X * S) k :
    ts !! i = Some (Atom f k) →
    step (ts, s) (<[i := k (f s).1]> ts, (f s).2)
| step_spawn ts s p :
    spawnable p → step (ts, s) (ts ++ [p], s)
| step_env ts s s' :
    env s s' → step (ts, s) (ts, s').
End Pool.

Section RelyGuarantee.
Context {S : Type} (R G : S → S → Prop) (I : S → Prop).

(** [wp p Q s]: started in [s], with [R]-steps of others before each access, every access of
    [p] respects [G] and keeps [I], and [p] can only return [a] with [Q a] of the store its
    last access left. *)
Fixpoint wp {A} (p : prog S A) (Q : A → S → Prop) (s : S) : Prop :=
  match p with
  | Ret a => Q a s
  | Atom f k =>
      ∀ s', R s s' → I s' →
        G s' (f s').2 ∧ I (f s').2 ∧ wp (k (f s').1) Q (f s').2
  end.

Lemma wp_mono {A} (p : prog S A) (Q Q' : A → S → Prop) s :
  (∀ a s, Q a s → Q' a s) → wp p Q s → wp p Q' s.
Proof.
  intros HQ. revert s. induction p as [a|X f k IH]; intros s; simpl; [auto|].
  intros H s' HR HI. destruct (H s' HR HI) as (HG & HI' & Hw). eauto.
Qed.

Lemma wp_bind {A B} (p : prog S A) (k : A → prog S B) Q s :
  wp p (λ a s', wp (k a) Q s') s → wp (bind p k) Q s.
Proof.
  revert s. induction p as [a|X f c IH]; intros s; simpl; [auto|].
  intros H s' HR HI. destruct (H s' HR HI) as (HG & HI' & Hw). auto.
Qed.

Lemma wp_bind_inv {A B} (p : prog S A) (k : A → prog S B) Q s :
  wp (bind p k) Q s → wp p (λ a s', wp (k a) Q s') s.
Proof.
  revert s. induction p as [a|X f c IH]; intros s; simpl; [auto|].
  intros H s' HR HI. destruct (H s' HR HI) as (HG & HI' & Hw). auto.
Qed.

Lemma wp_try_bind {A B} (p : prog S (result A)) (k : A → prog S (result B)) Q s :
  wp p (λ r s', match r with Ok a => wp (k a) Q s' | Err e => Q (Err e) s' end) s →
  wp (try_bind p k) Q s.
Proof.
  intros H. apply wp_bind. eapply wp_mono; [|exact H]. intros [a|e] s'; simpl; auto.
Qed.

Lemma wp_query `{!Reflexive G} {X} (f : S → X) Q s :
  (∀ s', R s s' → I s' → Q (f s') s') → wp (query f) Q s.
Proof. intros H s' HR HI. simpl. auto. Qed.

Lemma wp_exec {X} (f : S → X * S) Q s :
  (∀ s', R s s' → I s' → G s' (f s').2 ∧ I (f s').2 ∧ Q (f s').1 (f s').2) →
  wp (exec f) Q s.
Proof. intros H s' HR HI. simpl. auto. Qed.

(** A vector loop keeps [Inv] as long as each body does. *)
Lemma wp_for_each {A B} (Inv : S → Prop) (xs : list A) (acc : B) body s :
  (∀ acc x s, x ∈ xs → Inv s → wp (body acc x) (λ _, Inv) s) →
  Inv s → wp (for_each xs acc body) (λ _, Inv) s.
Proof.
  revert acc s. induction xs as [|x xs IH]; intros acc s Hb HI; simpl; [done|].
  apply wp_try_bind. eapply wp_mono; [|apply Hb; [left|done]].
  intros [b|e] s' H; [|done]. apply IH; [|done]. intros. apply Hb; [by right|done].
Qed.

Lemma wp_for_until {A B} (Inv : S → Prop) (xs : list A) (body : A → prog S (result (option B))) s :
  (∀ x s, x ∈ xs → Inv s → wp (body x) (λ _, Inv) s) →
  Inv s → wp (for_until xs body) (λ _, Inv) s.
Proof.
  revert s. induction xs as [|x xs IH]; intros s Hb HI; simpl; [done|].
  apply wp_try_bind. eapply wp_mono; [|apply Hb; [left|done]].
  intros [[b|]|e] s' H; [done| |done]. apply IH; [|done]. intros. apply Hb; [by right|done].
Qed.

(** More interference is allowed later, once [R] has already happened. *)
Lemma wp_rely `{!Transitive R} {A} (p : prog S A) (Q : A → Prop) s s' :
  R s s' → wp p (λ a _, Q a) s → wp p (λ a _, Q a) s'.
Proof.
  intros HR. destruct p as [a|X f k]; simpl; [auto|].
  intros H s'' HR' HI. apply H; [by transitivity s'|done].
Qed.

(** The run of a program on its own is one of its interleavings. *)
Lemma wp_run `{!Reflexive R} `{!PreOrder G} {A} (p : prog S A) Q s :
  I s → wp p Q s → G s (run p s).2 ∧ I (run p s).2 ∧ Q (run p s).1 (run p s).2.
Proof.
  revert s. induction p as [a|X f k IH]; intros s HI Hw; simpl in *; [done|].
  destruct (Hw s (reflexivity s) HI) as (HG & HI' & Hk).
  destruct (IH _ _ HI' Hk) as (HG2 & HI2 & HQ). split; [|done]. by transitivity (f s).2.
Qed.

(** *** Every schedule of every pool *)

Context {A : Type} (spawnable : prog S A → Prop) (env : S → S → Prop).
Context `{!PreOrder R} `{!PreOrder G} (HGR : ∀ s s', G s s' → R s s').
Context (Henv : ∀ s s', I s → env s s' → R s s' ∧ I s').

(** The pool's threads meet their posts [Q i] from the current store on. *)
Definition pool_ok (Q : nat → A → Prop) (c : list (prog S A) * S) : Prop :=
  I c.2 ∧ ∀ i p, c.1 !! i = Some p → wp p (λ a _, Q i a) c.2.

Lemma step_pool_ok Q c c' :
  (∀ p i s, spawnable p → I s → wp p (λ a _, Q i a) s) →
  pool_ok Q c → step spawnable env c c' → pool_ok Q c' ∧ R c.2 c'.2.
Proof.
  intros Hsp [HI Hts] Hst. destruct Hst as [ts s i X f k Hi|ts s p Hp|ts s s' He]; simpl in *.
  - destruct (Hts _ _ Hi s (reflexivity s) HI) as (HG & HI' & Hk).
    split; [split; [done|]|by apply HGR].
    intros j p. simpl. destruct (decide (i = j)) as [<-|Hne].
    + rewrite list_lookup_insert_eq by (by eapply lookup_lt_Some). by intros [= <-].
    + rewrite list_lookup_insert_ne by done. intros Hj. eapply wp_rely; [by apply HGR|eauto].
  - split; [split; [done|]|reflexivity]. intros j q. simpl.
    intros [Hj|[_ Hj]]%lookup_app_Some; [eauto|].
    apply list_lookup_singleton_Some in Hj as [_ <-]. eauto.
  - destruct (Henv _ _ HI He) as [HR HI']. split; [split; [done|]|done].
    intros j p Hj. eapply wp_rely; eauto.
Qed.

Theorem pool_sound Q c c' :
  (∀ p i s, spawnable p → I s → wp p (λ a _, Q i a) s) →
  pool_ok Q c → rtc (step spawnable env) c c' → pool_ok Q c' ∧ R c.2 c'.2.
Proof.
  intros Hsp Hok Hsteps. induction Hsteps as [c|c c1 c' Hst Hsteps IH]; [done|].
  destruct (step_pool_ok Q c c1 Hsp Hok Hst) as [Hok1 HR].
  destruct (IH Hok1) as [Hok' HR']. split; [done|]. by transitivity c1.2.
Qed.
End RelyGuarantee.

(** ** One section at a time

    Code under a lock: one [prog] of [sections] runs at a time, steps of [out] do not take the lock. *)

Section Locked.
Context {S : Type} (R G : S → S → Prop) (I : S → Prop) `{!PreOrder R}.
Context (sections : prog S unit → Prop) (out : S → S → Prop).

Inductive locked_step : option (prog S unit) * S → option (prog S unit) * S → Prop :=
| locked_enter p s : sections p → locked_step (None, s) (Some p, s)
| locked_access X (f : S → X * S) k s : locked_step (Some (Atom f k), s) (Some (k (f s).1), (f s).2)
| locked_leave s : locked_step (Some (Ret ()), s) (None, s)
| locked_outside h s s' : out s s' → locked_step (h, s) (h, s').

(** The guarantee of a section need not be a rely: nobody else is in one. *)
Lemma locked_sound c c' :
  (∀ p s, sections p → I s → wp R G I p (λ _ _, True) s) → (∀ s s', I s → out s s' → R s s' ∧ I s') →
  I c.2 → match c.1 with Some p => wp R G I p (λ _ _, True) c.2 | None => True end →
  rtc locked_step c c' → I c'.2.
Proof.
  intros Hs Ho HI Hh Hsteps. induction Hsteps as [c|c c1 c' Hst Hsteps IH]; [done|].
  destruct Hst as [p s Hp|X f k s|s|h s s' He]; cbn in *.
  - apply IH; [done|]. by apply Hs.
  - destruct (Hh s (reflexivity s) HI) as (_ & HI' & Hk). by apply IH.
  - by apply IH.
  - destruct (Ho s s' HI He) as [HR HI']. apply IH; [done|]. destruct h as [p|]; [|done].
    eapply wp_rely with (Q := λ _, True); [apply _|exact HR|exact Hh].
Qed.
End Locked.

(** When the guarantee is the rely, a program's accesses are part of the history. *)
Lemma wp_history {S A} (R : S → S → Prop) (I : S → Prop) `{!PreOrder R}
    (p : prog S A) (Q : A → S → Prop) s0 s :
  R s0 s → wp R R I p Q s → wp R R I p (λ a s', Q a s' ∧ R s0 s') s.
Proof.
  revert s. induction p as [a|X f k IH]; intros s H0; simpl; [done|].
  intros H s' HR HI. destruct (H s' HR HI) as (HG & HI' & Hk). split_and!; [done..|].
  apply IH; [|done]. transitivity s; [done|]. by transitivity s'.
Qed.

(** ** Programs that are safe from any store *)

Section Safe.
Context {S : Type} (R : S → S → Prop) (I : S → Prop) `{!PreOrder R}.

Definition safe {A} (p : prog S A) : Prop := ∀ s, wp R R I p (λ _ _, True) s.

Lemma safe_then {A} (p : prog S A) Q s : safe p → (∀ a s, Q a s) → wp R R I p Q s.
Proof. intros Hp HQ. eapply wp_mono; [|apply Hp]. auto. Qed.

Lemma safe_ret {A} (a : A) : safe (Ret a).
Proof. by intros s. Qed.

Lemma safe_bind {A B} (p : prog S A) (k : A → prog S B) :
  safe p → (∀ a, safe (k a)) → safe (bind p k).
Proof. intros Hp Hk s. apply wp_bind. apply safe_then; [done|]. intros a s'. apply Hk. Qed.

Lemma safe_try_bind {A B} (p : prog S (result A)) (k : A → prog S (result B)) :
  safe p → (∀ a, safe (k a)) → safe (try_bind p k).
Proof. intros Hp Hk. apply safe_bind; [done|]. intros [a|e]; [apply Hk|apply safe_ret]. Qed.

Lemma safe_query {X} (f : S → X) : safe (query f).
Proof. intros s. apply wp_query; [apply _|done]. Qed.

Lemma safe_exec {X} (f : S → X * S) : (∀ s, I s → R s (f s).2 ∧ I (f s).2) → safe (exec f).
Proof. intros H s. apply wp_exec. intros s' _ HI. by destruct (H s' HI). Qed.

Lemma safe_for_each {A B} (xs : list A) (acc : B) body :
  (∀ acc x, safe (body acc x)) → safe (for_each xs acc body).
Proof. intros Hb s. apply wp_for_each; [|done]. intros. apply Hb. Qed.

Lemma safe_for_until {A B} (xs : list A) (body : A → prog S (result (option B))) :
  (∀ x, safe (body x)) → safe (for_until xs body).
Proof. intros Hb s. apply wp_for_until; [|done]. intros. apply Hb. Qed.
End Safe.

(** ** Code that runs alone

    Inside a transaction nobody else acts: the rely is equality, and nothing is promised of the
    intermediate stores. *)
Definition alone {S A} (p : prog S A) (Q : A → S → Prop) (s : S) : Prop :=
  wp (=) (λ _ _, True) (λ _, True) p Q s.

Lemma alone_run {S A} (p : prog S A) Q s : alone p Q s ↔ Q (run p s).1 (run p s).2.
Proof.
  unfold alone. revert s. induction p as [a|X f k IH]; intros s; simpl; [done|].
  rewrite <-IH. split.
  - intros H. by apply (H s).
  - intros H s' <- _. done.
Qed.

Lemma alone_exec {S X} (f : S → X * S) (Q : X → S → Prop) s :
  Q (f s).1 (f s).2 → alone (exec f) Q s.
Proof. intros H s' <- _. done. Qed.

Lemma alone_query {S X} (f : S → X) (Q : X → S → Prop) s : Q (f s) s → alone (query f) Q s.
Proof. intros H s' <- _. done. Qed.

(** A loop with early return, its invariant stated of the elements still to visit. *)
Lemma alone_for_until {S A B} (Inv : list A → S → Prop) (Q : result (option B) → S → Prop)
    (body : A → prog S (result (option B))) xs s :
  (∀ x xs s, Inv (x :: xs) s →
     alone (body x) (λ r s', match r with Ok None => Inv xs s' | _ => Q r s' end) s) →
  (∀ s, Inv [] s → Q (Ok None) s) →
  Inv xs s → alone (for_until xs body) Q s.
Proof.
  intros Hb Hn. revert s. induction xs as [|x xs IH]; intros s HI; simpl; [by apply Hn|].
  apply wp_try_bind. eapply wp_mono; [|by apply (Hb x xs)].
  intros [[b|]|e] s'; simpl; [done|apply IH|done].
Qed.

Lemma alone_for_each {S A B} (Inv : B → list A → S → Prop) (Q : result B → S → Prop)
    (body : B → A → prog S (result B)) xs acc s :
  (∀ acc x xs s, Inv acc (x :: xs) s →
     alone (body acc x) (λ r s', match r with Ok acc => Inv acc xs s' | Err _ => Q r s' end) s) →
  (∀ acc s, Inv acc [] s → Q (Ok acc) s) →
  Inv acc xs s → alone (for_each xs acc body) Q s.
Proof.
  intros Hb Hn. revert acc s. induction xs as [|x xs IH]; intros acc s HI; simpl; [by apply Hn|].
  apply wp_try_bind. eapply wp_mono; [|by apply (Hb acc x xs)].
  intros [b|e] s'; simpl; [apply IH|done].
Qed.

Lemma wp_txn {S A} (R G : S → S → Prop) (I : S → Prop) `{!Reflexive G}
    (p : prog S (result A)) (Q : result A → S → Prop) s :
  (∀ s', R s s' → I s' →
     alone p (λ r s'', match r with
                       | Ok _ => G s' s'' ∧ I s'' ∧ Q r s''
                       | Err e => Q r s'
                       end) s') →
  wp R G I (txn p) Q s.
Proof.
  intros H. apply wp_exec. intros s' HR HI. specialize (H s' HR HI). rewrite alone_run in H.
  destruct (run p s') as [[a|e] s'']; simpl in *; [done|]. split_and!; [reflexivity|done|done].
Qed.

Lemma safe_txn {S A} (R : S → S → Prop) (I : S → Prop) `{!PreOrder R} (p : prog S (result A)) :
  (∀ s, I s → alone p (λ r s', match r with Ok _ => R s s' ∧ I s' | Err _ => True end) s) →
  safe R I (txn p).
Proof.
  intros H s. apply wp_txn; [apply _|]. intros s' _ Hwf. eapply wp_mono; [|by apply H].
  by intros [a|e] s''; [intros []|].
Qed.

(** The run of a compound program. *)
Lemma run_bind {S A B} (p : prog S A) (k : A → prog S B) s :
  run (bind p k) s = run (k (run p s).1) (run p s).2.
Proof. revert s. induction p as [a|X f c IH]; intros s; simpl; auto. Qed.

Lemma run_try_bind {S A B} (p : prog S (result A)) (k : A → prog S (result B)) s :
  run (try_bind p k) s =
  match run p s with (Ok a, s') => run (k a) s' | (Err e, s') => (Err e, s') end.
Proof. unfold try_bind. rewrite run_bind. by destruct (run p s) as [[a|e] s']. Qed.

Lemma run_txn {S A} (p : prog S (result A)) s :
  run (txn p) s = match run p s with (Ok a, s') => (Ok a, s') | (Err e, _) => (Err e, s) end.
Proof. simpl. by destruct (run p s) as [[a|e] s']. Qed.

(** What is safe access by access is safe as one access. *)
Lemma safe_txn_of {S A} (R : S → S → Prop) (I : S → Prop) `{!PreOrder R}
    (p : prog S (result A)) : safe R I p → safe R I (txn p).
Proof.
  intros Hp. apply safe_txn; [apply _|]. intros s HI. apply alone_run.
  destruct (wp_run R R I p (λ _ _, True) s HI (Hp s)) as (HG & HI' & _).
  by destruct (run p s) as [[a|e] s'].
Qed.

Create HintDb safe.
#[export] Hint Resolve safe_ret safe_bind safe_try_bind safe_query safe_for_each safe_for_until
  : safe.

(** One step of a structural [safe] proof. *)
Ltac safe_step :=
  match goal with
  | |- safe _ _ (Ret _) => apply safe_ret
  | |- safe _ _ (bind _ _) => apply safe_bind; [|intros ?]
  | |- safe _ _ (try_bind _ _) => apply safe_try_bind; [|intros ?]
  | |- safe _ _ (match ?x with _ => _ end) => destruct x eqn:?
  | |- safe _ _ (query _) => apply safe_query, _
  | |- safe _ _ (for_each _ _ _) => apply safe_for_each; intros ? ?
  | |- safe _ _ (for_until _ _) => apply safe_for_until; intros ?
  | |- safe _ _ _ => solve [auto with safe]
  end.
