(* ===== verification/Worker.v ===== *)
(** * A worker process around the store

    The daemon's workers ([bookclerkd/src/job_worker.rs], [event_worker.rs]) call the store over a
    link that can fail, share cancellation flags between a handler and its heartbeat task, and read a
    monotonic clock.  [WorkerState] is the store with those; [call] is one library call:
    it may be lost before or after it took effect.  A handler and its heartbeat task are threads of
    one pool over this state; every other process acts on the store in between. *)

From stdpp Require Import base option list strings relations.
From Stdlib Require Import ZArith Lia.
From S2P Require Import Prelude Schema Store Concurrency.

Local Open Scope Z_scope.

(** What happens to a library call on its way. *)
Inductive fault : Type :=
| RequestLost (e : LibraryError)
| ReplyLost (e : LibraryError).

Record WorkerState : Type := mk_WorkerState {
  db : Db;
  flags : list bool;
  monotonic : Z;
  link : list (option fault);
}.

Definition worker_eta (w : WorkerState) : WorkerState :=
  mk_WorkerState (db w) (flags w) (monotonic w) (link w).

#[global] Instance set_db : Setter db := ltac:(set_column worker_eta db).
#[global] Instance set_flags : Setter flags := ltac:(set_column worker_eta flags).
#[global] Instance set_monotonic : Setter monotonic := ltac:(set_column worker_eta monotonic).
#[global] Instance set_link : Setter link := ltac:(set_column worker_eta link).

(** A store program as part of a worker. *)
Fixpoint lift {A} (p : prog Db A) : prog WorkerState A :=
  match p with
  | Ret a => Ret a
  | Atom f k => Atom (λ w, ((f (db w)).1, w <| db := (f (db w)).2 |>)) (λ x, lift (k x))
  end.

Definition next_fault : prog WorkerState (option fault) :=
  exec (λ w, (default None (head (link w)), w <| link := tail (link w) |>)).

(** One library call. *)
Definition call {A} (p : prog Db (result A)) : prog WorkerState (result A) :=
  let* f := next_fault in
  match f with
  | None => lift p
  | Some (RequestLost e) => Ret (Err e)
  | Some (ReplyLost e) => let* _ := lift p in Ret (Err e)
  end.

(** [Instant::now] and [tokio::time::sleep]. *)
Definition Instant_now : prog WorkerState Z := query monotonic.
Definition sleep (d : Z) : prog WorkerState unit :=
  exec (λ w, ((), w <| monotonic := monotonic w + d |>)).

(** [Arc<AtomicBool>]: a handle on a flag of the process; its clones share the handle. *)
Definition AtomicBool : Type := nat.
Definition is_set (c : AtomicBool) (w : WorkerState) : bool := default false (flags w !! c).
Definition AtomicBool_new : prog WorkerState AtomicBool :=
  exec (λ w, (length (flags w), w <| flags := flags w ++ [false] |>)).
Definition store_true (c : AtomicBool) : prog WorkerState unit :=
  exec (λ w, ((), w <| flags := <[c := true]> (flags w) |>)).
Definition load (c : AtomicBool) : prog WorkerState bool := query (is_set c).

(** A worker alone, its link up. *)
Lemma run_lift {A} (p : prog Db A) w :
  run (lift p) w = ((run p (db w)).1, w <| db := (run p (db w)).2 |>).
Proof.
  revert w. induction p as [a|X f k IH]; intros w; cbn [lift run]; [by destruct w|].
  rewrite IH. by destruct w.
Qed.

Lemma run_call {A} (p : prog Db (result A)) w :
  link w = [] → run (call p) w = ((run p (db w)).1, w <| db := (run p (db w)).2 |>).
Proof.
  intros Hl. unfold call. rewrite run_bind. cbn [run next_fault exec fst snd]. rewrite Hl. cbn [head tail].
  change (default None None) with (@None fault). cbv iota. rewrite run_lift. destruct w. cbn in Hl. by subst.
Qed.

(** ** Heartbeats *)

Inductive HeartbeatTick : Type :=
| Renewed
| FenceLost
| Transient (e : LibraryError).

Definition classify_heartbeat (r : result bool) : HeartbeatTick :=
  match r with
  | Ok true => Renewed
  | Ok false => FenceLost
  | Err err => Transient err
  end.

Inductive HeartbeatDecision : Type :=
| Continue (confirmed_until : Z)
| StopFenceLost.

Definition apply_heartbeat_tick (tick : HeartbeatTick) (now confirmed_until lease : Z)
    : HeartbeatDecision :=
  match tick with
  | Renewed => Continue (now + lease)
  | FenceLost => StopFenceLost
  | Transient _ => if confirmed_until <=? now then StopFenceLost else Continue confirmed_until
  end.

(** The ticks of a heartbeat loop at their instants; [None] once it has stopped. *)
Fixpoint heartbeat_trace (lease confirmed_until : Z) (ticks : list (HeartbeatTick * Z)) : option Z :=
  match ticks with
  | [] => Some confirmed_until
  | (tick, now) :: ticks =>
      match apply_heartbeat_tick tick now confirmed_until lease with
      | Continue confirmed_until => heartbeat_trace lease confirmed_until ticks
      | StopFenceLost => None
      end
  end.

(** The instant of the last confirmation in a prefix of the ticks, [start] being the claim. *)
Fixpoint last_confirmed (start : Z) (ticks : list (HeartbeatTick * Z)) : Z :=
  match ticks with
  | [] => start
  | (Renewed, now) :: ticks => last_confirmed now ticks
  | _ :: ticks => last_confirmed start ticks
  end.

Lemma heartbeat_trace_last lease start ticks deadline :
  heartbeat_trace lease (start + lease) ticks = Some deadline → deadline = last_confirmed start ticks + lease.
Proof.
  revert start. induction ticks as [|[tick now] ticks IH]; intros start; cbn [heartbeat_trace last_confirmed].
  { by intros [= <-]. }
  destruct tick; cbn [apply_heartbeat_tick]; [apply IH|done|].
  destruct (_ <=? _); [done|apply IH].
Qed.

Lemma heartbeat_trace_app lease deadline a b :
  heartbeat_trace lease deadline (a ++ b) =
  match heartbeat_trace lease deadline a with Some u => heartbeat_trace lease u b | None => None end.
Proof.
  revert deadline. induction a as [|[tick now] a IH]; intros deadline; cbn [app heartbeat_trace]; [done|].
  destruct (apply_heartbeat_tick _ _ _ _); [apply IH|done].
Qed.

(** The heartbeat loop goes on only under a lease it knows of: at every tick it survives, the last
    confirmation (the claim, or a successful heartbeat) is less than a lease old or is that tick
    itself, and no tick ever said the fence was lost. *)
Theorem unconfirmed_heartbeat_stops lease start before tick now after deadline :
  heartbeat_trace lease (start + lease) (before ++ (tick, now) :: after) = Some deadline →
  tick ≠ FenceLost ∧ (tick = Renewed ∨ now < last_confirmed start before + lease).
Proof.
  rewrite heartbeat_trace_app. destruct (heartbeat_trace lease _ before) as [u|] eqn:Eb; [|done].
  apply heartbeat_trace_last in Eb as ->. cbn [heartbeat_trace].
  destruct tick; cbn [apply_heartbeat_tick]; [by auto|done|].
  destruct (_ <=? _) eqn:El; [done|]. intros _. apply Z.leb_gt in El. by auto.
Qed.

(** ** Interference *)

(** A local step keeps the store, the flags that are up, and the time. *)
Ltac wkept := split_and!; simpl; first [reflexivity|lia|by intros ? ?].

Section Interference.
Context (R : Db → Db → Prop) (I : Db → Prop) `{!PreOrder R}.

(** A flag that is up stays up. *)
Definition flags_rise (w w' : WorkerState) : Prop := ∀ c, is_set c w = true → is_set c w' = true.

#[global] Instance flags_rise_preorder : PreOrder flags_rise.
Proof. split; [by intros w c|]. intros a b d H1 H2 c Hc. by apply H2, H1. Qed.

(** The store evolves, the flags rise, the clock goes forward. *)
Definition wrely (w w' : WorkerState) : Prop :=
  R (db w) (db w') ∧ flags_rise w w' ∧ monotonic w ≤ monotonic w'.

Definition winv (w : WorkerState) : Prop := I (db w).

#[global] Instance wrely_preorder : PreOrder wrely.
Proof.
  split.
  - intros w. split_and!; reflexivity.
  - intros a b c (H1 & H2 & H3) (H1' & H2' & H3'). split_and!; [by etrans|by etrans|lia].
Qed.

(** A step of the worker that leaves the store alone. *)
Definition wkeep (w w' : WorkerState) : Prop :=
  db w' = db w ∧ flags_rise w w' ∧ monotonic w ≤ monotonic w'.

#[global] Instance wkeep_preorder : PreOrder wkeep.
Proof.
  split.
  - intros w. split_and!; reflexivity.
  - intros a b c (H1 & H2 & H3) (H1' & H2' & H3'). split_and!; [congruence|by etrans|lia].
Qed.

(** A store program keeps in a worker what it keeps alone, the rest of the state aside. *)
Lemma wp_lift {A} (G : Db → Db → Prop) (p : prog Db A) (Q : A → Db → Prop) w :
  wp R G I p Q (db w) →
  wp wrely (λ w w', G (db w) (db w') ∧ flags w' = flags w ∧ monotonic w' = monotonic w) winv
    (lift p) (λ a w', Q a (db w')) w.
Proof.
  revert w. induction p as [a|X f k IH]; intros w; simpl; [done|].
  intros H w' (HR & _) HI. destruct (H (db w') HR HI) as (HG & HI' & Hk).
  split_and!; [done..|]. apply (IH _ (w' <| db := (f (db w')).2 |>)). exact Hk.
Qed.

Lemma wp_guarantee {S A} (Rl G G' : S → S → Prop) (J : S → Prop) (p : prog S A) Q s :
  (∀ s s', G s s' → G' s s') → wp Rl G J p Q s → wp Rl G' J p Q s.
Proof.
  intros HG. revert s. induction p as [a|X f k IH]; intros s; simpl; [done|].
  intros H s' HR HI. destruct (H s' HR HI) as (H1 & H2 & H3). eauto.
Qed.

Lemma safe_lift {A} (p : prog Db A) : safe R I p → safe wrely winv (lift p).
Proof.
  intros Hp w. pose proof (wp_lift R p (λ _ _, True) w (Hp (db w))) as H.
  eapply wp_guarantee; [|exact H]. intros a b (HR & Hc & Hm). split_and!; [done|by intros c; unfold is_set; rewrite Hc|lia].
Qed.

Lemma safe_local {X} (f : WorkerState → X * WorkerState) :
  (∀ w, wkeep w (f w).2) → safe wrely winv (exec f).
Proof.
  intros Hf. apply safe_exec. intros w HI. destruct (Hf w) as (Hdb & Hc & Hm).
  unfold wrely, winv. rewrite Hdb. by split.
Qed.

Lemma safe_next_fault : safe wrely winv next_fault.
Proof. apply safe_local. intros w. wkept. Qed.

Lemma safe_library_call {A} (p : prog Db (result A)) : safe R I p → safe wrely winv (call p).
Proof.
  intros Hp. unfold call. apply safe_bind; [apply safe_next_fault|].
  intros [[e|e]|]; [apply safe_ret| |by apply safe_lift].
  apply safe_bind; [by apply safe_lift|]. intros _. apply safe_ret.
Qed.

Lemma safe_AtomicBool_new : safe wrely winv AtomicBool_new.
Proof.
  apply safe_local. intros w. split_and!; simpl; [done| |done].
  intros c. unfold is_set. simpl. destruct (flags w !! c) as [b|] eqn:E; [|done].
  by rewrite (lookup_app_l_Some _ _ _ _ E).
Qed.

Lemma safe_store_true c : safe wrely winv (store_true c).
Proof.
  apply safe_local. intros w. split_and!; simpl; [done| |done].
  intros c'. unfold is_set. simpl. destruct (decide (c = c')) as [->|Hne].
  - destruct (flags w !! c') eqn:E; [|done]. by rewrite list_lookup_insert_eq by by eapply lookup_lt_Some.
  - by rewrite list_lookup_insert_ne.
Qed.

Lemma safe_load c : safe wrely winv (load c).
Proof. apply safe_query, _. Qed.

Lemma safe_sleep d : 0 ≤ d → safe wrely winv (sleep d).
Proof. intros Hd. apply safe_local. intros w. wkept. Qed.

(** A call whose store program writes nothing. *)
Lemma call_writes_nothing {A} (p : prog Db (result A)) (P : result A → Prop) w :
  (∀ w', wrely w w' → wp R (=) I p (λ a _, P a) (db w')) → (∀ e, P (Err e)) →
  wp wrely wkeep winv (call p) (λ a w', P a ∧ wrely w w') w.
Proof.
  intros Hp He. unfold call. apply wp_bind, wp_exec. intros w1 H1 HI. cbn [fst snd].
  set (w2 := w1 <| link := tail (link w1) |>).
  assert (H2 : wrely w w2) by exact H1. split_and!; [wkept|done|].
  assert (Hl : ∀ (Q : result A → WorkerState → Prop), (∀ a w', P a → wrely w w' → Q a w') →
    wp wrely wkeep winv (lift p) Q w2).
  { intros Q HQ. assert (Hw : ∀ w', wrely w w' → wp R (=) I p (λ a _, P a) (db w') →
      wp wrely wkeep winv (lift p) Q w').
    - clear - HQ PreOrder0. intros w'. revert w'. induction p as [a|X f k IH]; intros w' Hw; simpl; [by auto|].
      intros H w3 H3 HI. destruct H3 as (HR & Hc & Hm).
      destruct (H (db w3) HR HI) as (HG & HI' & Hk).
      assert (Hk3 : wrely w w3) by (etrans; [exact Hw|]; by split).
      split_and!; [split_and!; [by rewrite <-HG|by intros ? ?|done]|done|].
      apply IH; [|exact Hk]. etrans; [exact Hk3|]. split_and!; simpl; [by rewrite <-HG|by intros ? ?|done].
    - apply Hw; [done|]. by apply Hp. }
  destruct (default None (head (link w1))) as [[e|e]|].
  - by split.
  - apply wp_bind, Hl. intros a w' _ Hw'. by split.
  - apply Hl. by intros a w' ? ?.
Qed.
End Interference.
