(* ===== verification/JobModels.v ===== *)
(** * Job data model: [crates/bookclerk-library/src/models.rs]

    The enums of the job queue with their wire strings, the JSON command envelope, the claim
    fence, the admission request and the retry backoff. *)

From stdpp Require Import base option list strings countable pretty.
From Stdlib Require Import ZArith Lia.
From S2P Require Import Prelude.

Local Open Scope Z_scope.

Inductive JobKind : Type :=
| Scan | Acquire | ListenSync | IntegrationScan | PluginCopy | Invalid.

#[global] Instance JobKind_eq_dec : EqDecision JobKind.
Proof. solve_decision. Defined.

Module JobKind.
Definition as_str (k : JobKind) : string :=
  match k with
  | Scan => "scan"
  | Acquire => "acquire"
  | ListenSync => "listen_sync"
  | IntegrationScan => "integration_scan"
  | PluginCopy => "plugin_copy"
  | Invalid => "invalid"
  end.

Definition parse (s : string) : option JobKind :=
  if text_eq s "scan" then Some Scan
  else if text_eq s "acquire" then Some Acquire
  else if text_eq s "listen_sync" then Some ListenSync
  else if text_eq s "integration_scan" then Some IntegrationScan
  else if text_eq s "plugin_copy" then Some PluginCopy
  else if text_eq s "invalid" then Some Invalid
  else None.
End JobKind.

Inductive JobState : Type := Pending | Running | Succeeded | Failed | Cancelled.

#[global] Instance JobState_eq_dec : EqDecision JobState.
Proof. solve_decision. Defined.

Module JobState.
Definition as_str (s : JobState) : string :=
  match s with
  | Pending => "pending"
  | Running => "running"
  | Succeeded => "succeeded"
  | Failed => "failed"
  | Cancelled => "cancelled"
  end.

Definition parse (s : string) : option JobState :=
  if text_eq s "pending" then Some Pending
  else if text_eq s "running" then Some Running
  else if text_eq s "succeeded" then Some Succeeded
  else if text_eq s "failed" then Some Failed
  else if text_eq s "cancelled" then Some Cancelled
  else None.

Definition is_active (s : JobState) : bool :=
  match s with Pending | Running => true | _ => false end.

Definition is_terminal (s : JobState) : bool :=
  match s with Succeeded | Failed | Cancelled => true | _ => false end.
End JobState.

Inductive JobResourceClass : Type := Network | Media | Transcription | Indexing.

Module JobResourceClass.
Definition as_str (c : JobResourceClass) : string :=
  match c with
  | Network => "network"
  | Media => "media"
  | Transcription => "transcription"
  | Indexing => "indexing"
  end.

Definition parse (s : string) : option JobResourceClass :=
  if text_eq s "network" then Some Network
  else if text_eq s "media" then Some Media
  else if text_eq s "transcription" then Some Transcription
  else if text_eq s "indexing" then Some Indexing
  else None.

Definition ALL : list string := ["network"; "media"; "transcription"; "indexing"].
End JobResourceClass.

Inductive JobTrigger : Type := Api | Scheduler.

Module JobTrigger.
Definition as_str (t : JobTrigger) : string :=
  match t with Api => "api" | Scheduler => "scheduler" end.

Definition parse (s : string) : option JobTrigger :=
  if text_eq s "api" then Some Api
  else if text_eq s "scheduler" then Some Scheduler
  else None.
End JobTrigger.

(** [bookclerk_plugin_abi::JobCheckpoint] and its size bound. *)
Record JobCheckpoint : Type := mk_JobCheckpoint {
  schema_version : Z;
  json : string;
}.
Definition MAX_CHECKPOINT_BYTES : Z := 65536.

Definition JOB_PAYLOAD_VERSION : Z := 1.

(** The JSON command envelope stored in [jobs.payload]. *)
Record JobPayload : Type := mk_JobPayload {
  v : Z;
  account : option string;
  title : option string;
  trigger : JobTrigger;
  integration_id : option string;
  force : bool;
  plugin_id : option string;
  source_key : option string;
  dest_key : option string;
  checkpoint : option JobCheckpoint;
  invocation_sequence : option Z;
  resume_pending : bool;
}.

Definition payload_eta (r : JobPayload) : JobPayload :=
  mk_JobPayload (v r) (account r) (title r) (trigger r) (integration_id r) (force r)
    (plugin_id r) (source_key r) (dest_key r) (checkpoint r) (invocation_sequence r)
    (resume_pending r).

#[global] Instance set_checkpoint : Setter checkpoint := ltac:(set_column payload_eta checkpoint).
#[global] Instance set_invocation_sequence : Setter invocation_sequence := ltac:(set_column payload_eta invocation_sequence).
#[global] Instance set_resume_pending : Setter resume_pending := ltac:(set_column payload_eta resume_pending).
#[global] Instance set_account : Setter account := ltac:(set_column payload_eta account).
#[global] Instance set_title : Setter title := ltac:(set_column payload_eta title).

(** [JobPayload::default]. *)
Definition JobPayload_default : JobPayload :=
  mk_JobPayload JOB_PAYLOAD_VERSION None None Api None false None None None None None false.

(** [JobKind::resource_class] and [JobKind::dedup_key]. *)
Definition resource_class (k : JobKind) : JobResourceClass := Network.

Definition dedup_key (k : JobKind) (p : JobPayload) : string :=
  let acct := default "all" (account p) in
  match k with
  | Scan => "scan:account=" +:+ acct
  | Acquire =>
      let title := default "all" (title p) in
      "acquire:title=" +:+ title +:+ ":account=" +:+ acct
  | ListenSync => "listen_sync"
  | IntegrationScan =>
      let id := default "all" (integration_id p) in
      "integration_scan:id=" +:+ id +:+ ":force=" +:+ (if force p then "1" else "0")
  | PluginCopy =>
      let plugin := default "local" (plugin_id p) in
      let from := default "-" (source_key p) in
      let to := default "-" (dest_key p) in
      "plugin_copy:plugin=" +:+ plugin +:+ ":from=" +:+ from +:+ ":to=" +:+ to
  | Invalid => "invalid"
  end.

Record EnqueueJobSpec : Type := mk_EnqueueJobSpec {
  spec_kind : JobKind;
  spec_payload : JobPayload;
  spec_priority : Z;
  spec_max_attempts : Z;
  spec_max_pending : Z;
  spec_run_after : option Z;
}.

Inductive EnqueueOutcome : Type :=
| Created (id : string)
| Duplicate (existing_id : string)
| QueueFull.

Record JobFence : Type := mk_JobFence {
  job_id : string;
  owner : string;
  generation : Z;
}.

(** [JobRecord]: the decoded row handed to the API and the worker. *)
Record JobRecord : Type := mk_JobRecord {
  rec_id : string;
  rec_kind : JobKind;
  rec_state : JobState;
  rec_priority : Z;
  rec_resource_class : JobResourceClass;
  rec_payload : JobPayload;
  rec_progress : option string;
  rec_attempt_count : Z;
  rec_max_attempts : Z;
  rec_run_after : Z;
  rec_lease_owner : option string;
  rec_lease_expires_at : option Z;
  rec_dedup_key : string;
  rec_error_kind : option string;
  rec_error_message : option string;
  rec_cancel_requested : bool;
  rec_created_at : Z;
  rec_updated_at : Z;
  rec_started_at : option Z;
  rec_finished_at : option Z;
  rec_lease_generation : Z;
}.

(** [JobRecord::fence]. *)
Definition fence (r : JobRecord) : option JobFence :=
  match rec_lease_owner r with
  | Some o => Some (mk_JobFence (rec_id r) o (rec_lease_generation r))
  | None => None
  end.

(** [JobTempPath]. *)
Record JobTempPath : Type := mk_JobTempPath {
  tp_id : Z;
  tp_job_id : string;
  tp_path : string;
  tp_created_at : Z;
  tp_reserved_bytes : Z;
}.

(** [job_backoff_run_after]; [attempt_count] is an [i64], [saturating_sub] at [i64::MIN]. *)
Definition i64_saturating_sub1 (n : Z) : Z := Z.max (n - 1) (- i64_MAX - 1).
Definition backoff_exp (attempt_count : Z) : Z :=
  Z.min (Z.max (i64_saturating_sub1 attempt_count) 0) 8.
Definition u64_saturating_mul (a b : Z) : Z := Z.min (a * b) u64_MAX.
Definition u64_saturating_pow2 (e : Z) : Z := Z.min (2 ^ e) u64_MAX.
Definition backoff_secs (attempt_count : Z) : Z :=
  Z.min (u64_saturating_mul 5 (u64_saturating_pow2 (backoff_exp attempt_count))) (15 * 60).
Definition job_backoff_run_after (attempt_count : Z) (now : Z) : Z :=
  now + seconds (default i64_MAX (i64_try_from (backoff_secs attempt_count))).
