(* ===== verification/JobQueue.v ===== *)
(** * The durable job queue: [crates/bookclerk-library/src/store/job_queue.rs]

    One definition per operation of [LibraryStore] on [jobs] and [job_temp_paths], on the local
    transaction path ([self.atomic = None]); [JobPlans] models the SQL plans of the other path.
    A [.map_err(LibraryError::Orm)?] that fires is a thread that stops ([Concurrency]). *)

From stdpp Require Import base option list strings pretty gmap.
From Stdlib Require Import ZArith.
From S2P Require Import Prelude Schema Store JobModels.

Local Open Scope Z_scope.

Section JobQueue.
Context {C : Chrono} {U : Uuid} {J : SerdeJson JobPayload}.

(** [lock_job_queue]. *)
Definition lock_job_queue : prog Db (result unit) := lock_serialization_slot JOB_QUEUE_SLOT.

(** [try_map_job]: decode a row, failing closed on unknown commands ([inl reason]). *)
Definition try_map_job (now : Z) (m : jobs.Model) : string + JobRecord :=
  match JobKind.parse (jobs.kind m) with
  | None => inl ("unknown job kind `" +:+ jobs.kind m +:+ "`")
  | Some kind =>
  match JobState.parse (jobs.state m) with
  | None => inl ("unknown job state `" +:+ jobs.state m +:+ "`")
  | Some state =>
  match JobResourceClass.parse (jobs.resource_class m) with
  | None => inl ("unknown job resource class `" +:+ jobs.resource_class m +:+ "`")
  | Some cls =>
  match from_str (jobs.payload m) with
  | None => inl ("malformed job payload JSON: " +:+ from_str_error (jobs.payload m))
  | Some payload =>
  if negb (v payload =? JOB_PAYLOAD_VERSION)
  then inl ("unsupported job payload version " +:+ pretty (v payload)
            +:+ " (expected " +:+ pretty JOB_PAYLOAD_VERSION +:+ ")")
  else
  match JobTrigger.parse (JobTrigger.as_str (trigger payload)) with
  | None => inl ("unknown job trigger `" +:+ JobTrigger.as_str (trigger payload) +:+ "`")
  | Some _ =>
      inr {| rec_id := jobs.id m;
             rec_kind := kind;
             rec_state := state;
             rec_priority := jobs.priority m;
             rec_resource_class := cls;
             rec_payload := payload;
             rec_progress := jobs.progress m;
             rec_attempt_count := jobs.attempt_count m;
             rec_max_attempts := jobs.max_attempts m;
             rec_run_after := parse_dt now (jobs.run_after m);
             rec_lease_owner := jobs.lease_owner m;
             rec_lease_expires_at := parse_dt_opt now (jobs.lease_expires_at m);
             rec_dedup_key := jobs.dedup_key m;
             rec_error_kind := jobs.error_kind m;
             rec_error_message := jobs.error_message m;
             rec_cancel_requested := negb (jobs.cancel_requested m =? 0);
             rec_created_at := parse_dt now (jobs.created_at m);
             rec_updated_at := parse_dt now (jobs.updated_at m);
             rec_started_at := parse_dt_opt now (jobs.started_at m);
             rec_finished_at := parse_dt_opt now (jobs.finished_at m);
             rec_lease_generation := jobs.lease_generation m |}
  end end end end end.

(** The bytes of [{"v":1}]. *)
Definition dquote : string := String (byte 34) "".
Definition bare_envelope : string :=
  "{" +:+ dquote +:+ "v" +:+ dquote +:+ ":" +:+ pretty JOB_PAYLOAD_VERSION +:+ "}".

(** [invalid_job_payload_json]. *)
Definition invalid_job_payload_json : string :=
  default bare_envelope (to_string JobPayload_default).

(** [find_active_job_by_dedup_on]: the oldest active row with [key]. *)
Definition find_active_job_by_dedup_on (key : string) : prog Db (result (option JobRecord)) :=
  let* rows := jobs_select (λ m, text_eq (jobs.dedup_key m) key && job_is_active m) in
  let* now := Utc_now in
  match order_by (λ a b, text_le (jobs.created_at a) (jobs.created_at b)) rows with
  | [] => Ret (Ok None)
  | model :: _ =>
      match try_map_job now model with
      | inl reason => Ret (Err (Other ("unreadable active job: " +:+ reason)))
      | inr job => Ret (Ok (Some job))
      end
  end.

(** [count_active_jobs_on]. *)
Definition count_active_jobs_on : prog Db (result Z) :=
  let* n := query (λ s, Z.of_nat (length (List.filter job_is_active (jobs_t s)))) in
  Ret (Ok (default i64_MAX (i64_try_from n))).

(** The row [enqueue_job_on] inserts. *)
Definition new_job_row (spec : EnqueueJobSpec) (id payload key now_s run_after : string)
    : jobs.Model :=
  {| jobs.id := id;
     jobs.kind := JobKind.as_str (spec_kind spec);
     jobs.state := JobState.as_str Pending;
     jobs.priority := spec_priority spec;
     jobs.resource_class := JobResourceClass.as_str (resource_class (spec_kind spec));
     jobs.payload := payload;
     jobs.progress := None;
     jobs.attempt_count := 0;
     jobs.max_attempts := Z.max (spec_max_attempts spec) 1;
     jobs.run_after := run_after;
     jobs.lease_owner := None;
     jobs.lease_expires_at := None;
     jobs.dedup_key := key;
     jobs.error_kind := None;
     jobs.error_message := None;
     jobs.cancel_requested := 0;
     jobs.created_at := now_s;
     jobs.updated_at := now_s;
     jobs.started_at := None;
     jobs.finished_at := None;
     jobs.lease_generation := 0 |}.

Definition enqueue_job_on (spec : EnqueueJobSpec) : prog Db (result EnqueueOutcome) :=
  let? _ := lock_job_queue in
  if decide (spec_kind spec = Invalid)
  then Ret (Err (Other "cannot enqueue an invalid job kind"))
  else
  if negb (v (spec_payload spec) =? JOB_PAYLOAD_VERSION)
  then Ret (Err (Other ("unsupported job payload version " +:+ pretty (v (spec_payload spec)))))
  else
  let key := dedup_key (spec_kind spec) (spec_payload spec) in
  let? existing := find_active_job_by_dedup_on key in
  match existing with
  | Some existing => Ret (Ok (Duplicate (rec_id existing)))
  | None =>
  let? active := count_active_jobs_on in
  if Z.max (spec_max_pending spec) 0 <=? active then Ret (Ok QueueFull) else
  let* now := Utc_now in
  let run_after := default now (spec_run_after spec) in
  let* uuid := draw_uuid in
  let id := JobKind.as_str (spec_kind spec) +:+ "-" +:+ uuid in
  let payload := default bare_envelope (to_string (spec_payload spec)) in
  let* r := jobs_insert
              (new_job_row spec id payload key (to_rfc3339 now) (to_rfc3339 run_after)) in
  match r with
  | Ok _ => Ret (Ok (Created id))
  | Err (Orm UniqueViolation) =>
      let? existing := find_active_job_by_dedup_on key in
      match existing with
      | Some existing => Ret (Ok (Duplicate (rec_id existing)))
      | None => Ret (Err (Orm UniqueViolation))
      end
  | Err e => Ret (Err e)
  end
  end.

Definition enqueue_job (spec : EnqueueJobSpec) : prog Db (result EnqueueOutcome) :=
  txn (enqueue_job_on spec).

(** ** Claim *)

(** Columns written by [mark_pending_job_invalid_on]. *)
Definition invalid_pending_row (reason now_s : string) (m : jobs.Model) : jobs.Model :=
  m <| jobs.kind := JobKind.as_str Invalid |>
    <| jobs.resource_class := JobResourceClass.as_str Network |>
    <| jobs.payload := invalid_job_payload_json |>
    <| jobs.state := JobState.as_str Failed |>
    <| jobs.error_kind := Some "invalid_job" |>
    <| jobs.error_message := Some reason |>
    <| jobs.finished_at := Some now_s |>
    <| jobs.updated_at := now_s |>.

Definition mark_pending_job_invalid_on (id reason now_s : string) : prog Db (result unit) :=
  let* _ := jobs_update
    (λ m, text_eq (jobs.id m) id && text_eq (jobs.state m) (JobState.as_str Pending))
    (invalid_pending_row reason now_s) in
  Ret (Ok ()).

Definition sanitize_unreadable_pending_on (now_s : string) : prog Db (result unit) :=
  let* rows := jobs_select
    (λ m, text_eq (jobs.state m) (JobState.as_str Pending)
          && negb (is_in (jobs.resource_class m) JobResourceClass.ALL)) in
  for_each (take 32 rows) ()
    (λ _ model, mark_pending_job_invalid_on (jobs.id model)
       ("unknown job resource class `" +:+ jobs.resource_class model +:+ "`") now_s).

(** [ORDER BY priority DESC, created_at ASC]. *)
Definition claim_order (a b : jobs.Model) : bool :=
  (jobs.priority b <? jobs.priority a)
  || ((jobs.priority a =? jobs.priority b) && text_le (jobs.created_at a) (jobs.created_at b)).

(** [pending] rows of the class whose [run_after] is due. *)
Definition claim_candidate (cls : JobResourceClass) (now_s : string) (m : jobs.Model) : bool :=
  text_eq (jobs.resource_class m) (JobResourceClass.as_str cls)
  && text_eq (jobs.state m) (JobState.as_str Pending)
  && text_le (jobs.run_after m) now_s.

(** Columns written when a pending row is claimed. *)
Definition claimed_row (owner lease_expires now_s : string) (attempt generation : Z)
    (started : string) (payload_json : option string) (m : jobs.Model) : jobs.Model :=
  let m := m <| jobs.state := JobState.as_str Running |>
             <| jobs.attempt_count := attempt |>
             <| jobs.lease_owner := Some owner |>
             <| jobs.lease_expires_at := Some lease_expires |>
             <| jobs.lease_generation := generation |>
             <| jobs.started_at := Some started |>
             <| jobs.updated_at := now_s |>
             <| jobs.error_kind := None |>
             <| jobs.error_message := None |> in
  match payload_json with
  | Some json => m <| jobs.payload := json |>
  | None => m
  end.

(** Columns written when a candidate already carries [cancel_requested]. *)
Definition cancelled_candidate_row (now_s : string) (m : jobs.Model) : jobs.Model :=
  m <| jobs.state := JobState.as_str Cancelled |>
    <| jobs.cancel_requested := 1 |>
    <| jobs.finished_at := Some now_s |>
    <| jobs.updated_at := now_s |>.

(** [resuming], [attempt] and [payload_json]: a resume re-enters the attempt it suspended and
    clears the marker; [Some None] is a serialization error. *)
Definition resuming (model : jobs.Model) : bool :=
  resume_pending (default JobPayload_default (from_str (jobs.payload model))).
Definition next_attempt (model : jobs.Model) : Z :=
  if resuming model then Z.max (jobs.attempt_count model) 1 else jobs.attempt_count model + 1.
Definition resumed_payload (model : jobs.Model) : option (option string) :=
  if resuming model
  then Some (to_string ((default JobPayload_default (from_str (jobs.payload model)))
                          <| resume_pending := false |>))
  else None.

Definition still_pending (model m : jobs.Model) : bool :=
  text_eq (jobs.id m) (jobs.id model) && text_eq (jobs.state m) (JobState.as_str Pending).

(** The conditional [pending] → [running] mutation and the read-back. *)
Definition claim_cas (model : jobs.Model) (claimed : jobs.Model → jobs.Model)
    : prog Db (result (option JobRecord)) :=
  let* n := jobs_update (still_pending model) claimed in
  if negb (n =? 1)%nat then Ret (Ok None) else
  let* updated := jobs_find_by_id (jobs.id model) in
  match updated with
  | None => Ret (Ok None)
  | Some updated =>
      let* now := Utc_now in
      match try_map_job now updated with
      | inl reason => Ret (Err (Other ("claimed unreadable job: " +:+ reason)))
      | inr job => Ret (Ok (Some job))
      end
  end.

(** The body of the candidate loop; [Some job] returns from the claim. *)
Definition claim_one (owner lease_expires now_s : string) (model : jobs.Model)
    : prog Db (result (option JobRecord)) :=
  if negb (jobs.cancel_requested model =? 0) then
    let* _ := jobs_update (still_pending model) (cancelled_candidate_row now_s) in
    Ret (Ok None)
  else
  let* now := Utc_now in
  match try_map_job now model with
  | inl reason =>
      let? _ := mark_pending_job_invalid_on (jobs.id model) reason now_s in
      Ret (Ok None)
  | inr _ =>
  match resumed_payload model with
  | Some None => Ret (Err (Other "job payload"))
  | payload_json =>
      claim_cas model
        (claimed_row owner lease_expires now_s (next_attempt model)
           (jobs.lease_generation model + 1) (default now_s (jobs.started_at model))
           (mjoin payload_json))
  end
  end.

Definition claim_next_job_on (cls : JobResourceClass) (owner : string) (lease_secs : Z)
    : prog Db (result (option JobRecord)) :=
  let? _ := lock_job_queue in
  let* now := Utc_now in
  let now_s := to_rfc3339 now in
  let? _ := sanitize_unreadable_pending_on now_s in
  let* rows := jobs_select (claim_candidate cls now_s) in
  let candidates := take 8 (order_by claim_order rows) in
  let lease_expires := to_rfc3339 (now + seconds (default 60 (i64_try_from lease_secs))) in
  for_until candidates (claim_one owner lease_expires now_s).

Definition claim_next_job (cls : JobResourceClass) (owner : string) (lease_secs : Z)
    : prog Db (result (option JobRecord)) :=
  txn (claim_next_job_on cls owner lease_secs).

(** ** Fenced operations of the lease holder *)

(** [WHERE id = ? AND state = 'running' AND lease_owner = ? AND lease_generation = ?]. *)
Definition fence_matches (f : JobFence) (m : jobs.Model) : bool :=
  text_eq (jobs.id m) (job_id f)
  && text_eq (jobs.state m) (JobState.as_str Running)
  && sql_eq (jobs.lease_owner m) (owner f)
  && (jobs.lease_generation m =? generation f).

(** The guard on a row read by id: [state != running || owner != … || generation != …]. *)
Definition row_is_fenced (f : JobFence) (m : jobs.Model) : bool :=
  text_eq (jobs.state m) (JobState.as_str Running)
  && sql_eq (jobs.lease_owner m) (owner f)
  && (jobs.lease_generation m =? generation f).

Definition set_progress_if (progress : option string) (m : jobs.Model) : jobs.Model :=
  match progress with
  | Some p => m <| jobs.progress := Some p |>
  | None => m
  end.

Definition heartbeat_job (f : JobFence) (lease_secs : Z) (progress : option string)
    : prog Db (result bool) :=
  let* now := Utc_now in
  let expires := to_rfc3339 (now + seconds (default 60 (i64_try_from lease_secs))) in
  let* n := jobs_update (fence_matches f)
    (λ m, set_progress_if progress
            (m <| jobs.lease_expires_at := Some expires |>
               <| jobs.updated_at := to_rfc3339 now |>)) in
  Ret (Ok (n =? 1)%nat).

Definition set_job_progress (f : JobFence) (progress : string) : prog Db (result bool) :=
  let* now_s := now_str in
  let* n := jobs_update (fence_matches f)
    (λ m, m <| jobs.progress := Some progress |> <| jobs.updated_at := now_s |>) in
  Ret (Ok (n =? 1)%nat).

Definition completed_row (now_s : string) (m : jobs.Model) : jobs.Model :=
  m <| jobs.state := JobState.as_str Succeeded |>
    <| jobs.lease_owner := None |>
    <| jobs.lease_expires_at := None |>
    <| jobs.finished_at := Some now_s |>
    <| jobs.updated_at := now_s |>.

Definition complete_job (f : JobFence) (progress : option string) : prog Db (result bool) :=
  let* now_s := now_str in
  let* n := jobs_update (fence_matches f)
    (λ m, set_progress_if progress (completed_row now_s m)) in
  Ret (Ok (n =? 1)%nat).

Definition checkpoint_too_large (c : JobCheckpoint) : bool :=
  MAX_CHECKPOINT_BYTES <? Z.of_nat (String.length (json c)).
Definition checkpoint_error (c : JobCheckpoint) : LibraryError :=
  Other ("checkpoint of " +:+ pretty (Z.of_nat (String.length (json c)))
         +:+ " bytes exceeds " +:+ pretty MAX_CHECKPOINT_BYTES).

Definition suspended_row (payload_json wake_at now_s : string) (m : jobs.Model) : jobs.Model :=
  m <| jobs.state := JobState.as_str Pending |>
    <| jobs.payload := payload_json |>
    <| jobs.run_after := wake_at |>
    <| jobs.lease_owner := None |>
    <| jobs.lease_expires_at := None |>
    <| jobs.progress := Some "suspended" |>
    <| jobs.updated_at := now_s |>.

Definition suspend_job (f : JobFence) (c : JobCheckpoint) (wake_at : Z)
    : prog Db (result bool) :=
  let* row := jobs_find_by_id (job_id f) in
  match row with
  | None => Ret (Ok false)
  | Some model =>
  if negb (row_is_fenced f model) then Ret (Ok false) else
  match from_str (jobs.payload model) with
  | None => Ret (Err (Other ("job payload: " +:+ from_str_error (jobs.payload model))))
  | Some payload =>
  if checkpoint_too_large c then Ret (Err (checkpoint_error c)) else
  let payload := payload <| checkpoint := Some c |>
                         <| resume_pending := true |>
                         <| invocation_sequence :=
                              Some (u32_saturating_add
                                      (default 1 (invocation_sequence payload)) 1) |> in
  match to_string payload with
  | None => Ret (Err (Other "job payload"))
  | Some payload_json =>
  let* now_s := now_str in
  let* n := jobs_update (fence_matches f)
    (suspended_row payload_json (to_rfc3339 wake_at) now_s) in
  Ret (Ok (n =? 1)%nat)
  end end end.

Definition checkpoint_running_job (f : JobFence) (c : JobCheckpoint) : prog Db (result bool) :=
  let* row := jobs_find_by_id (job_id f) in
  match row with
  | None => Ret (Ok false)
  | Some model =>
  if negb (row_is_fenced f model) then Ret (Ok false) else
  if checkpoint_too_large c then Ret (Err (checkpoint_error c)) else
  match from_str (jobs.payload model) with
  | None => Ret (Err (Other ("job payload: " +:+ from_str_error (jobs.payload model))))
  | Some payload =>
  match to_string (payload <| checkpoint := Some c |>) with
  | None => Ret (Err (Other "job payload"))
  | Some payload_json =>
  let* now_s := now_str in
  let* n := jobs_update (fence_matches f)
    (λ m, m <| jobs.payload := payload_json |> <| jobs.updated_at := now_s |>) in
  Ret (Ok (n =? 1)%nat)
  end end end.

(** ** Cancellation *)

Definition cancelled_row (error_kind error_message now_s : string) (m : jobs.Model)
    : jobs.Model :=
  m <| jobs.state := JobState.as_str Cancelled |>
    <| jobs.cancel_requested := 1 |>
    <| jobs.error_kind := Some error_kind |>
    <| jobs.error_message := Some error_message |>
    <| jobs.lease_owner := None |>
    <| jobs.lease_expires_at := None |>
    <| jobs.finished_at := Some now_s |>
    <| jobs.updated_at := now_s |>.

(** [lease_expires_at IS NULL OR lease_expires_at <= cutoff]. *)
Definition lease_expired_by (cutoff : string) (m : jobs.Model) : bool :=
  is_null (jobs.lease_expires_at m) || sql_le (jobs.lease_expires_at m) cutoff.

(** The [WHERE] clause of [mark_job_cancelled_cas]. *)
Definition cancel_filter (id : string) (f : option JobFence) (expired_before : option string)
    (m : jobs.Model) : bool :=
  text_eq (jobs.id m) id
  && match f with
     | Some f =>
         text_eq (jobs.state m) (JobState.as_str Running)
         && sql_eq (jobs.lease_owner m) (owner f)
         && (jobs.lease_generation m =? generation f)
         && match expired_before with
            | Some cutoff => lease_expired_by cutoff m
            | None => true
            end
     | None => text_eq (jobs.state m) (JobState.as_str Pending)
     end.

Definition mark_job_cancelled_cas (id : string) (f : option JobFence)
    (error_kind error_message : string) (expired_before : option string)
    : prog Db (result bool) :=
  let* now_s := now_str in
  let* n := jobs_update (cancel_filter id f expired_before)
    (cancelled_row error_kind error_message now_s) in
  Ret (Ok (n =? 1)%nat).

(** ** Failure *)

Definition failed_row (next_state error_kind error_message run_after : string)
    (finished : option string) (now_s : string) (retry_payload : option string)
    (m : jobs.Model) : jobs.Model :=
  let m := m <| jobs.state := next_state |>
             <| jobs.error_kind := Some error_kind |>
             <| jobs.error_message := Some error_message |>
             <| jobs.lease_owner := None |>
             <| jobs.lease_expires_at := None |>
             <| jobs.run_after := run_after |>
             <| jobs.finished_at := finished |>
             <| jobs.updated_at := now_s |> in
  match retry_payload with
  | Some json => m <| jobs.payload := json |>
  | None => m
  end.

(** [retry_payload]: a retry clears a leftover [resume_pending] of the stored envelope. *)
Definition retry_payload (retry : bool) (model : jobs.Model) : option (option string) :=
  if retry then
    let payload := default JobPayload_default (from_str (jobs.payload model)) in
    if resume_pending payload
    then Some (to_string (payload <| resume_pending := false |>))
    else None
  else None.

Definition fail_job (f : JobFence) (error_kind error_message : string)
    : prog Db (result bool) :=
  let* row := jobs_find_by_id (job_id f) in
  match row with
  | None => Ret (Ok false)
  | Some model =>
  if negb (row_is_fenced f model) then Ret (Ok false) else
  if negb (jobs.cancel_requested model =? 0) then
    let? _ := mark_job_cancelled_cas (job_id f) (Some f)
                "cancelled" "cancelled by operator" None in
    Ret (Ok true)
  else
  let* now := Utc_now in
  let retry := jobs.attempt_count model <? jobs.max_attempts model in
  let next_state := if retry then JobState.as_str Pending else JobState.as_str Failed in
  let run_after := if retry
                   then to_rfc3339 (job_backoff_run_after (jobs.attempt_count model) now)
                   else jobs.run_after model in
  let finished := if retry then None else Some (to_rfc3339 now) in
  let rp := retry_payload retry model in
  match rp with
  | Some None => Ret (Err (Other "job payload"))
  | _ =>
  let* n := jobs_update (fence_matches f)
    (failed_row next_state error_kind error_message run_after finished (to_rfc3339 now)
       (mjoin rp)) in
  Ret (Ok (n =? 1)%nat)
  end
  end.

(** ** Reads that repair unreadable rows *)

Definition invalid_row (reason now_s : string) (m : jobs.Model) : jobs.Model :=
  m <| jobs.kind := JobKind.as_str Invalid |>
    <| jobs.resource_class := JobResourceClass.as_str Network |>
    <| jobs.payload := invalid_job_payload_json |>
    <| jobs.state := JobState.as_str Failed |>
    <| jobs.error_kind := Some "invalid_job" |>
    <| jobs.error_message := Some reason |>
    <| jobs.lease_owner := None |>
    <| jobs.lease_expires_at := None |>
    <| jobs.finished_at := Some now_s |>
    <| jobs.updated_at := now_s |>.

Definition mark_invalid_job (id reason : string) : prog Db (result unit) :=
  let* now_s := now_str in
  let* _ := jobs_update (λ m, text_eq (jobs.id m) id && job_is_active m)
    (invalid_row reason now_s) in
  Ret (Ok ()).

Definition get_job (id : string) : prog Db (result (option JobRecord)) :=
  let* row := jobs_find_by_id id in
  match row with
  | None => Ret (Ok None)
  | Some model =>
      let* now := Utc_now in
      match try_map_job now model with
      | inr job => Ret (Ok (Some job))
      | inl reason =>
          let? _ := mark_invalid_job id reason in
          let* row := jobs_find_by_id id in
          let* now := Utc_now in
          Ret (Ok (match row with
                   | Some m => match try_map_job now m with inr j => Some j | inl _ => None end
                   | None => None
                   end))
      end
  end.

Definition list_jobs (limit : Z) : prog Db (result (list JobRecord)) :=
  let* rows := jobs_select (λ _, true) in
  let page := take (Z.to_nat (Z.max limit 1))
                (order_by (λ a b, text_le (jobs.created_at b) (jobs.created_at a)) rows) in
  for_each page [] (λ out row,
    let* now := Utc_now in
    match try_map_job now row with
    | inr job => Ret (Ok (out ++ [job]))
    | inl reason =>
        let? _ := mark_invalid_job (jobs.id row) reason in
        let? job := get_job (jobs.id row) in
        Ret (Ok (out ++ option_list job))
    end).

(** One round of the [request_job_cancel] retry loop: [Some r] returns [r]. *)
Definition cancel_round (id : string) : prog Db (result (option (option JobRecord))) :=
  let* row := jobs_find_by_id id in
  match row with
  | None => Ret (Ok (Some None))
  | Some model =>
      let state := default Failed (JobState.parse (jobs.state model)) in
      if JobState.is_terminal state then
        let* now := Utc_now in
        match try_map_job now model with
        | inr job => Ret (Ok (Some (Some job)))
        | inl reason =>
            let? _ := mark_invalid_job id reason in
            let? job := get_job id in
            Ret (Ok (Some job))
        end
      else
      match state with
      | Pending =>
          let? hit := mark_job_cancelled_cas id None "cancelled" "cancelled by operator" None in
          if hit then let? job := get_job id in Ret (Ok (Some job)) else Ret (Ok None)
      | _ =>
          let* now_s := now_str in
          let* n := jobs_update
            (λ m, text_eq (jobs.id m) id && text_eq (jobs.state m) (JobState.as_str Running))
            (λ m, m <| jobs.cancel_requested := 1 |> <| jobs.updated_at := now_s |>) in
          if (n =? 1)%nat then let? job := get_job id in Ret (Ok (Some job)) else Ret (Ok None)
      end
  end.

Definition request_job_cancel (id : string) : prog Db (result (option JobRecord)) :=
  let? r := for_until (seq 0 16) (λ _, cancel_round id) in
  match r with
  | Some job => Ret (Ok job)
  | None => get_job id
  end.

Definition job_cancel_requested (id : string) : prog Db (result bool) :=
  let* row := jobs_find_by_id id in
  Ret (Ok (match row with
           | Some m => negb (jobs.cancel_requested m =? 0)
           | None => false
           end)).

(** ** Lease reclaim and retention *)

Definition reclaimed_row (next_state now_s : string) (finished : option string)
    (m : jobs.Model) : jobs.Model :=
  m <| jobs.state := next_state |>
    <| jobs.lease_owner := None |>
    <| jobs.lease_expires_at := None |>
    <| jobs.error_kind := Some "lease_expired" |>
    <| jobs.error_message := Some "worker lease expired; reclaiming after restart" |>
    <| jobs.run_after := now_s |>
    <| jobs.finished_at := finished |>
    <| jobs.updated_at := now_s |>.

Definition reclaim_filter (model : jobs.Model) (now_s : string) (m : jobs.Model) : bool :=
  text_eq (jobs.id m) (jobs.id model)
  && text_eq (jobs.state m) (JobState.as_str Running)
  && (jobs.lease_generation m =? jobs.lease_generation model)
  && lease_expired_by now_s m.

Definition reclaim_one (now : Z) (n : Z) (model : jobs.Model) : prog Db (result Z) :=
  let now_s := to_rfc3339 now in
  let* expired :=
    match jobs.lease_expires_at model with
    | None => Ret true
    | Some s => let* exp := parse_dt_io s in Ret (exp <=? now)
    end in
  if negb expired then Ret (Ok n) else
  if negb (jobs.cancel_requested model =? 0) then
    let? hit := mark_job_cancelled_cas (jobs.id model)
      (Some (mk_JobFence (jobs.id model) (default "" (jobs.lease_owner model))
               (jobs.lease_generation model)))
      "cancelled" "cancelled by operator" (Some now_s) in
    Ret (Ok (if hit then n + 1 else n))
  else
  let terminal := jobs.max_attempts model <=? jobs.attempt_count model in
  let next_state := if terminal then JobState.as_str Failed else JobState.as_str Pending in
  let finished := if terminal then Some now_s else None in
  let* k := jobs_update (reclaim_filter model now_s) (reclaimed_row next_state now_s finished) in
  Ret (Ok (if (k =? 1)%nat then n + 1 else n)).

Definition reclaim_expired_leases : prog Db (result Z) :=
  let* now := Utc_now in
  let* running := jobs_select (λ m, text_eq (jobs.state m) (JobState.as_str Running)) in
  for_each running 0 (reclaim_one now).

Definition prune_filter (cutoff : string) (m : jobs.Model) : bool :=
  is_in (jobs.state m)
    [JobState.as_str Succeeded; JobState.as_str Failed; JobState.as_str Cancelled]
  && sql_le (jobs.finished_at m) cutoff.

Definition prune_terminal_jobs (retention_days : Z) : prog Db (result Z) :=
  let* now := Utc_now in
  let cutoff := to_rfc3339 (now - days (default 7 (i64_try_from retention_days))) in
  let* n := jobs_delete (prune_filter cutoff) in
  Ret (Ok (Z.of_nat n)).

(** ** Scratch paths and their quota *)

Definition reserved (r : job_temp_paths.Model) : Z :=
  default 0 (u64_try_from (job_temp_paths.reserved_bytes r)).

(** [fold (0u64, u64::saturating_add)] over the reserved bytes. *)
Definition sum_reserved (rows : list job_temp_paths.Model) : Z :=
  fold_left (λ acc r, u64_saturating_add acc (reserved r)) rows 0.

Definition same_path (job path : string) (r : job_temp_paths.Model) : bool :=
  text_eq (job_temp_paths.job_id r) job && text_eq (job_temp_paths.path r) path.

Definition reserve_job_temp_path_on (job path : string) (reserved_bytes quota_bytes : Z)
    : prog Db (result unit) :=
  let? _ := lock_job_queue in
  let* rows := job_temp_paths_select (λ _, true) in
  let existing := List.find (same_path job path) rows in
  let already := default 0 (reserved <$> existing) in
  let used := sum_reserved rows in
  let next_used := u64_saturating_add (u64_saturating_sub used already) reserved_bytes in
  if quota_bytes <? next_used
  then Ret (Err (Other ("acquire scratch quota exceeded (" +:+ pretty next_used +:+ " > "
                        +:+ pretty quota_bytes +:+ " bytes)")))
  else
  let bytes := default i64_MAX (i64_try_from reserved_bytes) in
  match existing with
  | Some existing =>
      let* _ := job_temp_paths_update
        (λ r, job_temp_paths.id r =? job_temp_paths.id existing)
        (λ r, r <| job_temp_paths.reserved_bytes := bytes |>) in
      Ret (Ok ())
  | None =>
      let* now_s := now_str in
      job_temp_paths_insert job path now_s bytes
  end.

Definition reserve_job_temp_path (job path : string) (reserved_bytes quota_bytes : Z)
    : prog Db (result unit) :=
  txn (reserve_job_temp_path_on job path reserved_bytes quota_bytes).

Definition register_job_temp_path (job path : string) : prog Db (result unit) :=
  reserve_job_temp_path job path 0 u64_MAX.

Definition map_temp_path (now : Z) (m : job_temp_paths.Model) : JobTempPath :=
  {| tp_id := job_temp_paths.id m;
     tp_job_id := job_temp_paths.job_id m;
     tp_path := job_temp_paths.path m;
     tp_created_at := parse_dt now (job_temp_paths.created_at m);
     tp_reserved_bytes := reserved m |}.

Definition list_job_temp_paths (job : string) : prog Db (result (list JobTempPath)) :=
  let* rows := job_temp_paths_select (λ r, text_eq (job_temp_paths.job_id r) job) in
  let* now := Utc_now in
  Ret (Ok (map (map_temp_path now) rows)).

Definition list_all_job_temp_paths : prog Db (result (list JobTempPath)) :=
  let* rows := job_temp_paths_select (λ _, true) in
  let* now := Utc_now in
  Ret (Ok (map (map_temp_path now) rows)).

Definition unregister_job_temp_path (job path : string) : prog Db (result unit) :=
  let* _ := job_temp_paths_delete (same_path job path) in
  Ret (Ok ()).

Definition reserved_temp_bytes : prog Db (result Z) :=
  let* rows := job_temp_paths_select (λ _, true) in
  Ret (Ok (sum_reserved rows)).

Definition has_running_acquire_job : prog Db (result bool) :=
  let* rows := jobs_select
    (λ m, text_eq (jobs.kind m) (JobKind.as_str Acquire)
          && text_eq (jobs.state m) (JobState.as_str Running)) in
  Ret (Ok (0 <? length rows)%nat).

Definition count_active_jobs : prog Db (result Z) := count_active_jobs_on.

End JobQueue.
