(* ===== verification/JobInvariant.v ===== *)
(** * The job queue's invariant and history order

    [wf] is the well-formedness of the [jobs] and [job_temp_paths] tables; [evolves] is the
    relation between the store now and the store at any later time.  Every operation of
    [JobQueue] keeps [wf] and stays within [evolves] at each of its accesses, whatever the other
    threads do in between ([safe_*] lemmas in [JobSafety], collected in [JobPool]). *)

From stdpp Require Import base option list strings gmap pretty.
From Stdlib Require Import ZArith Lia.
From S2P Require Import Prelude Schema Store Concurrency JobModels JobQueue.

Local Open Scope Z_scope.

(** The configured scratch quota, in bytes: no reservation call passes a larger one. *)
Class ScratchQuota := scratch_quota : Z.

(** The bytes reserved, before any saturation. *)
Fixpoint total_reserved (rows : list job_temp_paths.Model) : Z :=
  match rows with
  | [] => 0
  | r :: rows => reserved r + total_reserved rows
  end.

Section JobInvariant.
Context {C : Chrono} {U : Uuid} {J : SerdeJson JobPayload} {K : ScratchQuota}.

Definition pending (m : jobs.Model) : Prop := jobs.state m = "pending".
Definition running (m : jobs.Model) : Prop := jobs.state m = "running".
Definition terminal (m : jobs.Model) : Prop :=
  jobs.state m ∈ ["succeeded"; "failed"; "cancelled"].

(** The stored envelope asks the next claim to resume a suspended run. *)
Definition resumes (m : jobs.Model) : Prop :=
  ∃ p, from_str (jobs.payload m) = Some p ∧ resume_pending p = true.

(** What holds of one row in each state.  A row in an unknown state is unconstrained but for
    its counters: reads and claims fail it closed. *)
Record row_ok (m : jobs.Model) : Prop := {
  ok_max : 1 ≤ jobs.max_attempts m;
  ok_attempt : 0 ≤ jobs.attempt_count m ≤ jobs.max_attempts m;
  ok_generation : 0 ≤ jobs.lease_generation m;
  ok_pending : pending m →
    jobs.lease_owner m = None ∧ jobs.lease_expires_at m = None ∧ jobs.finished_at m = None
    ∧ (jobs.attempt_count m < jobs.max_attempts m ∨ resumes m);
  ok_running : running m →
    is_Some (jobs.lease_owner m) ∧ is_Some (jobs.lease_expires_at m)
    ∧ jobs.finished_at m = None ∧ 1 ≤ jobs.attempt_count m ∧ 1 ≤ jobs.lease_generation m;
  ok_terminal : terminal m →
    jobs.lease_owner m = None ∧ jobs.lease_expires_at m = None ∧ is_Some (jobs.finished_at m);
}.

(** How one row may change over time. *)
Record row_le (m m' : jobs.Model) : Prop := {
  le_id : jobs.id m' = jobs.id m;
  le_dedup : jobs.dedup_key m' = jobs.dedup_key m;
  le_created : jobs.created_at m' = jobs.created_at m;
  le_priority : jobs.priority m' = jobs.priority m;
  le_max : jobs.max_attempts m' = jobs.max_attempts m;
  le_generation : jobs.lease_generation m ≤ jobs.lease_generation m';
  le_attempt : jobs.attempt_count m ≤ jobs.attempt_count m'
    ≤ jobs.attempt_count m + (jobs.lease_generation m' - jobs.lease_generation m);
  le_running : jobs.lease_generation m' = jobs.lease_generation m → running m' →
    running m ∧ jobs.lease_owner m' = jobs.lease_owner m;
  le_inactive : job_is_active m = false → m' = m;
  le_cancel : jobs.cancel_requested m ≠ 0 →
    jobs.cancel_requested m' ≠ 0 ∧ jobs.lease_generation m' = jobs.lease_generation m;
}.

#[global] Instance row_le_preorder : PreOrder row_le.
Proof.
  split.
  - intros m. constructor; auto; lia.
  - intros a b c Hab Hbc. destruct Hab, Hbc. constructor; [congruence..|lia|lia| | |].
    + intros Hg Hr. destruct le_running1 as [Hb Ho]; [lia|done|].
      destruct le_running0 as [Ha Ho']; [lia|done|]. split; congruence.
    + intros Hi. rewrite <-(le_inactive0 Hi). apply le_inactive1. by rewrite (le_inactive0 Hi).
    + intros Hc. destruct (le_cancel0 Hc) as [Hb Hg]. destruct (le_cancel1 Hb). split; [done|lia].
Qed.

(** The ids [enqueue_job_on] makes; [n] counts the UUIDs drawn. *)
Definition mk_job_id (k : JobKind) (n : nat) : string :=
  JobKind.as_str k +:+ "-" +:+ new_v4 n.

(** Ids that have not been handed out in [s]. *)
Definition fresh_in (s : Db) (id : string) : Prop :=
  ∃ k n, (uuids_drawn s ≤ n)%nat ∧ id = mk_job_id k n.

Record wf (s : Db) : Prop := {
  wf_ids : NoDup (map jobs.id (jobs_t s));
  wf_rows : ∀ m, m ∈ jobs_t s → row_ok m;
  wf_dedup : ∀ m m', m ∈ jobs_t s → m' ∈ jobs_t s →
    job_is_active m = true → job_is_active m' = true →
    jobs.dedup_key m = jobs.dedup_key m' → m = m';
  wf_drawn : ∀ m, m ∈ jobs_t s → ¬ fresh_in s (jobs.id m);
  wf_temp_fk : ∀ t, t ∈ job_temp_paths_t s →
    ∃ m, m ∈ jobs_t s ∧ jobs.id m = job_temp_paths.job_id t;
  wf_temp_key : NoDup (map (λ t, (job_temp_paths.job_id t, job_temp_paths.path t))
                         (job_temp_paths_t s));
  wf_temp_id : NoDup (map job_temp_paths.id (job_temp_paths_t s));
  wf_temp_seq : ∀ t, t ∈ job_temp_paths_t s → job_temp_paths.id t ≤ job_temp_paths_seq s;
  wf_quota : total_reserved (job_temp_paths_t s) ≤ scratch_quota;
}.

(** The store at a later time: rows come from rows, or under ids drawn since. *)
Record evolves (s s' : Db) : Prop := {
  ev_drawn : (uuids_drawn s ≤ uuids_drawn s')%nat;
  ev_rows : ∀ m', m' ∈ jobs_t s' →
    (∃ m, m ∈ jobs_t s ∧ row_le m m') ∨ fresh_in s (jobs.id m');
}.

Lemma fresh_in_mono s s' id :
  (uuids_drawn s ≤ uuids_drawn s')%nat → fresh_in s' id → fresh_in s id.
Proof. intros Hle (k & n & Hn & ->). exists k, n. split; [lia|done]. Qed.

#[global] Instance evolves_preorder : PreOrder evolves.
Proof.
  split.
  - intros s. constructor; [done|]. intros m Hm. left. by exists m.
  - intros a b c [Dab Rab] [Dbc Rbc]. constructor; [lia|]. intros m'' Hm''.
    destruct (Rbc _ Hm'') as [(m' & Hm' & Hle')|Hf]; [|right; by eapply fresh_in_mono].
    destruct (Rab _ Hm') as [(m & Hm & Hle)|Hf].
    + left. exists m. split; [done|]. by transitivity m'.
    + right. by rewrite (le_id _ _ Hle').
Qed.

(** The history of a row that was there: the row with its id comes from it. *)
Lemma evolves_row s s' m m' :
  wf s → evolves s s' → m ∈ jobs_t s → m' ∈ jobs_t s' → jobs.id m' = jobs.id m → row_le m m'.
Proof.
  intros Hwf Hev Hm Hm' Hid. destruct (ev_rows _ _ Hev _ Hm') as [(m0 & Hm0 & Hle)|Hf].
  - assert (m0 = m) as <-; [|done].
    eapply (NoDup_key jobs.id); [apply wf_ids|..]; eauto.
    by rewrite <-Hid, (le_id _ _ Hle).
  - rewrite Hid in Hf. by destruct (wf_drawn _ Hwf _ Hm).
Qed.

Lemma active_true m : job_is_active m = true ↔ pending m ∨ running m.
Proof. unfold job_is_active. rewrite is_in_true. set_unfold. unfold pending, running. tauto. Qed.

(** Changes outside the two tables of the queue. *)
Definition queue_untouched (s s' : Db) : Prop :=
  jobs_t s' = jobs_t s ∧ job_temp_paths_t s' = job_temp_paths_t s
  ∧ job_temp_paths_seq s' = job_temp_paths_seq s ∧ (uuids_drawn s ≤ uuids_drawn s')%nat.

Lemma untouched_ok s s' : wf s → queue_untouched s s' → evolves s s' ∧ wf s'.
Proof.
  intros Hwf (Hj & Ht & Hseq & Hd). split; constructor; rewrite ?Hj, ?Ht, ?Hseq; try apply Hwf.
  - done.
  - intros m Hm. left. by exists m.
  - intros m Hm Hf. destruct (wf_drawn _ Hwf _ Hm). by eapply fresh_in_mono.
Qed.

(** ** The effect of an [UPDATE jobs] *)

Lemma update_ok p f s :
  wf s →
  (∀ m, m ∈ jobs_t s → p m = true → row_ok m → row_le m (f m) ∧ row_ok (f m)) →
  evolves s (s <| jobs_t := (update_rows p f (jobs_t s)).2 |>)
  ∧ wf (s <| jobs_t := (update_rows p f (jobs_t s)).2 |>).
Proof.
  intros Hwf Hf.
  assert (Hrow : ∀ y, y ∈ jobs_t s → row_le y (if p y then f y else y)
                                    ∧ row_ok (if p y then f y else y)).
  { intros y Hy. pose proof (wf_rows _ Hwf _ Hy).
    destruct (p y) eqn:E; [by apply Hf|split; [reflexivity|done]]. }
  assert (Hids : map jobs.id (update_rows p f (jobs_t s)).2 = map jobs.id (jobs_t s)).
  { apply update_key. intros m Hm E. destruct (Hrow m Hm) as [Hle _]. rewrite E in Hle. apply Hle. }
  pose proof (elem_of_update p f (jobs_t s)) as Hmem.
  revert Hids Hmem. generalize (update_rows p f (jobs_t s)).2. intros t' Hids Hmem.
  split; constructor; simpl; try apply Hwf.
  - done.
  - intros m' (y & Hy & ->)%Hmem. left. exists y. split; [done|]. by apply Hrow.
  - rewrite Hids. apply Hwf.
  - intros m (y & Hy & ->)%Hmem. by apply Hrow.
  - intros m m' (y & Hy & ->)%Hmem (z & Hz & ->)%Hmem Ha Ha' Hk.
    destruct (Hrow y Hy) as [Ly _], (Hrow z Hz) as [Lz _].
    assert (y = z) as <-; [|done].
    apply (wf_dedup _ Hwf); [done..| | |].
    + apply not_false_iff_true. intros E. rewrite (le_inactive _ _ Ly E) in Ha. congruence.
    + apply not_false_iff_true. intros E. rewrite (le_inactive _ _ Lz E) in Ha'. congruence.
    + by rewrite <-(le_dedup _ _ Ly), <-(le_dedup _ _ Lz).
  - intros m (y & Hy & ->)%Hmem. rewrite (le_id _ _ (proj1 (Hrow y Hy))).
    by apply (wf_drawn _ Hwf).
  - intros t Ht. destruct (wf_temp_fk _ Hwf t Ht) as (m & Hm & Hid).
    exists (if p m then f m else m). split; [apply Hmem; eauto|].
    by rewrite (le_id _ _ (proj1 (Hrow m Hm))).
Qed.

Lemma reserved_nonneg r : 0 ≤ reserved r.
Proof. unfold reserved, u64_try_from. split_if; simpl; lia. Qed.

Lemma total_where p l : total_reserved (List.filter p l) ≤ total_reserved l.
Proof.
  induction l as [|r l IH]; simpl; [lia|]. pose proof (reserved_nonneg r).
  destruct (p r); simpl; lia.
Qed.

Lemma delete_ok p s :
  wf s →
  let s' := (s <| jobs_t := (delete_rows p (jobs_t s)).2 |>
               <| job_temp_paths_t := List.filter
                    (λ t, negb (is_in (job_temp_paths.job_id t)
                                  (map jobs.id (List.filter p (jobs_t s)))))
                    (job_temp_paths_t s) |>) in
  evolves s s' ∧ wf s'.
Proof.
  intros Hwf s'. unfold s', delete_rows. split; constructor; simpl; try done.
  - intros m [Hm _]%elem_of_where. left. exists m. split; [done|reflexivity].
  - eapply sublist_NoDup; [apply Hwf|]. apply (fmap_sublist _), sublist_where.
  - intros m [Hm _]%elem_of_where. by apply Hwf.
  - intros m m' [Hm _]%elem_of_where [Hm' _]%elem_of_where. by apply Hwf.
  - intros m [Hm _]%elem_of_where. by apply (wf_drawn _ Hwf).
  - intros t [Ht Hk]%elem_of_where. where_clauses.
    destruct (wf_temp_fk _ Hwf t Ht) as (m & Hm & Hid). exists m. split; [|done].
    apply elem_of_where. split; [done|]. apply negb_true_iff, not_true_iff_false. intros Hp.
    apply not_true_iff_false in Hk. apply Hk, is_in_true. rewrite <-Hid.
    apply list_elem_of_fmap_2, elem_of_where. done.
  - eapply sublist_NoDup; [apply (wf_temp_key _ Hwf)|]. apply (fmap_sublist _), sublist_where.
  - eapply sublist_NoDup; [apply (wf_temp_id _ Hwf)|]. apply (fmap_sublist _), sublist_where.
  - intros t [Ht _]%elem_of_where. by apply Hwf.
  - etrans; [apply total_where|apply Hwf].
Qed.
End JobInvariant.
