(* ===== verification/JobSafety.v ===== *)
(** * Every queue operation keeps the invariant under interference

    One [safe_*] lemma per operation of [JobQueue]: each access keeps [wf] and stays within
    [evolves] while the other threads evolve the store in between. *)

From stdpp Require Import base option list strings gmap pretty.
From Stdlib Require Import ZArith Lia.
From S2P Require Import Prelude Schema Store Concurrency JobModels JobQueue JobInvariant.

Local Open Scope Z_scope.

Section Rows.
Context {C : Chrono} {U : Uuid} {J : SerdeJson JobPayload} {K : ScratchQuota}.

Lemma pending_excl m : pending m → ¬ running m ∧ ¬ terminal m.
Proof. unfold pending, running, terminal. intros ->. set_unfold. split; intuition discriminate. Qed.
Lemma running_excl m : running m → ¬ pending m ∧ ¬ terminal m.
Proof. unfold pending, running, terminal. intros ->. set_unfold. split; intuition discriminate. Qed.
Lemma terminal_excl m : terminal m → ¬ pending m ∧ ¬ running m.
Proof.
  intros Ht. split; intros E; [by apply (pending_excl m)|by apply (running_excl m)].
Qed.

(** *** Introduction rules: what is left to show of a row in a known state *)

Lemma row_ok_as_pending m :
  pending m → 1 ≤ jobs.max_attempts m → 0 ≤ jobs.attempt_count m ≤ jobs.max_attempts m →
  0 ≤ jobs.lease_generation m → jobs.lease_owner m = None → jobs.lease_expires_at m = None →
  jobs.finished_at m = None → (jobs.attempt_count m < jobs.max_attempts m ∨ resumes m) →
  row_ok m.
Proof.
  intros Hs **. destruct (pending_excl m Hs). by constructor.
Qed.

Lemma row_ok_as_running m :
  running m → 1 ≤ jobs.max_attempts m → 1 ≤ jobs.attempt_count m ≤ jobs.max_attempts m →
  1 ≤ jobs.lease_generation m → is_Some (jobs.lease_owner m) →
  is_Some (jobs.lease_expires_at m) → jobs.finished_at m = None → row_ok m.
Proof.
  intros Hs **. destruct (running_excl m Hs). constructor; try done; try lia. intros _. split_and!; auto; lia.
Qed.

Lemma row_ok_as_terminal m :
  terminal m → 1 ≤ jobs.max_attempts m → 0 ≤ jobs.attempt_count m ≤ jobs.max_attempts m →
  0 ≤ jobs.lease_generation m → jobs.lease_owner m = None → jobs.lease_expires_at m = None →
  is_Some (jobs.finished_at m) → row_ok m.
Proof.
  intros Hs **. destruct (terminal_excl m Hs). by constructor.
Qed.

(** An active row that leaves [running], or stays out of it, at its generation. *)
Lemma row_le_leave m m' :
  job_is_active m = true →
  jobs.id m' = jobs.id m → jobs.dedup_key m' = jobs.dedup_key m →
  jobs.created_at m' = jobs.created_at m → jobs.priority m' = jobs.priority m →
  jobs.max_attempts m' = jobs.max_attempts m →
  jobs.lease_generation m' = jobs.lease_generation m →
  jobs.attempt_count m' = jobs.attempt_count m →
  (jobs.cancel_requested m ≠ 0 → jobs.cancel_requested m' ≠ 0) →
  ¬ running m' → row_le m m'.
Proof. intros. constructor; try congruence; try lia; try done; auto. Qed.

(** A running row that stays running under its owner and generation. *)
Lemma row_le_keep m m' :
  running m →
  jobs.id m' = jobs.id m → jobs.dedup_key m' = jobs.dedup_key m →
  jobs.created_at m' = jobs.created_at m → jobs.priority m' = jobs.priority m →
  jobs.max_attempts m' = jobs.max_attempts m →
  jobs.lease_generation m' = jobs.lease_generation m →
  jobs.attempt_count m' = jobs.attempt_count m →
  jobs.lease_owner m' = jobs.lease_owner m →
  (jobs.cancel_requested m ≠ 0 → jobs.cancel_requested m' ≠ 0) → row_le m m'.
Proof.
  intros Hr **. constructor; try congruence; try lia; auto.
  intros Hi. exfalso. rewrite (proj2 (active_true m)) in Hi; [done|]. by right.
Qed.

Lemma running_active m : running m → job_is_active m = true.
Proof. intros. apply active_true. by right. Qed.
Lemma pending_active m : pending m → job_is_active m = true.
Proof. intros. apply active_true. by left. Qed.

Lemma terminal_intro m :
  jobs.state m = "succeeded" ∨ jobs.state m = "failed" ∨ jobs.state m = "cancelled" →
  terminal m.
Proof. unfold terminal. set_unfold. tauto. Qed.

(** An unfinished row that becomes terminal, its lease cleared. *)
Lemma finish_ok m m' :
  row_ok m → job_is_active m = true →
  jobs.id m' = jobs.id m → jobs.dedup_key m' = jobs.dedup_key m →
  jobs.created_at m' = jobs.created_at m → jobs.priority m' = jobs.priority m →
  jobs.max_attempts m' = jobs.max_attempts m →
  jobs.lease_generation m' = jobs.lease_generation m →
  jobs.attempt_count m' = jobs.attempt_count m →
  (jobs.cancel_requested m ≠ 0 → jobs.cancel_requested m' ≠ 0) →
  terminal m' → jobs.lease_owner m' = None → jobs.lease_expires_at m' = None →
  is_Some (jobs.finished_at m') → row_le m m' ∧ row_ok m'.
Proof.
  intros [] Ha Hid Hd Hc Hp Hm Hg Hat Hca Ht **. split.
  - apply row_le_leave; auto. by apply terminal_excl.
  - apply row_ok_as_terminal; auto; rewrite ?Hm, ?Hat, ?Hg; done.
Qed.
End Rows.

#[export] Hint Resolve running_active pending_active : store.
#[export] Hint Extern 1 (is_Some (Some _)) => eexists; reflexivity : store.
#[export] Hint Extern 1 (terminal _) => apply terminal_intro; simpl; tauto : store.

Ltac row_auto := simpl; auto with store; try done; try lia.

Section RowUpdates.
Context {C : Chrono} {U : Uuid} {J : SerdeJson JobPayload} {K : ScratchQuota}.

Lemma running_kept_ok m m' :
  running m → row_ok m → running m' →
  jobs.id m' = jobs.id m → jobs.dedup_key m' = jobs.dedup_key m →
  jobs.created_at m' = jobs.created_at m → jobs.priority m' = jobs.priority m →
  jobs.max_attempts m' = jobs.max_attempts m →
  jobs.lease_generation m' = jobs.lease_generation m →
  jobs.attempt_count m' = jobs.attempt_count m →
  jobs.lease_owner m' = jobs.lease_owner m →
  (jobs.cancel_requested m ≠ 0 → jobs.cancel_requested m' ≠ 0) →
  is_Some (jobs.lease_expires_at m') → jobs.finished_at m' = jobs.finished_at m →
  row_le m m' ∧ row_ok m'.
Proof.
  intros Hr [] Hr' Hid Hd Hc Hp Hm Hg Hat Ho **. destruct (ok_running Hr) as (? & ? & ? & ? & ?).
  split; [by apply row_le_keep|].
  apply row_ok_as_running; rewrite ?Hm, ?Hat, ?Hg, ?Ho; auto; try lia. congruence.
Qed.

Lemma heartbeat_row_ok m e u pr :
  running m → row_ok m →
  let m' := set_progress_if pr (m <| jobs.lease_expires_at := Some e |> <| jobs.updated_at := u |>) in
  row_le m m' ∧ row_ok m'.
Proof. intros Hr Hok. destruct pr; apply running_kept_ok; row_auto. Qed.

Lemma completed_row_ok m u pr :
  running m → row_ok m →
  let m' := set_progress_if pr (completed_row u m) in row_le m m' ∧ row_ok m'.
Proof. intros Hr Hok. destruct pr; apply finish_ok; row_auto. Qed.

Lemma progress_row_ok m p u :
  running m → row_ok m →
  let m' := (m <| jobs.progress := Some p |> <| jobs.updated_at := u |>) in
  row_le m m' ∧ row_ok m'.
Proof. intros Hr Hok. apply running_kept_ok; row_auto. by apply Hok. Qed.

Lemma checkpoint_row_ok m j u :
  running m → row_ok m →
  let m' := (m <| jobs.payload := j |> <| jobs.updated_at := u |>) in
  row_le m m' ∧ row_ok m'.
Proof. intros Hr Hok. apply running_kept_ok; row_auto. by apply Hok. Qed.

Lemma flag_cancel_row_ok m u :
  running m → row_ok m →
  let m' := (m <| jobs.cancel_requested := 1 |> <| jobs.updated_at := u |>) in
  row_le m m' ∧ row_ok m'.
Proof. intros Hr Hok. apply running_kept_ok; row_auto. by apply Hok. Qed.

Lemma cancelled_row_ok m k e u :
  job_is_active m = true → row_ok m →
  row_le m (cancelled_row k e u m) ∧ row_ok (cancelled_row k e u m).
Proof. intros Ha Hok. apply finish_ok; row_auto. Qed.

Lemma invalid_row_ok m r u :
  job_is_active m = true → row_ok m →
  row_le m (invalid_row r u m) ∧ row_ok (invalid_row r u m).
Proof. intros Ha Hok. apply finish_ok; row_auto. Qed.

Lemma invalid_pending_row_ok m r u :
  pending m → row_ok m →
  row_le m (invalid_pending_row r u m) ∧ row_ok (invalid_pending_row r u m).
Proof. intros Hp Hok. destruct (ok_pending _ Hok Hp) as (? & ? & _). apply finish_ok; row_auto. Qed.

Lemma cancelled_candidate_row_ok m u :
  pending m → row_ok m →
  row_le m (cancelled_candidate_row u m) ∧ row_ok (cancelled_candidate_row u m).
Proof. intros Hp Hok. destruct (ok_pending _ Hok Hp) as (? & ? & _). apply finish_ok; row_auto. Qed.

Lemma suspended_row_ok m j w u p :
  running m → row_ok m → from_str j = Some p → resume_pending p = true →
  row_le m (suspended_row j w u m) ∧ row_ok (suspended_row j w u m).
Proof.
  intros Hr Hok Hj Hp. destruct (ok_running _ Hok Hr) as (_ & _ & ? & _ & _). split.
  - apply row_le_leave; row_auto.
  - destruct Hok. apply row_ok_as_pending; row_auto. right. exists p. done.
Qed.

Lemma failed_row_retry_ok m k e r u rp :
  running m → row_ok m → jobs.attempt_count m < jobs.max_attempts m →
  let m' := failed_row (JobState.as_str Pending) k e r None u rp m in
  row_le m m' ∧ row_ok m'.
Proof.
  intros Hr Hok Hlt. split.
  - apply row_le_leave; destruct rp; row_auto.
  - destruct Hok. apply row_ok_as_pending; destruct rp; row_auto.
Qed.

Lemma failed_row_final_ok m k e r u f :
  running m → row_ok m →
  let m' := failed_row (JobState.as_str Failed) k e r (Some f) u None m in
  row_le m m' ∧ row_ok m'.
Proof. intros Hr Hok. apply finish_ok; row_auto. Qed.

Lemma reclaimed_row_retry_ok m u :
  running m → row_ok m → jobs.attempt_count m < jobs.max_attempts m →
  let m' := reclaimed_row (JobState.as_str Pending) u None m in row_le m m' ∧ row_ok m'.
Proof.
  intros Hr Hok Hlt. split.
  - apply row_le_leave; row_auto.
  - destruct Hok. apply row_ok_as_pending; row_auto.
Qed.

Lemma reclaimed_row_final_ok m u f :
  running m → row_ok m →
  let m' := reclaimed_row (JobState.as_str Failed) u (Some f) m in row_le m m' ∧ row_ok m'.
Proof. intros Hr Hok. apply finish_ok; row_auto. Qed.

Lemma claimed_row_ok m o e u att st rp :
  pending m → row_ok m → jobs.cancel_requested m = 0 →
  1 ≤ att ≤ jobs.max_attempts m → jobs.attempt_count m ≤ att ≤ jobs.attempt_count m + 1 →
  let m' := claimed_row o e u att (jobs.lease_generation m + 1) st rp m in
  row_le m m' ∧ row_ok m'.
Proof.
  intros Hp Hok Hc Hatt Hle. destruct (ok_pending _ Hok Hp) as (_ & _ & ? & _).
  pose proof (ok_max _ Hok). pose proof (ok_generation _ Hok). split.
  - constructor; destruct rp; simpl; try done; try lia;
      rewrite pending_active by done; done.
  - apply row_ok_as_running; destruct rp; row_auto.
Qed.
End RowUpdates.

Section Safe.
Context {C : Chrono} {U : Uuid} {J : SerdeJson JobPayload} {K : ScratchQuota}.

(** [UPDATE jobs] whose rows are justified by what is known of the store [s]. *)
Lemma wp_update p f Q s :
  (∀ s' m, evolves s s' → wf s' → m ∈ jobs_t s' → p m = true → row_ok m →
     row_le m (f m) ∧ row_ok (f m)) →
  (∀ n s', Q n s') →
  wp evolves evolves wf (jobs_update p f) Q s.
Proof.
  intros Hf HQ. apply wp_exec. intros s' Hev Hwf.
  destruct (update_ok p f s' Hwf) as [HG HI]; [eauto|]. simpl. auto.
Qed.

Lemma safe_update p f :
  (∀ m, p m = true → row_ok m → row_le m (f m) ∧ row_ok (f m)) → safe evolves wf (jobs_update p f).
Proof. intros Hf s. apply wp_update; auto. Qed.
End Safe.

#[export] Hint Resolve safe_update : safe.

(** Read statements and the clock. *)
Ltac job_step :=
  first
  [ safe_step
  | match goal with
    | |- safe _ _ Utc_now => apply safe_query, _
    | |- safe _ _ now_str => unfold now_str
    | |- safe _ _ (jobs_find_by_id _) => apply safe_query, _
    | |- safe _ _ (jobs_select _) => apply safe_query, _
    | |- safe _ _ (job_temp_paths_select _) => apply safe_query, _
    end ].

Section Operations.
Context {C : Chrono} {U : Uuid} {J : SerdeJson JobPayload} {K : ScratchQuota}.

Lemma fence_running f m : fence_matches f m = true → running m.
Proof. unfold fence_matches. intros H. where_clauses. done. Qed.

Lemma cancel_filter_active id f c m : cancel_filter id f c m = true → job_is_active m = true.
Proof.
  unfold cancel_filter. intros H. where_clauses. apply active_true.
  destruct f; where_clauses; [by right|by left].
Qed.

Lemma safe_heartbeat_job f n pr : safe evolves wf (heartbeat_job f n pr).
Proof.
  unfold heartbeat_job. repeat job_step. apply safe_update.
  intros ? Hf. apply heartbeat_row_ok. by eapply fence_running.
Qed.

Lemma safe_set_job_progress f pr : safe evolves wf (set_job_progress f pr).
Proof.
  unfold set_job_progress. repeat job_step. apply safe_update.
  intros ? Hf. apply progress_row_ok. by eapply fence_running.
Qed.

Lemma safe_complete_job f pr : safe evolves wf (complete_job f pr).
Proof.
  unfold complete_job. repeat job_step. apply safe_update.
  intros ? Hf. apply completed_row_ok. by eapply fence_running.
Qed.

Lemma safe_checkpoint_running_job f c : safe evolves wf (checkpoint_running_job f c).
Proof.
  unfold checkpoint_running_job. repeat job_step. apply safe_update.
  intros ? Hf. apply checkpoint_row_ok. by eapply fence_running.
Qed.

Lemma safe_mark_job_cancelled_cas id f k e c : safe evolves wf (mark_job_cancelled_cas id f k e c).
Proof.
  unfold mark_job_cancelled_cas. repeat job_step. apply safe_update.
  intros ? Hf. apply cancelled_row_ok. by eapply cancel_filter_active.
Qed.

Lemma safe_mark_invalid_job id r : safe evolves wf (mark_invalid_job id r).
Proof.
  unfold mark_invalid_job. repeat job_step. apply safe_update.
  intros ? Hf. apply invalid_row_ok. by where_clauses.
Qed.
Hint Resolve safe_mark_job_cancelled_cas safe_mark_invalid_job : safe.

Lemma safe_get_job id : safe evolves wf (get_job id).
Proof. unfold get_job. repeat job_step. Qed.
Hint Resolve safe_get_job : safe.

Lemma safe_list_jobs n : safe evolves wf (list_jobs n).
Proof. unfold list_jobs. repeat job_step. Qed.

Lemma safe_request_job_cancel id : safe evolves wf (request_job_cancel id).
Proof.
  unfold request_job_cancel, cancel_round. repeat job_step; apply safe_update;
    intros ? Hf; apply flag_cancel_row_ok; by where_clauses.
Qed.

Lemma safe_prune_terminal_jobs n : safe evolves wf (prune_terminal_jobs n).
Proof.
  unfold prune_terminal_jobs. repeat job_step. generalize (prune_filter (to_rfc3339
    (a - days (default 7 (i64_try_from n))))). intros p s. apply wp_exec.
  intros s' _ Hwf. destruct (delete_ok p s' Hwf) as [HG HI]. by split_and!.
Qed.

(** The row a fence names still has the attempt count read before the update. *)
Lemma same_generation_row s s' m m' :
  wf s → evolves s s' → m ∈ jobs_t s → m' ∈ jobs_t s' → jobs.id m' = jobs.id m →
  jobs.lease_generation m' = jobs.lease_generation m →
  jobs.attempt_count m' = jobs.attempt_count m ∧ jobs.max_attempts m' = jobs.max_attempts m.
Proof.
  intros Hwf Hev Hm Hm' Hid Hg. destruct (evolves_row s s' m m') as []; try done.
  split; [lia|done].
Qed.

Lemma wp_find_by_id (Q : option jobs.Model → Db → Prop) s id :
  (∀ s', evolves s s' → wf s' → Q None s') →
  (∀ s' m, evolves s s' → wf s' → m ∈ jobs_t s' → jobs.id m = id → Q (Some m) s') →
  wp evolves evolves wf (jobs_find_by_id id) Q s.
Proof.
  intros HN HS. apply wp_query; [apply _|]. intros s' Hev Hwf.
  destruct (List.find _ _) as [m|] eqn:Hf; [|auto].
  apply find_where in Hf as [Hm Hid%text_eq_true]. auto.
Qed.

Lemma wp_clock (Q : Z → Db → Prop) s :
  (∀ s' now, evolves s s' → wf s' → Q now s') → wp evolves evolves wf Utc_now Q s.
Proof. intros H. apply wp_query; [apply _|]. auto. Qed.

Lemma safe_suspend_job `{!SerdeLaws JobPayload} f c w : safe evolves wf (suspend_job f c w).
Proof.
  unfold suspend_job. repeat job_step. apply safe_update.
  match goal with H : to_string ?p = Some ?j |- _ =>
    destruct (serde_roundtrip p) as (j' & Hj' & Hrt); simplify_eq
  end.
  intros ? Hf Hok. eapply suspended_row_ok; [by eapply fence_running|done|exact Hrt|done].
Qed.

Lemma safe_fail_job f k e : safe evolves wf (fail_job f k e).
Proof.
  intros s. apply wp_bind, wp_find_by_id; [done|]. intros s1 m _ Hwf1 Hm Hid.
  destruct (negb (row_is_fenced f m)) eqn:Hfen; [done|].
  destruct (negb (jobs.cancel_requested m =? 0)).
  { apply wp_try_bind, safe_then; [apply safe_mark_job_cancelled_cas|]. by intros []. }
  apply wp_bind, wp_clock. intros s2 now Hev2 _. unfold row_is_fenced in Hfen. where_clauses.
  assert (Hsame : ∀ s' m', evolves s2 s' → m' ∈ jobs_t s' → fence_matches f m' = true →
     running m' ∧ jobs.attempt_count m' = jobs.attempt_count m
     ∧ jobs.max_attempts m' = jobs.max_attempts m).
  { intros s' m' Hev' Hm' Hf. pose proof (fence_running _ _ Hf). unfold fence_matches in Hf.
    where_clauses. split; [done|].
    apply (same_generation_row s1 s'); try done; [by transitivity s2|congruence..]. }
  destruct (_ <? _) eqn:Hretry; where_clauses; cbv zeta.
  - destruct (retry_payload true m) as [[j|]|]; [|done|];
      (apply wp_bind, wp_update; [|done]; intros s' m' Hev' _ Hm' Hf Hok;
       destruct (Hsame s' m' Hev' Hm' Hf) as (? & ? & ?); apply failed_row_retry_ok; [done..|lia]).
  - apply wp_bind, wp_update; [|done]. intros s' m' Hev' _ Hm' Hf Hok.
    apply failed_row_final_ok; [by eapply fence_running|done].
Qed.

(** The body of the reclaim loop, on a row read as [running] in [s1]. *)
Lemma wp_reclaim_one s1 s now acc m :
  wf s1 → evolves s1 s → m ∈ jobs_t s1 → running m →
  wp evolves evolves wf (reclaim_one now acc m) (λ _ _, True) s.
Proof.
  intros Hwf1 Hev Hm Hr. unfold reclaim_one. apply wp_bind.
  eapply wp_mono; [|apply (wp_history evolves wf _ (λ _ _, True) s1 s Hev)].
  2: { destruct (jobs.lease_expires_at m); [|done]. apply wp_bind. unfold parse_dt_io.
       destruct (parse_from_rfc3339 s0); [done|]. by apply wp_clock. }
  intros expired s2 [_ Hev2]. destruct expired; [|done]. cbv zeta. cbn [negb].
  destruct (negb (jobs.cancel_requested m =? 0)).
  { apply wp_try_bind, safe_then; [apply safe_mark_job_cancelled_cas|]. by intros [[]|]. }
  apply wp_bind, wp_update; [|by intros n s'; destruct (n =? 1)%nat].
  intros s' m' Hev' _ Hm' Hf Hok. unfold reclaim_filter in Hf. where_clauses.
  destruct (same_generation_row s1 s' m m') as [Ha Hmx]; try done; [by transitivity s2|].
  destruct (_ <=? _) eqn:Ht; where_clauses.
  - by apply reclaimed_row_final_ok.
  - apply reclaimed_row_retry_ok; [done..|lia].
Qed.

Lemma safe_reclaim_expired_leases   : safe evolves wf reclaim_expired_leases.
Proof.
  intros s. apply wp_bind, wp_clock. intros s0 now _ _.
  apply wp_bind. apply wp_query; [apply _|]. intros s1 _ Hwf1.
  eapply wp_mono; [done|]. apply (wp_for_each _ _ _ (evolves s1)); [|done].
  intros acc m s2 [Hm Hr]%elem_of_where Hev2. where_clauses.
  eapply wp_mono; [|apply (wp_history evolves wf _ (λ _ _, True) s1 s2 Hev2), (wp_reclaim_one s1)]; try done.
  by intros ? ? [_ ?].
Qed.

(** *** Scratch paths *)

Lemma temp_update_ok p f s :
  wf s →
  (∀ t, job_temp_paths.id (f t) = job_temp_paths.id t
        ∧ job_temp_paths.job_id (f t) = job_temp_paths.job_id t
        ∧ job_temp_paths.path (f t) = job_temp_paths.path t) →
  total_reserved (update_rows p f (job_temp_paths_t s)).2 ≤ scratch_quota →
  evolves s (s <| job_temp_paths_t := (update_rows p f (job_temp_paths_t s)).2 |>)
  ∧ wf (s <| job_temp_paths_t := (update_rows p f (job_temp_paths_t s)).2 |>).
Proof.
  intros Hwf Hf Hq.
  assert (Hm : ∀ {B} (g : job_temp_paths.Model → B), (∀ t, g (f t) = g t) →
     map g (update_rows p f (job_temp_paths_t s)).2 = map g (job_temp_paths_t s)).
  { intros B g Hg. unfold update_rows. simpl. rewrite map_map. apply map_ext.
    intros t. destruct (p t); auto. }
  pose proof (elem_of_update p f (job_temp_paths_t s)) as Hmem.
  pose proof (Hm _ (λ t, (job_temp_paths.job_id t, job_temp_paths.path t))) as Hkey.
  pose proof (Hm _ job_temp_paths.id) as Hid. clear Hm.
  revert Hq Hmem Hkey Hid. generalize (update_rows p f (job_temp_paths_t s)).2.
  intros l Hq Hmem Hkey Hid.
  split; constructor; simpl; try apply Hwf.
  - done.
  - intros m Hm. left. by exists m.
  - intros t (y & Hy & ->)%Hmem. destruct (wf_temp_fk _ Hwf y Hy) as (m & Hm & Hj).
    exists m. split; [done|]. destruct (p y); [|done]. by destruct (Hf y) as (_ & -> & _).
  - rewrite Hkey; [apply Hwf|]. intros t. by destruct (Hf t) as (_ & -> & ->).
  - rewrite Hid; [apply Hwf|]. intros t. apply Hf.
  - intros t (y & Hy & ->)%Hmem. pose proof (wf_temp_seq _ Hwf y Hy).
    destruct (p y); [|done]. by destruct (Hf y) as (-> & _ & _).
  - done.
Qed.

Lemma temp_delete_ok p s :
  wf s →
  evolves s (s <| job_temp_paths_t := (delete_rows p (job_temp_paths_t s)).2 |>)
  ∧ wf (s <| job_temp_paths_t := (delete_rows p (job_temp_paths_t s)).2 |>).
Proof.
  intros Hwf. unfold delete_rows. split; constructor; simpl; try apply Hwf; try done.
  - intros m Hm. left. by exists m.
  - intros t [Ht _]%elem_of_where. by apply Hwf.
  - eapply sublist_NoDup; [apply (wf_temp_key _ Hwf)|]. apply (fmap_sublist _), sublist_where.
  - eapply sublist_NoDup; [apply (wf_temp_id _ Hwf)|]. apply (fmap_sublist _), sublist_where.
  - intros t [Ht _]%elem_of_where. by apply Hwf.
  - etrans; [apply total_where|apply Hwf].
Qed.

Lemma total_app l l' : total_reserved (l ++ l') = total_reserved l + total_reserved l'.
Proof. induction l as [|r l IH]; simpl; [done|]. lia. Qed.

Lemma temp_insert_ok job path now_s b s s' :
  wf s → total_reserved (job_temp_paths_t s) + default 0 (u64_try_from b) ≤ scratch_quota →
  run (job_temp_paths_insert job path now_s b) s = (Ok (), s') → evolves s s' ∧ wf s'.
Proof.
  intros Hwf Hq. simpl. destruct (existsb _ (job_temp_paths_t s)) eqn:Hk; [discriminate|].
  destruct (existsb _ (jobs_t s)) eqn:Hj; [|discriminate]. simpl. intros [= <-].
  rewrite existsb_false in Hk. apply existsb_exists in Hj as (m & Hm%list_elem_of_In & Hj).
  where_clauses. split; constructor; simpl; try apply Hwf; try done.
  - intros m' Hm'. left. by exists m'.
  - intros t [Ht| ->%list_elem_of_singleton]%elem_of_app; [by apply Hwf|]. by exists m.
  - rewrite map_app. apply NoDup_app. split_and!; [apply Hwf| |apply NoDup_singleton].
    intros q (t & -> & Ht)%list_elem_of_fmap E%list_elem_of_singleton. injection E as E1 E2.
    specialize (Hk t Ht). simpl in Hk. rewrite E1, E2, !text_eq_refl in Hk. done.
  - rewrite map_app. apply NoDup_app. split_and!; [apply Hwf| |apply NoDup_singleton].
    intros i (t & -> & Ht)%list_elem_of_fmap E%list_elem_of_singleton.
    pose proof (wf_temp_seq _ Hwf t Ht). simpl in E. lia.
  - intros t [Ht| ->%list_elem_of_singleton]%elem_of_app; simpl; [|lia].
    pose proof (wf_temp_seq _ Hwf t Ht). lia.
  - rewrite total_app. simpl. unfold reserved at 1. simpl. lia.
Qed.

Lemma safe_unregister_job_temp_path j p : safe evolves wf (unregister_job_temp_path j p).
Proof.
  unfold unregister_job_temp_path. repeat job_step. intros s. apply wp_exec.
  intros s' _ Hwf. destruct (temp_delete_ok (same_path j p) s' Hwf) as [HG HI]. by split_and!.
Qed.
End Operations.
