(* ===== verification/JobTxn.v ===== *)
(** * The transactions of the queue: admission, claim and scratch reservation

    Abstract specifications of the three serialized transactions ([enqueue_effect],
    [claim_effect]) and the proofs that the code implements them from every well-formed store.
    A transaction runs alone ([Concurrency.alone]): it holds the [job-queue] slot. *)

From stdpp Require Import base option list strings gmap pretty sorting.
From Stdlib Require Import ZArith Lia.
From S2P Require Import Prelude Schema Store Concurrency JobModels JobQueue JobInvariant JobSafety.

Local Open Scope Z_scope.

Section Admission.
Context {C : Chrono} {U : Uuid} {J : SerdeJson JobPayload} {K : ScratchQuota}.

Lemma alone_lock (Q : result unit → Db → Prop) s :
  (∀ g, Q (Ok ()) (s <| bookclerk_slots_t := g |>)) → alone lock_job_queue Q s.
Proof.
  intros H. apply alone_run. simpl. destruct (bookclerk_slots_t s !! JOB_QUEUE_SLOT); apply H.
Qed.

(** [pending] and [running] rows: what the admission cap counts. *)
Definition active_count (s : Db) : Z := Z.of_nat (length (List.filter job_is_active (jobs_t s))).

(** What admission does, by case. *)
Inductive enqueue_effect (s : Db) (spec : EnqueueJobSpec)
    : result EnqueueOutcome → list jobs.Model → Prop :=
| enqueue_invalid_kind :
    spec_kind spec = Invalid →
    enqueue_effect s spec (Err (Other "cannot enqueue an invalid job kind")) (jobs_t s)
| enqueue_bad_version :
    spec_kind spec ≠ Invalid → v (spec_payload spec) ≠ JOB_PAYLOAD_VERSION →
    enqueue_effect s spec
      (Err (Other ("unsupported job payload version " +:+ pretty (v (spec_payload spec)))))
      (jobs_t s)
| enqueue_duplicate m job :
    spec_kind spec ≠ Invalid → v (spec_payload spec) = JOB_PAYLOAD_VERSION →
    m ∈ jobs_t s → job_is_active m = true →
    jobs.dedup_key m = dedup_key (spec_kind spec) (spec_payload spec) →
    try_map_job (clock s) m = inr job →
    enqueue_effect s spec (Ok (Duplicate (jobs.id m))) (jobs_t s)
| enqueue_unreadable m reason :
    spec_kind spec ≠ Invalid → v (spec_payload spec) = JOB_PAYLOAD_VERSION →
    m ∈ jobs_t s → job_is_active m = true →
    jobs.dedup_key m = dedup_key (spec_kind spec) (spec_payload spec) →
    try_map_job (clock s) m = inl reason →
    enqueue_effect s spec (Err (Other ("unreadable active job: " +:+ reason))) (jobs_t s)
| enqueue_full :
    spec_kind spec ≠ Invalid → v (spec_payload spec) = JOB_PAYLOAD_VERSION →
    (∀ m, m ∈ jobs_t s → job_is_active m = true →
       jobs.dedup_key m ≠ dedup_key (spec_kind spec) (spec_payload spec)) →
    Z.max (spec_max_pending spec) 0 ≤ active_count s →
    enqueue_effect s spec (Ok QueueFull) (jobs_t s)
| enqueue_created :
    spec_kind spec ≠ Invalid → v (spec_payload spec) = JOB_PAYLOAD_VERSION →
    (∀ m, m ∈ jobs_t s → job_is_active m = true →
       jobs.dedup_key m ≠ dedup_key (spec_kind spec) (spec_payload spec)) →
    active_count s < Z.max (spec_max_pending spec) 0 →
    enqueue_effect s spec (Ok (Created (mk_job_id (spec_kind spec) (uuids_drawn s))))
      (jobs_t s ++
       [new_job_row spec (mk_job_id (spec_kind spec) (uuids_drawn s))
          (default bare_envelope (to_string (spec_payload spec)))
          (dedup_key (spec_kind spec) (spec_payload spec))
          (to_rfc3339 (clock s)) (to_rfc3339 (default (clock s) (spec_run_after spec)))]).

(** Decoding keeps the id. *)
Lemma try_map_job_id now m job : try_map_job now m = inr job → rec_id job = jobs.id m.
Proof. unfold try_map_job. intros H. by repeat case_match; simplify_eq. Qed.

(** The lookup by dedup key, on a store where at most one active row has the key. *)
Lemma alone_find_active key (Q : result (option JobRecord) → Db → Prop) s :
  (∀ m, m ∈ jobs_t s → job_is_active m = true → jobs.dedup_key m = key →
     (∀ job, try_map_job (clock s) m = inr job → Q (Ok (Some job)) s)
     ∧ (∀ reason, try_map_job (clock s) m = inl reason →
          Q (Err (Other ("unreadable active job: " +:+ reason))) s)) →
  ((∀ m, m ∈ jobs_t s → job_is_active m = true → jobs.dedup_key m ≠ key) → Q (Ok None) s) →
  alone (find_active_job_by_dedup_on key) Q s.
Proof.
  intros HS HN. apply alone_run. unfold find_active_job_by_dedup_on. simpl.
  destruct (order_by _ _) as [|m l] eqn:Ho; simpl.
  - apply HN. intros m Hm Ha Hk. apply (not_elem_of_nil m). rewrite <-Ho.
    apply elem_of_order_by, elem_of_where. rewrite Ha, Hk, text_eq_refl. done.
  - assert (m ∈ m :: l) as Hm by left. rewrite <-Ho in Hm.
    apply elem_of_order_by, elem_of_where in Hm as [Hm Hp]. where_clauses.
    destruct (HS m) as [HR HU]; [done..|].
    destruct (try_map_job (clock s) m) eqn:E; simpl; auto.
Qed.

Lemma mk_job_id_inj `{!UuidLaws U} k n k' n' : mk_job_id k n = mk_job_id k' n' → k = k' ∧ n = n'.
Proof.
  unfold mk_job_id. destruct k, k'; simpl; intros [=]; split; try done; by apply (inj new_v4).
Qed.

(** The count the code compares saturates at [i64::MAX]; the cap is an [i64]. *)
Lemma admission_test n cap :
  cap ≤ i64_MAX → (Z.max cap 0 <=? default i64_MAX (i64_try_from n)) = (Z.max cap 0 <=? n).
Proof. unfold i64_try_from, i64_MAX. split_if; simpl; [done|]. lia. Qed.

(** The admission transaction implements its specification. *)
Lemma enqueue_alone `{!UuidLaws U} s spec :
  wf s → spec_max_pending spec ≤ i64_MAX →
  alone (enqueue_job_on spec) (λ r s', enqueue_effect s spec r
     match r with Ok _ => jobs_t s' | Err _ => jobs_t s end
     ∧ job_temp_paths_t s' = job_temp_paths_t s ∧ job_temp_paths_seq s' = job_temp_paths_seq s
     ∧ uuids_drawn s' = match r with Ok (Created _) => S (uuids_drawn s) | _ => uuids_drawn s end) s.
Proof.
  intros Hwf Hcap. unfold enqueue_job_on. apply wp_try_bind, alone_lock. intros g.
  destruct (decide (spec_kind spec = Invalid)) as [Hinv|Hinv].
  { split_and!; by try constructor. }
  destruct (negb (v (spec_payload spec) =? JOB_PAYLOAD_VERSION)) eqn:Hv; where_clauses.
  { split_and!; by try constructor. }
  cbv zeta. apply wp_try_bind, alone_find_active.
  { simpl. intros m Hm Ha Hk. split.
    - intros job E. rewrite (try_map_job_id _ _ _ E). split_and!; try done. by econstructor.
    - intros reason E. split_and!; try done. by econstructor. }
  intros Hnone. unfold count_active_jobs_on. apply wp_try_bind, wp_bind, alone_query.
  cbn [wp]. change (Z.of_nat _) with (active_count s). rewrite admission_test by done.
  destruct (_ <=? active_count s) eqn:Hfull; where_clauses.
  { split_and!; [simpl in *; by apply enqueue_full|done..]. }
  apply wp_bind, alone_query. apply wp_bind, alone_exec. apply wp_bind, alone_exec.
  simpl in Hnone |- *.
  rewrite (proj2 (existsb_false (λ r, text_eq (jobs.id r) _) (jobs_t s))).
  2: { intros m Hm. apply text_eq_false. intros E. apply (wf_drawn _ Hwf m Hm).
       rewrite E. by exists (spec_kind spec), (uuids_drawn s). }
  rewrite (proj2 (existsb_false (λ r, text_eq (jobs.dedup_key r) _ && _) (jobs_t s))).
  2: { intros m Hm. apply not_true_iff_false. intros E. where_clauses. by apply (Hnone m). }
  simpl. split_and!; try done. by apply enqueue_created.
Qed.

(** Admitting a row under a freshly drawn id keeps the invariant. *)
Lemma append_ok `{!UuidLaws U} s s' k m :
  wf s → jobs.id m = mk_job_id k (uuids_drawn s) → row_ok m →
  (∀ r, r ∈ jobs_t s → job_is_active r = true → jobs.dedup_key r ≠ jobs.dedup_key m) →
  jobs_t s' = jobs_t s ++ [m] → job_temp_paths_t s' = job_temp_paths_t s →
  job_temp_paths_seq s' = job_temp_paths_seq s → uuids_drawn s' = S (uuids_drawn s) →
  evolves s s' ∧ wf s'.
Proof.
  intros Hwf Hid Hok Hdup Hj Ht Hseq Hd.
  assert (Hmem : ∀ x, x ∈ jobs_t s' ↔ x ∈ jobs_t s ∨ x = m).
  { intros x. by rewrite Hj, elem_of_app, list_elem_of_singleton. }
  split; constructor; rewrite ?Ht, ?Hseq, ?Hd; try apply Hwf; try lia.
  - intros x [Hx| ->]%Hmem; [left; by exists x|]. right. rewrite Hid. by exists k, (uuids_drawn s).
  - rewrite Hj, map_app. apply NoDup_app. split_and!; [apply Hwf| |apply NoDup_singleton].
    intros i (x & -> & Hx)%list_elem_of_fmap E%list_elem_of_singleton.
    apply (wf_drawn _ Hwf x Hx). rewrite E, Hid. by exists k, (uuids_drawn s).
  - intros x [Hx| ->]%Hmem; [by apply Hwf|done].
  - intros x y [Hx| ->]%Hmem [Hy| ->]%Hmem Ha Hb Hk; [by apply (wf_dedup _ Hwf)| | |done].
    + by destruct (Hdup x Hx Ha).
    + by destruct (Hdup y Hy Hb).
  - intros x Hx (k' & n & Hn & E). rewrite Hd in Hn. apply Hmem in Hx as [Hx| ->].
    + apply (wf_drawn _ Hwf x Hx). exists k', n. split; [lia|done].
    + rewrite Hid in E. apply mk_job_id_inj in E as [_ <-]. lia.
  - intros t (x & Hx & Hxt)%(wf_temp_fk _ Hwf). exists x. split; [|done]. apply Hmem. by left.
Qed.

Lemma new_job_row_ok spec id p k n r : row_ok (new_job_row spec id p k n r).
Proof. apply row_ok_as_pending; simpl; try done; lia. Qed.

Lemma safe_enqueue_job `{!UuidLaws U} spec :
  spec_max_pending spec ≤ i64_MAX → safe evolves wf (enqueue_job spec).
Proof.
  intros Hcap. apply safe_txn; [apply _|]. intros s Hwf. eapply wp_mono; [|by apply enqueue_alone].
  intros [o|e] s'; [|done]. intros (Heff & Ht & Hseq & Hd).
  inversion Heff; subst; try (apply untouched_ok; [done|]; split_and!; by try lia).
  eapply (append_ok s s' (spec_kind spec)); try done; [reflexivity|apply new_job_row_ok|done].
Qed.
End Admission.

(** ** Claim *)

Section Claim.
Context {C : Chrono} {U : Uuid} {J : SerdeJson JobPayload} {K : ScratchQuota}.

(** The row decodes as a command this build understands. *)
Definition readable (m : jobs.Model) : bool :=
  match try_map_job 0 m with inl _ => false | inr _ => true end.

Lemma try_map_readable now m :
  readable m = match try_map_job now m with inl _ => false | inr _ => true end.
Proof. unfold readable, try_map_job. by repeat case_match; simplify_eq. Qed.

(** A row a worker of class [cls] may start at [now_s]. *)
Definition claimable (cls : JobResourceClass) (now_s : string) (m : jobs.Model) : bool :=
  claim_candidate cls now_s m && (jobs.cancel_requested m =? 0) && readable m.

(** The scan order of the claim: the eight best due rows. *)
Definition candidates (cls : JobResourceClass) (now_s : string) (s : Db) : list jobs.Model :=
  take 8 (order_by claim_order (List.filter (claim_candidate cls now_s) (jobs_t s))).

(** Rows only leave the queue, and only those that must never run. *)
Record tidied (s s' : Db) : Prop := {
  tidied_evolves : evolves s s';
  tidied_wf : wf s';
  tidied_rows m : m ∈ jobs_t s → m ∈ jobs_t s' ∨
    (pending m ∧ (readable m = false ∨ jobs.cancel_requested m ≠ 0)
     ∧ ∃ m', m' ∈ jobs_t s' ∧ jobs.id m' = jobs.id m ∧ terminal m');
}.

(** The row a claim leaves for [m]. *)
Definition lease_granted (m m' : jobs.Model) (owner expires now_s : string) : Prop :=
  ∃ json, m' = claimed_row owner expires now_s (next_attempt m) (jobs.lease_generation m + 1)
                 (default now_s (jobs.started_at m)) json m
    ∧ (json = None ∧ resuming m = false
       ∨ ∃ p j, from_str (jobs.payload m) = Some p ∧ json = Some j
           ∧ from_str j = Some (p <| resume_pending := false |>)).

(** What a claim does, by case. *)
Inductive claim_effect (s s' : Db) (cls : JobResourceClass) (owner expires now_s : string)
    : option JobRecord → Prop :=
| claim_granted m m' job :
    m ∈ jobs_t s → claimable cls now_s m = true →
    (∀ m2, m2 ∈ jobs_t s → claimable cls now_s m2 = true → claim_order m m2 = true) →
    m' ∈ jobs_t s' → lease_granted m m' owner expires now_s →
    try_map_job (clock s) m' = inr job →
    (∀ m2, m2 ∈ jobs_t s → jobs.id m2 ≠ jobs.id m →
       m2 ∈ jobs_t s' ∨ (pending m2 ∧ (readable m2 = false ∨ jobs.cancel_requested m2 ≠ 0)
         ∧ ∃ m2', m2' ∈ jobs_t s' ∧ jobs.id m2' = jobs.id m2 ∧ terminal m2')) →
    claim_effect s s' cls owner expires now_s (Some job)
| claim_nothing :
    (∀ m, m ∈ candidates cls now_s s → claimable cls now_s m = false) →
    tidied s s' →
    claim_effect s s' cls owner expires now_s None.

Lemma tidied_refl s s' : wf s → queue_untouched s s' → tidied s s'.
Proof.
  intros Hwf Hq. destruct (untouched_ok s s' Hwf Hq). constructor; [done..|].
  intros m Hm. left. by destruct Hq as (-> & _).
Qed.

Lemma tidied_trans s s1 s2 : tidied s s1 → tidied s1 s2 → tidied s s2.
Proof.
  intros [He1 Hw1 Hr1] [He2 Hw2 Hr2]. constructor; [by transitivity s1|done|].
  intros m Hm. destruct (Hr1 m Hm) as [Hm1|(Hp & Hc & m1 & Hm1 & Hid & Ht)].
  - destruct (Hr2 m Hm1) as [?|(? & ? & ?)]; auto.
  - right. split_and!; [done..|]. exists m1. split; [|done].
    destruct (Hr2 m1 Hm1) as [?|(Hp1 & _)]; [done|]. by destruct (pending_excl _ Hp1).
Qed.

(** The [WHERE] clause of the claim's mutations selects the row of [model]. *)
Lemma still_pending_true model m :
  still_pending model m = true ↔ jobs.id m = jobs.id model ∧ pending m.
Proof. unfold still_pending. by rewrite andb_true_iff, !text_eq_true. Qed.

Lemma still_pending_other model f x l :
  x ∈ l → jobs.id x ≠ jobs.id model → x ∈ (update_rows (still_pending model) f l).2.
Proof.
  intros Hx Hne. apply elem_of_update. exists x. split; [done|].
  destruct (still_pending model x) eqn:E; [|done]. by apply still_pending_true in E as [].
Qed.

Lemma still_pending_hit model f l :
  model ∈ l → pending model → f model ∈ (update_rows (still_pending model) f l).2.
Proof.
  intros Hm Hp. apply elem_of_update. exists model. split; [done|].
  by rewrite (proj2 (still_pending_true model model)).
Qed.

(** Closing the row of [model] that must never run. *)
Lemma tidied_close s model f :
  wf s → model ∈ jobs_t s → pending model →
  (readable model = false ∨ jobs.cancel_requested model ≠ 0) →
  (∀ m, pending m → row_ok m → row_le m (f m) ∧ row_ok (f m)) → terminal (f model) →
  let s' := s <| jobs_t := (update_rows (still_pending model) f (jobs_t s)).2 |> in
  tidied s s' ∧ (∀ x, x ∈ jobs_t s → jobs.id x ≠ jobs.id model → x ∈ jobs_t s').
Proof.
  intros Hwf Hm Hp Hbad Hf Ht s'.
  assert (Hkeep : ∀ x, x ∈ jobs_t s → jobs.id x ≠ jobs.id model → x ∈ jobs_t s').
  { intros x Hx Hne. by apply still_pending_other. }
  destruct (update_ok (still_pending model) f s Hwf) as [He Hw].
  { intros m _ [_ Hpm]%still_pending_true. by apply Hf. }
  split; [constructor; [done..|]|done]. intros x Hx.
  destruct (decide (jobs.id x = jobs.id model)) as [E|E]; [right|left; auto].
  rewrite (NoDup_key jobs.id (jobs_t s) x model) in * by (done || apply Hwf).
  split_and!; [done..|]. exists (f model). split_and!; [| |done].
  - by apply still_pending_hit.
  - apply Hf; [done|]. by apply (wf_rows _ Hwf).
Qed.

Lemma unknown_class_unreadable m :
  is_in (jobs.resource_class m) JobResourceClass.ALL = false → readable m = false.
Proof.
  unfold readable, try_map_job, is_in, JobResourceClass.ALL, JobResourceClass.parse. simpl.
  intros H. repeat (apply orb_false_iff in H as [-> H]). by repeat case_match.
Qed.

Lemma candidate_class cls now_s m :
  claim_candidate cls now_s m = true → is_in (jobs.resource_class m) JobResourceClass.ALL = true.
Proof. unfold claim_candidate. intros H. where_clauses. rewrite H. by destruct cls. Qed.

Lemma candidate_pending cls now_s m : claim_candidate cls now_s m = true → pending m.
Proof. unfold claim_candidate. intros H. by where_clauses. Qed.

(** Closing rows of unknown class leaves the scan of every class as it was. *)
Lemma alone_sanitize cls now_s (Q : result unit → Db → Prop) s :
  wf s →
  (∀ s', tidied s s' → clock s' = clock s →
     candidates cls now_s s' = candidates cls now_s s → Q (Ok ()) s') →
  alone (sanitize_unreadable_pending_on now_s) Q s.
Proof.
  intros Hwf HQ. unfold sanitize_unreadable_pending_on. apply wp_bind, alone_query.
  set (suspect := λ m, text_eq (jobs.state m) (JobState.as_str Pending)
                       && negb (is_in (jobs.resource_class m) JobResourceClass.ALL)).
  apply (alone_for_each (λ _ xs s', tidied s s' ∧ clock s' = clock s
    ∧ List.filter (claim_candidate cls now_s) (jobs_t s') =
      List.filter (claim_candidate cls now_s) (jobs_t s)
    ∧ NoDup (map jobs.id xs) ∧ ∀ x, x ∈ xs → x ∈ jobs_t s' ∧ suspect x = true)).
  - intros [] model xs s1 (Htidy & Hclk & Hfil & Hnd & Hxs).
    destruct (Hxs model) as [Hm Hsus]; [left|]. unfold suspect in Hsus. where_clauses.
    apply wp_bind, alone_exec. cbn [wp fst snd].
    destruct (tidied_close s1 model
      (invalid_pending_row ("unknown job resource class `" +:+ jobs.resource_class model +:+ "`") now_s))
      as [Htidy1 Hkeep]; try done.
    { apply Htidy. } { left. by apply unknown_class_unreadable. }
    { intros. by apply invalid_pending_row_ok. } { auto with store. }
    apply NoDup_cons in Hnd as [Hnot Hnd]. split_and!; [by eapply tidied_trans|done| |done|].
    + rewrite <-Hfil. apply where_update. intros x Hx E. where_clauses.
      split; [|apply not_true_iff_false; by intros ?%candidate_pending].
      rewrite (NoDup_key jobs.id (jobs_t s1) x model) by (done || apply Htidy).
      apply not_true_iff_false. intros E%candidate_class. congruence.
    + intros x Hx. destruct (Hxs x) as [Hx1 Hsx]; [by right|]. split; [|done].
      apply Hkeep; [done|]. intros E. apply Hnot. rewrite <-E. by apply list_elem_of_fmap_2.
  - intros [] s' (Htidy & Hclk & Hfil & _). apply HQ; [done..|]. unfold candidates. by rewrite Hfil.
  - split_and!; [by apply tidied_refl|done|done| |].
    + eapply sublist_NoDup; [apply Hwf|]. apply (fmap_sublist _).
      etrans; [apply sublist_take|apply sublist_where].
    + intros x Hx. apply elem_of_where. by eapply elem_of_sublist, sublist_take.
Qed.

Lemma readable_iff m :
  readable m = true ↔
  is_Some (JobKind.parse (jobs.kind m)) ∧ is_Some (JobState.parse (jobs.state m))
  ∧ is_Some (JobResourceClass.parse (jobs.resource_class m))
  ∧ ∃ p, from_str (jobs.payload m) = Some p ∧ v p = JOB_PAYLOAD_VERSION.
Proof.
  unfold readable, try_map_job. split.
  - repeat case_match; try done. intros _. where_clauses. split_and!; eauto.
  - intros ([? ->] & [? ->] & [? ->] & p & -> & ->). simpl. by destruct (trigger p).
Qed.

(** The attempt a claim starts is within the budget. *)
Lemma next_attempt_ok m :
  row_ok m → pending m →
  1 ≤ next_attempt m ≤ jobs.max_attempts m
  ∧ jobs.attempt_count m ≤ next_attempt m ≤ jobs.attempt_count m + 1.
Proof.
  intros [] Hp. destruct (ok_pending Hp) as (_ & _ & _ & Hb). unfold next_attempt.
  destruct (resuming m) eqn:E; [lia|]. destruct Hb as [?|(p & Hp' & Hr)]; [lia|].
  unfold resuming in E. rewrite Hp' in E. simpl in E. congruence.
Qed.

Lemma resumed_payload_ok `{!SerdeLaws JobPayload} m :
  readable m = true →
  resumed_payload m = None ∧ resuming m = false
  ∨ ∃ p j, from_str (jobs.payload m) = Some p ∧ resumed_payload m = Some (Some j)
      ∧ from_str j = Some (p <| resume_pending := false |>).
Proof.
  intros (_ & _ & _ & p & Hp & _)%readable_iff. unfold resumed_payload.
  destruct (resuming m); [right|by left]. rewrite Hp. simpl.
  destruct (serde_roundtrip (p <| resume_pending := false |>)) as (j & -> & Hj). eauto.
Qed.

Lemma readable_claimed m m' o e n :
  readable m = true → lease_granted m m' o e n → readable m' = true.
Proof.
  rewrite !readable_iff. intros (Hk & _ & Hc & p & Hp & Hv) (json & -> & Hj).
  destruct Hj as [[-> _]|(q & j & Hq & -> & Hj)]; simpl; split_and!; eauto.
  eexists. split; [exact Hj|]. by simplify_eq.
Qed.

(** The conditional mutation, run alone on a row read as pending, hits that row. *)
Lemma alone_claim_cas s model f job Q :
  wf s → model ∈ jobs_t s → pending model →
  row_le model (f model) ∧ row_ok (f model) → try_map_job (clock s) (f model) = inr job →
  (∀ s', evolves s s' → wf s' → f model ∈ jobs_t s' →
     (∀ x, x ∈ jobs_t s → jobs.id x ≠ jobs.id model → x ∈ jobs_t s') → Q (Ok (Some job)) s') →
  alone (claim_cas model f) Q s.
Proof.
  intros Hwf Hm Hp Hf Hjob HQ.
  assert (Hupd : ∀ m, m ∈ jobs_t s → still_pending model m = true → m = model).
  { intros m Hm' [Hid _]%still_pending_true.
    eapply (NoDup_key jobs.id); [apply Hwf|done..]. }
  destruct (update_ok (still_pending model) f s Hwf) as [He Hw].
  { intros m Hm' E _. by rewrite (Hupd m Hm' E). }
  unfold claim_cas. apply wp_bind, alone_exec. cbn [fst snd update_rows].
  rewrite (where_key_1 jobs.id _ model); [|apply Hwf|done|by apply still_pending_true|].
  2: { by intros y [? _]%still_pending_true. }
  cbn [negb Nat.eqb]. apply wp_bind, alone_query.
  rewrite (find_by_key jobs.id _ (f model)).
  - apply wp_bind, alone_query. cbn [clock set_field set_jobs_t]. rewrite Hjob.
    apply HQ; [done..|by apply still_pending_hit|]. intros. by apply still_pending_other.
  - apply Hw.
  - by apply still_pending_hit.
  - by rewrite (le_id _ _ (proj1 Hf)).
Qed.

(** One candidate: granted when it may run, closed when it must not. *)
Lemma alone_claim_one `{!SerdeLaws JobPayload} s owner expires now_s model Q :
  wf s → model ∈ jobs_t s → pending model →
  (readable model = false ∨ jobs.cancel_requested model ≠ 0 →
   ∀ s', tidied s s' → clock s' = clock s →
     (∀ x, x ∈ jobs_t s → jobs.id x ≠ jobs.id model → x ∈ jobs_t s') → Q (Ok None) s') →
  (readable model = true → jobs.cancel_requested model = 0 →
   ∀ m' job s', lease_granted model m' owner expires now_s → evolves s s' → wf s' →
     m' ∈ jobs_t s' → try_map_job (clock s) m' = inr job →
     (∀ x, x ∈ jobs_t s → jobs.id x ≠ jobs.id model → x ∈ jobs_t s') → Q (Ok (Some job)) s') →
  alone (claim_one owner expires now_s model) Q s.
Proof.
  intros Hwf Hm Hp Hbad Hgood. unfold claim_one.
  destruct (negb (jobs.cancel_requested model =? 0)) eqn:Hc; where_clauses.
  { apply wp_bind, alone_exec. cbn [wp fst snd].
    destruct (tidied_close s model (cancelled_candidate_row now_s)) as [Ht Hk]; auto with store.
    intros. by apply cancelled_candidate_row_ok. }
  apply wp_bind, alone_query. pose proof (try_map_readable (clock s) model) as Hread.
  destruct (try_map_job (clock s) model) as [reason|rec].
  { apply wp_try_bind, wp_bind, alone_exec. cbn [wp fst snd].
    destruct (tidied_close s model (invalid_pending_row reason now_s)) as [Ht Hk]; auto with store.
    intros. by apply invalid_pending_row_ok. }
  pose proof (wf_rows _ Hwf _ Hm) as Hok. destruct (next_attempt_ok model Hok Hp).
  assert (Hcas : ∀ json, mjoin (resumed_payload model) = json →
    alone (claim_cas model (claimed_row owner expires now_s (next_attempt model)
       (jobs.lease_generation model + 1) (default now_s (jobs.started_at model)) json)) Q s).
  { intros json Hj. set (m' := claimed_row owner expires now_s (next_attempt model)
       (jobs.lease_generation model + 1) (default now_s (jobs.started_at model)) json model).
    assert (Hg : lease_granted model m' owner expires now_s).
    { exists json. split; [done|]. destruct (resumed_payload_ok model Hread)
        as [[E ?]|(p & j & ? & E & ?)]; rewrite E in Hj; simpl in Hj; subst; eauto 10. }
    pose proof (readable_claimed _ _ _ _ _ Hread Hg) as Hr'.
    rewrite (try_map_readable (clock s)) in Hr'.
    destruct (try_map_job (clock s) m') as [|job] eqn:Hjob; [done|].
    eapply alone_claim_cas; try done; [by apply claimed_row_ok|]. intros. by eapply Hgood. }
  destruct (resumed_payload_ok model Hread) as [[E _]|(p & j & _ & E & _)];
    rewrite E in *; by apply Hcas.
Qed.

Lemma claim_order_total a b : claim_order a b = true ∨ claim_order b a = true.
Proof.
  unfold claim_order. destruct (text_le_total (jobs.created_at a) (jobs.created_at b)) as [E|E];
    rewrite E; rewrite ?andb_true_r; lia.
Qed.

Lemma claim_order_true a b :
  claim_order a b = true ↔ jobs.priority b < jobs.priority a
    ∨ jobs.priority a = jobs.priority b ∧ text_le (jobs.created_at a) (jobs.created_at b) = true.
Proof. unfold claim_order. rewrite orb_true_iff, andb_true_iff, Z.ltb_lt, Z.eqb_eq. done. Qed.

Lemma claim_order_trans a b c :
  claim_order a b = true → claim_order b c = true → claim_order a c = true.
Proof.
  rewrite !claim_order_true. intros [?|[? ?]] [?|[? ?]]; [left; lia..|].
  right. split; [lia|]. by eapply text_le_trans.
Qed.

(** The first claimable row of the scan is the best claimable row of the table. *)
Lemma first_claimable_best cls now_s s done m rest m2 :
  candidates cls now_s s = done ++ m :: rest →
  (∀ x, x ∈ done → claimable cls now_s x = false) →
  m2 ∈ jobs_t s → claimable cls now_s m2 = true → claim_order m m2 = true.
Proof.
  unfold candidates. intros Hc Hd Hm2 Hcl.
  set (sorted := order_by claim_order (List.filter (claim_candidate cls now_s) (jobs_t s))) in *.
  assert (Hin : m2 ∈ sorted).
  { apply elem_of_order_by, elem_of_where. split; [done|]. unfold claimable in Hcl. by where_clauses. }
  assert (Hs : StronglySorted (λ a b, claim_order a b = true) sorted).
  { apply order_by_sorted; [apply claim_order_total|apply claim_order_trans]. }
  rewrite <-(take_drop 8 sorted), Hc in Hin, Hs. rewrite <-app_assoc in Hin, Hs. simpl in Hin, Hs.
  apply elem_of_app in Hin as [Hin|Hin]; [rewrite (Hd _ Hin) in Hcl; done|].
  apply StronglySorted_app in Hs as (_ & _ & Hs). apply StronglySorted_inv in Hs as [_ Hs].
  apply elem_of_cons in Hin as [->|Hin].
  - destruct (claim_order_total m m); done.
  - rewrite Forall_forall in Hs. by apply Hs.
Qed.

Definition claim_expires (s : Db) (lease_secs : Z) : string :=
  to_rfc3339 (clock s + seconds (default 60 (i64_try_from lease_secs))).

Lemma candidates_elem cls now_s s x :
  x ∈ candidates cls now_s s → x ∈ jobs_t s ∧ claim_candidate cls now_s x = true.
Proof.
  unfold candidates. intros Hx. eapply elem_of_sublist in Hx; [|apply sublist_take].
  by apply elem_of_order_by, elem_of_where in Hx.
Qed.

Lemma candidates_NoDup cls now_s s : wf s → NoDup (map jobs.id (candidates cls now_s s)).
Proof.
  intros Hwf. unfold candidates. eapply sublist_NoDup; [|apply (fmap_sublist _), sublist_take].
  assert (Hp : map jobs.id (order_by claim_order (List.filter (claim_candidate cls now_s) (jobs_t s)))
    ≡ₚ map jobs.id (List.filter (claim_candidate cls now_s) (jobs_t s))).
  { apply Permutation_map, order_by_perm. }
  rewrite Hp. eapply sublist_NoDup; [apply Hwf|]. apply (fmap_sublist _), sublist_where.
Qed.

(** The invariant of the candidate loop: [xs] are still to visit. *)
Definition claim_loop (s : Db) (cls : JobResourceClass) (now_s : string)
    (xs : list jobs.Model) (s' : Db) : Prop :=
  tidied s s' ∧ clock s' = clock s ∧ (∀ x, x ∈ xs → x ∈ jobs_t s')
  ∧ ∃ seen, candidates cls now_s s = seen ++ xs
            ∧ ∀ x, x ∈ seen → claimable cls now_s x = false.

Lemma alone_claim_loop `{!SerdeLaws JobPayload} s s1 cls owner expires now_s x xs :
  wf s → claim_loop s cls now_s (x :: xs) s1 →
  alone (claim_one owner expires now_s x)
    (λ r s', match r with
             | Ok None => claim_loop s cls now_s xs s'
             | Ok (Some job) => claim_effect s s' cls owner expires now_s (Some job)
                                ∧ evolves s s' ∧ wf s'
             | Err _ => False
             end) s1.
Proof.
  intros Hwf (Ht & Hclk & Hxs & seen & Hc & Hseen).
  assert (Hx : x ∈ candidates cls now_s s) by (rewrite Hc; set_solver).
  apply candidates_elem in Hx as [Hx Hcand].
  apply alone_claim_one; [apply Ht|apply Hxs; left|by eapply candidate_pending|..].
  - intros Hbad s' Ht' Hclk' Hkeep. split_and!; [by eapply tidied_trans|congruence| |].
    + intros y Hy. apply Hkeep; [apply Hxs; by right|]. intros E.
      pose proof (candidates_NoDup cls now_s s Hwf) as Hnd. rewrite Hc, map_app in Hnd.
      apply NoDup_app in Hnd as (_ & _ & Hnd). apply NoDup_cons in Hnd as [Hnot _].
      apply Hnot. rewrite <-E. by apply list_elem_of_fmap_2.
    + exists (seen ++ [x]). rewrite <-app_assoc. split; [done|].
      intros y [Hy| ->%list_elem_of_singleton]%elem_of_app; [auto|].
      unfold claimable. destruct Hbad as [->|Hbad%Z.eqb_neq]; [apply andb_false_r|].
      by rewrite Hbad, andb_false_r.
  - intros Hr Hcan m' job s' Hg Hev Hwf' Hm' Hjob Hkeep.
    split_and!; [|transitivity s1; [apply Ht|done]|done].
    eapply (claim_granted s s' cls owner expires now_s x m'); try done.
    + unfold claimable. by rewrite Hcand, Hcan, Hr.
    + intros m2 Hm2 Hcl. by eapply first_claimable_best.
    + by rewrite <-Hclk.
    + intros m2 Hm2 Hne. destruct (tidied_rows _ _ Ht m2 Hm2) as [?|(? & ? & y & Hy & Hid & ?)];
        [left; by apply Hkeep|right]. split_and!; [done..|]. exists y. split; [|done].
      apply Hkeep; congruence.
Qed.

(** The claim transaction implements its specification. *)
Lemma claim_alone `{!SerdeLaws JobPayload} s cls owner lease_secs :
  wf s →
  alone (claim_next_job_on cls owner lease_secs)
    (λ r s', match r with
             | Ok o => claim_effect s s' cls owner (claim_expires s lease_secs)
                         (to_rfc3339 (clock s)) o ∧ evolves s s' ∧ wf s'
             | Err _ => False
             end) s.
Proof.
  intros Hwf. set (now_s := to_rfc3339 (clock s)).
  unfold claim_next_job_on. apply wp_try_bind, alone_lock. intros g.
  assert (Ht0 : tidied s (s <| bookclerk_slots_t := g |>)) by (apply tidied_refl; [done|by split_and!]).
  revert Ht0. set (s0 := s <| bookclerk_slots_t := g |>). intros Ht0.
  apply wp_bind, alone_query. change (clock s0) with (clock s). fold now_s.
  apply wp_try_bind, (alone_sanitize cls now_s); [apply Ht0|]. intros s1 Ht1 Hclk1 Hcand.
  change (candidates cls now_s s0) with (candidates cls now_s s) in Hcand.
  apply wp_bind, alone_query. change (take 8 _) with (candidates cls now_s s1).
  fold (claim_expires s lease_secs).
  apply (alone_for_until (claim_loop s cls now_s)).
  - intros x xs s2 Hloop. eapply wp_mono; [|by apply (alone_claim_loop s)].
    by intros [[]|] s'.
  - intros s2 (Ht & _ & _ & seen & Hc & Hseen). rewrite app_nil_r in Hc. rewrite <-Hc in Hseen.
    split_and!; [by apply claim_nothing|apply Ht..].
  - split_and!; [exact (tidied_trans _ _ _ Ht0 Ht1)|done| |].
    + intros x Hx. by apply candidates_elem in Hx as [? _].
    + exists []. rewrite Hcand. split; [done|]. set_solver.
Qed.

Lemma safe_claim_next_job `{!SerdeLaws JobPayload} cls owner lease_secs :
  safe evolves wf (claim_next_job cls owner lease_secs).
Proof.
  apply safe_txn; [apply _|]. intros s Hwf. eapply wp_mono; [|by apply claim_alone].
  intros [o|e] s'; [by intros (_ & ? & ?)|done].
Qed.
End Claim.

(** ** Scratch reservation *)

Section Reservation.
Context {C : Chrono} {U : Uuid} {J : SerdeJson JobPayload} {K : ScratchQuota}.

Lemma total_nonneg rows : 0 ≤ total_reserved rows.
Proof. induction rows as [|r l IH]; simpl; [lia|]. pose proof (reserved_nonneg r). lia. Qed.

(** The saturating fold of the code. *)
Lemma sum_reserved_acc rows acc :
  0 ≤ acc ≤ u64_MAX →
  fold_left (λ a r, u64_saturating_add a (reserved r)) rows acc
  = Z.min (acc + total_reserved rows) u64_MAX.
Proof.
  revert acc. induction rows as [|r rows IH]; intros acc Hacc; simpl.
  - unfold u64_MAX in *. lia.
  - pose proof (reserved_nonneg r). pose proof (total_nonneg rows).
    rewrite IH; unfold u64_saturating_add, u64_MAX in *; lia.
Qed.

Lemma sum_reserved_total rows : sum_reserved rows = Z.min (total_reserved rows) u64_MAX.
Proof. apply sum_reserved_acc. unfold u64_MAX. lia. Qed.

Lemma reserved_le_total r rows : r ∈ rows → reserved r ≤ total_reserved rows.
Proof.
  induction 1 as [r rows|r x rows _ IH]; simpl.
  - pose proof (total_nonneg rows). lia.
  - pose proof (reserved_nonneg x). lia.
Qed.

(** Rewriting the reservation of the one row with its key moves the total by the difference. *)
Lemma total_update p (f : job_temp_paths.Model → job_temp_paths.Model) x rows :
  x ∈ rows → NoDup rows → (∀ y, y ∈ rows → p y = true ↔ y = x) →
  total_reserved (update_rows p f rows).2 = total_reserved rows - reserved x + reserved (f x).
Proof.
  intros Hx Hnd Hp. unfold update_rows. simpl.
  apply list_elem_of_split in Hx as (l1 & l2 & ->).
  apply NoDup_app in Hnd as (_ & Hd & Hnd). apply NoDup_cons in Hnd as [Hn2 _].
  assert (Hmap : ∀ l, (∀ y, y ∈ l → y ∈ l1 ++ x :: l2 ∧ y ≠ x) →
     map (λ r, if p r then f r else r) l = l).
  { intros l Hl. rewrite <-(map_id l) at 2. apply map_ext_in. intros y Hy%list_elem_of_In.
    destruct (Hl y Hy) as [Hin Hne]. destruct (p y) eqn:E; [|done]. by apply Hp in E. }
  assert (Hpx : p x = true) by (apply Hp; set_solver).
  rewrite map_app. simpl. rewrite !Hmap, !total_app; simpl.
  - rewrite Hpx. lia.
  - intros y Hy. split; [set_solver|]. by intros ->.
  - intros y Hy. split; [set_solver|]. intros ->. apply (Hd x); set_solver.
Qed.

(** A stored reservation never exceeds the request. *)
Lemma stored_le b : 0 ≤ b → default 0 (u64_try_from (default i64_MAX (i64_try_from b))) ≤ b.
Proof.
  unfold u64_try_from, i64_try_from, i64_MAX. intros. repeat (case_match; simpl); where_clauses; lia.
Qed.

(** What is already reserved for the path, and the total a grant leaves. *)
Definition already (s : Db) (job path : string) : Z :=
  default 0 (reserved <$> List.find (same_path job path) (job_temp_paths_t s)).
Definition stored (bytes : Z) : Z := default 0 (u64_try_from (default i64_MAX (i64_try_from bytes))).

(** A granted reservation: the path holds [stored bytes], nothing else moved. *)
Record reserve_granted (s s' : Db) (job path : string) (bytes quota : Z) : Prop := {
  granted_jobs : jobs_t s' = jobs_t s;
  granted_quota : Z.min (total_reserved (job_temp_paths_t s) - already s job path + bytes) u64_MAX
                  ≤ quota;
  granted_total : total_reserved (job_temp_paths_t s')
                  = total_reserved (job_temp_paths_t s) - already s job path + stored bytes;
  granted_path : ∃ r, r ∈ job_temp_paths_t s' ∧ same_path job path r = true
                      ∧ reserved r = stored bytes;
  granted_others r : same_path job path r = false →
                     r ∈ job_temp_paths_t s' ↔ r ∈ job_temp_paths_t s;
  granted_wf : total_reserved (job_temp_paths_t s') ≤ scratch_quota → evolves s s' ∧ wf s';
}.

Lemma same_path_true job path r :
  same_path job path r = true ↔ (job_temp_paths.job_id r, job_temp_paths.path r) = (job, path).
Proof. unfold same_path. rewrite andb_true_iff, !text_eq_true. naive_solver. Qed.

Lemma temp_row_by_id s x y :
  wf s → x ∈ job_temp_paths_t s → y ∈ job_temp_paths_t s →
  (job_temp_paths.id y =? job_temp_paths.id x) = true ↔ y = x.
Proof.
  intros Hwf Hx Hy. rewrite Z.eqb_eq. split; [|by intros ->].
  intros E. by eapply (NoDup_key job_temp_paths.id); [apply Hwf|..].
Qed.

Lemma reserve_update_granted s job path bytes quota r :
  wf s → List.find (same_path job path) (job_temp_paths_t s) = Some r →
  Z.min (total_reserved (job_temp_paths_t s) - already s job path + bytes) u64_MAX ≤ quota →
  reserve_granted s
    (s <| job_temp_paths_t := (update_rows (λ t, job_temp_paths.id t =? job_temp_paths.id r)
        (λ t, t <| job_temp_paths.reserved_bytes := default i64_MAX (i64_try_from bytes) |>)
        (job_temp_paths_t s)).2 |>) job path bytes quota.
Proof.
  intros Hwf Hf Hq. pose proof (find_where _ _ _ Hf) as [Hr Hsame].
  set (f := λ t : job_temp_paths.Model, t <| job_temp_paths.reserved_bytes := _ |>).
  set (p := λ t, job_temp_paths.id t =? job_temp_paths.id r).
  assert (Hp : ∀ y, y ∈ job_temp_paths_t s → p y = true ↔ y = r)
    by (intros; by apply (temp_row_by_id s)).
  assert (Htot : total_reserved (update_rows p f (job_temp_paths_t s)).2
    = total_reserved (job_temp_paths_t s) - already s job path + stored bytes).
  { rewrite (total_update p f r); [|done| |done].
    - unfold already. rewrite Hf. simpl. done.
    - eapply NoDup_fmap_1, (wf_temp_id _ Hwf). }
  pose proof (elem_of_update p f (job_temp_paths_t s)) as Hmem.
  constructor; cbn [jobs_t job_temp_paths_t set_field set_job_temp_paths_t]; try done.
  - exists (f r). split_and!; [|done|done]. apply Hmem. exists r.
    by rewrite (proj2 (Hp r Hr) eq_refl).
  - intros t Ht. rewrite Hmem. split.
    + intros (y & Hy & ->). destruct (p y) eqn:E; [|done].
      apply (Hp y Hy) in E as ->. unfold same_path in *. simpl in Ht. congruence.
    + intros Hin. exists t. split; [done|]. destruct (p t) eqn:E; [|done].
      apply (Hp t Hin) in E as ->. congruence.
  - intros Hle. by apply temp_update_ok.
Qed.

(** Taking the slot first changes nothing of this. *)
Lemma granted_slot g s s' job path bytes quota :
  wf s → reserve_granted (s <| bookclerk_slots_t := g |>) s' job path bytes quota →
  reserve_granted s s' job path bytes quota.
Proof.
  intros Hwf []. constructor; try done. intros [He Hw]%granted_wf0. split; [|done].
  etrans; [|exact He]. apply untouched_ok; [done|by split_and!].
Qed.

Lemma reserve_insert_granted s s' job path bytes quota now_s :
  wf s → List.find (same_path job path) (job_temp_paths_t s) = None →
  Z.min (total_reserved (job_temp_paths_t s) - already s job path + bytes) u64_MAX ≤ quota →
  run (job_temp_paths_insert job path now_s (default i64_MAX (i64_try_from bytes))) s = (Ok (), s') →
  reserve_granted s s' job path bytes quota.
Proof.
  intros Hwf Hf Hq Hrun. pose proof Hrun as Hrun'. revert Hrun'. simpl.
  destruct (existsb _ (job_temp_paths_t s)); [discriminate|].
  destruct (existsb _ (jobs_t s)); [|discriminate]. simpl. intros [= <-].
  assert (Ha : already s job path = 0) by (unfold already; by rewrite Hf).
  constructor; cbn [jobs_t job_temp_paths_t set_field set_job_temp_paths_t set_job_temp_paths_seq];
    try done.
  - rewrite total_app, Ha. simpl. unfold reserved at 1, stored. simpl. lia.
  - eexists. split_and!; [apply elem_of_app; right; by left| |done].
    unfold same_path. simpl. by rewrite !text_eq_refl.
  - intros r Hr. rewrite elem_of_app, list_elem_of_singleton. split; [|by left].
    intros [?| ->]; [done|]. unfold same_path in Hr. simpl in Hr. by rewrite !text_eq_refl in Hr.
  - intros Hle. eapply temp_insert_ok; [done| |exact Hrun].
    rewrite total_app in Hle. simpl in Hle. unfold reserved at 1 in Hle. simpl in Hle. lia.
Qed.

(** The reservation transaction implements its specification. *)
Lemma reserve_alone s job path bytes quota :
  wf s → 0 ≤ bytes → scratch_quota ≤ u64_MAX →
  alone (reserve_job_temp_path_on job path bytes quota)
    (λ r s', match r with
             | Ok _ => reserve_granted s s' job path bytes quota
             | Err e => quota < Z.min (total_reserved (job_temp_paths_t s)
                                       - already s job path + bytes) u64_MAX
                        ∨ e = Orm ForeignKeyViolation ∧ ∀ m, m ∈ jobs_t s → jobs.id m ≠ job
             end) s.
Proof.
  intros Hwf Hb Hsq. unfold reserve_job_temp_path_on. apply wp_try_bind, alone_lock. intros g.
  assert (Hwf1 : wf (s <| bookclerk_slots_t := g |>)) by (apply untouched_ok with s; by split_and?).
  apply wp_bind, alone_query. cbv zeta. rewrite where_all.
  pose proof (wf_quota _ Hwf) as Hq. pose proof (total_nonneg (job_temp_paths_t s)).
  change (job_temp_paths_t (s <| bookclerk_slots_t := g |>)) with (job_temp_paths_t s).
  change (default 0 (reserved <$> List.find (same_path job path) (job_temp_paths_t s)))
    with (already s job path).
  assert (Hal : 0 ≤ already s job path ≤ total_reserved (job_temp_paths_t s)).
  { unfold already. destruct (List.find _ _) as [r|] eqn:E; simpl; [|lia].
    pose proof (reserved_nonneg r). apply find_where in E as [Hr _].
    pose proof (reserved_le_total r _ Hr). lia. }
  assert (Hnext : u64_saturating_add
      (u64_saturating_sub (sum_reserved (job_temp_paths_t s)) (already s job path)) bytes
    = Z.min (total_reserved (job_temp_paths_t s) - already s job path + bytes) u64_MAX).
  { rewrite sum_reserved_total. unfold u64_saturating_add, u64_saturating_sub. lia. }
  rewrite Hnext. destruct (quota <? _) eqn:Hquota; where_clauses; [by left|].
  destruct (List.find (same_path job path) (job_temp_paths_t s)) as [r|] eqn:Hf.
  - apply wp_bind, alone_exec. apply (granted_slot g); [done|]. by apply reserve_update_granted.
  - apply wp_bind, wp_bind, alone_query. apply alone_run.
    destruct (run (job_temp_paths_insert _ _ _ _) _) as [[[]|e] s'] eqn:Hrun.
    + apply (granted_slot g); [done|]. by eapply reserve_insert_granted.
    + right. revert Hrun. simpl.
      rewrite (proj2 (existsb_false _ (job_temp_paths_t s))).
      2: { intros x Hx. by apply (find_where_none _ _ x) in Hf. }
      destruct (existsb _ (jobs_t s)) eqn:Hj; simpl; intros [= <- _]. split; [done|].
      intros m Hm E. rewrite existsb_false in Hj. specialize (Hj m Hm). simpl in Hj.
      by rewrite E, text_eq_refl in Hj.
Qed.

Lemma safe_reserve_job_temp_path job path bytes quota :
  0 ≤ bytes → scratch_quota < u64_MAX → (quota ≤ scratch_quota ∨ bytes = 0) →
  safe evolves wf (reserve_job_temp_path job path bytes quota).
Proof.
  intros Hb Hsq Hquota. apply safe_txn; [apply _|]. intros s Hwf.
  eapply wp_mono; [|apply reserve_alone; [done|done|lia]].
  intros [[]|e] s'; [|done]. intros []. apply granted_wf0. rewrite granted_total0.
  pose proof (stored_le bytes Hb). pose proof (wf_quota _ Hwf).
  assert (0 ≤ already s job path).
  { unfold already. destruct (List.find _ _) as [r|]; simpl; [apply reserved_nonneg|lia]. }
  unfold stored. lia.
Qed.
End Reservation.
