(* ===== verification/JobPool.v ===== *)
(** * The queue under concurrency

    [job_call] is one call of the queue's API; a pool runs any number of calls interleaved.
    The theorems: the invariant holds and the store evolves in every reachable state; a fence
    that was lost is lost forever and its holder can no longer write; a generation has one owner;
    terminal rows are final; cancellation sticks. *)

From stdpp Require Import base option list strings gmap pretty relations.
From Stdlib Require Import ZArith Lia.
From S2P Require Import Prelude Schema Store Concurrency JobModels JobQueue JobInvariant JobSafety JobTxn.

Local Open Scope Z_scope.

(** The public operations of [LibraryStore] on the queue. *)
Inductive job_call : Type :=
| CEnqueue (spec : EnqueueJobSpec)
| CClaim (cls : JobResourceClass) (owner : string) (lease_secs : Z)
| CHeartbeat (f : JobFence) (lease_secs : Z) (progress : option string)
| CProgress (f : JobFence) (progress : string)
| CComplete (f : JobFence) (progress : option string)
| CSuspend (f : JobFence) (c : JobCheckpoint) (wake_at : Z)
| CCheckpoint (f : JobFence) (c : JobCheckpoint)
| CFail (f : JobFence) (error_kind error_message : string)
| CCancel (id : string)
| CCancelRequested (id : string)
| CReclaim
| CGet (id : string)
| CList (limit : Z)
| CPrune (retention_days : Z)
| CReserve (job path : string) (reserved_bytes quota_bytes : Z)
| CRegister (job path : string)
| CUnregister (job path : string)
| CReservedBytes
| CListTemp (job : string)
| CListAllTemp
| CRunningAcquire
| CCountActive.

Inductive outcome : Type :=
| OEnqueue (r : result EnqueueOutcome)
| OJob (r : result (option JobRecord))
| OJobs (r : result (list JobRecord))
| OBool (r : result bool)
| OCount (r : result Z)
| OUnit (r : result unit)
| OPaths (r : result (list JobTempPath)).

Section Calls.
Context {C : Chrono} {U : Uuid} {J : SerdeJson JobPayload} {K : ScratchQuota}.

Definition returning {A B} (f : A → B) (p : prog Db A) : prog Db B := bind p (λ a, Ret (f a)).

Definition exec_call (c : job_call) : prog Db outcome :=
  match c with
  | CEnqueue spec => returning OEnqueue (enqueue_job spec)
  | CClaim cls owner n => returning OJob (claim_next_job cls owner n)
  | CHeartbeat f n p => returning OBool (heartbeat_job f n p)
  | CProgress f p => returning OBool (set_job_progress f p)
  | CComplete f p => returning OBool (complete_job f p)
  | CSuspend f c w => returning OBool (suspend_job f c w)
  | CCheckpoint f c => returning OBool (checkpoint_running_job f c)
  | CFail f k e => returning OBool (fail_job f k e)
  | CCancel id => returning OJob (request_job_cancel id)
  | CCancelRequested id => returning OBool (job_cancel_requested id)
  | CReclaim => returning OCount reclaim_expired_leases
  | CGet id => returning OJob (get_job id)
  | CList n => returning OJobs (list_jobs n)
  | CPrune n => returning OCount (prune_terminal_jobs n)
  | CReserve j p b q => returning OUnit (reserve_job_temp_path j p b q)
  | CRegister j p => returning OUnit (register_job_temp_path j p)
  | CUnregister j p => returning OUnit (unregister_job_temp_path j p)
  | CReservedBytes => returning OCount reserved_temp_bytes
  | CListTemp j => returning OPaths (list_job_temp_paths j)
  | CListAllTemp => returning OPaths list_all_job_temp_paths
  | CRunningAcquire => returning OBool has_running_acquire_job
  | CCountActive => returning OCount count_active_jobs
  end.

(** The argument types and the configuration: the cap is an [i64], byte counts are [u64], and
    every reservation passes the configured quota. *)
Definition admissible (c : job_call) : Prop :=
  match c with
  | CEnqueue spec => spec_max_pending spec ≤ i64_MAX
  | CReserve _ _ b q => 0 ≤ b ∧ q ≤ scratch_quota
  | _ => True
  end.

(** The fence a call presents. *)
Definition call_fence (c : job_call) : option JobFence :=
  match c with
  | CHeartbeat f _ _ | CProgress f _ | CComplete f _ | CSuspend f _ _ | CCheckpoint f _
  | CFail f _ _ => Some f
  | _ => None
  end.

(** A pool of queue calls; around them, anything may happen to the rest of the store. *)
Definition queue_step := step (λ p, ∃ c, admissible c ∧ p = exec_call c) queue_untouched.

Lemma safe_call `{!UuidLaws U} `{!SerdeLaws JobPayload} c :
  scratch_quota < u64_MAX → admissible c → safe evolves wf (exec_call c).
Proof.
  intros Hq Hc. unfold exec_call, returning.
  destruct c; simpl in Hc; apply safe_bind; try (by intros; apply safe_ret);
    unfold register_job_temp_path, job_cancel_requested, reserved_temp_bytes, list_job_temp_paths,
      list_all_job_temp_paths, has_running_acquire_job, count_active_jobs, count_active_jobs_on;
    try by (repeat job_step).
  - by apply safe_enqueue_job.
  - by apply safe_claim_next_job.
  - apply safe_heartbeat_job.
  - apply safe_set_job_progress.
  - apply safe_complete_job.
  - by apply safe_suspend_job.
  - apply safe_checkpoint_running_job.
  - apply safe_fail_job.
  - apply safe_request_job_cancel.
  - apply safe_reclaim_expired_leases.
  - apply safe_get_job.
  - apply safe_list_jobs.
  - apply safe_prune_terminal_jobs.
  - apply safe_reserve_job_temp_path; naive_solver.
  - apply safe_reserve_job_temp_path; [lia|done|by right].
  - apply safe_unregister_job_temp_path.
Qed.
End Calls.

(** ** Every reachable state *)

Section Reachable.
Context {C : Chrono} {U : Uuid} {J : SerdeJson JobPayload} {K : ScratchQuota}.
Context `{!UuidLaws U} `{!SerdeLaws JobPayload}.

Lemma queue_pool (Q : nat → outcome → Prop) ts s ts' s' :
  scratch_quota < u64_MAX → wf s →
  (∀ i p, ts !! i = Some p → wp evolves evolves wf p (λ a _, Q i a) s) →
  (∀ c i s, admissible c → wf s → wp evolves evolves wf (exec_call c) (λ a _, Q i a) s) →
  rtc queue_step (ts, s) (ts', s') →
  wf s' ∧ evolves s s' ∧ ∀ i p, ts' !! i = Some p → wp evolves evolves wf p (λ a _, Q i a) s'.
Proof.
  intros Hq Hwf Hts Hsp Hsteps.
  destruct (pool_sound evolves evolves wf
    (λ p : prog Db outcome, ∃ c, admissible c ∧ p = exec_call c) queue_untouched
    (λ _ _ H, H) (λ s s' Hwf H, untouched_ok s s' Hwf H) Q (ts, s) (ts', s')) as [[Hwf' Hts'] Hev].
  - intros p i s0 (c & Hc & ->) Hwf0. auto.
  - by split.
  - done.
  - done.
Qed.

(** C1: In every interleaving of any number of queue calls, with arbitrary changes to the rest
    of the store in between and calls abandoned at any access, the queue stays well formed
    (unique ids, one active row per dedup key, lease, attempt and finish columns consistent with
    each state, attempts within the budget, scratch paths owned by jobs, reservations within the
    quota) and every row only moves forward in history. *)
Theorem jobs_reachable s ts s' :
  scratch_quota < u64_MAX → wf s → rtc queue_step ([], s) (ts, s') → wf s' ∧ evolves s s'.
Proof.
  intros Hq Hwf Hsteps.
  destruct (queue_pool (λ _ _, True) [] s ts s') as (? & ? & _); try done.
  intros c i s0 Hc _. by apply safe_call.
Qed.
End Reachable.

(** ** Fences *)

Section Fencing.
Context {C : Chrono} {U : Uuid} {J : SerdeJson JobPayload} {K : ScratchQuota}.

(** The fence still names a running row. *)
Definition live (f : JobFence) (s : Db) : Prop :=
  ∃ m, m ∈ jobs_t s ∧ fence_matches f m = true.

(** The fence was issued and does not match any more. *)
Record revoked (f : JobFence) (s : Db) : Prop := {
  revoked_dead : ¬ live f s;
  revoked_issued : ¬ fresh_in s (job_id f);
  revoked_passed : ∀ m, m ∈ jobs_t s → jobs.id m = job_id f → generation f ≤ jobs.lease_generation m;
}.

Lemma fence_matches_true f m :
  fence_matches f m = true ↔ jobs.id m = job_id f ∧ running m
    ∧ jobs.lease_owner m = Some (owner f) ∧ jobs.lease_generation m = generation f.
Proof.
  unfold fence_matches. rewrite !andb_true_iff, !text_eq_true, sql_eq_true, Z.eqb_eq.
  unfold running. simpl. tauto.
Qed.

(** A match at a later time comes from a match now, or from a later generation. *)
Lemma fence_history f s s' m' :
  evolves s s' → ¬ fresh_in s (job_id f) → m' ∈ jobs_t s' → fence_matches f m' = true →
  ∃ m, m ∈ jobs_t s ∧ row_le m m' ∧ jobs.id m = job_id f
       ∧ (jobs.lease_generation m = generation f → fence_matches f m = true).
Proof.
  intros Hev Hissued Hm' (Hid & Hrun & Hown & Hgen)%fence_matches_true.
  destruct (ev_rows _ _ Hev m' Hm') as [(m & Hm & Hle)|Hf]; [|congruence].
  exists m. pose proof (le_id _ _ Hle). split_and!; [done..|congruence|]. intros Hg.
  destruct (le_running _ _ Hle) as [Hr Ho]; [congruence|done|].
  apply fence_matches_true. split_and!; congruence.
Qed.

Lemma revoked_stable f s s' : revoked f s → evolves s s' → revoked f s'.
Proof.
  intros [Hdead Hissued Hpassed] Hev. constructor.
  - intros (m' & Hm' & Hf'). destruct (fence_history f s s' m') as (m & Hm & Hle & Hid & Hback);
      [done..|]. apply fence_matches_true in Hf' as (_ & _ & _ & Hg).
    apply Hdead. exists m. split; [done|]. apply Hback.
    specialize (Hpassed m Hm Hid). pose proof (le_generation _ _ Hle). lia.
  - intros Hf. apply Hissued. eapply fresh_in_mono; [apply Hev|done].
  - intros m' Hm' Hid. destruct (ev_rows _ _ Hev m' Hm') as [(m & Hm & Hle)|Hf].
    + pose proof (le_generation _ _ Hle). pose proof (le_id _ _ Hle).
      specialize (Hpassed m Hm). rewrite Hid in *. etrans; [apply Hpassed; congruence|done].
    + congruence.
Qed.

(** A fence that was live and is not any more has been revoked. *)
Lemma live_revoked f s s' : wf s → live f s → evolves s s' → ¬ live f s' → revoked f s'.
Proof.
  intros Hwf (m & Hm & Hf) Hev Hdead. pose proof Hf as (Hid & _ & _ & Hg)%fence_matches_true.
  constructor; [done| |].
  - rewrite <-Hid. intros Hfr. apply (wf_drawn _ Hwf m Hm). eapply fresh_in_mono; [apply Hev|done].
  - intros m' Hm' Hid'. rewrite <-Hg. apply (le_generation m m').
    apply (evolves_row s s'); try done. congruence.
Qed.

(** A fence that named a running row and stopped matching never matches again, whatever happens
    later: there is no ABA on the lease generation. *)
Theorem fence_lost_forever f s s' s'' :
  wf s → live f s → evolves s s' → ¬ live f s' → evolves s' s'' → ¬ live f s''.
Proof.
  intros Hwf Hl Hev Hdead Hev'. apply (revoked_dead f), (revoked_stable f s'); [|done].
  by apply (live_revoked f s).
Qed.

(** A lease generation of a job has one owner for all time: two fences of the same job and
    generation that are live at two moments name the same owner. *)
Theorem generation_has_one_owner f f' s s' :
  wf s → live f s → evolves s s' → live f' s' → job_id f' = job_id f →
  generation f' = generation f → owner f' = owner f.
Proof.
  intros Hwf (m & Hm & (Hid & _ & Ho & Hg)%fence_matches_true) Hev
    (m' & Hm' & (Hid' & Hr' & Ho' & Hg')%fence_matches_true) Hj Hgen.
  destruct (evolves_row s s' m m') as []; [done..|congruence|].
  destruct le_running as [_ E]; [congruence|done|]. congruence.
Qed.

(** A row that reached succeeded, failed or cancelled is never changed in any column again. *)
Theorem terminal_rows_are_final s s' m m' :
  wf s → evolves s s' → m ∈ jobs_t s → terminal m → m' ∈ jobs_t s' →
  jobs.id m' = jobs.id m → m' = m.
Proof.
  intros Hwf Hev Hm Ht Hm' Hid. apply (le_inactive m m'); [by apply (evolves_row s s')|].
  apply not_true_iff_false. destruct (terminal_excl m Ht). by intros [?|?]%active_true.
Qed.

(** A cancellation flag is never cleared and a flagged job is never leased again: its generation
    stays, and it is running later only if it was running under the same owner. *)
Theorem cancellation_sticks s s' m m' :
  wf s → evolves s s' → m ∈ jobs_t s → jobs.cancel_requested m ≠ 0 → m' ∈ jobs_t s' →
  jobs.id m' = jobs.id m →
  jobs.cancel_requested m' ≠ 0 ∧ jobs.lease_generation m' = jobs.lease_generation m
  ∧ (running m' → running m ∧ jobs.lease_owner m' = jobs.lease_owner m).
Proof.
  intros Hwf Hev Hm Hc Hm' Hid. destruct (evolves_row s s' m m') as []; try done.
  destruct (le_cancel Hc). auto.
Qed.

(** *** The holder of a revoked fence *)

(** No access of the program writes anything. *)
Definition writes_nothing {A} (p : prog Db A) (Q : A → Prop) (s : Db) : Prop :=
  wp evolves (=) wf p (λ a _, Q a) s.

Lemma revoked_update f upd (Q : nat → Db → Prop) s :
  revoked f s → (∀ s', evolves s s' → wf s' → Q 0%nat s') →
  wp evolves (=) wf (jobs_update (fence_matches f) upd) Q s.
Proof.
  intros Hrev HQ. apply wp_exec. intros s' Hev Hwf.
  destruct (revoked_stable f s s' Hrev Hev) as [Hdead _ _].
  rewrite update_rows_none.
  - cbn [fst snd]. assert (s' <| jobs_t := jobs_t s' |> = s') as -> by by destruct s'.
    auto.
  - intros m Hm. apply not_true_iff_false. intros E. apply Hdead. by exists m.
Qed.

Lemma revoked_find f (Q : option jobs.Model → Db → Prop) s :
  revoked f s →
  (∀ s' o, revoked f s' → (∀ m, o = Some m → row_is_fenced f m = false) → Q o s') →
  wp evolves (=) wf (jobs_find_by_id (job_id f)) Q s.
Proof.
  intros Hrev HQ. apply wp_query; [apply _|]. intros s' Hev Hwf.
  pose proof (revoked_stable f s s' Hrev Hev) as Hrev'. apply HQ; [done|].
  intros m Hf. apply find_where in Hf as [Hm Hid]. apply not_true_iff_false. intros Hrow.
  apply (revoked_dead _ _ Hrev'). exists m. split; [done|].
  unfold fence_matches. unfold row_is_fenced in Hrow. by rewrite Hid.
Qed.

Lemma wn_clock (Q : Z → Db → Prop) s :
  (∀ s' now, evolves s s' → Q now s') → wp evolves (=) wf Utc_now Q s.
Proof. intros H. apply wp_query; [apply _|]. auto. Qed.

(** Every fenced call of its holder is refused. *)
Lemma revoked_call c f s :
  call_fence c = Some f → revoked f s →
  writes_nothing (exec_call c) (λ o, o = OBool (Ok false)) s.
Proof.
  intros Hc Hrev. unfold writes_nothing, exec_call, returning.
  assert (Hupd : ∀ upd s', evolves s s' → wp evolves (=) wf
    (let* n := jobs_update (fence_matches f) upd in Ret (Ok (n =? 1)%nat))
    (λ a s'', wp evolves (=) wf (Ret (OBool a)) (λ o _, o = OBool (Ok false)) s'') s').
  { intros upd s' Hev. apply wp_bind, revoked_update; [by eapply revoked_stable|done]. }
  destruct c; simpl in Hc; simplify_eq; apply wp_bind;
    unfold heartbeat_job, set_job_progress, complete_job, suspend_job, checkpoint_running_job, fail_job.
  1: { apply wp_bind, wn_clock. intros s' now Hev. by apply Hupd. }
  1,2: (apply wp_bind, wp_bind, wn_clock; intros s' now Hev; by apply Hupd).
  all: apply wp_bind, revoked_find; [done|]; intros s' [m|] Hrev' Hm; [|done];
    by rewrite (Hm m eq_refl).
Qed.

(** C3: A worker whose fence has been revoked can no longer write: under any interference each
    of the six fenced operations returns false and none of its accesses changes the store. *)
Theorem revoked_fence_cannot_write c f s :
  call_fence c = Some f → revoked f s →
  writes_nothing (exec_call c) (λ o, o = OBool (Ok false)) s.
Proof. apply revoked_call. Qed.
End Fencing.
