(* ===== verification/JobSpec.v ===== *)
(** * Functional behaviour of the queue's operations

    What each call does when it runs alone from a well-formed store: the equivalence of the
    reclaim loop with a one-shot table map, retry and dead-end of failures, suspend and resume,
    cancellation, retention, and the decoding and backoff functions they rest on. *)

From stdpp Require Import base option list strings gmap pretty sorting.
From Stdlib Require Import ZArith Lia.
From S2P Require Import Prelude Schema Store Concurrency JobModels JobQueue JobInvariant JobSafety JobTxn JobPool.

Local Open Scope Z_scope.

(** ** Data model *)

(** Job kinds, states, resource classes and triggers round-trip through their wire strings, and
    parsing accepts exactly those strings. *)
Theorem enum_strings_roundtrip :
  (∀ k, JobKind.parse (JobKind.as_str k) = Some k)
  ∧ (∀ s k, JobKind.parse s = Some k → JobKind.as_str k = s)
  ∧ (∀ k, JobState.parse (JobState.as_str k) = Some k)
  ∧ (∀ s k, JobState.parse s = Some k → JobState.as_str k = s)
  ∧ (∀ k, JobResourceClass.parse (JobResourceClass.as_str k) = Some k)
  ∧ (∀ s k, JobResourceClass.parse s = Some k → JobResourceClass.as_str k = s)
  ∧ (∀ k, JobTrigger.parse (JobTrigger.as_str k) = Some k)
  ∧ (∀ s k, JobTrigger.parse s = Some k → JobTrigger.as_str k = s).
Proof.
  split_and!; try (by intros []);
    intros s k; unfold JobKind.parse, JobState.parse, JobResourceClass.parse, JobTrigger.parse;
    intros H; repeat case_match; where_clauses; by simplify_eq.
Qed.

Lemma enum_state_parse s k : JobState.parse s = Some k → JobState.as_str k = s.
Proof. unfold JobState.parse. intros H. repeat case_match; where_clauses; by simplify_eq. Qed.

Lemma backoff_exp_eq n : backoff_exp n = Z.min (Z.max (n - 1) 0) 8.
Proof. unfold backoff_exp, i64_saturating_sub1, i64_MAX. lia. Qed.

(** The nine exponents. *)
Lemma backoff_secs_table n :
  backoff_secs n = match backoff_exp n with
                   | 0 => 5 | 1 => 10 | 2 => 20 | 3 => 40 | 4 => 80
                   | 5 => 160 | 6 => 320 | 7 => 640 | _ => 900
                   end.
Proof.
  unfold backoff_secs. rewrite backoff_exp_eq.
  assert (He : 0 ≤ Z.min (Z.max (n - 1) 0) 8 ≤ 8) by lia.
  revert He. generalize (Z.min (Z.max (n - 1) 0) 8). intros e He.
  assert (e = 0 ∨ e = 1 ∨ e = 2 ∨ e = 3 ∨ e = 4 ∨ e = 5 ∨ e = 6 ∨ e = 7 ∨ e = 8) as E by lia.
  repeat destruct E as [->|E]; [reflexivity..|]. by subst.
Qed.

Lemma backoff_secs_range n : 5 ≤ backoff_secs n ≤ 900.
Proof. rewrite backoff_secs_table. repeat (case_match; try lia). Qed.

Lemma backoff_run_after_eq n now : job_backoff_run_after n now = now + seconds (backoff_secs n).
Proof.
  pose proof (backoff_secs_range n). unfold job_backoff_run_after, i64_try_from.
  rewrite (proj2 (Z.leb_le _ _)); [done|]. unfold i64_MAX. lia.
Qed.

(** The delay before the next attempt, in whole seconds. *)
(** The retry delay is between 5 and 900 seconds for every 64-bit attempt count, never decreases
    with the attempt, doubles for the first seven attempts, and is added to the clock without
    saturating. *)
Theorem backoff_is_bounded_and_monotone n now :
  5 ≤ backoff_secs n ≤ 900
  ∧ backoff_secs n ≤ backoff_secs (n + 1)
  ∧ (1 ≤ n ≤ 7 → backoff_secs (n + 1) = 2 * backoff_secs n)
  ∧ job_backoff_run_after n now = now + seconds (backoff_secs n).
Proof.
  pose proof (backoff_secs_range n).
  split_and!; [lia|lia| | |apply backoff_run_after_eq].
  - rewrite !backoff_secs_table, !backoff_exp_eq.
    destruct (decide (n ≤ 0)) as [?|?]; [by rewrite !Z.max_r by lia|].
    destruct (decide (9 ≤ n)) as [?|?]; [by rewrite !Z.min_r by lia|].
    assert (n = 1 ∨ n = 2 ∨ n = 3 ∨ n = 4 ∨ n = 5 ∨ n = 6 ∨ n = 7 ∨ n = 8) as E by lia.
    repeat destruct E as [->|E]; [done..|]. by subst.
  - intros Hn. rewrite !backoff_secs_table, !backoff_exp_eq.
    assert (n = 1 ∨ n = 2 ∨ n = 3 ∨ n = 4 ∨ n = 5 ∨ n = 6 ∨ n = 7) as E by lia.
    repeat destruct E as [->|E]; [done..|]. by subst.
Qed.

(** ** One row by its id *)

(** The table with the row of [id] replaced. *)
Definition set_row (id : string) (m' : jobs.Model) (t : list jobs.Model) : list jobs.Model :=
  set_by jobs.id id m' t.

Section OneRow.
Context {C : Chrono} {U : Uuid} {J : SerdeJson JobPayload} {K : ScratchQuota}.

(** A statement whose [WHERE] selects by id hits the one row. *)
Lemma update_by_id p f m t :
  NoDup (map jobs.id t) → m ∈ t → p m = true → (∀ r, p r = true → jobs.id r = jobs.id m) →
  update_rows p f t = (1%nat, set_row (jobs.id m) (f m) t).
Proof. apply (update_by_key jobs.id). Qed.

Lemma set_row_elem m m' t : m ∈ t → m' ∈ set_row (jobs.id m) m' t.
Proof. apply set_by_elem. Qed.

Lemma set_row_other id m' r t : r ∈ t → jobs.id r ≠ id → r ∈ set_row id m' t.
Proof. apply set_by_other. Qed.

Lemma run_update p f s :
  run (jobs_update p f) s =
  ((update_rows p f (jobs_t s)).1, s <| jobs_t := (update_rows p f (jobs_t s)).2 |>).
Proof. done. Qed.

Lemma run_fenced_update s f m upd :
  wf s → m ∈ jobs_t s → fence_matches f m = true →
  run (jobs_update (fence_matches f) upd) s =
  (1%nat, s <| jobs_t := set_row (jobs.id m) (upd m) (jobs_t s) |>).
Proof.
  intros Hwf Hm Hf. rewrite run_update.
  rewrite (update_by_id _ _ m) by
    (try apply Hwf; try done; intros r [? _]%fence_matches_true; apply fence_matches_true in Hf as [? _];
     congruence). done.
Qed.

Lemma run_find s m : wf s → m ∈ jobs_t s → run (jobs_find_by_id (jobs.id m)) s = (Some m, s).
Proof.
  intros Hwf Hm. cbn [run jobs_find_by_id query fst snd].
  by rewrite (find_by_key jobs.id _ m) by (done || apply Hwf).
Qed.

End OneRow.

(** ** Failure, suspension and resumption of the lease holder's job *)

Section Holder.
Context {C : Chrono} {U : Uuid} {J : SerdeJson JobPayload} {K : ScratchQuota}.
Context `{!SerdeLaws JobPayload}.

Lemma fenced_row f m : fence_matches f m = true → jobs.id m = job_id f ∧ row_is_fenced f m = true.
Proof.
  assert (fence_matches f m = text_eq (jobs.id m) (job_id f) && row_is_fenced f m) as ->
    by (unfold fence_matches, row_is_fenced; by rewrite !andb_assoc).
  intros H. by where_clauses.
Qed.

(** The retry envelope never asks for a resume. *)
Lemma retry_payload_ok m :
  retry_payload true m ≠ Some None
  ∧ ∀ m', jobs.payload m' = default (jobs.payload m) (mjoin (retry_payload true m)) →
      resuming m' = false.
Proof.
  unfold retry_payload, resuming. destruct (from_str (jobs.payload m)) as [p|] eqn:Hp; simpl.
  - destruct (resume_pending p) eqn:Hr; simpl.
    + destruct (serde_roundtrip (p <| resume_pending := false |>)) as (j & -> & Hj).
      split; [done|]. intros m' ->. simpl. by rewrite Hj.
    + split; [done|]. intros m' ->. by rewrite Hp.
  - split; [done|]. intros m' ->. by rewrite Hp.
Qed.

(** The row a failure leaves. *)
Definition failure_of (now : Z) (m m' : jobs.Model) : Prop :=
  if negb (jobs.cancel_requested m =? 0) then
    jobs.state m' = "cancelled" ∧ jobs.finished_at m' = Some (to_rfc3339 now)
  else if jobs.attempt_count m <? jobs.max_attempts m then
    jobs.state m' = "pending" ∧ jobs.finished_at m' = None ∧ resuming m' = false
    ∧ jobs.run_after m' = to_rfc3339 (now + seconds (backoff_secs (jobs.attempt_count m)))
  else
    jobs.state m' = "failed" ∧ jobs.finished_at m' = Some (to_rfc3339 now)
    ∧ jobs.run_after m' = jobs.run_after m.

(** The run of a failure by the lease holder. *)
Lemma run_fail_job s f k e m :
  wf s → m ∈ jobs_t s → fence_matches f m = true →
  ∃ m', run (fail_job f k e) s = (Ok true, s <| jobs_t := set_row (jobs.id m) m' (jobs_t s) |>)
    ∧ row_le m m' ∧ row_ok m' ∧ jobs.lease_owner m' = None
    ∧ jobs.attempt_count m' = jobs.attempt_count m ∧ failure_of (clock s) m m'.
Proof.
  intros Hwf Hm Hf. pose proof (fence_running _ _ Hf) as Hrun.
  pose proof (wf_rows _ Hwf m Hm) as Hok. destruct (fenced_row f m Hf) as [Hid Hrow].
  unfold fail_job. rewrite run_bind, <-Hid, run_find by done. cbn [fst snd]. rewrite Hrow.
  cbn [negb]. unfold failure_of. destruct (jobs.cancel_requested m =? 0) eqn:Hc; cbn [negb].
  - rewrite run_bind. cbn [run Utc_now query fst snd].
    destruct (jobs.attempt_count m <? jobs.max_attempts m) eqn:Hlt; cbv zeta; where_clauses.
    + destruct (retry_payload_ok m) as [Hsome Hres].
      destruct (failed_row_retry_ok m k e (to_rfc3339 (job_backoff_run_after
        (jobs.attempt_count m) (clock s))) (to_rfc3339 (clock s)) (mjoin (retry_payload true m)))
        as [Hle Hok']; try done.
      eexists. split; [|split_and!; [exact Hle|exact Hok'|..]].
      * destruct (retry_payload true m) as [[j|]|]; [|done|];
          rewrite run_bind, (run_fenced_update s f m) by done; done.
      * by destruct (mjoin _).
      * by destruct (mjoin _).
      * by destruct (mjoin _).
      * by destruct (mjoin _).
      * apply Hres. by destruct (mjoin _).
      * rewrite <-backoff_run_after_eq. by destruct (mjoin _).
    + cbn [retry_payload]. eexists. split; [rewrite run_bind, (run_fenced_update s f m) by done; done|].
      destruct (failed_row_final_ok m k e (jobs.run_after m) (to_rfc3339 (clock s))
        (to_rfc3339 (clock s))) as [Hle Hok']; try done.
  - eexists. split; [|split_and!; [apply (cancelled_row_ok m)|apply (cancelled_row_ok m)|..]];
      auto with store.
    unfold try_bind, mark_job_cancelled_cas. rewrite !run_bind, run_now_str, run_update.
    rewrite (update_by_id _ _ m); [done|apply Hwf|done| |].
    + unfold cancel_filter. by rewrite Hid, text_eq_refl, andb_true_r.
    + unfold cancel_filter. intros r E. where_clauses. congruence.
Qed.

(** The failure of the lease holder replaces its row alone: cancelled when flagged, back to
    pending after the backoff with the lease and the resume marker cleared while attempts
    remain, failed with a finish time otherwise. *)
Theorem fail_job_spec s f k e m :
  wf s → m ∈ jobs_t s → fence_matches f m = true →
  ∃ m', run (fail_job f k e) s = (Ok true, s <| jobs_t := set_row (jobs.id m) m' (jobs_t s) |>)
    ∧ row_le m m' ∧ row_ok m' ∧ jobs.lease_owner m' = None
    ∧ jobs.attempt_count m' = jobs.attempt_count m ∧ failure_of (clock s) m m'.
Proof. apply run_fail_job. Qed.

(** A suspension parks the job without its lease until the wake time, and any claim of the
    parked row resumes the same attempt under the next generation with the checkpoint stored,
    the invocation counted and the resume marker cleared. *)
Theorem suspend_then_resume s f c w m p :
  wf s → m ∈ jobs_t s → fence_matches f m = true →
  from_str (jobs.payload m) = Some p → Z.of_nat (String.length (json c)) ≤ MAX_CHECKPOINT_BYTES →
  ∃ m1, run (suspend_job f c w) s = (Ok true, s <| jobs_t := set_row (jobs.id m) m1 (jobs_t s) |>)
    ∧ pending m1 ∧ jobs.lease_owner m1 = None ∧ jobs.run_after m1 = to_rfc3339 w
    ∧ ∀ m2 o e n, lease_granted m1 m2 o e n →
        jobs.attempt_count m2 = jobs.attempt_count m
        ∧ jobs.lease_generation m2 = jobs.lease_generation m + 1
        ∧ from_str (jobs.payload m2) = Some (p <| checkpoint := Some c |>
            <| resume_pending := true |>
            <| invocation_sequence :=
                 Some (u32_saturating_add (default 1 (invocation_sequence p)) 1) |>
            <| resume_pending := false |>).
Proof.
  intros Hwf Hm Hf Hp Hlen. pose proof (fence_running _ _ Hf) as Hrun.
  destruct (ok_running _ (wf_rows _ Hwf m Hm) Hrun) as (_ & _ & _ & Hatt & _).
  destruct (fenced_row f m Hf) as [Hid Hrow].
  unfold suspend_job. rewrite run_bind, <-Hid, run_find by done. cbn [fst snd]. rewrite Hrow, Hp.
  cbn [negb]. unfold checkpoint_too_large. rewrite (proj2 (Z.ltb_ge _ _)) by done. cbv zeta.
  set (p1 := p <| checkpoint := _ |> <| resume_pending := _ |> <| invocation_sequence := _ |>).
  destruct (serde_roundtrip p1) as (j & -> & Hj).
  exists (suspended_row j (to_rfc3339 w) (to_rfc3339 (clock s)) m). split_and!; try done.
  - by rewrite !run_bind, run_now_str, (run_fenced_update s f m).
  - intros m2 o e n (json & -> & [[-> Hres]|(q & j' & Hq & -> & Hj')]).
    { unfold resuming in Hres. simpl in Hres. rewrite Hj in Hres. done. }
    simpl in Hq. rewrite Hj in Hq. injection Hq as <-. simpl. split_and!; [|done|done].
    unfold next_attempt, resuming. simpl. rewrite Hj. simpl. lia.
Qed.
End Holder.

(** ** Reads repair what they cannot decode *)

Section Repair.
Context {C : Chrono} {U : Uuid} {J : SerdeJson JobPayload} {K : ScratchQuota}.
Context `{!SerdeLaws JobPayload}.

Lemma invalid_row_decodes now reason now_s m :
  ∃ job, try_map_job now (invalid_row reason now_s m) = inr job
    ∧ rec_id job = jobs.id m ∧ rec_kind job = Invalid ∧ rec_state job = Failed
    ∧ rec_lease_owner job = None ∧ rec_error_kind job = Some "invalid_job"
    ∧ rec_error_message job = Some reason.
Proof.
  unfold try_map_job, invalid_row, invalid_job_payload_json. simpl.
  destruct (serde_roundtrip JobPayload_default) as (j & -> & Hj). simpl. rewrite Hj. simpl. eauto 10.
Qed.

(** Reading an active row this build cannot decode replaces it by a terminal failed row that
    decodes, reports the decoding reason and carries no fence. *)
Theorem unreadable_job_fails_closed s m reason :
  wf s → m ∈ jobs_t s → job_is_active m = true → try_map_job (clock s) m = inl reason →
  ∃ job m', run (get_job (jobs.id m)) s =
      (Ok (Some job), s <| jobs_t := set_row (jobs.id m) m' (jobs_t s) |>)
    ∧ rec_state job = Failed ∧ rec_kind job = Invalid ∧ fence job = None
    ∧ rec_error_kind job = Some "invalid_job" ∧ rec_error_message job = Some reason
    ∧ terminal m' ∧ readable m' = true.
Proof.
  intros Hwf Hm Ha Hbad. pose proof (wf_rows _ Hwf m Hm) as Hok.
  set (m' := invalid_row reason (to_rfc3339 (clock s)) m).
  assert (Hupd : run (mark_invalid_job (jobs.id m) reason) s
    = (Ok (), s <| jobs_t := set_row (jobs.id m) m' (jobs_t s) |>)).
  { unfold mark_invalid_job. rewrite !run_bind, run_now_str, run_update.
    rewrite (update_by_id _ _ m); [done|apply Hwf|done|by rewrite text_eq_refl, Ha|].
    intros r E. by where_clauses. }
  assert (Hwf' : wf (s <| jobs_t := set_row (jobs.id m) m' (jobs_t s) |>)).
  { pose proof (wp_run evolves evolves wf _ _ s Hwf (safe_mark_invalid_job (jobs.id m) reason s))
      as (_ & H & _). by rewrite Hupd in H. }
  destruct (invalid_row_decodes (clock s) reason (to_rfc3339 (clock s)) m)
    as (job & Hjob & Hid & Hk & Hs & Ho & He & Hmsg).
  exists job, m'. split_and!; try done.
  - unfold get_job, try_bind. rewrite run_bind, run_find by done. cbn [fst snd].
    rewrite run_bind, run_clock. cbn [fst snd]. rewrite Hbad.
    rewrite run_bind, Hupd. cbn [fst snd].
    change (jobs.id m) with (jobs.id m'). rewrite run_bind, run_find; [|done|].
    + rewrite run_bind, run_clock. cbn [run fst snd]. simpl clock. unfold m'. by rewrite Hjob.
    + exact (set_row_elem m m' _ Hm).
  - unfold fence. by rewrite Ho.
  - apply terminal_intro. simpl. tauto.
  - rewrite (try_map_readable (clock s)). unfold m'. by rewrite Hjob.
Qed.
End Repair.

(** ** Lease reclaim *)

Section Reclaim.
Context {C : Chrono} {U : Uuid} {J : SerdeJson JobPayload} {K : ScratchQuota}.

(** A running row whose lease is over at [now]. *)
Definition lease_over (now : Z) (m : jobs.Model) : bool :=
  text_eq (jobs.state m) (JobState.as_str Running) && lease_expired_by (to_rfc3339 now) m.

(** Where a row whose lease is over goes: cancelled when flagged, failed when the budget is
    spent, back to the queue otherwise. *)
Definition reclaim_row (now : Z) (m : jobs.Model) : jobs.Model :=
  if lease_over now m then
    if negb (jobs.cancel_requested m =? 0)
    then cancelled_row "cancelled" "cancelled by operator" (to_rfc3339 now) m
    else if jobs.max_attempts m <=? jobs.attempt_count m
    then reclaimed_row (JobState.as_str Failed) (to_rfc3339 now) (Some (to_rfc3339 now)) m
    else reclaimed_row (JobState.as_str Pending) (to_rfc3339 now) None m
  else m.

(** Lease stamps as the claim and the heartbeat write them. *)
Definition well_stamped (m : jobs.Model) : Prop :=
  ∀ e, jobs.lease_expires_at m = Some e → ∃ t, representable t ∧ e = to_rfc3339 t.

Lemma reclaim_row_id now m : jobs.id (reclaim_row now m) = jobs.id m.
Proof. unfold reclaim_row. by repeat case_match. Qed.

(** The table once the rows with [ids] have been visited. *)
Definition visited (now : Z) (ids : list string) (t : list jobs.Model) : list jobs.Model :=
  map (λ m, if is_in (jobs.id m) ids then reclaim_row now m else m) t.

Lemma visited_ids now ids t : map jobs.id (visited now ids t) = map jobs.id t.
Proof.
  unfold visited. rewrite map_map. apply map_ext. intros m.
  destruct (is_in _ _); [apply reclaim_row_id|done].
Qed.

Lemma visited_pending now ids t x :
  x ∈ t → is_in (jobs.id x) ids = false → x ∈ visited now ids t.
Proof. intros Hx Hi. apply list_elem_of_fmap. exists x. by rewrite Hi. Qed.

Lemma visited_snoc now ids t x :
  NoDup (map jobs.id t) → x ∈ t → is_in (jobs.id x) ids = false →
  visited now (ids ++ [jobs.id x]) t = set_row (jobs.id x) (reclaim_row now x) (visited now ids t).
Proof.
  intros Hnd Hx Hi. unfold visited, set_row, set_by. rewrite map_map. apply map_ext_in.
  intros m Hm%list_elem_of_In. unfold is_in at 1. rewrite existsb_app. fold (is_in (jobs.id m) ids).
  simpl. rewrite orb_false_r.
  assert (Hid : jobs.id (if is_in (jobs.id m) ids then reclaim_row now m else m) = jobs.id m).
  { destruct (is_in (jobs.id m) ids); [apply reclaim_row_id|done]. }
  rewrite Hid. destruct (text_eq (jobs.id m) (jobs.id x)) eqn:E; where_clauses.
  - rewrite (NoDup_key jobs.id t m x) by done. by rewrite orb_true_r.
  - by rewrite orb_false_r.
Qed.

Lemma set_row_same x t : NoDup (map jobs.id t) → x ∈ t → set_row (jobs.id x) x t = t.
Proof.
  intros Hnd Hx. unfold set_row, set_by. rewrite <-(map_id t) at 2. apply map_ext_in.
  intros m Hm%list_elem_of_In. destruct (text_eq _ _) eqn:E; where_clauses; [|done].
  symmetry. by apply (NoDup_key jobs.id t).
Qed.

(** Visiting one row. *)
Lemma run_reclaim_one `{!ChronoLaws C} s ids acc x :
  wf s → representable (clock s) → x ∈ jobs_t s → running x → well_stamped x →
  is_in (jobs.id x) ids = false →
  run (reclaim_one (clock s) acc x) (s <| jobs_t := visited (clock s) ids (jobs_t s) |>) =
  (Ok (acc + Z.b2z (lease_over (clock s) x)),
   s <| jobs_t := visited (clock s) (ids ++ [jobs.id x]) (jobs_t s) |>).
Proof.
  intros Hwf Hrep Hx Hr Hst Hi. set (now := clock s). set (t := visited now ids (jobs_t s)).
  assert (Hnd : NoDup (map jobs.id t)) by (unfold t; rewrite visited_ids; apply Hwf).
  assert (Hxt : x ∈ t) by by apply visited_pending.
  rewrite visited_snoc by (done || apply Hwf). fold t.
  assert (Hover : run match jobs.lease_expires_at x with
                      | None => Ret true
                      | Some e => let* exp := parse_dt_io e in Ret (exp <=? now)
                      end (s <| jobs_t := t |>) = (lease_over now x, s <| jobs_t := t |>)).
  { unfold lease_over, lease_expired_by. rewrite Hr. simpl.
    destruct (jobs.lease_expires_at x) as [e|] eqn:He; [|done].
    destruct (Hst e He) as (e' & Hrep' & ->). unfold parse_dt_io.
    rewrite parse_to_rfc3339 by done. simpl. by rewrite to_rfc3339_le. }
  unfold reclaim_one. rewrite run_bind, Hover. cbn [fst snd]. unfold reclaim_row.
  destruct (lease_over now x) eqn:Ho; cbn [negb Z.b2z].
  2: { rewrite set_row_same, Z.add_0_r by done. done. }
  unfold lease_over in Ho. where_clauses.
  destruct (negb (jobs.cancel_requested x =? 0)).
  - destruct (ok_running _ (wf_rows _ Hwf x Hx) Hr) as ([o Hown] & _).
    unfold try_bind, mark_job_cancelled_cas. rewrite !run_bind, run_now_str, run_update.
    cbn [fst snd]. change (jobs_t (s <| jobs_t := t |>)) with t.
    rewrite (update_by_id _ _ x); [done|done|done| |].
    + unfold cancel_filter. simpl. rewrite text_eq_refl, Hr, Hown. simpl.
      by rewrite text_eq_refl, Z.eqb_refl.
    + unfold cancel_filter. intros r E. by where_clauses.
  - rewrite run_bind, run_update. change (jobs_t (s <| jobs_t := t |>)) with t.
    rewrite (update_by_id _ _ x); [by destruct (_ <=? _)|done|done| |].
    + unfold reclaim_filter. rewrite text_eq_refl, Hr, Z.eqb_refl, H0. done.
    + unfold reclaim_filter. intros r E. by where_clauses.
Qed.

Lemma count_cons {A} (p : A → bool) x l :
  Z.of_nat (length (List.filter p (x :: l))) = Z.b2z (p x) + Z.of_nat (length (List.filter p l)).
Proof. simpl. destruct (p x); simpl; lia. Qed.

Lemma count_app {A} (p : A → bool) l1 l2 :
  Z.of_nat (length (List.filter p (l1 ++ l2))) =
  Z.of_nat (length (List.filter p l1)) + Z.of_nat (length (List.filter p l2)).
Proof. rewrite List.filter_app, length_app. lia. Qed.

Lemma where_sub {A} (p q : A → bool) l :
  (∀ x, p x = true → q x = true) → List.filter p (List.filter q l) = List.filter p l.
Proof.
  intros H. induction l as [|x l IH]; simpl; [done|]. destruct (q x) eqn:E; simpl; rewrite IH; [done|].
  destruct (p x) eqn:Ep; [|done]. by rewrite (H x Ep) in E.
Qed.

(** Run alone, the read-then-update reclaim loop equals one pass over the table: every running
    row whose lease is over becomes cancelled when flagged, failed when its budget is spent and
    pending otherwise, nothing else changes, and the count returned is the number of such rows. *)
Theorem reclaim_is_one_pass `{!ChronoLaws C} s :
  wf s → representable (clock s) → (∀ m, m ∈ jobs_t s → running m → well_stamped m) →
  run reclaim_expired_leases s =
  (Ok (Z.of_nat (length (List.filter (lease_over (clock s)) (jobs_t s)))),
   s <| jobs_t := map (reclaim_row (clock s)) (jobs_t s) |>).
Proof.
  intros Hwf Hrep Hst. set (now := clock s).
  set (rows := List.filter (λ m, text_eq (jobs.state m) (JobState.as_str Running)) (jobs_t s)).
  assert (Hnd : NoDup (map jobs.id rows)).
  { eapply sublist_NoDup; [apply Hwf|]. apply (fmap_sublist _), sublist_where. }
  unfold reclaim_expired_leases. rewrite run_bind, run_clock. cbn [fst snd]. rewrite run_bind.
  change (run (jobs_select _) s) with (rows, s). cbn [fst snd]. fold now.
  enough (Hloop : alone (for_each rows 0 (reclaim_one now)) (λ r s',
    r = Ok (Z.of_nat (length (List.filter (lease_over now) rows)))
    ∧ s' = s <| jobs_t := visited now (map jobs.id rows) (jobs_t s) |>) s).
  { apply alone_run in Hloop as [Hr Hs]. rewrite (surjective_pairing (run _ _)), Hr, Hs.
    unfold rows at 1. rewrite where_sub by (unfold lease_over; by intros x [? _]%andb_prop).
    f_equal. f_equal. unfold visited. apply map_ext_in. intros m Hm%list_elem_of_In.
    destruct (is_in _ _) eqn:E; [done|]. unfold reclaim_row, lease_over.
    destruct (text_eq (jobs.state m) _) eqn:Er; [|done].
    rewrite (proj2 (is_in_true _ _)) in E; [done|].
    apply list_elem_of_fmap_2, elem_of_where. done. }
  apply (alone_for_each (λ acc xs s', ∃ seen, rows = seen ++ xs
    ∧ acc = Z.of_nat (length (List.filter (lease_over now) seen))
    ∧ s' = s <| jobs_t := visited now (map jobs.id seen) (jobs_t s) |>)).
  - intros acc x xs s' (seen & Hrows & -> & ->). apply alone_run.
    assert (Hx : x ∈ rows) by (rewrite Hrows; set_solver).
    apply elem_of_where in Hx as [Hx Hr]. where_clauses.
    pose proof (run_reclaim_one s (map jobs.id seen)
      (Z.of_nat (length (List.filter (lease_over now) seen))) x) as Hone. fold now in Hone.
    rewrite Hone; [|done|done|done|done|by apply Hst|].
    + cbn [fst snd]. exists (seen ++ [x]). rewrite <-app_assoc, map_app, count_app, count_cons.
      split_and!; [done|simpl; lia|done].
    + apply not_true_iff_false. rewrite is_in_true. rewrite Hrows, map_app in Hnd.
      apply NoDup_app in Hnd as (_ & Hd & _). intros Hin. by apply (Hd _ Hin); left.
  - intros acc s' (seen & Hrows & -> & ->). rewrite app_nil_r in Hrows. by subst.
  - exists []. split_and!; [done..|]. unfold visited. simpl. rewrite map_id. by destruct s.
Qed.

(** What one access of the reclaim loop may change: rows whose lease, as it stands at that
    access, is over at [now]. *)
Definition only_leases_over (now : Z) (s s' : Db) : Prop :=
  ∀ m, m ∈ jobs_t s → m ∈ jobs_t s' ∨ lease_over now m = true.

#[local] Instance only_leases_over_refl now : Reflexive (only_leases_over now).
Proof. intros s m Hm. by left. Qed.

Lemma wp_update_leases_over now p f Q s :
  (∀ m, p m = true → lease_over now m = true) → (∀ n s, Q n s) →
  wp (λ _ _, True) (only_leases_over now) (λ _, True) (jobs_update p f) Q s.
Proof.
  intros Hp HQ. apply wp_exec. intros s' _ _. split_and!; [|done|apply HQ].
  intros m Hm. destruct (p m) eqn:E; [right; auto|left].
  apply elem_of_update. exists m. by rewrite E.
Qed.

Lemma lease_over_iff now m :
  lease_over now m = true ↔ running m ∧ lease_expired_by (to_rfc3339 now) m = true.
Proof. unfold lease_over. by rewrite andb_true_iff, text_eq_true. Qed.

Lemma wp_reclaim_one_leases now acc m s :
  wp (λ _ _, True) (only_leases_over now) (λ _, True) (reclaim_one now acc m) (λ _ _, True) s.
Proof.
  assert (Hclk : ∀ (Q : Z → Db → Prop) s, (∀ t s, Q t s) →
    wp (λ _ _, True) (only_leases_over now) (λ _, True) Utc_now Q s).
  { intros Q s0 HQ. apply wp_query; [apply _|auto]. }
  unfold reclaim_one. apply wp_bind. eapply wp_mono with (Q := λ _ _, True).
  2: { destruct (jobs.lease_expires_at m) as [e|]; [|done]. apply wp_bind. unfold parse_dt_io.
       destruct (parse_from_rfc3339 e); [done|]. by apply Hclk. }
  intros expired s1 _. destruct expired; [|done]. cbn [negb].
  destruct (negb (jobs.cancel_requested m =? 0)).
  - apply wp_try_bind, wp_bind, wp_bind, Hclk. intros t s2. apply wp_bind, wp_update_leases_over.
    + intros r E. apply lease_over_iff. unfold cancel_filter in E. by where_clauses.
    + intros n s3. simpl. by destruct (n =? 1)%nat.
  - apply wp_bind, wp_update_leases_over.
    + intros r E. apply lease_over_iff. unfold reclaim_filter in E. by where_clauses.
    + intros n s3. by destruct (n =? 1)%nat.
Qed.

(** Reclaim on any list of rows, however stale, while others do whatever they like. *)
(** Whatever other threads do between its accesses and however stale the rows it read, the
    reclaim loop only changes rows whose lease, as stored at the access, is over at the instant
    it started; a lease extended beyond that instant is never taken. *)
Theorem reclaim_never_takes_a_live_lease `{!ChronoLaws C} now rows s :
  wp (λ _ _, True) (only_leases_over now) (λ _, True)
    (for_each rows 0 (reclaim_one now)) (λ _ _, True) s
  ∧ ∀ m e, representable now → representable e → now < e →
      jobs.lease_expires_at m = Some (to_rfc3339 e) → lease_over now m = false.
Proof.
  split.
  - apply wp_for_each; [|done]. intros acc m s' _ _. apply wp_reclaim_one_leases.
  - intros m e Hn He Hlt Hm. apply not_true_iff_false. rewrite lease_over_iff.
    unfold lease_expired_by. rewrite Hm. simpl. rewrite to_rfc3339_le by done. intros [_ E].
    where_clauses. lia.
Qed.
End Reclaim.

(** ** Retention *)

Section Retention.
Context {C : Chrono} {U : Uuid} {J : SerdeJson JobPayload} {K : ScratchQuota}.

(** A finished row older than the cutoff. *)
Definition outlived (cutoff : Z) (m : jobs.Model) : Prop :=
  terminal m ∧ ∃ t, jobs.finished_at m = Some (to_rfc3339 t) ∧ representable t ∧ t ≤ cutoff.

(** Retention removes exactly the terminal rows that finished at or before the cutoff, cascades
    to exactly their scratch paths, and returns the number of rows removed. *)
Theorem prune_removes_exactly_the_outlived `{!ChronoLaws C} s retention_days :
  wf s → 0 ≤ retention_days ≤ i64_MAX →
  representable (clock s - days retention_days) →
  (∀ m e, m ∈ jobs_t s → jobs.finished_at m = Some e → ∃ t, representable t ∧ e = to_rfc3339 t) →
  let cutoff := clock s - days retention_days in
  let r := run (prune_terminal_jobs retention_days) s in
  (∀ m, m ∈ jobs_t r.2 ↔ m ∈ jobs_t s ∧ ¬ outlived cutoff m)
  ∧ (∀ t, t ∈ job_temp_paths_t r.2 ↔ t ∈ job_temp_paths_t s
        ∧ ∃ m, m ∈ jobs_t r.2 ∧ jobs.id m = job_temp_paths.job_id t)
  ∧ r.1 = Ok (Z.of_nat (length (jobs_t s)) - Z.of_nat (length (jobs_t r.2))).
Proof.
  intros Hwf Hret Hcut Hst cutoff r.
  assert (Hpf : ∀ m, m ∈ jobs_t s → prune_filter (to_rfc3339 cutoff) m = true ↔ outlived cutoff m).
  { intros m Hm. unfold prune_filter, outlived. rewrite andb_true_iff, is_in_true.
    fold (terminal m). destruct (jobs.finished_at m) as [e|] eqn:He; simpl.
    - destruct (Hst m e Hm He) as (t & Ht & ->). rewrite to_rfc3339_le, Z.leb_le by done.
      split; [intros [? ?]; eauto 6|]. intros [? (t' & [= Et] & Ht' & Hle)]. split; [done|].
      apply Z.leb_le. rewrite <-to_rfc3339_le by done. rewrite Et, to_rfc3339_le by done.
      by apply Z.leb_le.
    - split; [by intros [_ ?]|]. by intros [_ (t & ? & _)]. }
  assert (Er : r = (Ok (Z.of_nat (length (List.filter (prune_filter (to_rfc3339 cutoff)) (jobs_t s)))),
     (run (jobs_delete (prune_filter (to_rfc3339 cutoff))) s).2)).
  { unfold r, prune_terminal_jobs, i64_try_from. rewrite !run_bind, run_clock.
    rewrite (proj2 (Z.leb_le _ _)) by lia. done. }
  rewrite Er. cbn [fst snd]. clear Er r. set (p := prune_filter (to_rfc3339 cutoff)) in *.
  assert (Hj : ∀ m, m ∈ jobs_t (run (jobs_delete p) s).2 ↔ m ∈ jobs_t s ∧ ¬ outlived cutoff m).
  { intros m. simpl. rewrite elem_of_where, negb_true_iff, <-not_true_iff_false.
    split; intros [Hm Hn]; (split; [done|]); by rewrite <-(Hpf m Hm) || rewrite (Hpf m Hm). }
  split_and!; [done| |].
  - intros t. split.
    + intros Ht. split; [by apply elem_of_where in Ht as [? _]|].
      destruct (wf_temp_fk _ (proj2 (delete_ok p s Hwf)) t Ht) as (m & Hm & Hid). eauto.
    + intros [Ht (m & Hm & Hid)]. apply elem_of_where. split; [done|].
      apply negb_true_iff, not_true_iff_false. rewrite is_in_true, list_elem_of_fmap.
      intros (m2 & Hid2 & [Hm2 Hp2]%elem_of_where). apply Hj in Hm as [Hm Hno]. apply Hno.
      rewrite (NoDup_key jobs.id (jobs_t s) m m2); [by apply Hpf|apply Hwf|done|done|congruence].
  - f_equal. simpl. pose proof (where_partition p (jobs_t s)). lia.
Qed.
End Retention.

(** ** Cancellation *)

Section Cancel.
Context {C : Chrono} {U : Uuid} {J : SerdeJson JobPayload} {K : ScratchQuota}.

(** The job is over, or its holder has been told to stop and nobody can claim it again. *)
Definition settled (id : string) (s : Db) : Prop :=
  ¬ fresh_in s id ∧
  ∀ m, m ∈ jobs_t s → jobs.id m = id → job_is_active m = false ∨ jobs.cancel_requested m ≠ 0.

Lemma settled_stable id s s' : evolves s s' → settled id s → settled id s'.
Proof.
  intros Hev [Hold Hset]. split.
  - intros Hf. apply Hold. eapply fresh_in_mono; [apply Hev|done].
  - intros m' Hm' Hid. destruct (ev_rows _ _ Hev m' Hm') as [(m & Hm & Hle)|Hf]; [|congruence].
    destruct (Hset m Hm) as [Hi|Hc]; [by rewrite <-(le_id _ _ Hle)| |].
    + left. by rewrite (le_inactive _ _ Hle Hi).
    + right. by apply (le_cancel _ _ Hle).
Qed.

(** A conditional update that flags the row it hits. *)
Lemma update_settles id p f s :
  wf s → (∀ m, p m = true → jobs.id m = id ∧ jobs.id (f m) = id ∧ jobs.cancel_requested (f m) ≠ 0) →
  length (List.filter p (jobs_t s)) = 1%nat →
  settled id (s <| jobs_t := (update_rows p f (jobs_t s)).2 |>).
Proof.
  intros Hwf Hp Hlen. destruct (List.filter p (jobs_t s)) as [|m l] eqn:Hfil; [done|].
  assert (m ∈ List.filter p (jobs_t s)) as [Hm Hpm]%elem_of_where by (rewrite Hfil; left).
  destruct (Hp m Hpm) as (Hid & Hid' & Hc). split.
  - rewrite <-Hid. by apply (wf_drawn _ Hwf m).
  - intros m' (y & Hy & ->)%elem_of_update E. right.
    assert (jobs.id y = id) as Hyid. { destruct (p y) eqn:Epy; [by apply Hp|done]. }
    assert (y = m) as -> by (apply (NoDup_key jobs.id (jobs_t s)); [apply Hwf|congruence..]).
    by rewrite Hpm.
Qed.

Lemma wp_flag id p f (Q : nat → Db → Prop) s :
  (∀ m, p m = true → row_ok m → row_le m (f m) ∧ row_ok (f m)) →
  (∀ m, p m = true → jobs.id m = id ∧ jobs.id (f m) = id ∧ jobs.cancel_requested (f m) ≠ 0) →
  (∀ n s', (n = 1%nat → settled id s') → Q n s') →
  wp evolves evolves wf (jobs_update p f) Q s.
Proof.
  intros Hf Hp HQ. apply wp_exec. intros s' _ Hwf.
  destruct (update_ok p f s' Hwf) as [HG HI]; [auto|]. split_and!; [done..|].
  apply HQ. intros Hn. by apply update_settles.
Qed.

(** What follows a settling access stays settled. *)
Lemma wp_stays_settled {A} id (p : prog Db A) s :
  safe evolves wf p → settled id s → wp evolves evolves wf p (λ _ s', settled id s') s.
Proof.
  intros Hp Hs. eapply wp_mono; [|apply (wp_history evolves wf p (λ _ _, True) s s), Hp]; [|done].
  intros a s' [_ Hev]. by eapply settled_stable.
Qed.

Lemma state_inactive m :
  JobState.is_terminal (default Failed (JobState.parse (jobs.state m))) = true →
  job_is_active m = false.
Proof.
  intros H. apply not_true_iff_false. intros [E|E]%active_true; rewrite E in H; done.
Qed.

Lemma wp_cancel_round id s :
  wp evolves evolves wf (cancel_round id)
    (λ r s', match r with
             | Ok (Some (Some _)) => settled id s'
             | Ok (Some None) => (∀ m, m ∈ jobs_t s' → jobs.id m ≠ id) ∨ settled id s'
             | _ => True
             end) s.
Proof.
  unfold cancel_round. apply wp_bind. apply wp_query; [apply _|]. intros s1 Hev1 Hwf1.
  destruct (List.find _ _) as [m|] eqn:Hf.
  2: { left. intros m Hm Hid. apply (find_where_none _ _ m) in Hf; [|done]. by apply text_eq_false in Hf. }
  apply find_where in Hf as [Hm Hid]. where_clauses. cbv zeta.
  assert (Hread : ∀ s', settled id s' → wp evolves evolves wf
    (let? job := get_job id in Ret (Ok (Some job)))
    (λ r s', match r with
             | Ok (Some (Some _)) => settled id s'
             | Ok (Some None) => (∀ m, m ∈ jobs_t s' → jobs.id m ≠ id) ∨ settled id s'
             | _ => True
             end) s').
  { intros s' Hs. apply wp_try_bind. eapply wp_mono; [|by apply wp_stays_settled, Hs; apply safe_get_job].
    intros [[job|]|e] s'' Hs''; simpl; auto. }
  destruct (JobState.is_terminal _) eqn:Hterm.
  - assert (Hs1 : settled id s1).
    { split; [rewrite <-Hid; by apply (wf_drawn _ Hwf1)|]. intros m' Hm' Hid'. left.
      rewrite (NoDup_key jobs.id (jobs_t s1) m' m); [by apply state_inactive|apply Hwf1|done..|congruence]. }
    apply wp_bind, wp_clock. intros s2 now Hev2 _.
    destruct (try_map_job now m) as [reason|job]; [|by eapply settled_stable].
    apply wp_try_bind. eapply wp_mono; [|apply (wp_stays_settled id)].
    + intros [[]|e] s3 Hs3; [by apply Hread|done].
    + apply safe_mark_invalid_job.
    + by eapply settled_stable.
  - destruct (default Failed (JobState.parse (jobs.state m))); try done.
    + apply wp_try_bind, wp_bind, wp_bind, wp_clock. intros s2 now _ _. apply wp_bind, (wp_flag id).
      * intros r E. apply cancelled_row_ok. by eapply cancel_filter_active.
      * intros r E. assert (jobs.id r = id) by (unfold cancel_filter in E; by where_clauses).
        by split_and!.
      * intros n s3 Hset. simpl. destruct (n =? 1)%nat eqn:En; [|done].
        apply Hread, Hset. by apply Nat.eqb_eq.
    + apply wp_bind, wp_bind, wp_clock. intros s2 now _ _. apply wp_bind, (wp_flag id).
      * intros r E. where_clauses. by apply flag_cancel_row_ok.
      * intros r E. assert (jobs.id r = id) by by where_clauses. by split_and!.
      * intros n s3 Hset. destruct (n =? 1)%nat eqn:En; [|done].
        apply Hread, Hset. by apply Nat.eqb_eq.
Qed.

(** What a round may answer. *)
Definition round_settles (id : string) (r : result (option (option JobRecord))) (s : Db) : Prop :=
  match r with
  | Ok (Some (Some _)) => settled id s
  | Ok (Some None) => (∀ m, m ∈ jobs_t s → jobs.id m ≠ id) ∨ settled id s
  | _ => True
  end.

Lemma wp_cancel_loop id n s :
  wp evolves evolves wf (for_until (seq n 16) (λ _, cancel_round id)) (round_settles id) s.
Proof.
  generalize (seq n 16). intros xs. revert s. induction xs as [|x xs IH]; intros s; [done|].
  cbn [for_until]. apply wp_try_bind. eapply wp_mono; [|apply wp_cancel_round].
  intros [[o|]|e] s' H; [exact H|apply IH|done].
Qed.

Lemma run_get_job_ok id s : ∃ o s', run (get_job id) s = (Ok o, s').
Proof.
  unfold get_job, try_bind. rewrite run_bind. destruct (run (jobs_find_by_id id) s).1; [|eauto].
  rewrite run_bind. destruct (try_map_job _ _); [|simpl; eauto]. rewrite run_bind. simpl. eauto.
Qed.


(** Alone, the first round answers. *)
Lemma run_cancel_round_answers id s : wf s → ∃ o s', run (cancel_round id) s = (Ok (Some o), s').
Proof.
  intros Hwf.
  assert (Hread : ∀ s', ∃ o s'', run (let? job := get_job id in Ret (Ok (Some job))) s' = (Ok (Some o), s'')).
  { intros s'. rewrite run_try_bind. destruct (run_get_job_ok id s') as (o & s'' & ->). eauto. }
  unfold cancel_round. rewrite run_bind. cbn [run jobs_find_by_id query fst snd].
  destruct (List.find _ _) as [m|] eqn:Hf; [|eauto]. apply find_where in Hf as [Hm Hid].
  assert (Hone : ∀ p, p m = true → (∀ r, p r = true → jobs.id r = jobs.id m) →
    length (List.filter p (jobs_t s)) = 1%nat).
  { intros p Hp Hk. apply (where_key_1 jobs.id p m); [apply Hwf|done..]. }
  where_clauses. subst id. cbv zeta.
  destruct (JobState.is_terminal _) eqn:Hterm.
  - rewrite run_bind, run_clock. cbn [fst snd]. destruct (try_map_job _ _); [|simpl; eauto].
    rewrite run_try_bind. apply Hread.
  - destruct (JobState.parse (jobs.state m)) as [[]|] eqn:Hst; try done; cbn [from_option id] in *.
    + apply enum_state_parse in Hst. rewrite run_try_bind. unfold mark_job_cancelled_cas.
      rewrite !run_bind, run_now_str, run_update. cbn [run fst snd update_rows]. rewrite (Hone _).
      * apply Hread.
      * unfold cancel_filter. by rewrite text_eq_refl, <-Hst.
      * intros r E. unfold cancel_filter in E. by where_clauses.
    + apply enum_state_parse in Hst. rewrite !run_bind, run_now_str, run_update. cbn [run fst snd update_rows].
      rewrite (Hone _).
      * apply Hread.
      * by rewrite text_eq_refl, <-Hst.
      * intros r E. by where_clauses.
Qed.

(** Under any interference, whenever a round of the cancel loop answers, the job is gone, over,
    or flagged; run alone from a well-formed store the call always ends that way. *)
Theorem cancel_settles_the_job id s :
  wp evolves evolves wf (for_until (seq 0 16) (λ _, cancel_round id)) (round_settles id) s
  ∧ (wf s → (∀ m, m ∈ jobs_t (run (request_job_cancel id) s).2 → jobs.id m ≠ id)
            ∨ settled id (run (request_job_cancel id) s).2).
Proof.
  split; [apply wp_cancel_loop|]. intros Hwf.
  destruct (wp_run evolves evolves wf _ _ s Hwf (wp_cancel_round id s)) as (_ & _ & HQ).
  destruct (run_cancel_round_answers id s Hwf) as (o & s' & Hr). rewrite Hr in HQ.
  unfold request_job_cancel. cbn [for_until seq]. rewrite !run_try_bind, Hr. simpl.
  destruct o; auto.
Qed.
End Cancel.

(** ** The three transactions *)

Section Transactions.
Context {C : Chrono} {U : Uuid} {J : SerdeJson JobPayload} {K : ScratchQuota}.


(** C34: Admission implements its specification on every branch: it refuses the invalid kind and
    foreign envelope versions, coalesces onto the active row with the same dedup key (or reports
    that row unreadable), refuses at the cap, and otherwise appends exactly one pending row
    under a fresh id. *)
Theorem enqueue_job_spec `{!UuidLaws U} s spec :
  wf s → spec_max_pending spec ≤ i64_MAX →
  enqueue_effect s spec (run (enqueue_job spec) s).1 (jobs_t (run (enqueue_job spec) s).2).
Proof.
  intros Hwf Hcap. pose proof (enqueue_alone s spec Hwf Hcap) as H. rewrite alone_run in H.
  unfold enqueue_job. rewrite run_txn. by destruct (run (enqueue_job_on spec) s) as [[o|e] s'], H.
Qed.

Lemma count_active_snoc t m :
  (length (List.filter job_is_active (t ++ [m])) ≤ S (length (List.filter job_is_active t)))%nat.
Proof. rewrite List.filter_app, length_app. simpl. destruct (job_is_active m); simpl; lia. Qed.

Lemma enqueue_effect_cap s spec r t :
  enqueue_effect s spec r t →
  Z.of_nat (length (List.filter job_is_active t))
  ≤ Z.max (active_count s) (Z.max (spec_max_pending spec) 0).
Proof.
  destruct 1; unfold active_count in *; try lia.
  match goal with |- context [_ ++ [?m]] => pose proof (count_active_snoc (jobs_t s) m) end. lia.
Qed.

(** Admission never takes the number of pending and running rows above the cap it was given
    (unless it already was). *)
Theorem admission_respects_the_cap `{!UuidLaws U} s spec :
  wf s → spec_max_pending spec ≤ i64_MAX →
  active_count (run (enqueue_job spec) s).2
  ≤ Z.max (active_count s) (Z.max (spec_max_pending spec) 0).
Proof.
  intros Hwf Hcap. pose proof (enqueue_alone s spec Hwf Hcap) as H. rewrite alone_run in H.
  unfold enqueue_job. rewrite run_txn. destruct (run (enqueue_job_on spec) s) as [[o|e] s'];
    destruct H as [H _]; cbn [fst snd] in *; [by apply (enqueue_effect_cap _ _ _ _ H)|lia].
Qed.

(** C33: The claim transaction never errors and implements its specification: it leases a due,
    readable, uncancelled pending row of the class that is best by priority and age among all
    such rows, advances its generation by one, closes only rows that must never run, and leaves
    every other row as it was; it returns nothing only when none of the eight best due rows may
    run. *)
Theorem claim_next_job_spec `{!SerdeLaws JobPayload} s cls owner lease_secs :
  wf s →
  ∃ o, (run (claim_next_job cls owner lease_secs) s).1 = Ok o
    ∧ claim_effect s (run (claim_next_job cls owner lease_secs) s).2 cls owner
        (claim_expires s lease_secs) (to_rfc3339 (clock s)) o.
Proof.
  intros Hwf. pose proof (claim_alone s cls owner lease_secs Hwf) as H. rewrite alone_run in H.
  unfold claim_next_job. rewrite run_txn.
  destruct (run (claim_next_job_on cls owner lease_secs) s) as [[o|e] s']; [|done].
  exists o. by destruct H as [H _].
Qed.

Lemma decoded_claim now m m' o e n job :
  lease_granted m m' o e n → try_map_job now m' = inr job →
  rec_state job = Running ∧ rec_attempt_count job = next_attempt m
  ∧ rec_max_attempts job = jobs.max_attempts m
  ∧ fence job = Some (mk_JobFence (jobs.id m) o (jobs.lease_generation m + 1)).
Proof.
  intros (json & -> & _). unfold try_map_job. intros H.
  assert (jobs.state (claimed_row o e n (next_attempt m) (jobs.lease_generation m + 1)
    (default n (jobs.started_at m)) json m) = "running") as Hs by by destruct json.
  rewrite Hs in H. change (JobState.parse "running") with (Some Running) in H.
  repeat case_match; try discriminate; injection H as <-; unfold fence; by destruct json.
Qed.

(** A claimed job is running, its attempt number is between one and max_attempts, and the fence
    it carries is live after the claim and was not before. *)
Theorem claim_is_fenced_and_within_budget `{!SerdeLaws JobPayload} s cls owner lease_secs job :
  wf s → (run (claim_next_job cls owner lease_secs) s).1 = Ok (Some job) →
  rec_state job = Running ∧ 1 ≤ rec_attempt_count job ≤ rec_max_attempts job
  ∧ ∃ f, fence job = Some f ∧ live f (run (claim_next_job cls owner lease_secs) s).2
         ∧ ¬ live f s.
Proof.
  intros Hwf. pose proof (claim_alone s cls owner lease_secs Hwf) as H. rewrite alone_run in H.
  unfold claim_next_job. rewrite run_txn.
  destruct (run (claim_next_job_on cls owner lease_secs) s) as [[o|e] s']; [|done].
  cbn [fst snd] in *. destruct H as [H _]. intros [= ->].
  inversion H as [m m' job' Hm Hcl Hbest Hm' Hg Hjob Hother E|]; subst.
  destruct (decoded_claim _ _ _ _ _ _ _ Hg Hjob) as (Hs & Ha & Hmx & Hf).
  assert (Hp : pending m) by (unfold claimable, claim_candidate in Hcl; by where_clauses).
  destruct (next_attempt_ok m (wf_rows _ Hwf m Hm) Hp). split_and!; [done|lia|lia|].
  eexists. split_and!; [exact Hf| |].
  - exists m'. split; [done|]. destruct Hg as (json & -> & _). apply fence_matches_true.
    by destruct json.
  - intros (x & Hx & (Hid & Hr & _)%fence_matches_true). simpl in Hid.
    rewrite (NoDup_key jobs.id (jobs_t s) x m) in Hr by (done || apply Hwf).
    by destruct (pending_excl m Hp).
Qed.

(** A scratch reservation is granted exactly within the quota after saturating arithmetic,
    replaces the reservation of its path and moves the total by the difference; a refusal
    changes nothing and happens only over quota or for an unknown job. *)
Theorem reserve_job_temp_path_spec s job path bytes quota :
  wf s → 0 ≤ bytes → scratch_quota ≤ u64_MAX →
  let r := run (reserve_job_temp_path job path bytes quota) s in
  match r.1 with
  | Ok _ => reserve_granted s r.2 job path bytes quota
  | Err e => r.2 = s ∧
      (quota < Z.min (total_reserved (job_temp_paths_t s) - already s job path + bytes) u64_MAX
       ∨ e = Orm ForeignKeyViolation ∧ ∀ m, m ∈ jobs_t s → jobs.id m ≠ job)
  end.
Proof.
  intros Hwf Hb Hq. pose proof (reserve_alone s job path bytes quota Hwf Hb Hq) as H.
  rewrite alone_run in H. cbv zeta. unfold reserve_job_temp_path. rewrite run_txn.
  by destruct (run (reserve_job_temp_path_on job path bytes quota) s) as [[o|e] s'].
Qed.
End Transactions.
