(* ===== verification/JobPlans.v ===== *)
(** * The SQL plans of the queue: [crates/bookclerk-library/src/sql_plan/named.rs]

    When the store runs behind a database plugin ([self.atomic = Some]), admission, claim and
    reservation execute as fixed SQL batches, one transaction each, instead of the code of
    [JobQueue].  This file models the batches statement by statement and the status decoding of
    [RpcAtomicBackend] ([bookclerk-plugin-host/src/host/database.rs]), proves where they implement
    the specifications of [JobTxn], and proves where they differ. *)

From stdpp Require Import base option list strings gmap pretty sorting.
From Stdlib Require Import ZArith Lia.
From S2P Require Import Prelude Schema Store Concurrency JobModels JobQueue JobInvariant JobSafety JobTxn JobPool JobSpec.

Local Open Scope Z_scope.

(** SQLite's JSON functions on a text, and [serde_json::Value] lookups by key:
    [json_extract_v t] is [json_extract(t, '$.v') || '']. *)
Class PlanJson := {
  json_valid : string → bool;
  json_extract_v : string → option string;
  value_get_str : string → string → option string;
  value_get_bool : string → string → option bool;
}.

(** What they see of an envelope written by [serde_json::to_string]. *)
Class PlanJsonLaws (P : PlanJson) `{SerdeJson JobPayload} : Prop := {
  plan_json p j : to_string p = Some j →
    json_valid j = true ∧ json_extract_v j = Some (pretty (v p))
    ∧ value_get_str j "account" = account p ∧ value_get_str j "title" = title p
    ∧ value_get_str j "integration_id" = integration_id p
    ∧ default false (value_get_bool j "force") = force p;
}.

Section Plans.
Context {C : Chrono} {U : Uuid} {J : SerdeJson JobPayload} {P : PlanJson}.

(** [plan_lock_slot]: the two statements of [lock_serialization_slot]. *)
Definition plan_lock_job_queue : prog Db (result unit) := lock_job_queue.

(** [json_account_from_payload] and its siblings: an empty or missing string reads as [all]. *)
Definition nonempty_or_all (o : option string) : string :=
  match o with
  | Some s => if str_is_empty s then "all" else s
  | None => "all"
  end.
Definition json_account_from_payload (j : string) : string :=
  nonempty_or_all (value_get_str j "account").
Definition json_title_from_payload (j : string) : string :=
  nonempty_or_all (value_get_str j "title").
Definition json_integration_from_payload (j : string) : string :=
  nonempty_or_all (value_get_str j "integration_id").
Definition json_force_from_payload (j : string) : string :=
  if default false (value_get_bool j "force") then "1" else "0".

(** The dedup key of [plan_enqueue_job]. *)
Definition plan_dedup (kind payload_json : string) : string :=
  if text_eq kind "scan" then "scan:account=" +:+ json_account_from_payload payload_json
  else if text_eq kind "acquire" then
    "acquire:title=" +:+ json_title_from_payload payload_json
    +:+ ":account=" +:+ json_account_from_payload payload_json
  else if text_eq kind "listen_sync" then "listen_sync"
  else if text_eq kind "integration_scan" then
    "integration_scan:id=" +:+ json_integration_from_payload payload_json
    +:+ ":force=" +:+ json_force_from_payload payload_json
  else kind +:+ ":unknown".

(** The row of the [INSERT … SELECT]. *)
Definition plan_job_row (job_id kind payload_json : string) (priority max_attempts : Z)
    (run_after dedup now : string) : jobs.Model :=
  {| jobs.id := job_id; jobs.kind := kind; jobs.state := "pending"; jobs.priority := priority;
     jobs.resource_class := "network"; jobs.payload := payload_json; jobs.progress := None;
     jobs.attempt_count := 0; jobs.max_attempts := Z.max max_attempts 1;
     jobs.run_after := run_after; jobs.lease_owner := None; jobs.lease_expires_at := None;
     jobs.dedup_key := dedup; jobs.error_kind := None; jobs.error_message := None;
     jobs.cancel_requested := 0; jobs.created_at := now; jobs.updated_at := now;
     jobs.started_at := None; jobs.finished_at := None; jobs.lease_generation := 0 |}.

Definition active_with (dedup : string) (m : jobs.Model) : bool :=
  text_eq (jobs.dedup_key m) dedup && job_is_active m.

(** [plan_enqueue_job]: lock, conditional insert, status, payload id. *)
Definition plan_enqueue_job (kind payload_json : string) (priority max_attempts max_pending : Z)
    (run_after : option string) (now : string) : prog Db (result (string * option string)) :=
  let* uuid := draw_uuid in
  let job_id := kind +:+ "-" +:+ uuid in
  let dedup := plan_dedup kind payload_json in
  let? _ := plan_lock_job_queue in
  let* room := query (λ s,
    negb (existsb (active_with dedup) (jobs_t s))
    && (Z.of_nat (length (List.filter job_is_active (jobs_t s))) <? Z.max max_pending 0)) in
  let? _ := if room
    then jobs_insert (plan_job_row job_id kind payload_json priority max_attempts
                        (default now run_after) dedup now)
    else Ret (Ok ()) in
  let* status := query (λ s,
    if existsb (λ m, active_with dedup m && text_eq (jobs.created_at m) now) (jobs_t s) then "ok"
    else if existsb (active_with dedup) (jobs_t s) then "duplicate"
    else "queueFull") in
  let* rows := jobs_select (active_with dedup) in
  Ret (Ok (status, jobs.id <$> head
    (order_by (λ a b, text_le (jobs.created_at a) (jobs.created_at b)) rows))).

(** [RpcAtomicBackend::enqueue_job]: [now] is the compile instant of the request. *)
Definition rpc_enqueue_job (spec : EnqueueJobSpec) : prog Db (result EnqueueOutcome) :=
  match to_string (spec_payload spec) with
  | None => Ret (Err (Other "payload"))
  | Some payload_json =>
      let* now := now_str in
      let? reply := txn (plan_enqueue_job (JobKind.as_str (spec_kind spec)) payload_json
        (spec_priority spec) (spec_max_attempts spec) (spec_max_pending spec)
        (to_rfc3339 <$> spec_run_after spec) now) in
      let '(status, id) := reply in
      if text_eq status "ok" then
        match id with
        | Some id => Ret (Ok (Created id))
        | None => Ret (Err (Other "enqueueJob ok without id"))
        end
      else if text_eq status "duplicate" then
        match id with
        | Some id => Ret (Ok (Duplicate id))
        | None => Ret (Err (Other "enqueueJob duplicate without id"))
        end
      else if text_eq status "queueFull" then Ret (Ok QueueFull)
      else Ret (Err (Other ("enqueueJob failed: " +:+ status)))
  end.

(** ** Claim *)

Definition plan_kinds : list string := ["scan"; "acquire"; "listen_sync"; "integration_scan"].
Definition plan_version_ok (m : jobs.Model) : bool :=
  text_eq (default "" (json_extract_v (jobs.payload m))) "1".

(** The [WHERE] clause of [plan_mark_unreadable_pending_jobs]. *)
Definition plan_unreadable (m : jobs.Model) : bool :=
  text_eq (jobs.state m) "pending"
  && (negb (json_valid (jobs.payload m))
      || negb (plan_version_ok m)
      || negb (is_in (jobs.kind m) plan_kinds)
      || negb (is_in (jobs.resource_class m) JobResourceClass.ALL)).

Definition plan_unreadable_row (now : string) (m : jobs.Model) : jobs.Model :=
  let reason :=
    if negb (json_valid (jobs.payload m)) then "malformed job payload JSON"
    else if negb (plan_version_ok m) then "unsupported job payload version"
    else if negb (is_in (jobs.resource_class m) JobResourceClass.ALL)
    then "unknown job resource class"
    else "unknown job kind" in
  m <| jobs.state := "failed" |>
    <| jobs.kind := "invalid" |>
    <| jobs.resource_class := "network" |>
    <| jobs.payload := bare_envelope |>
    <| jobs.error_kind := Some "invalid_job" |>
    <| jobs.error_message := Some reason |>
    <| jobs.finished_at := Some now |>
    <| jobs.updated_at := now |>
    <| jobs.lease_owner := None |>
    <| jobs.lease_expires_at := None |>.

Definition plan_mark_unreadable_pending_jobs (now : string) : prog Db nat :=
  jobs_update plan_unreadable (plan_unreadable_row now).

(** The inner [SELECT] of the claim. *)
Definition plan_claimable (cls now : string) (m : jobs.Model) : bool :=
  text_eq (jobs.resource_class m) cls && text_eq (jobs.state m) "pending"
  && text_le (jobs.run_after m) now && (jobs.cancel_requested m =? 0)
  && json_valid (jobs.payload m) && plan_version_ok m
  && is_in (jobs.kind m) plan_kinds && is_in (jobs.resource_class m) JobResourceClass.ALL.

Definition plan_claimed_row (owner expires now : string) (m : jobs.Model) : jobs.Model :=
  m <| jobs.state := "running" |>
    <| jobs.attempt_count := jobs.attempt_count m + 1 |>
    <| jobs.lease_owner := Some owner |>
    <| jobs.lease_expires_at := Some expires |>
    <| jobs.lease_generation := jobs.lease_generation m + 1 |>
    <| jobs.started_at := Some (default now (jobs.started_at m)) |>
    <| jobs.updated_at := now |>
    <| jobs.error_kind := None |>
    <| jobs.error_message := None |>.

(** [lease_owner = ? AND state = 'running' AND updated_at = ?]. *)
Definition just_claimed (owner now : string) (m : jobs.Model) : bool :=
  sql_eq (jobs.lease_owner m) owner && text_eq (jobs.state m) "running"
  && text_eq (jobs.updated_at m) now.

(** [ORDER BY started_at DESC]; [NULL] sorts last. *)
Definition started_desc (a b : jobs.Model) : bool :=
  match jobs.started_at a, jobs.started_at b with
  | Some x, Some y => text_le y x
  | Some _, None => true
  | None, Some _ => false
  | None, None => true
  end.

Definition plan_expires (lease_secs : Z) (now : string) : string :=
  match parse_from_rfc3339 now with
  | Some t => to_rfc3339 (t + seconds (Z.max lease_secs 5))
  | None => now
  end.

(** [plan_claim_next_job]: lock, close what the plan cannot decode, claim, status, row. *)
Definition plan_claim_next_job (cls owner : string) (lease_secs : Z) (now : string)
    : prog Db (result (string * option jobs.Model)) :=
  let? _ := plan_lock_job_queue in
  let* _ := plan_mark_unreadable_pending_jobs now in
  let* _ := exec (λ s,
    let target := jobs.id <$> head (order_by claim_order
                                      (List.filter (plan_claimable cls now) (jobs_t s))) in
    let r := update_rows
      (λ m, sql_eq target (jobs.id m) && text_eq (jobs.state m) "pending")
      (plan_claimed_row owner (plan_expires lease_secs now) now) (jobs_t s) in
    (r.1, s <| jobs_t := r.2 |>)) in
  let* rows := jobs_select (just_claimed owner now) in
  let status := if existsb (λ _, true) rows then "ok" else "empty" in
  Ret (Ok (status, head (order_by started_desc rows))).

(** [RpcAtomicBackend::claim_next_job], up to the JSON rendering of the row. *)
Definition rpc_claim_next_job (cls : JobResourceClass) (owner : string) (lease_secs : Z)
    : prog Db (result (option jobs.Model)) :=
  let* now := now_str in
  let? reply := txn (plan_claim_next_job (JobResourceClass.as_str cls) owner
                       (default 60 (i64_try_from lease_secs)) now) in
  let '(status, row) := reply in
  if text_eq status "empty" then Ret (Ok None) else
  match row with
  | Some m => Ret (Ok (Some m))
  | None => Ret (Err (Other "job"))
  end.

(** ** Reservation *)

(** [COALESCE(SUM(reserved_bytes), 0)]. *)
Definition sum_bytes (rows : list job_temp_paths.Model) : Z :=
  fold_right (λ r acc, job_temp_paths.reserved_bytes r + acc) 0 rows.

(** [plan_reserve_job_temp]: lock, a zero row unless there is one, the guarded update, status.
    The foreign key of the insert fails the batch. *)
Definition plan_reserve_job_temp (job path : string) (reserved_bytes quota_bytes : Z)
    (now : string) : prog Db (result string) :=
  let? _ := plan_lock_job_queue in
  let* present := query (λ s, existsb (same_path job path) (job_temp_paths_t s)) in
  let? _ := if present then Ret (Ok ()) else job_temp_paths_insert job path now 0 in
  let* _ := exec (λ s,
    let r := update_rows
      (λ r, same_path job path r
            && (sum_bytes (job_temp_paths_t s) - job_temp_paths.reserved_bytes r + reserved_bytes
                <=? quota_bytes))
      (λ r, r <| job_temp_paths.reserved_bytes := reserved_bytes |>) (job_temp_paths_t s) in
    (r.1, s <| job_temp_paths_t := r.2 |>)) in
  let* ok := query (λ s, existsb (λ r, same_path job path r
                       && (job_temp_paths.reserved_bytes r =? reserved_bytes))
                       (job_temp_paths_t s)) in
  Ret (Ok (if ok then "ok" else "notFound")).

Definition rpc_reserve_job_temp_path (job path : string) (reserved_bytes quota_bytes : Z)
    : prog Db (result unit) :=
  let* now := now_str in
  let? status := txn (plan_reserve_job_temp job path
    (default i64_MAX (i64_try_from reserved_bytes)) (default i64_MAX (i64_try_from quota_bytes)) now) in
  if text_eq status "ok" then Ret (Ok ())
  else Ret (Err (Other "acquire scratch quota exceeded")).
End Plans.

(** ** Admission: the plan implements the local transaction *)

Section PlanEnqueue.
Context {C : Chrono} {U : Uuid} {J : SerdeJson JobPayload} {P : PlanJson} {K : ScratchQuota}.

(** A filter of the payload is absent or not empty. *)
Definition filters_nonempty (p : JobPayload) : Prop :=
  account p ≠ Some "" ∧ title p ≠ Some "" ∧ integration_id p ≠ Some "".

Lemma nonempty_or_all_default o : o ≠ Some "" → nonempty_or_all o = default "all" o.
Proof.
  destruct o as [s|]; [|done]. intros H. simpl. unfold str_is_empty.
  destruct (text_eq s "") eqn:E; where_clauses; [by subst|done].
Qed.

Lemma plan_dedup_key `{!PlanJsonLaws P} k p j :
  is_in (JobKind.as_str k) plan_kinds = true → filters_nonempty p → to_string p = Some j →
  plan_dedup (JobKind.as_str k) j = dedup_key k p.
Proof.
  intros Hk (Ha & Ht & Hi) Hj. destruct (plan_json p j Hj) as (_ & _ & Ea & Et & Ei & Ef).
  unfold plan_dedup, json_account_from_payload, json_title_from_payload,
    json_integration_from_payload, json_force_from_payload.
  rewrite Ea, Et, Ei, Ef, !nonempty_or_all_default by done.
  destruct k; try discriminate; reflexivity.
Qed.

Lemma active_with_true key m :
  active_with key m = true ↔ jobs.dedup_key m = key ∧ job_is_active m = true.
Proof. unfold active_with. by rewrite andb_true_iff, text_eq_true. Qed.

Lemma active_with_unique s key m :
  wf s → m ∈ jobs_t s → active_with key m = true → List.filter (active_with key) (jobs_t s) = [m].
Proof.
  intros Hwf Hm Ha. apply where_unique; [eapply NoDup_fmap_1, (wf_ids _ Hwf)|done..|].
  intros x Hx [Hk Hact]%active_with_true. apply active_with_true in Ha as [Hk' Hact'].
  apply (wf_dedup _ Hwf); congruence.
Qed.

Lemma active_with_none s key :
  existsb (active_with key) (jobs_t s) = false →
  ∀ m, m ∈ jobs_t s → job_is_active m = true → jobs.dedup_key m ≠ key.
Proof.
  rewrite existsb_false. intros H m Hm Ha E. specialize (H m Hm).
  apply not_true_iff_false in H. apply H. by apply active_with_true.
Qed.

(** The batch, from the store [s] at its clock [now]. *)
Lemma run_plan_enqueue `{!UuidLaws U} s kind j pr ma mp ra key :
  wf s → plan_dedup (JobKind.as_str kind) j = key →
  (∀ m, m ∈ jobs_t s → active_with key m = true → jobs.created_at m ≠ to_rfc3339 (clock s)) →
  ∃ s', run (plan_enqueue_job (JobKind.as_str kind) j pr ma mp ra (to_rfc3339 (clock s))) s =
    (Ok (match List.find (active_with key) (jobs_t s) with
         | Some m => ("duplicate", Some (jobs.id m))
         | None => if Z.max mp 0 <=? active_count s then ("queueFull", None)
                   else ("ok", Some (mk_job_id kind (uuids_drawn s)))
         end), s')
    ∧ jobs_t s' = match List.find (active_with key) (jobs_t s) with
                  | Some m => jobs_t s
                  | None => if Z.max mp 0 <=? active_count s then jobs_t s
                            else jobs_t s ++ [plan_job_row (mk_job_id kind (uuids_drawn s))
                                   (JobKind.as_str kind) j pr ma
                                   (default (to_rfc3339 (clock s)) ra) key (to_rfc3339 (clock s))]
                  end.
Proof.
  intros Hwf Hkey Hnow. set (now := to_rfc3339 (clock s)) in *.
  set (s0 := s <| uuids_drawn := S (uuids_drawn s) |>).
  unfold plan_enqueue_job. rewrite run_bind. cbn [run draw_uuid exec fst snd]. rewrite Hkey.
  fold s0. fold (mk_job_id kind (uuids_drawn s)). rewrite run_try_bind.
  destruct (run plan_lock_job_queue s0) as [r s1] eqn:Hlock.
  assert (r = Ok () ∧ jobs_t s1 = jobs_t s) as [-> Hj1].
  { enough (alone plan_lock_job_queue (λ r s', r = Ok () ∧ jobs_t s' = jobs_t s) s0) as H
      by (apply alone_run in H; by rewrite Hlock in H). by apply alone_lock. }
  rewrite run_bind. cbn [run query fst snd]. rewrite Hj1, run_try_bind.
  destruct (List.find (active_with key) (jobs_t s)) as [m|] eqn:Hf.
  - pose proof (find_where _ _ _ Hf) as [Hm Ha].
    rewrite (proj2 (existsb_exists _ _)) by (exists m; by rewrite <-list_elem_of_In).
    cbn [negb andb run]. exists s1. split; [|done].
    rewrite run_bind. cbn [run query fst snd]. rewrite run_bind. cbn [run jobs_select query fst snd].
    rewrite Hj1, (active_with_unique s key m) by done.
    rewrite (proj2 (existsb_false _ _)), (proj2 (existsb_exists _ _)); [done| |].
    + exists m. by rewrite <-list_elem_of_In.
    + intros x Hx. destruct (active_with key x) eqn:E; [|done].
      by apply text_eq_false, Hnow.
  - assert (Hex : existsb (active_with key) (jobs_t s) = false).
    { apply existsb_false. intros x. by apply find_where_none. }
    rewrite Hex. cbn [negb andb]. fold (active_count s). rewrite Z.ltb_antisym.
    destruct (Z.max mp 0 <=? active_count s); cbn [negb].
    + exists s1. split; [|done]. cbn [run]. rewrite run_bind. cbn [run query fst snd].
      rewrite run_bind. cbn [run jobs_select query fst snd]. rewrite Hj1, Hex.
      rewrite (proj2 (existsb_false _ _)).
      * rewrite where_none; [done|]. by apply existsb_false.
      * intros x Hx. rewrite existsb_false in Hex. by rewrite Hex.
    + set (row := plan_job_row _ _ _ _ _ _ _ _).
      exists (s1 <| jobs_t := jobs_t s ++ [row] |>). split; [|done].
      cbn [run jobs_insert exec fst snd]. rewrite Hj1.
      rewrite (proj2 (existsb_false (λ r, text_eq (jobs.id r) _) _)).
      2: { intros x Hx. apply text_eq_false. intros E. apply (wf_drawn _ Hwf x Hx). rewrite E.
           by exists kind, (uuids_drawn s). }
      change (job_is_active row) with true.
      change (λ r, text_eq (jobs.dedup_key r) (jobs.dedup_key row) && job_is_active r) with (active_with key).
      rewrite Hex. cbn [orb andb fst snd]. rewrite run_bind. cbn [run query fst snd].
      rewrite run_bind. cbn [run jobs_select query fst snd jobs_t set_field set_jobs_t].
      rewrite List.filter_app, (where_none (active_with key) (jobs_t s)) by by apply existsb_false.
      assert (active_with key row = true) as Hrow by (apply active_with_true; done).
      rewrite existsb_app. simpl. rewrite Hrow, text_eq_refl. simpl. by rewrite orb_true_r.
Qed.

Lemma find_active_with s key m :
  wf s → m ∈ jobs_t s → active_with key m = true →
  List.find (active_with key) (jobs_t s) = Some m.
Proof.
  intros Hwf Hm Ha. destruct (List.find _ _) as [x|] eqn:Hf.
  - apply find_where in Hf as [Hx Hxa]. apply active_with_true in Ha as [], Hxa as []. f_equal.
    apply (wf_dedup _ Hwf); congruence.
  - apply (find_where_none _ _ m) in Hf; congruence.
Qed.

Lemma find_active_none s key :
  (∀ m, m ∈ jobs_t s → job_is_active m = true → jobs.dedup_key m ≠ key) →
  List.find (active_with key) (jobs_t s) = None.
Proof.
  intros H. destruct (List.find _ _) as [x|] eqn:Hf; [|done].
  apply find_where in Hf as [Hx [Hk Ha]%active_with_true]. by destruct (H x Hx Ha).
Qed.

(** For the four kinds the SQL plan knows, with non-empty filters and no active twin created at
    this very instant, admission through the database plugin returns the same outcome and leaves
    the same jobs table as the local transaction. *)
Theorem plan_enqueue_is_enqueue `{!UuidLaws U} `{!SerdeLaws JobPayload} `{!PlanJsonLaws P} s spec :
  wf s → spec_max_pending spec ≤ i64_MAX →
  is_in (JobKind.as_str (spec_kind spec)) plan_kinds = true →
  v (spec_payload spec) = JOB_PAYLOAD_VERSION → filters_nonempty (spec_payload spec) →
  (∀ m, m ∈ jobs_t s → active_with (dedup_key (spec_kind spec) (spec_payload spec)) m = true →
     readable m = true ∧ jobs.created_at m ≠ to_rfc3339 (clock s)) →
  (run (rpc_enqueue_job spec) s).1 = (run (enqueue_job spec) s).1
  ∧ jobs_t (run (rpc_enqueue_job spec) s).2 = jobs_t (run (enqueue_job spec) s).2.
Proof.
  intros Hwf Hcap Hkind Hv Hne Hact.
  destruct (serde_roundtrip (spec_payload spec)) as (j & Hj & _).
  pose proof (plan_dedup_key _ _ _ Hkind Hne Hj) as Hkey.
  set (key := dedup_key (spec_kind spec) (spec_payload spec)) in *.
  destruct (run_plan_enqueue s (spec_kind spec) j (spec_priority spec) (spec_max_attempts spec)
    (spec_max_pending spec) (to_rfc3339 <$> spec_run_after spec) key Hwf Hkey) as (s' & Hrun & Hs').
  { intros m Hm Ha. by apply Hact. }
  pose proof (enqueue_alone s spec Hwf Hcap) as Hloc. rewrite alone_run in Hloc.
  unfold rpc_enqueue_job, enqueue_job. rewrite Hj, run_bind, run_now_str. cbn [fst snd].
  rewrite run_try_bind, !run_txn, Hrun.
  destruct (run (enqueue_job_on spec) s) as [r sl]. destruct Hloc as [Heff _]. cbn [fst snd] in Heff.
  remember (match r with Ok _ => jobs_t sl | Err _ => jobs_t s end) as t eqn:Et.
  destruct Heff as [Hk|Hk Hv'|m job Hk _ Hm Ha Hd _|m reason Hk _ Hm Ha Hd Hbad|Hk _ Hn Hfull|Hk _ Hn Hroom].
  - by rewrite Hk in Hkind.
  - done.
  - rewrite (find_active_with s key m) in Hs' |- * by (try apply active_with_true; done).
    simpl. split; congruence.
  - destruct (Hact m Hm) as [Hr _]; [by apply active_with_true|].
    by rewrite (try_map_readable (clock s)), Hbad in Hr.
  - rewrite find_active_none in Hs' |- * by done. rewrite (proj2 (Z.leb_le _ _) Hfull) in Hs' |- *.
    simpl. split; congruence.
  - rewrite find_active_none in Hs' |- * by done. rewrite (proj2 (Z.leb_gt _ _) Hroom) in Hs' |- *.
    simpl. split; [done|]. rewrite Hs', <-Et. f_equal. f_equal. unfold new_job_row, plan_job_row.
    rewrite Hj. fold key. simpl. f_equal. by destruct (spec_run_after spec).
Qed.

(** Admission through the SQL plan coalesces every plugin_copy job onto an active one, whatever
    its plugin, source and destination. *)
Theorem plan_enqueue_coalesces_plugin_copies `{!UuidLaws U} `{!SerdeLaws JobPayload} s spec m :
  wf s → spec_kind spec = PluginCopy → m ∈ jobs_t s → job_is_active m = true →
  jobs.dedup_key m = "plugin_copy:unknown" → jobs.created_at m ≠ to_rfc3339 (clock s) →
  (run (rpc_enqueue_job spec) s).1 = Ok (Duplicate (jobs.id m)).
Proof.
  intros Hwf Hk Hm Ha Hd Hc. destruct (serde_roundtrip (spec_payload spec)) as (j & Hj & _).
  assert (Haw : active_with "plugin_copy:unknown" m = true) by by apply active_with_true.
  destruct (run_plan_enqueue s PluginCopy j (spec_priority spec) (spec_max_attempts spec)
    (spec_max_pending spec) (to_rfc3339 <$> spec_run_after spec) "plugin_copy:unknown" Hwf)
    as (s' & Hrun & _); [done| |].
  { intros x Hx Hxa. pose proof (active_with_unique s _ m Hwf Hm Haw) as Hu.
    assert (x ∈ [m]) as ->%list_elem_of_singleton by (rewrite <-Hu; by apply elem_of_where). done. }
  unfold rpc_enqueue_job. rewrite Hj, Hk, run_bind, run_now_str. cbn [fst snd].
  rewrite run_try_bind, run_txn, Hrun, (find_active_with s _ m) by done. done.
Qed.
End PlanEnqueue.

(** ** Claim: what the plan does, and where it departs from the local transaction *)

Section PlanClaim.
Context {C : Chrono} {U : Uuid} {J : SerdeJson JobPayload} {P : PlanJson} {K : ScratchQuota}.

(** The plan's choice. *)
Definition plan_target (cls : JobResourceClass) (s : Db) : option jobs.Model :=
  head (order_by claim_order (List.filter
    (plan_claimable (JobResourceClass.as_str cls) (to_rfc3339 (clock s))) (jobs_t s))).

(** The table the batch leaves. *)
Definition plan_claim_table (cls : JobResourceClass) (owner expires : string) (s : Db)
    : list jobs.Model :=
  (update_rows
     (λ m, sql_eq (jobs.id <$> plan_target cls s) (jobs.id m) && text_eq (jobs.state m) "pending")
     (plan_claimed_row owner expires (to_rfc3339 (clock s)))
     (update_rows plan_unreadable (plan_unreadable_row (to_rfc3339 (clock s))) (jobs_t s)).2).2.

Lemma plan_claimable_true cls now m :
  plan_claimable cls now m = true →
  pending m ∧ jobs.cancel_requested m = 0 ∧ plan_unreadable m = false
  ∧ jobs.resource_class m = cls ∧ text_le (jobs.run_after m) now = true.
Proof.
  unfold plan_claimable, plan_unreadable. intros H.
  repeat (apply andb_prop in H as [H ?]). split_and!.
  - by apply text_eq_true.
  - by apply Z.eqb_eq.
  - rewrite H2, H3, H1, H0. apply andb_false_r.
  - by apply text_eq_true.
  - done.
Qed.

Lemma unreadable_not_claimable cls now m :
  plan_unreadable m = true →
  plan_claimable cls now m = false ∧ plan_claimable cls now (plan_unreadable_row now m) = false.
Proof.
  intros H. split; apply not_true_iff_false; intros (Hp & _ & Hn & _)%plan_claimable_true.
  - congruence.
  - by apply (terminal_excl (plan_unreadable_row now m)) in Hp; [|apply terminal_intro; right; left].
Qed.

Lemma run_rpc_claim cls owner lease_secs s :
  jobs_t (run (rpc_claim_next_job cls owner lease_secs) s).2 =
  plan_claim_table cls owner
    (plan_expires (default 60 (i64_try_from lease_secs)) (to_rfc3339 (clock s))) s.
Proof.
  unfold rpc_claim_next_job. rewrite run_bind, run_now_str, run_try_bind, run_txn. cbn [fst snd].
  unfold plan_claim_next_job. rewrite run_try_bind.
  destruct (run plan_lock_job_queue s) as [r s1] eqn:Hlock.
  assert (r = Ok () ∧ jobs_t s1 = jobs_t s) as [-> Hj1].
  { enough (alone plan_lock_job_queue (λ r s', r = Ok () ∧ jobs_t s' = jobs_t s) s) as H
      by (apply alone_run in H; by rewrite Hlock in H). by apply alone_lock. }
  unfold plan_mark_unreadable_pending_jobs.
  rewrite run_bind, run_update. cbn [fst snd]. rewrite run_bind. cbn [run exec fst snd].
  rewrite run_bind. cbn [run jobs_select query fst snd jobs_t set_field set_jobs_t].
  rewrite Hj1, (where_update (plan_claimable _ _) plan_unreadable)
    by (intros x _ Hx; by apply unreadable_not_claimable).
  fold (plan_target cls s). fold (plan_claim_table cls owner
    (plan_expires (default 60 (i64_try_from lease_secs)) (to_rfc3339 (clock s))) s).
  destruct (text_eq _ "empty"); [done|]. by destruct (head _).
Qed.

Lemma plan_claim_elem cls owner expires s m :
  m ∈ jobs_t s →
  let m1 := if plan_unreadable m then plan_unreadable_row (to_rfc3339 (clock s)) m else m in
  (if sql_eq (jobs.id <$> plan_target cls s) (jobs.id m1) && text_eq (jobs.state m1) "pending"
   then plan_claimed_row owner expires (to_rfc3339 (clock s)) m1 else m1)
  ∈ plan_claim_table cls owner expires s.
Proof.
  intros Hm m1. unfold plan_claim_table. apply elem_of_update. exists m1. split; [|done].
  apply elem_of_update. by exists m.
Qed.

Lemma plan_target_elem cls s m :
  plan_target cls s = Some m →
  m ∈ jobs_t s ∧ plan_claimable (JobResourceClass.as_str cls) (to_rfc3339 (clock s)) m = true.
Proof.
  unfold plan_target. intros H. destruct (order_by _ _) as [|x l] eqn:E; [done|].
  injection H as ->. apply elem_of_where. rewrite <-(elem_of_order_by claim_order), E. left.
Qed.

(** The SQL claim leases the best row by priority and age among the rows it accepts, under the
    owner and the next generation, keeping its payload and counting an attempt. *)
Theorem plan_claim_takes_the_best cls owner lease_secs s m m2 :
  plan_target cls s = Some m → m2 ∈ jobs_t s →
  plan_claimable (JobResourceClass.as_str cls) (to_rfc3339 (clock s)) m2 = true →
  claim_order m m2 = true
  ∧ ∃ m', m' ∈ jobs_t (run (rpc_claim_next_job cls owner lease_secs) s).2
      ∧ jobs.id m' = jobs.id m ∧ running m' ∧ jobs.lease_owner m' = Some owner
      ∧ jobs.lease_generation m' = jobs.lease_generation m + 1
      ∧ jobs.attempt_count m' = jobs.attempt_count m + 1
      ∧ jobs.payload m' = jobs.payload m.
Proof.
  intros Ht Hm2 Hc2. destruct (plan_target_elem cls s m Ht) as [Hm Hcl]. split.
  - assert (Hs := order_by_sorted claim_order claim_order_total claim_order_trans (List.filter
      (plan_claimable (JobResourceClass.as_str cls) (to_rfc3339 (clock s))) (jobs_t s))).
    unfold plan_target in Ht. assert (Hin : m2 ∈ order_by claim_order (List.filter
      (plan_claimable (JobResourceClass.as_str cls) (to_rfc3339 (clock s))) (jobs_t s)))
      by (apply elem_of_order_by, elem_of_where; done).
    destruct (order_by _ _) as [|x l]; [done|]. injection Ht as ->.
    apply StronglySorted_inv in Hs as [_ Hs]. rewrite Forall_forall in Hs.
    apply elem_of_cons in Hin as [->|Hin]; [|by apply Hs]. by destruct (claim_order_total m m).
  - rewrite run_rpc_claim. apply plan_claimable_true in Hcl as (Hp & _ & Hn & _).
    pose proof (plan_claim_elem cls owner (plan_expires (default 60 (i64_try_from lease_secs))
      (to_rfc3339 (clock s))) s m Hm) as He. cbv zeta in He. rewrite Hn, Ht in He.
    cbn [fmap option_fmap option_map sql_eq] in He. rewrite text_eq_refl, Hp in He.
    eexists. split; [exact He|]. by split_and!.
Qed.

(** The SQL claim counts a new attempt for a suspended job the local claim would resume at the
    same attempt, keeps the resume marker, and so runs a job whose budget is spent beyond
    max_attempts. *)
Theorem plan_claim_spends_an_attempt_on_resume cls owner lease_secs s m :
  wf s → plan_target cls s = Some m → resuming m = true → 1 ≤ jobs.attempt_count m →
  next_attempt m = jobs.attempt_count m
  ∧ ∃ m', m' ∈ jobs_t (run (rpc_claim_next_job cls owner lease_secs) s).2
      ∧ jobs.id m' = jobs.id m ∧ jobs.attempt_count m' = jobs.attempt_count m + 1
      ∧ resuming m' = true
      ∧ (jobs.attempt_count m = jobs.max_attempts m → jobs.max_attempts m' < jobs.attempt_count m').
Proof.
  intros Hwf Ht Hres Hatt. unfold next_attempt. rewrite Hres. split; [lia|].
  destruct (plan_target_elem cls s m Ht) as [Hm Hcl]. rewrite run_rpc_claim.
  apply plan_claimable_true in Hcl as (Hp & _ & Hn & _).
  pose proof (plan_claim_elem cls owner (plan_expires (default 60 (i64_try_from lease_secs))
    (to_rfc3339 (clock s))) s m Hm) as He. cbv zeta in He. rewrite Hn, Ht in He.
  cbn [fmap option_fmap option_map sql_eq] in He. rewrite text_eq_refl, Hp in He.
  eexists. split; [exact He|]. split_and!; try done. simpl. lia.
Qed.

(** Any SQL claim, for any class, closes every pending plugin_copy job as an unreadable command,
    although the kind is a valid one. *)
Theorem plan_claim_fails_plugin_copy cls owner lease_secs s m :
  m ∈ jobs_t s → pending m → jobs.kind m = JobKind.as_str PluginCopy →
  ∃ m', m' ∈ jobs_t (run (rpc_claim_next_job cls owner lease_secs) s).2
    ∧ jobs.id m' = jobs.id m ∧ jobs.state m' = "failed"
    ∧ jobs.error_kind m' = Some "invalid_job".
Proof.
  intros Hm Hp Hk. rewrite run_rpc_claim.
  assert (Hu : plan_unreadable m = true).
  { unfold plan_unreadable. rewrite Hp, Hk. simpl. by rewrite !orb_true_r. }
  pose proof (plan_claim_elem cls owner (plan_expires (default 60 (i64_try_from lease_secs))
    (to_rfc3339 (clock s))) s m Hm) as He. cbv zeta in He. rewrite Hu in He.
  change (jobs.state (plan_unreadable_row _ m)) with "failed" in He.
  change (text_eq "failed" "pending") with false in He. rewrite andb_false_r in He.
  eexists. split; [exact He|]. by split_and!.
Qed.

(** The SQL claim leaves a pending row with the cancel flag untouched, neither claimed nor
    cancelled, where the local claim closes it. *)
Theorem plan_claim_strands_cancelled_rows cls owner lease_secs s m :
  wf s → m ∈ jobs_t s → pending m → jobs.cancel_requested m ≠ 0 → plan_unreadable m = false →
  m ∈ jobs_t (run (rpc_claim_next_job cls owner lease_secs) s).2.
Proof.
  intros Hwf Hm Hp Hc Hn. rewrite run_rpc_claim.
  pose proof (plan_claim_elem cls owner (plan_expires (default 60 (i64_try_from lease_secs))
    (to_rfc3339 (clock s))) s m Hm) as He. cbv zeta in He. rewrite Hn in He.
  destruct (sql_eq _ _) eqn:E in He; [|exact He]. exfalso. apply sql_eq_true in E.
  destruct (plan_target cls s) as [x|] eqn:Ht; [|done]. injection E as Hid.
  destruct (plan_target_elem cls s x Ht) as [Hx (_ & Hcx & _)%plan_claimable_true].
  rewrite (NoDup_key jobs.id (jobs_t s) x m) in Hcx by (done || apply Hwf). done.
Qed.
End PlanClaim.
