(* ===== verification/JobWorker.v ===== *)
(** * The job worker

    [bookclerkd/src/job_worker.rs] over the queue: a turn of a network worker (reclaim, prune,
    claim with bounded replay, run), the heartbeat task beside the handler, and what the worker
    writes once the handler returned.  The handler ([InProcessJobTransport::execute]) and the
    storage-scan bookkeeping, which works on tables of its own, are parameters. *)

From stdpp Require Import base option list strings relations pretty.
From Stdlib Require Import ZArith Lia.
From S2P Require Import Prelude Schema Store Concurrency Worker JobModels JobQueue JobInvariant JobSafety JobTxn JobPool JobSpec.

Local Open Scope Z_scope.

Definition CLAIM_REPLAY_BUDGET : Z := seconds 2.
Definition CLAIM_REPLAY_DELAY : Z := 200 * 1000000.
Definition JOB_SUSPENDED_DETAIL_PREFIX : string := "suspended until ".

Inductive HandlerFailKind : Type :=
| OperatorCancel
| FailFenceLost
| Handler.

Definition classify_handler_failure (local_cancel operator_cancel : bool) : HandlerFailKind :=
  if operator_cancel then OperatorCancel else if local_cancel then FailFenceLost else Handler.

(** [anyhow::Result]: a message or a value. *)
Definition anyhow (A : Type) : Type := string + A.

Definition JOB_COMMAND_VERSION : Z := JOB_PAYLOAD_VERSION.

Record JobCommand : Type := mk_JobCommand {
  cmd_version : Z;
  cmd_kind : JobKind;
  cmd_payload : JobPayload;
}.

(** [JobCommand::from_record]. *)
Definition from_record (job : JobRecord) : anyhow JobCommand :=
  match rec_kind job with
  | Invalid => inl "invalid_job"
  | kind =>
      if negb (v (rec_payload job) =? JOB_COMMAND_VERSION)
      then inl ("unsupported job command version " +:+ pretty (v (rec_payload job))
                +:+ " (expected " +:+ pretty JOB_COMMAND_VERSION +:+ ")")
      else inr (mk_JobCommand (v (rec_payload job)) kind (rec_payload job))
  end.

Record JobExecCtx : Type := mk_JobExecCtx {
  ctx_fence : JobFence;
  ctx_cancel : AtomicBool;
  ctx_attempt_count : Z;
  ctx_dedup_key : string;
  ctx_lease_expires_at : option Z;
  ctx_checkpoint : option JobCheckpoint;
  ctx_invocation_sequence : Z;
}.

(** [JobExecCtx::is_cancelled] and [JobExecCtx::request_cancel]. *)
Definition is_cancelled (ctx : JobExecCtx) : prog WorkerState bool := load (ctx_cancel ctx).
Definition request_cancel (ctx : JobExecCtx) : prog WorkerState unit := store_true (ctx_cancel ctx).

(** The context [run_claimed_job] builds around a fresh flag. *)
Definition exec_ctx (job : JobRecord) (f : JobFence) (cancel : AtomicBool) : JobExecCtx :=
  {| ctx_fence := f;
     ctx_cancel := cancel;
     ctx_attempt_count := rec_attempt_count job;
     ctx_dedup_key := rec_dedup_key job;
     ctx_lease_expires_at := rec_lease_expires_at job;
     ctx_checkpoint := checkpoint (rec_payload job);
     ctx_invocation_sequence := Z.max (default 1 (invocation_sequence (rec_payload job))) 1 |}.

(** [replay_until]; [None] when [fuel] attempts were not enough. *)
Fixpoint replay_until {A} (fuel : nat) (claim : prog WorkerState (result A)) (deadline retry_delay : Z)
    : prog WorkerState (option (result A)) :=
  match fuel with
  | O => Ret None
  | S fuel =>
      let* r := claim in
      match r with
      | Ok job => Ret (Some (Ok job))
      | Err (Unavailable msg) =>
          let* now := Instant_now in
          if deadline <=? now
          then Ret (Some (Err (Unavailable ("claim replay budget exhausted: " +:+ msg))))
          else
          let* _ := sleep retry_delay in
          replay_until fuel claim deadline retry_delay
      | Err err => Ret (Some (Err err))
      end
  end.

(** Attempts that fit in the budget, the first and the last included. *)
Definition replay_fuel : nat := Z.to_nat (CLAIM_REPLAY_BUDGET / CLAIM_REPLAY_DELAY + 2).

Section JobWorker.
Context {C : Chrono} {U : Uuid} {J : SerdeJson JobPayload} {K : ScratchQuota}.
Context (execute : JobCommand → JobExecCtx → prog WorkerState (anyhow string)).
Context (storage_scan_reclaim_if_terminal : string → prog Db (result unit)).
Context (storage_scan_reclaim_terminal_page : prog Db (result unit)).

Definition claim_with_replay (owner : string) (lease_secs : Z)
    : prog WorkerState (option (result (option JobRecord))) :=
  let* now := Instant_now in
  replay_until replay_fuel (call (claim_next_job Network owner lease_secs))
    (now + CLAIM_REPLAY_BUDGET) CLAIM_REPLAY_DELAY.

(** The spawned heartbeat task, for [fuel] ticks. *)
Fixpoint heartbeat_loop (fuel : nat) (ctx : JobExecCtx) (f : JobFence)
    (lease_secs confirmed_until : Z) : prog WorkerState unit :=
  match fuel with
  | O => Ret ()
  | S fuel =>
      let* requested := call (job_cancel_requested (job_id f)) in
      let* _ := match requested with Ok true => request_cancel ctx | _ => Ret () end in
      let* beat := call (heartbeat_job f lease_secs None) in
      let* now := Instant_now in
      match apply_heartbeat_tick (classify_heartbeat beat) now confirmed_until (seconds lease_secs) with
      | Continue next => heartbeat_loop fuel ctx f lease_secs next
      | StopFenceLost => request_cancel ctx
      end
  end.

(** [execute_claimed]. *)
Definition execute_claimed (job : JobRecord) (ctx : JobExecCtx)
    : prog WorkerState (anyhow string) :=
  let* cancelled := is_cancelled ctx in
  if cancelled then Ret (inl "cancelled") else
  match from_record job with
  | inl e => Ret (inl e)
  | inr cmd => execute cmd ctx
  end.

Definition after_write (f : JobFence) (r : result bool) : prog WorkerState unit :=
  match r with
  | Ok true => let* _ := call (storage_scan_reclaim_if_terminal (job_id f)) in Ret ()
  | _ => Ret ()
  end.

(** The end of [run_claimed_job], from the handler's result on. *)
Definition finish_job (f : JobFence) (ctx : JobExecCtx) (r : anyhow string) : prog WorkerState unit :=
  match r with
  | inr detail =>
      if String.prefix JOB_SUSPENDED_DETAIL_PREFIX detail then Ret () else
      let* r := call (complete_job f (Some detail)) in
      after_write f r
  | inl err =>
      let* flag := call (job_cancel_requested (job_id f)) in
      let operator_cancel := match flag with Ok b => b | Err _ => false end in
      let* local_cancel := is_cancelled ctx in
      match classify_handler_failure local_cancel operator_cancel with
      | OperatorCancel => let* r := call (fail_job f "cancelled" "cancelled") in after_write f r
      | FailFenceLost => Ret ()
      | Handler => let* r := call (fail_job f "handler" err) in after_write f r
      end
  end.

Definition run_claimed_job (job : JobRecord) : prog WorkerState unit :=
  match fence job with
  | None => Ret ()
  | Some f =>
      let* cancel := AtomicBool_new in
      let ctx := exec_ctx job f cancel in
      let* _ := if bool_decide (rec_state job = Cancelled) || rec_cancel_requested job
                then request_cancel ctx else Ret () in
      let* r := execute_claimed job ctx in
      finish_job f ctx r
  end.

(** One turn of the loop of [spawn_network_worker]. *)
Definition worker_turn (owner : string) (lease_secs retention_days : Z) : prog WorkerState unit :=
  let* _ := call reclaim_expired_leases in
  let* _ := call (prune_terminal_jobs retention_days) in
  let* _ := call storage_scan_reclaim_terminal_page in
  let* claimed := claim_with_replay owner lease_secs in
  match claimed with
  | Some (Ok (Some job)) => run_claimed_job job
  | Some (Err _) => sleep (seconds 2)
  | _ => Ret ()
  end.
End JobWorker.

(** ** The replay ends *)

(** Every attempt costs at least the delay, so the deadline passes within the fuel. *)
Lemma replay_until_ends (R : Db → Db → Prop) (I : Db → Prop) `{!PreOrder R} {A}
    (claim : prog WorkerState (result A)) deadline delay fuel w :
  safe (wrely R) (winv I) claim → 0 < delay → (0 < fuel)%nat →
  deadline ≤ monotonic w + (Z.of_nat fuel - 1) * delay →
  wp (wrely R) (wrely R) (winv I) (replay_until fuel claim deadline delay) (λ r _, r ≠ None) w.
Proof.
  intros Hc Hd. revert w. induction fuel as [|fuel IH]; intros w Hf Hdl; [lia|].
  cbn [replay_until]. apply wp_bind.
  eapply wp_mono; [|apply (wp_history _ _ _ (λ _ _, True) w); [reflexivity|apply Hc]].
  intros [job|[]] w1 [_ (_ & _ & Hm1)]; try done. apply wp_bind, wp_query; [apply _|].
  intros w2 (_ & _ & Hm2) _. destruct (deadline <=? monotonic w2) eqn:El; [done|].
  apply Z.leb_gt in El. apply wp_bind, wp_exec. intros w3 H3 HI3. cbn [fst snd].
  split; [wkept|]. split; [exact HI3|].
  destruct H3 as (_ & _ & Hm3). apply IH; [destruct fuel; lia|]. simpl. destruct fuel; lia.
Qed.

(** ** The worker among the others *)

Section Safety.
Context {C : Chrono} {U : Uuid} {J : SerdeJson JobPayload} {K : ScratchQuota}.
Context `{!UuidLaws U} `{!SerdeLaws JobPayload}.
Context (execute : JobCommand → JobExecCtx → prog WorkerState (anyhow string)).
Context (storage_scan_reclaim_if_terminal : string → prog Db (result unit)).
Context (storage_scan_reclaim_terminal_page : prog Db (result unit)).

Local Abbreviation rely := (wrely evolves).
Local Abbreviation inv := (winv wf).
Local Abbreviation finish := (finish_job storage_scan_reclaim_if_terminal).
Local Abbreviation turn :=
  (worker_turn execute storage_scan_reclaim_if_terminal storage_scan_reclaim_terminal_page).

(** The handler acts on the queue through calls that keep it well formed, and the scan
    bookkeeping does not touch it. *)
Record worker_env : Prop := {
  we_execute : ∀ cmd ctx, safe rely inv (execute cmd ctx);
  we_reclaim : ∀ id, safe evolves wf (storage_scan_reclaim_if_terminal id);
  we_page : safe evolves wf storage_scan_reclaim_terminal_page;
}.

Lemma safe_cancel_requested id : safe evolves wf (job_cancel_requested id).
Proof. unfold job_cancel_requested. by repeat job_step. Qed.

Lemma safe_heartbeat_loop fuel ctx f lease_secs confirmed_until :
  safe rely inv (heartbeat_loop fuel ctx f lease_secs confirmed_until).
Proof.
  revert confirmed_until. induction fuel as [|fuel IH]; intros confirmed_until; [apply safe_ret|].
  cbn [heartbeat_loop]. apply safe_bind; [apply safe_library_call, safe_cancel_requested; apply _|].
  intros requested. apply safe_bind.
  { destruct requested as [[]|]; [apply safe_store_true, _|apply safe_ret..]. }
  intros _. apply safe_bind; [apply safe_library_call, safe_heartbeat_job; apply _|]. intros beat.
  apply safe_bind; [apply safe_query, _|]. intros now.
  destruct (apply_heartbeat_tick _ _ _ _); [apply IH|apply safe_store_true, _].
Qed.

Lemma safe_finish f ctx r : worker_env → safe rely inv (finish f ctx r).
Proof.
  intros []. assert (Hafter : ∀ r, safe rely inv (after_write storage_scan_reclaim_if_terminal f r)).
  { intros [[]|]; [|apply safe_ret..]. apply safe_bind; [by apply safe_library_call; [apply _|]|]. intros _. apply safe_ret. }
  assert (Hfail : ∀ k e, safe rely inv (let* r := call (fail_job f k e) in
    after_write storage_scan_reclaim_if_terminal f r)).
  { intros k e. apply safe_bind; [|done]. apply safe_library_call, safe_fail_job. apply _. }
  destruct r as [err|detail]; cbn [finish_job].
  - apply safe_bind; [apply safe_library_call, safe_cancel_requested; apply _|]. intros flag.
    apply safe_bind; [apply safe_load, _|]. intros local.
    destruct (classify_handler_failure _ _); [apply Hfail|apply safe_ret|apply Hfail].
  - destruct (String.prefix _ _); [apply safe_ret|].
    apply safe_bind; [apply safe_library_call, safe_complete_job; apply _|done].
Qed.

Lemma claim_call_safe owner lease_secs : safe rely inv (call (claim_next_job Network owner lease_secs)).
Proof. apply safe_library_call, safe_claim_next_job; apply _. Qed.

Lemma safe_replay fuel owner lease_secs deadline delay : 0 ≤ delay →
  safe rely inv (replay_until fuel (call (claim_next_job Network owner lease_secs)) deadline delay).
Proof.
  intros Hd. induction fuel as [|fuel IH]; [apply safe_ret|]. cbn [replay_until].
  apply safe_bind; [apply claim_call_safe|]. intros [job|[]]; try apply safe_ret.
  apply safe_bind; [apply safe_query, _|]. intros now. destruct (_ <=? _); [apply safe_ret|].
  apply safe_bind; [by apply safe_sleep; [apply _|]|done].
Qed.

Lemma safe_worker_turn owner lease_secs retention_days :
  worker_env → safe rely inv (turn owner lease_secs retention_days).
Proof.
  intros He. pose proof He as []. unfold worker_turn.
  apply safe_bind; [apply safe_library_call, safe_reclaim_expired_leases; apply _|]. intros _.
  apply safe_bind; [apply safe_library_call, safe_prune_terminal_jobs; apply _|]. intros _.
  apply safe_bind; [by apply safe_library_call; [apply _|]|]. intros _.
  apply safe_bind.
  { unfold claim_with_replay. apply safe_bind; [apply safe_query, _|]. intros now. by apply safe_replay. }
  intros [[[job|]|]|]; try apply safe_ret; [|by apply safe_sleep; [apply _|]].
  unfold run_claimed_job. destruct (fence job) as [f|]; [|apply safe_ret].
  apply safe_bind; [apply safe_AtomicBool_new, _|]. intros cancel.
  apply safe_bind; [destruct (_ || _); [apply safe_store_true, _|apply safe_ret]|]. intros _.
  apply safe_bind; [|intros r; by apply safe_finish]. unfold execute_claimed.
  apply safe_bind; [apply safe_load, _|]. intros []; [apply safe_ret|].
  destruct (from_record job) as [e|cmd]; [apply safe_ret|done].
Qed.

(** A thread of the process: a turn of a worker, a heartbeat task, or any other queue call. *)
Inductive worker_thread : prog WorkerState unit → Prop :=
| TTurn owner lease_secs retention_days : worker_thread (turn owner lease_secs retention_days)
| THeartbeat fuel ctx f lease_secs confirmed_until :
    worker_thread (heartbeat_loop fuel ctx f lease_secs confirmed_until)
| TCall c : admissible c → worker_thread (let* _ := lift (exec_call c) in Ret ()).

(** Other processes evolve the store, and may lose or delay any call. *)
Definition other_processes (w w' : WorkerState) : Prop := rely w w' ∧ inv w'.


(** The replay of a lost claim is bounded: under any interference, whatever the link does and
    however long each attempt takes, the loop answers within the twelve attempts that fit in its
    two seconds. *)
Theorem claim_replay_is_bounded owner lease_secs w :
  wp rely rely inv (claim_with_replay owner lease_secs) (λ r _, r ≠ None) w.
Proof.
  unfold claim_with_replay. apply wp_bind, wp_query; [apply _|]. intros w1 H1 _.
  assert (Hf : replay_fuel = 12%nat) by done. rewrite Hf.
  apply replay_until_ends; [apply _|apply claim_call_safe|done|lia|].
  unfold CLAIM_REPLAY_BUDGET, CLAIM_REPLAY_DELAY, seconds. lia.
Qed.

(** C4: A worker whose lease was revoked while its handler ran writes nothing when the handler
    returns: whatever the handler's result, the link and the other processes do, no access of
    the rest of [run_claimed_job] changes the store. *)
Theorem late_worker_writes_nothing f ctx r w :
  revoked f (db w) → wp rely wkeep inv (finish f ctx r) (λ _ _, True) w.
Proof.
  intros Hrev.
  assert (Hst : ∀ w', rely w w' → revoked f (db w')).
  { intros w' (Hev & _). by apply (revoked_stable f (db w)). }
  assert (Hfenced : ∀ (p : prog Db (result bool)) w1, rely w w1 →
    (∀ s, revoked f s → wp evolves (=) wf p (λ a _, a = Ok false) s) →
    wp rely wkeep inv (let* r := call p in after_write storage_scan_reclaim_if_terminal f r)
      (λ _ _, True) w1).
  { intros p w1 H1 Hp. apply wp_bind. eapply wp_mono.
    2: { apply (call_writes_nothing evolves wf p (λ a, a ≠ Ok true)); [|done].
         intros w2 H2. eapply wp_mono; [|apply Hp, Hst; by etrans]. by intros a s ->. }
    intros [[]|] w2 [Ha _]; done. }
  assert (Hc : ∀ (p : prog Db (result bool)) c,
    exec_call c = returning OBool p → call_fence c = Some f →
    ∀ s, revoked f s → wp evolves (=) wf p (λ a _, a = Ok false) s).
  { intros p c Hp Hcf s Hs. pose proof (revoked_call c f s Hcf Hs) as H. unfold writes_nothing in H.
    rewrite Hp in H. unfold returning in H. apply wp_bind_inv in H.
    eapply wp_mono; [|exact H]. intros a s'. cbn. congruence. }
  destruct r as [err|detail]; cbn [finish_job].
  - apply wp_bind. eapply wp_mono.
    2: { apply (call_writes_nothing evolves wf (job_cancel_requested (job_id f)) (λ _, True)); [|done].
         intros w1 _. unfold job_cancel_requested. apply wp_bind, wp_query; [apply _|]. done. }
    intros flag w1 [_ H1]. apply wp_bind, wp_query; [apply _|]. intros w2 H2 _.
    assert (H12 : rely w w2) by by etrans.
    destruct (classify_handler_failure _ _); [|done|].
    + by apply Hfenced; [|apply (Hc _ (CFail f "cancelled" "cancelled"))].
    + by apply Hfenced; [|apply (Hc _ (CFail f "handler" err))].
  - destruct (String.prefix _ _); [done|].
    apply Hfenced; [reflexivity|]. by apply (Hc _ (CComplete f (Some detail))).
Qed.

(** ** What a handler's result leaves *)

Hypothesis reclaim_elsewhere : ∀ id s, jobs_t (run (storage_scan_reclaim_if_terminal id) s).2 = jobs_t s.

Lemma run_after_write f r w :
  link w = [] → jobs_t (db (run (after_write storage_scan_reclaim_if_terminal f r) w).2) = jobs_t (db w).
Proof.
  intros Hl. destruct r as [[]|]; cbn [after_write]; [|done..].
  rewrite run_bind, run_call by done. cbn [fst snd run]. apply (reclaim_elsewhere (job_id f) (db w)).
Qed.

(** The row of the lease holder after the handler returned [r]. *)
Definition recorded (w : WorkerState) (ctx : JobExecCtx) (r : anyhow string) (m m' : jobs.Model) : Prop :=
  match r with
  | inr detail =>
      m' = if String.prefix JOB_SUSPENDED_DETAIL_PREFIX detail then m
           else set_progress_if (Some detail) (completed_row (to_rfc3339 (clock (db w))) m)
  | inl _ =>
      if is_set (ctx_cancel ctx) w && (jobs.cancel_requested m =? 0) then m' = m
      else failure_of (clock (db w)) m m'
  end.

End Safety.
