(* ===== verification/EventModels.v ===== *)
(** * Event data model: [crates/bookclerk-library/src/models.rs]

    The outbox records, the subscriber catalog and its collapse over nodes, payload filters,
    wake grants, and the match of an event against the catalog. *)

From stdpp Require Import base option list strings gmap.
From Stdlib Require Import ZArith Lia.
From S2P Require Import Prelude.

Local Open Scope Z_scope.

(** [serde_json::Value]: the code tells objects from other values, compares members and parses;
    [Object] is the constructor. *)
Class SerdeValue (Value : Type) := {
  value_eq_dec :: EqDecision Value;
  as_object : Value → option (gmap string Value);
  Object : gmap string Value → Value;
  value_from_str : string → option Value;
}.

Class SerdeValueLaws (Value : Type) `{SerdeValue Value} : Prop := {
  as_object_Object m : as_object (Object m) = Some m;
}.

Definition EVENT_RESOURCE_CLASS_NETWORK : string := "network".
Definition EVENT_SUBSCRIBER_HEARTBEAT_TTL_SECS : Z := 60.
Definition EVENT_DELIVERY_MAX_ATTEMPTS : Z := 8.

Record PublishDomainEventSpec : Type := mk_PublishDomainEventSpec {
  pub_id : string;
  pub_event_type : string;
  pub_schema_version : Z;
  pub_account_id : string;
  pub_source : string;
  pub_correlation_id : string;
  pub_causation_id : string;
  pub_dedup_key : string;
  pub_payload : string;
  pub_ordering_key : string;
}.

Definition publish_eta (r : PublishDomainEventSpec) : PublishDomainEventSpec :=
  mk_PublishDomainEventSpec (pub_id r) (pub_event_type r) (pub_schema_version r)
    (pub_account_id r) (pub_source r) (pub_correlation_id r) (pub_causation_id r)
    (pub_dedup_key r) (pub_payload r) (pub_ordering_key r).
#[global] Instance set_pub_id : Setter pub_id := ltac:(set_column publish_eta pub_id).

Inductive PublishDomainEventOutcome : Type :=
| EventCreated (id : string)
| EventDuplicate (existing_id : string).

Record EventSubscriber : Type := mk_EventSubscriber {
  sub_plugin_id : string;
  sub_resource_class : string;
}.

(** [EventSubscriber::plugin]. *)
Definition EventSubscriber_plugin (plugin_id : string) : EventSubscriber :=
  mk_EventSubscriber plugin_id EVENT_RESOURCE_CLASS_NETWORK.

Record DomainEventRecord : Type := mk_DomainEventRecord {
  ev_id : string;
  ev_event_type : string;
  ev_schema_version : Z;
  ev_occurred_at : Z;
  ev_account_id : string;
  ev_source : string;
  ev_correlation_id : string;
  ev_causation_id : string;
  ev_dedup_key : string;
  ev_payload : string;
  ev_ordering_key : string;
  ev_dispatch_state : string;
  ev_created_at : Z;
  ev_wake_pending : bool;
}.

Record EventDeliveryRecord : Type := mk_EventDeliveryRecord {
  dl_id : string;
  dl_event_id : string;
  dl_plugin_id : string;
  dl_idempotency_key : string;
  dl_state : string;
  dl_attempt_count : Z;
  dl_max_attempts : Z;
  dl_lease_owner : option string;
  dl_lease_expires_at : option Z;
  dl_lease_generation : Z;
  dl_run_after : Z;
  dl_invocation_sequence : Z;
  dl_resume_pending : bool;
  dl_checkpoint_json : option string;
  dl_checkpoint_schema_version : Z;
  dl_ordering_key : string;
  dl_outcome : option string;
  dl_error_message : option string;
  dl_created_at : Z;
  dl_updated_at : Z;
  dl_cancel_requested : bool;
  dl_resource_class : string;
  dl_wake_event_type : string;
  dl_wake_filter_json : string;
  dl_wake_grants_json : string;
}.

Record EventDeliveryFence : Type := mk_EventDeliveryFence {
  delivery_id : string;
  delivery_owner : string;
  delivery_generation : Z;
}.

(** [EventDeliveryRecord::fence]. *)
Definition delivery_fence (r : EventDeliveryRecord) : EventDeliveryFence :=
  mk_EventDeliveryFence (dl_id r) (default "" (dl_lease_owner r)) (dl_lease_generation r).

Record PendingWakeProgress : Type := mk_PendingWakeProgress {
  wake_claimed : Z;
  wake_still_pending : bool;
}.

(** An empty class reads as [network], any other is trimmed. *)
Definition effective_class (resource_class : string) : string :=
  if str_is_empty (trim resource_class) then EVENT_RESOURCE_CLASS_NETWORK
  else trim resource_class.

(** [BTreeMap::entry]: [f] sees the value under [k], if any, and replaces it; keys stay in
    increasing order. *)
Fixpoint btree_entry {V} (k : string) (f : option V → V) (m : list (string * V))
    : list (string * V) :=
  match m with
  | [] => [(k, f None)]
  | (k', v) :: m' =>
      if text_eq k k' then (k', f (Some v)) :: m'
      else if text_lt k k' then (k, f None) :: m
      else (k', v) :: btree_entry k f m'
  end.

Section Catalog.
Context {Value : Type} {JV : SerdeValue Value}.

Record EventCatalogSubscription : Type := mk_EventCatalogSubscription {
  cs_event_type : string;
  cs_schema_versions : list Z;
  cs_supports_suspend : bool;
  cs_resource_class : string;
  cs_filter : option Value;
}.

(** [EventCatalogSubscription::new]. *)
Definition EventCatalogSubscription_new (event_type : string) (schema_versions : list Z)
    : EventCatalogSubscription :=
  mk_EventCatalogSubscription event_type schema_versions false EVENT_RESOURCE_CLASS_NETWORK None.

Record EventSubscriberNodeRecord : Type := mk_EventSubscriberNodeRecord {
  nr_node_id : string;
  nr_plugin_id : string;
  nr_subscriptions : list EventCatalogSubscription;
  nr_enabled : bool;
  nr_heartbeat_at : Z;
}.

Record EventSubscriberCatalogRecord : Type := mk_EventSubscriberCatalogRecord {
  cr_plugin_id : string;
  cr_subscriptions : list EventCatalogSubscription;
  cr_enabled : bool;
  cr_updated_at : Z;
}.

(** The body of the collapse loop on the entry of the row's plugin. *)
Definition collapse_row (row : EventSubscriberNodeRecord)
    (entry : option EventSubscriberCatalogRecord) : EventSubscriberCatalogRecord :=
  let entry := default (mk_EventSubscriberCatalogRecord (nr_plugin_id row) [] false
                          (nr_heartbeat_at row)) entry in
  mk_EventSubscriberCatalogRecord
    (cr_plugin_id entry)
    (if nr_enabled row then cr_subscriptions entry ++ nr_subscriptions row
     else cr_subscriptions entry)
    (if nr_enabled row then true else cr_enabled entry)
    (if cr_updated_at entry <? nr_heartbeat_at row then nr_heartbeat_at row
     else cr_updated_at entry).

Definition collapse_live_subscriber_nodes (rows : list EventSubscriberNodeRecord)
    : list EventSubscriberCatalogRecord :=
  map snd (fold_left (λ by_plugin row,
    btree_entry (nr_plugin_id row) (collapse_row row) by_plugin) rows []).

(** ** Payload filters *)

Definition event_filter_matches (filter : option Value) (payload_json : string) : bool :=
  match filter with
  | None => true
  | Some filter =>
  match as_object filter with
  | None => false
  | Some filter_obj =>
  if decide (filter_obj = ∅) then true else
  match value_from_str payload_json with
  | None => false
  | Some payload =>
  match as_object payload with
  | None => false
  | Some payload_obj =>
      forallb (λ kv, bool_decide (payload_obj !! kv.1 = Some kv.2)) (map_to_list filter_obj)
  end end end end.

(** [as_map]. *)
Definition as_map (v : option Value) : option (gmap string Value) :=
  match v with
  | None => None
  | Some v =>
      match as_object v with
      | Some m => if decide (m = ∅) then None else Some m
      | None => None
      end
  end.

(** The merge loop of [intersect_event_filters] over the members of the requested filter. *)
Fixpoint merge_filter (members : list (string * Value)) (out : gmap string Value)
    : option (gmap string Value) :=
  match members with
  | [] => Some out
  | (key, value) :: members =>
      match out !! key with
      | Some existing => if decide (existing = value) then merge_filter members out else None
      | None => merge_filter members (<[key := value]> out)
      end
  end.

Definition intersect_event_filters (declared requested : option Value) : option Value :=
  match as_map declared, as_map requested with
  | None, None => Some (Object ∅)
  | Some m, None | None, Some m => Some (Object m)
  | Some l, Some r => Object <$> merge_filter (map_to_list r) l
  end.

(** ** Wake grants *)

Record EventWakeGrant : Type := mk_EventWakeGrant {
  grant_schema_versions : list Z;
  grant_filter : option Value;
}.

Definition is_empty_object (v : Value) : bool :=
  match as_object v with Some m => bool_decide (m = ∅) | None => false end.

(** The grant of one eligible subscription, if its filter meets the requested one. *)
Definition grant_of (requested : option Value) (sub : EventCatalogSubscription)
    : option EventWakeGrant :=
  match intersect_event_filters (cs_filter sub) requested with
  | None => None
  | Some filter =>
      Some (mk_EventWakeGrant (cs_schema_versions sub)
              (if is_empty_object filter then None else Some filter))
  end.

Definition wake_grants_from_subscriptions (subs : list EventCatalogSubscription)
    (wake_type requested_filter_json : string) : string + list EventWakeGrant :=
  let wake := trim wake_type in
  if str_is_empty wake then inr [] else
  let requested :=
    if str_is_empty (trim requested_filter_json) then Some None
    else match value_from_str requested_filter_json with
         | None => None
         | Some parsed => if is_null (as_object parsed) then None else Some (Some parsed)
         end in
  match requested with
  | None => inl "wake filter not within subscription"
  | Some requested =>
      let eligible := List.filter (λ s, text_eq (cs_event_type s) wake) subs in
      match eligible with
      | [] => inl "wake event type not subscribed"
      | _ =>
          match omap (grant_of requested) eligible with
          | [] => inl "wake filter not within subscription"
          | grants => inr grants
          end
      end
  end.

Definition event_matches_wake_grants `{SerdeJson (list EventWakeGrant)}
    (grants_json legacy_filter_json : string) (schema_version : Z) (payload : string) : bool :=
  let grants_json := trim grants_json in
  if str_is_empty grants_json || text_eq grants_json "[]" then
    let filter := if str_is_empty (trim legacy_filter_json) then None
                  else value_from_str legacy_filter_json in
    event_filter_matches filter payload
  else
  match from_str grants_json with
  | None => false
  | Some grants =>
      existsb (λ grant,
        existsb (λ v, v =? schema_version) (grant_schema_versions grant)
        && event_filter_matches (grant_filter grant) payload) grants
  end.

(** ** Catalog match *)

Definition subscription_matches_event (sub : EventCatalogSubscription)
    (event : DomainEventRecord) : bool :=
  text_eq (effective_class (cs_resource_class sub)) EVENT_RESOURCE_CLASS_NETWORK
  && text_eq (cs_event_type sub) (ev_event_type event)
  && existsb (λ v, v =? ev_schema_version event) (cs_schema_versions sub)
  && event_filter_matches (cs_filter sub) (ev_payload event).

Definition catalog_subscribers_for_event (catalog : list EventSubscriberCatalogRecord)
    (event : DomainEventRecord) : list EventSubscriber :=
  omap (λ row,
    if negb (cr_enabled row) then None
    else if negb (existsb (λ s, subscription_matches_event s event) (cr_subscriptions row))
    then None
    else Some (mk_EventSubscriber (cr_plugin_id row) EVENT_RESOURCE_CLASS_NETWORK)) catalog.
End Catalog.

Arguments EventCatalogSubscription : clear implicits.
Arguments EventSubscriberNodeRecord : clear implicits.
Arguments EventSubscriberCatalogRecord : clear implicits.
Arguments EventWakeGrant : clear implicits.
