(* ===== verification/EventMatch.v ===== *)
(** * Filters, wake grants and the subscriber catalog: what they decide

    A payload filter as a set of required members; the intersection of two filters as their
    conjunction; persisted wake grants against the subscriptions they come from; the collapse of
    per-node rows against the rows themselves. *)

From stdpp Require Import base option list strings gmap.
From Stdlib Require Import ZArith Lia Sorted.
From S2P Require Import Prelude EventModels.

Local Open Scope Z_scope.

(** [serde_json::to_string] writes no white space around a value, and [[]] reads as the empty
    list. *)
Class CompactJson (A : Type) `{SerdeJson (list A)} : Prop := {
  compact_text (l : list A) s : to_string l = Some s → trim s = s ∧ s ≠ "";
  compact_empty : from_str "[]" = Some (@nil A);
}.

Section Filters.
Context {Value : Type} {JV : SerdeValue Value} {JL : SerdeValueLaws Value}.

(** The members a filter requires; [None] for a filter that is not an object. *)
Definition required (f : option Value) : option (gmap string Value) :=
  match f with None => Some ∅ | Some f => as_object f end.

(** The payload object, if the text is one. *)
Definition payload_object (payload : string) : option (gmap string Value) :=
  value_from_str payload ≫= as_object.

(** A required member set holds of a payload. *)
Definition holds (req : gmap string Value) (payload : string) : Prop :=
  req = ∅ ∨ ∃ obj, payload_object payload = Some obj ∧ req ⊆ obj.

Lemma filter_matches_required f payload :
  event_filter_matches f payload = true ↔ ∃ req, required f = Some req ∧ holds req payload.
Proof.
  unfold event_filter_matches, required, holds, payload_object.
  destruct f as [f|]; [|naive_solver]. destruct (as_object f) as [fo|]; [|naive_solver].
  destruct (decide (fo = ∅)) as [->|Hne]; [naive_solver|].
  destruct (value_from_str payload) as [p|]; simpl; [|naive_solver].
  destruct (as_object p) as [po|]; [|naive_solver].
  rewrite forallb_forall. split.
  - intros H. exists fo. split; [done|]. right. exists po. split; [done|].
    apply map_subseteq_spec. intros k x Hk.
    apply (bool_decide_eq_true_1 _ (H (k, x) (proj1 (list_elem_of_In _ _)
      (proj2 (elem_of_map_to_list _ _ _) Hk)))).
  - intros (req & [= <-] & [->|(obj & [= <-] & Hs)]); [done|].
    intros [k x] Hk%list_elem_of_In%elem_of_map_to_list. apply bool_decide_eq_true_2.
    by eapply lookup_weaken.
Qed.

Lemma insert_below k (x : Value) (m obj : gmap string Value) :
  m !! k = None → <[k:=x]> m ⊆ obj ↔ obj !! k = Some x ∧ m ⊆ obj.
Proof.
  intros Hk. split.
  - intros H. split; [eapply lookup_weaken; [apply lookup_insert_eq|done]|].
    etrans; [by apply insert_subseteq|done].
  - intros [Hx H]. by apply insert_subseteq_l.
Qed.

(** Members that all agree with [out] are added to it. *)
Lemma merge_filter_spec ms (out : gmap string Value) :
  NoDup ms.*1 →
  match merge_filter ms out with
  | Some u => ∀ obj : gmap string Value, u ⊆ obj ↔ out ⊆ obj ∧ list_to_map ms ⊆ obj
  | None => ∀ obj : gmap string Value, ¬ (out ⊆ obj ∧ list_to_map ms ⊆ obj)
  end.
Proof.
  revert out. induction ms as [|[k x] ms IH]; intros out Hnd; simpl.
  - intros obj. split; [|by intros []]. intros H. split; [done|apply map_empty_subseteq].
  - apply NoDup_cons in Hnd as [Hk Hnd]. apply not_elem_of_list_to_map in Hk. simpl in Hk.
    destruct (out !! k) as [y|] eqn:Eo.
    + destruct (decide (y = x)) as [->|Hne].
      * specialize (IH out Hnd). destruct (merge_filter ms out) as [u|]; intros obj;
          rewrite insert_below by done; specialize (IH obj); [|tauto].
        rewrite IH. split; [|tauto]. intros [Ho Hm]. split_and!; [done| |done].
        by eapply lookup_weaken.
      * intros obj. rewrite insert_below by done. intros (Ho & Hx & _).
        pose proof (lookup_weaken _ _ _ _ Eo Ho). congruence.
    + specialize (IH (<[k:=x]> out) Hnd).
      destruct (merge_filter ms _) as [u|]; intros obj; specialize (IH obj);
        rewrite insert_below in IH by done; rewrite insert_below by done; tauto.
Qed.

Lemma as_map_required v m : required v = Some m →
  as_map v = if decide (m = ∅) then None else Some m.
Proof.
  unfold required, as_map. destruct v as [v|]; [intros ->; done|].
  intros [= <-]. by rewrite decide_True.
Qed.

(** On objects the intersection requires the members of both, or there is a conflict. *)
Lemma intersect_required d r dr rr :
  required d = Some dr → required r = Some rr →
  match intersect_event_filters d r with
  | Some f => ∃ u, as_object f = Some u
      ∧ ∀ payload, holds u payload ↔ holds dr payload ∧ holds rr payload
  | None => ∀ payload, ¬ (holds dr payload ∧ holds rr payload)
  end.
Proof.
  intros Hd Hr. unfold intersect_event_filters.
  rewrite (as_map_required d dr Hd), (as_map_required r rr Hr).
  assert (He : ∀ p, holds ∅ p) by (by left).
  destruct (decide (dr = ∅)) as [->|Hdn], (decide (rr = ∅)) as [->|Hrn].
  1-3: rewrite ?as_object_Object; eexists; split; [reflexivity|]; naive_solver.
  pose proof (merge_filter_spec (map_to_list rr) dr (NoDup_fst_map_to_list rr)) as Hm.
  rewrite list_to_map_to_list in Hm.
  destruct (merge_filter _ dr) as [u|]; simpl.
  - exists u. split; [apply as_object_Object|]. intros p.
    assert (u ≠ ∅) by (intros ->; apply Hdn, map_empty; intros k; destruct (dr !! k) eqn:E; [|done]; by eapply lookup_weaken in E; [|by apply (Hm ∅)]).
    unfold holds. split.
    + intros [?|(obj & Hp & Hs)]; [done|]. apply Hm in Hs as [??]. split; right; eauto.
    + intros [[?|(obj & Hp & Hs)] [?|(obj' & Hp' & Hs')]]; try done.
      rewrite Hp in Hp'. injection Hp' as <-. right. exists obj. split; [done|]. by apply Hm.
  - intros p. unfold holds. intros [[?|(obj & Hp & Hs)] [?|(obj' & Hp' & Hs')]]; try done.
    rewrite Hp in Hp'. injection Hp' as <-. by apply (Hm obj).
Qed.

(** The intersection decides the conjunction. *)
Lemma intersection_is_conjunction d r payload :
  is_Some (required d) → is_Some (required r) →
  event_filter_matches d payload && event_filter_matches r payload =
  match intersect_event_filters d r with
  | Some f => event_filter_matches (Some f) payload
  | None => false
  end.
Proof.
  intros [dr Hd] [rr Hr]. pose proof (intersect_required d r dr rr Hd Hr) as H.
  apply eq_true_iff_eq. rewrite andb_true_iff, !filter_matches_required, Hd, Hr.
  destruct (intersect_event_filters d r) as [f|].
  - destruct H as (u & Hu & H). rewrite filter_matches_required. simpl. rewrite Hu.
    split; [intros [(?&[= <-]&?) (?&[= <-]&?)]|intros (? & [= <-] & [??]%H)]; naive_solver.
  - split; [|done]. intros [(?&[= <-]&?) (?&[= <-]&?)]. by destruct (H payload).
Qed.

(** ** Wake grants *)

Lemma grant_of_matches requested sub payload :
  is_Some (required (cs_filter sub)) → is_Some (required requested) →
  match grant_of requested sub with
  | Some g => grant_schema_versions g = cs_schema_versions sub
      ∧ event_filter_matches (grant_filter g) payload =
          event_filter_matches (cs_filter sub) payload && event_filter_matches requested payload
  | None => event_filter_matches (cs_filter sub) payload
            && event_filter_matches requested payload = false
  end.
Proof.
  intros Hs Hr. pose proof (intersection_is_conjunction _ _ payload Hs Hr) as H.
  unfold grant_of. destruct (intersect_event_filters _ _) as [f|]; [|done].
  split; [done|]. rewrite H. simpl. unfold is_empty_object, event_filter_matches.
  destruct (as_object f) as [m|] eqn:Ef; [|by rewrite Ef].
  destruct (decide (m = ∅)) as [->|Hne].
  - by rewrite bool_decide_eq_true_2.
  - by rewrite bool_decide_eq_false_2, Ef, decide_False.
Qed.

(** What a wake registration asks for: an event of the declared type and version whose payload
    passes both the declared filter and the requested one. *)
Definition wakes (subs : list (EventCatalogSubscription Value)) (wake_type requested_json : string)
    (version : Z) (payload : string) : Prop :=
  (∃ sub, sub ∈ subs ∧ cs_event_type sub = trim wake_type
     ∧ version ∈ cs_schema_versions sub ∧ event_filter_matches (cs_filter sub) payload = true)
  ∧ (trim requested_json = "" ∨ ∃ v, value_from_str requested_json = Some v
                                  ∧ event_filter_matches (Some v) payload = true).

Lemma existsb_elem_of {A} (p : A → bool) l : existsb p l = true ↔ ∃ x, x ∈ l ∧ p x = true.
Proof. rewrite existsb_exists. by setoid_rewrite list_elem_of_In. Qed.

Lemma version_elem_of (version : Z) l : existsb (λ v, v =? version) l = true ↔ version ∈ l.
Proof.
  rewrite existsb_elem_of. split; [intros (x & ? & ->%Z.eqb_eq); done|].
  intros. exists version. split; [done|apply Z.eqb_refl].
Qed.

(** The grants of the eligible subscriptions match what the subscriptions match together with
    the requested filter. *)
Lemma grants_match requested subs version payload :
  (∀ sub, sub ∈ subs → is_Some (required (cs_filter sub))) → is_Some (required requested) →
  existsb (λ g, existsb (λ v, v =? version) (grant_schema_versions g)
                && event_filter_matches (grant_filter g) payload)
    (omap (grant_of requested) subs) = true ↔
  (∃ sub, sub ∈ subs ∧ version ∈ cs_schema_versions sub
     ∧ event_filter_matches (cs_filter sub) payload = true)
  ∧ event_filter_matches requested payload = true.
Proof.
  intros Hs Hr. rewrite existsb_elem_of. split.
  - intros (g & (sub & Hsub & Hg)%list_elem_of_omap & [Hv%version_elem_of Hf]%andb_prop).
    pose proof (grant_of_matches requested sub payload (Hs _ Hsub) Hr) as H. rewrite Hg in H.
    destruct H as [HV HF]. rewrite Hf in HF. symmetry in HF. apply andb_prop in HF as [??].
    rewrite HV in Hv. eauto 10.
  - intros [(sub & Hsub & Hv & Hf) Hq].
    pose proof (grant_of_matches requested sub payload (Hs _ Hsub) Hr) as H.
    rewrite Hf, Hq in H. destruct (grant_of requested sub) as [g|] eqn:Eg; [|done].
    destruct H as [HV HF]. exists g. split; [apply list_elem_of_omap; eauto|].
    rewrite HF, HV. by rewrite (proj2 (version_elem_of version _) Hv).
Qed.

(** The requested filter as parsed: [None] for a text that is no object. *)
Definition requested_filter (json : string) : option (option Value) :=
  if str_is_empty (trim json) then Some None
  else match value_from_str json with
       | None => None
       | Some parsed => if is_null (as_object parsed) then None else Some (Some parsed)
       end.

Lemma requested_filter_wakes json payload :
  (trim json = "" ∨ ∃ v, value_from_str json = Some v ∧ event_filter_matches (Some v) payload = true)
  ↔ ∃ r, requested_filter json = Some r ∧ is_Some (required r)
         ∧ event_filter_matches r payload = true.
Proof.
  unfold requested_filter. destruct (str_is_empty (trim json)) eqn:E.
  - apply text_eq_true in E. split; [|by left]. intros _. exists None. split_and!; [done|by eexists|done].
  - apply text_eq_false in E. destruct (value_from_str json) as [v|]; [|naive_solver].
    assert (event_filter_matches (Some v) payload = true → is_Some (as_object v)).
    { intros (req & Hq & _)%filter_matches_required. by exists req. }
    destruct (as_object v) as [o|] eqn:Eo; simpl; [|naive_solver].
    split; [intros [|(v' & [= <-] & Hm)]; [done|]|naive_solver].
    exists (Some v). split_and!; [done|by exists o|done].
Qed.

Lemma requested_filter_object json r :
  requested_filter json = Some r → is_Some (required r).
Proof.
  unfold requested_filter. split_if; [intros [= <-]; by eexists|].
  destruct (value_from_str _) as [v|]; [|done].
  destruct (as_object v) as [o|] eqn:Eo; simpl; [|done]. intros [= <-]. by exists o.
Qed.

(** Persisted grants are read back as they were written. *)
Lemma grants_json_matches `{JG : SerdeJson (list (EventWakeGrant Value))}
    `{!SerdeLaws (list (EventWakeGrant Value))} `{!CompactJson (EventWakeGrant Value)}
    grants s legacy version payload :
  grants ≠ [] → to_string grants = Some s →
  event_matches_wake_grants s legacy version payload =
  existsb (λ g, existsb (λ v, v =? version) (grant_schema_versions g)
                && event_filter_matches (grant_filter g) payload) grants.
Proof.
  intros Hg Hts. unfold event_matches_wake_grants. destruct (compact_text _ _ Hts) as [-> Hne].
  destruct (serde_roundtrip grants) as (s' & Hs1 & Hs2). assert (s' = s) as -> by congruence.
  replace (str_is_empty s) with false by (symmetry; by apply text_eq_false). simpl orb.
  destruct (text_eq s "[]") eqn:E; [|by rewrite Hs2].
  apply text_eq_true in E as ->. rewrite compact_empty in Hs2. congruence.
Qed.

(** The grants stored at suspension decide exactly what the subscriptions and the requested
    filter say: an event matches the persisted grants if and only if some subscription of the
    wake type accepts its version and payload and the requested filter accepts the payload;
    suspension is refused only when no event can match. *)
Theorem wake_grants_are_exact `{JG : SerdeJson (list (EventWakeGrant Value))}
    `{!SerdeLaws (list (EventWakeGrant Value))} `{!CompactJson (EventWakeGrant Value)}
    subs wake_type requested_json legacy version payload :
  (∀ sub, sub ∈ subs → is_Some (required (cs_filter sub))) → trim wake_type ≠ "" →
  match wake_grants_from_subscriptions subs wake_type requested_json with
  | inl _ => ¬ wakes subs wake_type requested_json version payload
  | inr grants => ∀ grants_json, to_string grants = Some grants_json →
      event_matches_wake_grants grants_json legacy version payload = true
      ↔ wakes subs wake_type requested_json version payload
  end.
Proof.
  intros Hs Hw. set (eligible := List.filter (λ s, text_eq (cs_event_type s) (trim wake_type)) subs).
  assert (Hel : ∀ sub, sub ∈ eligible ↔ sub ∈ subs ∧ cs_event_type sub = trim wake_type).
  { intros sub. unfold eligible. by rewrite elem_of_where, text_eq_true. }
  assert (Hwakes : wakes subs wake_type requested_json version payload ↔
    (∃ sub, sub ∈ eligible ∧ version ∈ cs_schema_versions sub
       ∧ event_filter_matches (cs_filter sub) payload = true)
    ∧ ∃ r, requested_filter requested_json = Some r ∧ is_Some (required r)
           ∧ event_filter_matches r payload = true).
  { unfold wakes. rewrite <-requested_filter_wakes. setoid_rewrite Hel. naive_solver. }
  unfold wake_grants_from_subscriptions. cbv zeta. fold (requested_filter requested_json).
  fold eligible. replace (str_is_empty (trim wake_type)) with false
    by (symmetry; by apply text_eq_false).
  destruct (requested_filter requested_json) as [r|] eqn:Er; [|naive_solver].
  pose proof (requested_filter_object _ _ Er) as Hr.
  pose proof (grants_match r eligible version payload
    (λ sub Hin, Hs sub (proj1 (proj1 (Hel sub) Hin))) Hr) as Hg.
  clearbody eligible. destruct eligible as [|e0 es] eqn:Ee.
  { rewrite Hwakes. intros [(sub & Hin & _) _]. by apply not_elem_of_nil in Hin. }
  rewrite <-Ee in *. clear Ee. destruct (omap (grant_of r) eligible) as [|g gs] eqn:Eg.
  - rewrite Hwakes. intros [Hx (r' & [= <-] & _ & Hm)]. by pose proof (proj2 Hg (conj Hx Hm)).
  - intros s Hts. rewrite Hwakes, (grants_json_matches (g :: gs)); [|done..].
    rewrite Hg. naive_solver.
Qed.

(** A declared filter that is not an object matches no event, yet grants every payload. *)
Lemma non_object_filter_grants_everything sub f :
  cs_filter sub = Some f → as_object f = None →
  trim (cs_event_type sub) = cs_event_type sub → cs_event_type sub ≠ "" →
  (∀ event, subscription_matches_event sub event = false)
  ∧ wake_grants_from_subscriptions [sub] (cs_event_type sub) ""
    = inr [mk_EventWakeGrant (cs_schema_versions sub) None].
Proof.
  intros Hf Ho Ht Hne. split.
  - intros ev. unfold subscription_matches_event, event_filter_matches. rewrite Hf, Ho.
    apply andb_false_r.
  - assert (grant_of None sub = Some (mk_EventWakeGrant (cs_schema_versions sub) None)) as Hg.
    { unfold grant_of, intersect_event_filters, as_map. rewrite Hf, Ho.
      unfold is_empty_object. rewrite as_object_Object. by rewrite bool_decide_eq_true_2. }
    unfold wake_grants_from_subscriptions. rewrite Ht.
    replace (str_is_empty (cs_event_type sub)) with false by (symmetry; by apply text_eq_false).
    cbn. rewrite text_eq_refl. cbn. by rewrite Hg.
Qed.
End Filters.

(** ** The catalog collapsed over nodes *)

Section BTree.
Context {V : Type}.
Implicit Types m : list (string * V).

Definition increasing : list string → Prop := StronglySorted (λ a b, text_lt a b = true).

Lemma increasing_NoDup l : increasing l → NoDup l.
Proof.
  induction 1 as [|x l _ IH Hx]; constructor; [|done]. intros Hin.
  rewrite Forall_forall in Hx. by apply Hx, text_lt_spec in Hin as [_ ?].
Qed.

Lemma btree_keys k (f : option V → V) m x :
  x ∈ (btree_entry k f m).*1 ↔ x = k ∨ x ∈ m.*1.
Proof.
  induction m as [|[k' v] m IH]; simpl; [set_solver|].
  destruct (text_eq k k') eqn:E; [apply text_eq_true in E; set_solver|].
  destruct (text_lt k k'); simpl; [set_solver|]. rewrite elem_of_cons, IH. set_solver.
Qed.

Lemma btree_increasing k (f : option V → V) m :
  increasing m.*1 → increasing (btree_entry k f m).*1.
Proof.
  induction m as [|[k' v] m IH]; simpl; [repeat constructor|].
  intros [Hm Hk]%StronglySorted_inv. destruct (text_eq k k') eqn:E; [by constructor|].
  apply text_eq_false in E. destruct (text_lt k k') eqn:El.
  - constructor; [by constructor|]. constructor; [done|]. eapply Forall_impl; [exact Hk|].
    intros x. by apply text_lt_trans.
  - constructor; [by apply IH|]. apply Forall_forall. intros x [->|Hx]%btree_keys.
    + by apply text_lt_total.
    + by apply (proj1 (Forall_forall _ _) Hk).
Qed.

(** The value under a key. *)
Fixpoint assoc (k : string) (m : list (string * V)) : option V :=
  match m with
  | [] => None
  | (k', v) :: m => if text_eq k k' then Some v else assoc k m
  end.

Lemma assoc_elem_of k m v : NoDup m.*1 → assoc k m = Some v ↔ (k, v) ∈ m.
Proof.
  induction m as [|[k' v'] m IH]; simpl; [set_solver|]. intros [Hk Hnd]%NoDup_cons.
  rewrite elem_of_cons. destruct (text_eq k k') eqn:E.
  - apply text_eq_true in E as ->. split; [naive_solver|]. intros [[= ->]|Hin]; [done|].
    by apply (list_elem_of_fmap_2 fst) in Hin.
  - apply text_eq_false in E. rewrite IH by done. naive_solver.
Qed.

Lemma assoc_below k m : Forall (λ x, text_lt k x = true) m.*1 → assoc k m = None.
Proof.
  induction m as [|[k' v] m IH]; simpl; [done|]. intros [Hlt Hm]%Forall_cons.
  apply text_lt_spec in Hlt as [_ Hne]. rewrite (proj2 (text_eq_false k k') Hne). auto.
Qed.

Lemma btree_assoc x k (f : option V → V) m :
  increasing m.*1 →
  assoc x (btree_entry k f m) = if text_eq x k then Some (f (assoc k m)) else assoc x m.
Proof.
  induction m as [|[k' v] m IH]; simpl; [done|]. intros [Hm Hk]%StronglySorted_inv.
  destruct (text_eq k k') eqn:E; simpl.
  - apply text_eq_true in E as ->. by destruct (text_eq x k').
  - apply text_eq_false in E. destruct (text_lt k k') eqn:El; simpl.
    + rewrite (assoc_below k m); [done|]. eapply Forall_impl; [exact Hk|].
      intros y. by apply text_lt_trans.
    + rewrite IH by done. destruct (text_eq x k') eqn:Ex; [|done].
      apply text_eq_true in Ex as ->. by rewrite (proj2 (text_eq_false k' k)) by congruence.
Qed.
End BTree.

Section Collapse.
Context {Value : Type} {JV : SerdeValue Value}.
Implicit Types rows : list (EventSubscriberNodeRecord Value).

(** The entry of [plugin], built from its rows alone. *)
Definition plugin_entry (plugin : string) (rows : list (EventSubscriberNodeRecord Value))
    : option (EventSubscriberCatalogRecord Value) :=
  fold_left (λ e row, Some (collapse_row row e))
    (List.filter (λ row, text_eq (nr_plugin_id row) plugin) rows) None.

Lemma collapse_entries rows :
  let m := fold_left (λ by_plugin row,
    btree_entry (nr_plugin_id row) (collapse_row row) by_plugin) rows [] in
  increasing m.*1 ∧ ∀ p, assoc p m = plugin_entry p rows.
Proof.
  induction rows as [|row rows [Hs Ha]] using rev_ind; [split; [constructor|done]|].
  unfold plugin_entry. setoid_rewrite List.filter_app.
  rewrite fold_left_app. cbn [fold_left]. split; [by apply btree_increasing|].
  intros p. rewrite btree_assoc by done. rewrite !Ha, fold_left_app. fold (plugin_entry p rows).
  cbn [List.filter]. destruct (text_eq p (nr_plugin_id row)) eqn:E.
  - apply text_eq_true in E as ->. by rewrite text_eq_refl.
  - apply text_eq_false in E. by rewrite (proj2 (text_eq_false _ p)) by congruence.
Qed.

Lemma exists_snoc {A} (P : A → Prop) l x :
  (∃ y, y ∈ l ++ [x] ∧ P y) ↔ (∃ y, y ∈ l ∧ P y) ∨ P x.
Proof.
  setoid_rewrite elem_of_app. setoid_rewrite list_elem_of_singleton. naive_solver.
Qed.

(** What an entry says of its rows. *)
Lemma plugin_entry_spec p rows :
  match plugin_entry p rows with
  | None => ¬ ∃ row, row ∈ rows ∧ nr_plugin_id row = p
  | Some e => cr_plugin_id e = p
      ∧ (cr_enabled e = true ↔ ∃ row, row ∈ rows ∧ nr_plugin_id row = p ∧ nr_enabled row = true)
      ∧ ∀ s, s ∈ cr_subscriptions e ↔
          ∃ row, row ∈ rows ∧ nr_plugin_id row = p ∧ nr_enabled row = true ∧ s ∈ nr_subscriptions row
  end.
Proof.
  unfold plugin_entry. induction rows as [|row rows IH] using rev_ind.
  { intros (row & Hin & _). by apply not_elem_of_nil in Hin. }
  rewrite List.filter_app. cbn [List.filter].
  destruct (text_eq (nr_plugin_id row) p) eqn:E.
  - apply text_eq_true in E. rewrite fold_left_app. cbn [fold_left].
    destruct (fold_left _ _ _) as [e|]; unfold collapse_row; simpl.
    + destruct IH as (Hp & He & Hs). split; [done|]. setoid_rewrite exists_snoc.
      setoid_rewrite <-He. setoid_rewrite <-Hs.
      destruct (nr_enabled row) eqn:En; (split; [|intros s; try rewrite elem_of_app]); naive_solver.
    + assert (Hno : ∀ P, ¬ ∃ y, y ∈ rows ∧ nr_plugin_id y = p ∧ P y) by naive_solver.
      split; [done|]. setoid_rewrite exists_snoc.
      destruct (nr_enabled row) eqn:En; split; try intros s;
        rewrite ?elem_of_nil; naive_solver.
  - apply text_eq_false in E. rewrite app_nil_r. destruct (fold_left _ _ _) as [e|];
      setoid_rewrite exists_snoc; [|naive_solver].
    destruct IH as (Hp & He & Hs). split_and!; [done| |intros s]; rewrite ?He, ?Hs; naive_solver.
Qed.

Lemma catalog_subscribers_elem_of (catalog : list (EventSubscriberCatalogRecord Value)) ev sub :
  sub ∈ catalog_subscribers_for_event catalog ev ↔
  ∃ row, row ∈ catalog ∧ cr_enabled row = true
    ∧ (∃ s, s ∈ cr_subscriptions row ∧ subscription_matches_event s ev = true)
    ∧ sub = EventSubscriber_plugin (cr_plugin_id row).
Proof.
  unfold catalog_subscribers_for_event. rewrite list_elem_of_omap.
  setoid_rewrite <-existsb_elem_of. split.
  - intros (row & Hrow & Hm). destruct (cr_enabled row) eqn:E1, (existsb _ _) eqn:E2;
      simplify_eq/=. eauto 10.
  - intros (row & Hrow & He & Hs & ->). exists row. split; [done|]. by rewrite He, Hs.
Qed.

Lemma collapse_NoDup rows : NoDup (cr_plugin_id <$> collapse_live_subscriber_nodes rows).
Proof.
  unfold collapse_live_subscriber_nodes. destruct (collapse_entries rows) as [Hs Ha].
  pose proof (increasing_NoDup _ Hs) as Hnd. rewrite <-list_fmap_compose.
  erewrite (Forall_fmap_ext_1 _ fst); [done|]. apply Forall_forall. intros [p e] Hin.
  apply assoc_elem_of in Hin; [|done]. rewrite Ha in Hin. pose proof (plugin_entry_spec p rows) as H.
  rewrite Hin in H. apply H.
Qed.

Lemma collapse_elem_of rows e :
  e ∈ collapse_live_subscriber_nodes rows ↔ ∃ p, plugin_entry p rows = Some e.
Proof.
  unfold collapse_live_subscriber_nodes. destruct (collapse_entries rows) as [Hs Ha].
  pose proof (increasing_NoDup _ Hs) as Hnd. rewrite list_elem_of_fmap. split.
  - intros ([p e'] & -> & Hin). exists p. rewrite <-Ha. by apply assoc_elem_of.
  - intros (p & Hp). exists (p, e). split; [done|]. apply assoc_elem_of; [done|]. by rewrite Ha.
Qed.

(** The subscribers of an event computed from the collapsed catalog are exactly the plugins of
    the live enabled node rows with a matching subscription, each once. *)
Theorem dispatch_targets_are_exact rows ev :
  let targets := catalog_subscribers_for_event (collapse_live_subscriber_nodes rows) ev in
  NoDup (sub_plugin_id <$> targets)
  ∧ ∀ sub, sub ∈ targets ↔
      ∃ row s, row ∈ rows ∧ nr_enabled row = true ∧ s ∈ nr_subscriptions row
        ∧ subscription_matches_event s ev = true
        ∧ sub = EventSubscriber_plugin (nr_plugin_id row).
Proof.
  intros targets. split.
  - eapply sublist_NoDup; [apply (collapse_NoDup rows)|]. unfold targets, catalog_subscribers_for_event.
    induction (collapse_live_subscriber_nodes rows) as [|row l IH]; simpl; [constructor|].
    destruct (cr_enabled row); simpl; [|by constructor].
    destruct (existsb _ _); simpl; by constructor.
  - intros sub. unfold targets. rewrite catalog_subscribers_elem_of.
    setoid_rewrite collapse_elem_of. split.
    + intros (e & (p & Hp) & He & (s & Hs & Hm) & ->).
      pose proof (plugin_entry_spec p rows) as H. rewrite Hp in H. destruct H as (<- & _ & H).
      apply H in Hs as (row & ? & <- & ? & ?). eauto 10.
    + intros (row & s & Hrow & He & Hs & Hm & ->).
      pose proof (plugin_entry_spec (nr_plugin_id row) rows) as H.
      destruct (plugin_entry _ rows) as [e|] eqn:Ee; [|by destruct H; eauto].
      destruct H as (Hp & HE & HS). exists e. split; [eauto|].
      split_and!; [apply HE; eauto|exists s; split; [apply HS; eauto|done]|by rewrite Hp].
Qed.
End Collapse.
