(* ===== verification/EventOutbox.v ===== *)
(** * The event outbox: [crates/bookclerk-library/src/store/event_outbox.rs]

    One definition per operation of [LibraryStore] on [domain_events], [event_deliveries],
    [event_subscriber_nodes] and [event_outbox_stats], on the local transaction path
    ([self.atomic = None]).  As in [JobQueue], a database error is a thread that stops. *)

From stdpp Require Import base option list strings pretty gmap.
From Stdlib Require Import ZArith.
From S2P Require Import Prelude Schema Store JobModels EventModels.

Local Open Scope Z_scope.

Definition STATE_PENDING : string := "pending".
Definition STATE_DISPATCHED : string := "dispatched".
Definition STATE_RUNNING : string := "running".
Definition STATE_ACKED : string := "acked".
Definition STATE_REJECTED : string := "rejected".
Definition STATE_DEAD_LETTER : string := "dead_letter".
Definition EVENT_CLAIM_PAGE : nat := 64.
Definition WAKE_UPDATE_FIXED_BINDS : Z := 4.
Definition EVENT_OUTBOX_STATS_ID : Z := 1.
Definition EVENT_WAKE_FAR_FUTURE : string := "9999-12-31T23:59:59+00:00".

(** ** Statements *)

Definition domain_events_find_by_id (id : string) : prog Db (option domain_events.Model) :=
  query (λ s, List.find (λ m, text_eq (domain_events.id m) id) (domain_events_t s)).

Definition domain_events_select (p : domain_events.Model → bool)
    : prog Db (list domain_events.Model) :=
  query (λ s, List.filter p (domain_events_t s)).

Definition domain_events_update (p : domain_events.Model → bool)
    (f : domain_events.Model → domain_events.Model) : prog Db nat :=
  exec (λ s, let r := update_rows p f (domain_events_t s) in (r.1, s <| domain_events_t := r.2 |>)).

(** [UNIQUE (account_id, source, event_type, dedup_key)]. *)
Definition same_namespace (account source event_type dedup : string) (m : domain_events.Model)
    : bool :=
  text_eq (domain_events.account_id m) account && text_eq (domain_events.source m) source
  && text_eq (domain_events.event_type m) event_type
  && text_eq (domain_events.dedup_key m) dedup.

Definition domain_events_insert (m : domain_events.Model) : prog Db (result unit) :=
  exec (λ s,
    if existsb (λ r, text_eq (domain_events.id r) (domain_events.id m)
          || same_namespace (domain_events.account_id m) (domain_events.source m)
               (domain_events.event_type m) (domain_events.dedup_key m) r) (domain_events_t s)
    then (Err (Orm UniqueViolation), s)
    else (Ok (), s <| domain_events_t := domain_events_t s ++ [m] |>)).

Definition event_deliveries_find_by_id (id : string) : prog Db (option event_deliveries.Model) :=
  query (λ s, List.find (λ m, text_eq (event_deliveries.id m) id) (event_deliveries_t s)).

Definition event_deliveries_select (p : event_deliveries.Model → bool)
    : prog Db (list event_deliveries.Model) :=
  query (λ s, List.filter p (event_deliveries_t s)).

Definition event_deliveries_update (p : event_deliveries.Model → bool)
    (f : event_deliveries.Model → event_deliveries.Model) : prog Db nat :=
  exec (λ s, let r := update_rows p f (event_deliveries_t s) in
             (r.1, s <| event_deliveries_t := r.2 |>)).

Definition event_deliveries_delete (p : event_deliveries.Model → bool) : prog Db nat :=
  exec (λ s, let r := delete_rows p (event_deliveries_t s) in
             (r.1, s <| event_deliveries_t := r.2 |>)).

(** Primary key, [UNIQUE idempotency_key], [UNIQUE (event_id, plugin_id)], foreign key. *)
Definition same_delivery (m r : event_deliveries.Model) : bool :=
  text_eq (event_deliveries.id r) (event_deliveries.id m)
  || text_eq (event_deliveries.idempotency_key r) (event_deliveries.idempotency_key m)
  || text_eq (event_deliveries.event_id r) (event_deliveries.event_id m)
     && text_eq (event_deliveries.plugin_id r) (event_deliveries.plugin_id m).

Definition event_deliveries_insert (m : event_deliveries.Model) : prog Db (result unit) :=
  exec (λ s,
    if existsb (same_delivery m) (event_deliveries_t s) then (Err (Orm UniqueViolation), s)
    else if negb (existsb (λ e, text_eq (domain_events.id e) (event_deliveries.event_id m))
                    (domain_events_t s))
    then (Err (Orm ForeignKeyViolation), s)
    else (Ok (), s <| event_deliveries_t := event_deliveries_t s ++ [m] |>)).

(** [DELETE FROM domain_events WHERE p AND NOT EXISTS (a delivery)]; deliveries cascade. *)
Definition domain_events_delete_settled (p : domain_events.Model → bool) : prog Db nat :=
  exec (λ s,
    let settled e := p e && negb (existsb (λ d, text_eq (event_deliveries.event_id d)
                                                (domain_events.id e)) (event_deliveries_t s)) in
    let r := delete_rows settled (domain_events_t s) in
    let gone := map domain_events.id (List.filter settled (domain_events_t s)) in
    (r.1, s <| domain_events_t := r.2 |>
            <| event_deliveries_t :=
                 List.filter (λ d, negb (is_in (event_deliveries.event_id d) gone))
                   (event_deliveries_t s) |>)).

(** [is_unique_violation]: the error text mentions [unique] or [constraint]. *)
Definition is_unique_violation (e : DbErr) : bool :=
  match e with
  | UniqueViolation | ForeignKeyViolation => true
  | OtherDbErr => false
  end.

(** [u32::try_from]. *)
Definition u32_try_from (n : Z) : option Z := if n <=? u32_MAX then Some n else None.

(** [slice::chunks], [n] positive. *)
Fixpoint chunks_go {A} (fuel n : nat) (l : list A) : list (list A) :=
  match fuel, l with
  | O, _ | _, [] => []
  | S fuel, _ => take n l :: chunks_go fuel n (drop n l)
  end.
Definition chunks {A} (n : nat) (l : list A) : list (list A) := chunks_go (length l) n l.

(** [event_inflight_slot]. *)
Definition event_inflight_slot (plugin_id resource_class : string) : string :=
  "event-inflight:" +:+ plugin_id +:+ ":" +:+ effective_class resource_class.

Definition wake_in_chunk_size (max_binds : Z) : Z :=
  Z.max (Z.max (max_binds - WAKE_UPDATE_FIXED_BINDS) 0) 1.

(** [wake_page_for_max_binds]. *)
Definition wake_page_for_max_binds (max_binds : Z) : Z :=
  Z.min (Z.max (Z.max (max_binds - 4) 0) 8) 256.

(** [ORDER BY created_at, id] and the keyset after a row of it. *)
Definition keyset_le (a b : string * string) : bool :=
  text_lt a.1 b.1 || text_eq a.1 b.1 && text_le a.2 b.2.
Definition keyset_gt (a b : string * string) : bool :=
  text_lt b.1 a.1 || text_eq a.1 b.1 && text_lt b.2 a.2.
Definition delivery_key (m : event_deliveries.Model) : string * string :=
  (event_deliveries.created_at m, event_deliveries.id m).

(** [claim_keyset_after]. *)
Definition claim_keyset_after (created_at id : string) (m : event_deliveries.Model) : bool :=
  keyset_gt (delivery_key m) (created_at, id).

Section EventOutbox.
Context {C : Chrono} {U : Uuid} {Value : Type} {JV : SerdeValue Value}.
Context {JS : SerdeJson (list (EventCatalogSubscription Value))}.
Context {JG : SerdeJson (list (EventWakeGrant Value))}.

(** [map_event] and [map_delivery]; [now] is the fallback of [parse_dt]. *)
Definition map_event (now : Z) (m : domain_events.Model) : DomainEventRecord :=
  {| ev_id := domain_events.id m;
     ev_event_type := domain_events.event_type m;
     ev_schema_version := domain_events.schema_version m;
     ev_occurred_at := parse_dt now (domain_events.occurred_at m);
     ev_account_id := domain_events.account_id m;
     ev_source := domain_events.source m;
     ev_correlation_id := domain_events.correlation_id m;
     ev_causation_id := domain_events.causation_id m;
     ev_dedup_key := domain_events.dedup_key m;
     ev_payload := domain_events.payload m;
     ev_ordering_key := domain_events.ordering_key m;
     ev_dispatch_state := domain_events.dispatch_state m;
     ev_created_at := parse_dt now (domain_events.created_at m);
     ev_wake_pending := negb (domain_events.wake_pending m =? 0) |}.

Definition map_delivery (now : Z) (m : event_deliveries.Model) : EventDeliveryRecord :=
  {| dl_id := event_deliveries.id m;
     dl_event_id := event_deliveries.event_id m;
     dl_plugin_id := event_deliveries.plugin_id m;
     dl_idempotency_key := event_deliveries.idempotency_key m;
     dl_state := event_deliveries.state m;
     dl_attempt_count := event_deliveries.attempt_count m;
     dl_max_attempts := event_deliveries.max_attempts m;
     dl_lease_owner := event_deliveries.lease_owner m;
     dl_lease_expires_at := parse_dt_opt now (event_deliveries.lease_expires_at m);
     dl_lease_generation := event_deliveries.lease_generation m;
     dl_run_after := parse_dt now (event_deliveries.run_after m);
     dl_invocation_sequence := event_deliveries.invocation_sequence m;
     dl_resume_pending := negb (event_deliveries.resume_pending m =? 0);
     dl_checkpoint_json := event_deliveries.checkpoint_json m;
     dl_checkpoint_schema_version := event_deliveries.checkpoint_schema_version m;
     dl_ordering_key := event_deliveries.ordering_key m;
     dl_outcome := event_deliveries.outcome m;
     dl_error_message := event_deliveries.error_message m;
     dl_created_at := parse_dt now (event_deliveries.created_at m);
     dl_updated_at := parse_dt now (event_deliveries.updated_at m);
     dl_cancel_requested := negb (event_deliveries.cancel_requested m =? 0);
     dl_resource_class := if str_is_empty (trim (event_deliveries.resource_class m))
                          then EVENT_RESOURCE_CLASS_NETWORK
                          else event_deliveries.resource_class m;
     dl_wake_event_type := event_deliveries.wake_event_type m;
     dl_wake_filter_json := event_deliveries.wake_filter_json m;
     dl_wake_grants_json := event_deliveries.wake_grants_json m |}.

(** ** Counters *)

Definition event_outbox_stats_find : prog Db (option event_outbox_stats.Model) :=
  query (λ s, List.find (λ r, event_outbox_stats.id r =? EVENT_OUTBOX_STATS_ID)
                (event_outbox_stats_t s)).

Definition ensure_event_outbox_stats : prog Db (result event_outbox_stats.Model) :=
  let* row := event_outbox_stats_find in
  match row with
  | Some row => Ret (Ok row)
  | None =>
      let* _ := exec (λ s, ((),
        if existsb (λ r, event_outbox_stats.id r =? EVENT_OUTBOX_STATS_ID)
             (event_outbox_stats_t s)
        then s
        else s <| event_outbox_stats_t := event_outbox_stats_t s
                    ++ [event_outbox_stats.mk_Model EVENT_OUTBOX_STATS_ID 0 0 0 0 0 0 0] |>)) in
      let* row := event_outbox_stats_find in
      match row with
      | Some row => Ret (Ok row)
      | None => Ret (Err (Other "event_outbox_stats singleton missing"))
      end
  end.

Definition bumped_stats (retries suspensions dead_letters dispatch_sum dispatch_n handler_sum
    handler_n : Z) (r : event_outbox_stats.Model) : event_outbox_stats.Model :=
  r <| event_outbox_stats.retries_total := event_outbox_stats.retries_total r + retries |>
    <| event_outbox_stats.suspensions_total :=
         event_outbox_stats.suspensions_total r + suspensions |>
    <| event_outbox_stats.dead_letters_total :=
         event_outbox_stats.dead_letters_total r + dead_letters |>
    <| event_outbox_stats.dispatch_latency_ms_sum :=
         event_outbox_stats.dispatch_latency_ms_sum r + dispatch_sum |>
    <| event_outbox_stats.dispatch_count := event_outbox_stats.dispatch_count r + dispatch_n |>
    <| event_outbox_stats.handler_latency_ms_sum :=
         event_outbox_stats.handler_latency_ms_sum r + handler_sum |>
    <| event_outbox_stats.handler_count := event_outbox_stats.handler_count r + handler_n |>.

Definition bump_event_stats (retries suspensions dead_letters : Z)
    (dispatch_latency_ms handler_latency_ms : option Z) : prog Db (result unit) :=
  let? _ := ensure_event_outbox_stats in
  let dispatch := match dispatch_latency_ms with Some ms => (ms, 1) | None => (0, 0) end in
  let handler := match handler_latency_ms with Some ms => (ms, 1) | None => (0, 0) end in
  let* _ := exec (λ s,
    let r := update_rows (λ r, event_outbox_stats.id r =? EVENT_OUTBOX_STATS_ID)
      (bumped_stats retries suspensions dead_letters dispatch.1 dispatch.2 handler.1 handler.2)
      (event_outbox_stats_t s) in
    (r.1, s <| event_outbox_stats_t := r.2 |>)) in
  Ret (Ok ()).

Definition record_event_handler_latency (duration_ms : Z) : prog Db (result unit) :=
  bump_event_stats 0 0 0 None (Some (Z.max duration_ms 0)).

(** ** Publish *)

Definition is_ascii_lowercase (c : Ascii.ascii) : bool :=
  let n := Ascii.N_of_ascii c in ((97 <=? n) && (n <=? 122))%N.
Definition is_ascii_digit (c : Ascii.ascii) : bool :=
  let n := Ascii.N_of_ascii c in ((48 <=? n) && (n <=? 57))%N.
Definition is_underscore (c : Ascii.ascii) : bool := (Ascii.N_of_ascii c =? 95)%N.
Definition is_name_char (c : Ascii.ascii) : bool :=
  is_ascii_lowercase c || is_ascii_digit c || is_underscore c.

(** [chars().all(…)]: a non-ASCII character has only bytes that fail the test. *)
Fixpoint all_chars (p : Ascii.ascii → bool) (s : string) : bool :=
  match s with
  | EmptyString => true
  | String c s => p c && all_chars p s
  end.
Definition starts_with_underscore (s : string) : bool :=
  match s with String c _ => is_underscore c | EmptyString => false end.
Fixpoint ends_with_underscore (s : string) : bool :=
  match s with
  | EmptyString => false
  | String c EmptyString => is_underscore c
  | String _ s => ends_with_underscore s
  end.
Fixpoint contains_double_underscore (s : string) : bool :=
  match s with
  | EmptyString => false
  | String c s => is_underscore c && starts_with_underscore s || contains_double_underscore s
  end.
Definition str_len (s : string) : Z := Z.of_nat (String.length s).

Definition validate_event_source (source : string) : result unit :=
  if str_is_empty source then Ok () else
  if negb (text_eq source (trim source))
  then Err (Other ("event source `" +:+ source
                   +:+ "` must not have leading or trailing whitespace")) else
  if (str_len source <? 2) || (32 <? str_len source)
  then Err (Other ("event source `" +:+ source +:+ "` must be 2–32 characters")) else
  if negb (all_chars is_name_char source)
  then Err (Other ("event source `" +:+ source
                   +:+ "` must be lowercase ascii letters, digits, or `_`")) else
  if starts_with_underscore source || ends_with_underscore source
     || contains_double_underscore source
  then Err (Other ("event source `" +:+ source
                   +:+ "` must not start/end with `_` or contain `__`"))
  else Ok ().

Definition validate_wake_event_type (event_type : string) : result unit :=
  if (64 <? str_len event_type) || str_is_empty event_type
     || negb (all_chars is_name_char event_type)
  then Err (Other ("wake event type `" +:+ event_type
                   +:+ "` must be 1–64 lowercase ascii letters, digits, or `_`"))
  else Ok ().

Definition MAX_EVENT_BYTES : Z := 65536.

(** The checks of [prepare_publish_domain_event]. *)
Definition check_publish (spec : PublishDomainEventSpec) : result unit :=
  if MAX_EVENT_BYTES <? str_len (pub_payload spec)
  then Err (Other ("domain event payload of " +:+ pretty (str_len (pub_payload spec))
                   +:+ " bytes exceeds " +:+ pretty MAX_EVENT_BYTES)) else
  if str_is_empty (trim (pub_event_type spec)) || str_is_empty (trim (pub_dedup_key spec))
  then Err (Other "domain event type and dedup_key are required")
  else validate_event_source (pub_source spec).

Definition prepare_publish_domain_event (spec : PublishDomainEventSpec)
    : prog Db (result PublishDomainEventSpec) :=
  match check_publish spec with
  | Err e => Ret (Err e)
  | Ok _ =>
      if str_is_empty (trim (pub_id spec))
      then let* uuid := draw_uuid in Ret (Ok (spec <| pub_id := uuid |>))
      else Ret (Ok (spec <| pub_id := trim (pub_id spec) |>))
  end.

(** The row [publish_domain_event_on] inserts. *)
Definition new_event_row (spec : PublishDomainEventSpec) (now : string) : domain_events.Model :=
  {| domain_events.id := pub_id spec;
     domain_events.event_type := pub_event_type spec;
     domain_events.schema_version := Z.max (pub_schema_version spec) 1;
     domain_events.occurred_at := now;
     domain_events.account_id := pub_account_id spec;
     domain_events.source := pub_source spec;
     domain_events.correlation_id := pub_correlation_id spec;
     domain_events.causation_id := pub_causation_id spec;
     domain_events.dedup_key := pub_dedup_key spec;
     domain_events.payload := pub_payload spec;
     domain_events.ordering_key := pub_ordering_key spec;
     domain_events.dispatch_state := STATE_PENDING;
     domain_events.created_at := now;
     domain_events.wake_pending := 1;
     domain_events.wake_lease_owner := None;
     domain_events.wake_lease_expires_at := None;
     domain_events.wake_cursor_at := "";
     domain_events.wake_cursor_id := "";
     domain_events.dispatch_snapshot_json := "" |}.

(** The lookup by namespaced dedup key. *)
Definition find_published (spec : PublishDomainEventSpec) : prog Db (option domain_events.Model) :=
  let* rows := domain_events_select
    (same_namespace (pub_account_id spec) (pub_source spec) (pub_event_type spec)
       (pub_dedup_key spec)) in
  Ret (head rows).

(** [take_publish_fault] is false outside the library's own tests. *)
Definition publish_domain_event_on (spec : PublishDomainEventSpec)
    : prog Db (result PublishDomainEventOutcome) :=
  let? spec := prepare_publish_domain_event spec in
  let* existing := find_published spec in
  match existing with
  | Some existing => Ret (Ok (EventDuplicate (domain_events.id existing)))
  | None =>
  let* now := now_str in
  let* r := domain_events_insert (new_event_row spec now) in
  match r with
  | Ok _ => Ret (Ok (EventCreated (pub_id spec)))
  | Err (Orm err) =>
      if is_unique_violation err then
        let* existing := find_published spec in
        match existing with
        | Some existing => Ret (Ok (EventDuplicate (domain_events.id existing)))
        | None => Ret (Err (Orm err))
        end
      else Ret (Err (Orm err))
  | Err e => Ret (Err e)
  end
  end.

Definition publish_domain_event (spec : PublishDomainEventSpec)
    : prog Db (result PublishDomainEventOutcome) :=
  let? spec := prepare_publish_domain_event spec in
  txn (publish_domain_event_on spec).

(** ** Dispatch *)

Definition new_delivery_row (event : domain_events.Model) (event_id plugin_id now : string)
    : event_deliveries.Model :=
  {| event_deliveries.id := event_id +:+ ":" +:+ plugin_id;
     event_deliveries.event_id := event_id;
     event_deliveries.plugin_id := plugin_id;
     event_deliveries.idempotency_key := event_id +:+ ":" +:+ plugin_id;
     event_deliveries.state := STATE_PENDING;
     event_deliveries.attempt_count := 0;
     event_deliveries.max_attempts := EVENT_DELIVERY_MAX_ATTEMPTS;
     event_deliveries.lease_owner := None;
     event_deliveries.lease_expires_at := None;
     event_deliveries.lease_generation := 0;
     event_deliveries.run_after := now;
     event_deliveries.invocation_sequence := 0;
     event_deliveries.resume_pending := 0;
     event_deliveries.checkpoint_json := None;
     event_deliveries.checkpoint_schema_version := 0;
     event_deliveries.ordering_key := domain_events.ordering_key event;
     event_deliveries.outcome := None;
     event_deliveries.error_message := None;
     event_deliveries.created_at := now;
     event_deliveries.updated_at := now;
     event_deliveries.cancel_requested := 0;
     event_deliveries.resource_class := EVENT_RESOURCE_CLASS_NETWORK;
     event_deliveries.wake_event_type := "";
     event_deliveries.wake_filter_json := "";
     event_deliveries.wake_grants_json := "" |}.

(** A subscriber is skipped without a plugin id or with a class other than [network]. *)
Definition deliverable (sub : EventSubscriber) : bool :=
  negb (str_is_empty (trim (sub_plugin_id sub)))
  && text_eq (effective_class (sub_resource_class sub)) EVENT_RESOURCE_CLASS_NETWORK.

(** The body of the dispatch loop. *)
Definition dispatch_one (event : domain_events.Model) (event_id now : string) (created : Z)
    (sub : EventSubscriber) : prog Db (result Z) :=
  if negb (deliverable sub) then Ret (Ok created) else
  let* r := event_deliveries_insert
    (new_delivery_row event event_id (sub_plugin_id sub) now) in
  match r with
  | Ok _ => Ret (Ok (created + 1))
  | Err (Orm err) => if is_unique_violation err then Ret (Ok created) else Ret (Err (Orm err))
  | Err e => Ret (Err e)
  end.

(** [Duration::num_milliseconds]. *)
Definition num_milliseconds (d : Z) : Z := Z.quot d 1000000.

Definition dispatch_event_deliveries_on (event_id : string) (subscribers : list EventSubscriber)
    : prog Db (result Z) :=
  let* row := domain_events_find_by_id event_id in
  match row with
  | None => Ret (Ok 0)
  | Some event =>
  let* now := now_str in
  let first_dispatch := text_eq (domain_events.dispatch_state event) STATE_PENDING in
  let* created_at := parse_dt_io (domain_events.created_at event) in
  let? created := for_each subscribers 0 (dispatch_one event event_id now) in
  let* dispatched := domain_events_update
    (λ m, text_eq (domain_events.id m) event_id
          && text_eq (domain_events.dispatch_state m) STATE_PENDING)
    (λ m, m <| domain_events.dispatch_state := STATE_DISPATCHED |>) in
  if first_dispatch && (dispatched =? 1)%nat then
    let* now := Utc_now in
    let ms := Z.max (num_milliseconds (now - created_at)) 0 in
    let? _ := bump_event_stats 0 0 0 (Some ms) None in
    Ret (Ok created)
  else Ret (Ok created)
  end.

Definition dispatch_event_deliveries (event_id : string) (subscribers : list EventSubscriber)
    : prog Db (result Z) :=
  txn (dispatch_event_deliveries_on event_id subscribers).

Definition next_undispatched_event : prog Db (result (option DomainEventRecord)) :=
  let* rows := domain_events_select
    (λ m, text_eq (domain_events.dispatch_state m) STATE_PENDING) in
  let* now := Utc_now in
  Ret (Ok (map_event now <$> head
    (order_by (λ a b, text_le (domain_events.created_at a) (domain_events.created_at b)) rows))).

(** ** Claim *)

Definition unknown_class_row (reason now_s : string) (m : event_deliveries.Model)
    : event_deliveries.Model :=
  m <| event_deliveries.state := STATE_REJECTED |>
    <| event_deliveries.outcome := Some "reject" |>
    <| event_deliveries.error_message := Some reason |>
    <| event_deliveries.updated_at := now_s |>.

Definition pending_with_id (id : string) (m : event_deliveries.Model) : bool :=
  text_eq (event_deliveries.id m) id && text_eq (event_deliveries.state m) STATE_PENDING.

Definition unknown_class (m : event_deliveries.Model) : bool :=
  text_eq (event_deliveries.state m) STATE_PENDING
  && negb (text_eq (event_deliveries.resource_class m) EVENT_RESOURCE_CLASS_NETWORK)
  && negb (text_eq (event_deliveries.resource_class m) "").

Definition sanitize_unknown_event_resource_class_on (now_s : string) : prog Db (result unit) :=
  let* suspects := event_deliveries_select unknown_class in
  for_each (take 32 suspects) () (λ _ model,
    let reason := "unknown event resource class `" +:+ event_deliveries.resource_class model
                  +:+ "`" in
    let* _ := event_deliveries_update (pending_with_id (event_deliveries.id model))
      (unknown_class_row reason now_s) in
    Ret (Ok ())).

(** Older unfinished work of the same plugin and ordering key. *)
Definition fifo_before (candidate m : event_deliveries.Model) : bool :=
  text_eq (event_deliveries.plugin_id m) (event_deliveries.plugin_id candidate)
  && text_eq (event_deliveries.ordering_key m) (event_deliveries.ordering_key candidate)
  && text_lt (event_deliveries.created_at m) (event_deliveries.created_at candidate)
  && is_in (event_deliveries.state m) [STATE_PENDING; STATE_RUNNING].

Definition fifo_blocked (candidate : event_deliveries.Model) : prog Db (result bool) :=
  if str_is_empty (event_deliveries.ordering_key candidate) then Ret (Ok false) else
  let* rows := event_deliveries_select (fifo_before candidate) in
  Ret (Ok (0 <? length rows)%nat).

Definition node_plugin_subscriptions (node_id plugin_id : string)
    : prog Db (result (option (list (EventCatalogSubscription Value)))) :=
  let* row := query (λ s, List.find
    (λ r, text_eq (event_subscriber_nodes.node_id r) node_id
          && text_eq (event_subscriber_nodes.plugin_id r) plugin_id)
    (event_subscriber_nodes_t s)) in
  Ret (Ok (match row with
           | None => None
           | Some row =>
               if event_subscriber_nodes.enabled row =? 0 then None
               else Some (default [] (from_str (event_subscriber_nodes.subscriptions_json row)))
           end)).

Definition delivery_model_matches_node_catalog (node_id : string)
    (model : event_deliveries.Model) : prog Db (result bool) :=
  let* row := domain_events_find_by_id (event_deliveries.event_id model) in
  match row with
  | None => Ret (Ok false)
  | Some event_row =>
  let* now := Utc_now in
  let event := map_event now event_row in
  let? subs := node_plugin_subscriptions node_id (event_deliveries.plugin_id model) in
  Ret (Ok (match subs with
           | None => false
           | Some subs => existsb (λ s, subscription_matches_event s event) subs
           end))
  end.

Definition lock_plugin_in_flight (plugin_id resource_class : string) : prog Db (result unit) :=
  lock_serialization_slot (event_inflight_slot plugin_id (effective_class resource_class)).

Definition in_flight (plugin_id cls : string) (m : event_deliveries.Model) : bool :=
  text_eq (event_deliveries.plugin_id m) plugin_id
  && text_eq (event_deliveries.state m) STATE_RUNNING
  && text_eq (event_deliveries.resource_class m) cls.

Definition plugin_in_flight_at_cap (plugin_id resource_class : string) (max_in_flight : Z)
    : prog Db (result bool) :=
  if max_in_flight =? 0 then Ret (Ok true) else
  let cls := effective_class resource_class in
  let* rows := event_deliveries_select (in_flight plugin_id cls) in
  Ret (Ok (max_in_flight <=? Z.of_nat (length rows))).

Definition delivery_resuming (m : event_deliveries.Model) : bool :=
  negb (event_deliveries.resume_pending m =? 0).

Definition delivery_attempt (m : event_deliveries.Model) : Z :=
  if delivery_resuming m then Z.max (event_deliveries.attempt_count m) 1
  else event_deliveries.attempt_count m + 1.

(** Columns written by the claim's conditional update, from the candidate [model] read. *)
Definition claimed_delivery_row (model : event_deliveries.Model)
    (owner lease_expires now_s : string) (m : event_deliveries.Model) : event_deliveries.Model :=
  let m := m <| event_deliveries.state := STATE_RUNNING |>
             <| event_deliveries.attempt_count := delivery_attempt model |>
             <| event_deliveries.lease_owner := Some owner |>
             <| event_deliveries.lease_expires_at := Some lease_expires |>
             <| event_deliveries.lease_generation := event_deliveries.lease_generation model + 1 |>
             <| event_deliveries.updated_at := now_s |> in
  if delivery_resuming model then m <| event_deliveries.resume_pending := 0 |> else m.

(** The body of the claim loop on one candidate; [None] goes on with the next. *)
Definition claim_candidate_delivery (owner lease_expires now_s node_id : string)
    (max_in_flight : Z) (model : event_deliveries.Model)
    : prog Db (result (option EventDeliveryRecord)) :=
  let? blocked := fifo_blocked model in
  if blocked then Ret (Ok None) else
  let? eligible :=
    if str_is_empty (trim node_id) then Ret (Ok true)
    else delivery_model_matches_node_catalog node_id model in
  if negb eligible then Ret (Ok None) else
  let? _ := lock_plugin_in_flight (event_deliveries.plugin_id model)
              (event_deliveries.resource_class model) in
  let? full := plugin_in_flight_at_cap (event_deliveries.plugin_id model)
                 (event_deliveries.resource_class model) max_in_flight in
  if full then Ret (Ok None) else
  let* n := event_deliveries_update (pending_with_id (event_deliveries.id model))
    (claimed_delivery_row model owner lease_expires now_s) in
  if negb (n =? 1)%nat then Ret (Ok None) else
  let* updated := event_deliveries_find_by_id (event_deliveries.id model) in
  match updated with
  | None => Ret (Ok None)
  | Some updated => let* now := Utc_now in Ret (Ok (Some (map_delivery now updated)))
  end.

(** The rows a claim may take, before the keyset. *)
Definition due_delivery (now_s : string) (plugin_ids : list string) (m : event_deliveries.Model)
    : bool :=
  text_eq (event_deliveries.state m) STATE_PENDING
  && text_le (event_deliveries.run_after m) now_s
  && is_in (event_deliveries.plugin_id m) plugin_ids
  && text_eq (event_deliveries.resource_class m) EVENT_RESOURCE_CLASS_NETWORK.

Definition delivery_le (a b : event_deliveries.Model) : bool :=
  keyset_le (delivery_key a) (delivery_key b).

Definition after_cursor (cursor : option (string * string)) (m : event_deliveries.Model) : bool :=
  match cursor with
  | None => true
  | Some (created_at, id) => claim_keyset_after created_at id m
  end.

(** The page loop over the due deliveries, shared by the two claim paths: [candidate] is its body,
    [fuel] bounds the number of pages, see [run_claim_pages] of EventClaim. *)
Fixpoint claim_pages (fuel : nat) (now_s : string) (plugin_ids : list string)
    (candidate : event_deliveries.Model → prog Db (result (option EventDeliveryRecord)))
    (cursor : option (string * string)) : prog Db (result (option EventDeliveryRecord)) :=
  match fuel with
  | O => Ret (Err (Other "out of fuel"))
  | S fuel =>
      let* rows := event_deliveries_select
        (λ m, due_delivery now_s plugin_ids m && after_cursor cursor m) in
      let candidates := take EVENT_CLAIM_PAGE (order_by delivery_le rows) in
      match last candidates with
      | None => Ret (Ok None)
      | Some m =>
          let? r := for_until candidates candidate in
          match r with
          | Some row => Ret (Ok (Some row))
          | None => claim_pages fuel now_s plugin_ids candidate (Some (delivery_key m))
          end
      end
  end.

(** One page more than there are rows. *)
Definition claim_fuel (s : Db) : nat := S (length (event_deliveries_t s)).

Definition claim_next_event_delivery_on (owner : string) (lease_secs : Z)
    (plugin_ids : list string) (max_in_flight : Z) (node_id : string)
    : prog Db (result (option EventDeliveryRecord)) :=
  if (length plugin_ids =? 0)%nat then Ret (Ok None) else
  let* now := Utc_now in
  let now_s := to_rfc3339 now in
  let? _ := sanitize_unknown_event_resource_class_on now_s in
  let lease_expires := to_rfc3339 (now + seconds (default 60 (i64_try_from lease_secs))) in
  let* fuel := query claim_fuel in
  claim_pages fuel now_s plugin_ids
    (claim_candidate_delivery owner lease_expires now_s node_id max_in_flight) None.

Definition claim_next_event_delivery (owner : string) (lease_secs : Z)
    (plugin_ids : list string) (max_in_flight : Z) (node_id : string)
    : prog Db (result (option EventDeliveryRecord)) :=
  if (length plugin_ids =? 0)%nat then Ret (Ok None) else
  txn (claim_next_event_delivery_on owner lease_secs plugin_ids max_in_flight node_id).

(** ** Fenced operations of the lease holder *)

Definition delivery_fence_matches (f : EventDeliveryFence) (m : event_deliveries.Model) : bool :=
  text_eq (event_deliveries.id m) (delivery_id f)
  && text_eq (event_deliveries.state m) STATE_RUNNING
  && sql_eq (event_deliveries.lease_owner m) (delivery_owner f)
  && (event_deliveries.lease_generation m =? delivery_generation f).

(** [row.state != RUNNING || row.lease_owner != … || row.lease_generation != …], negated. *)
Definition delivery_is_fenced (f : EventDeliveryFence) (m : event_deliveries.Model) : bool :=
  text_eq (event_deliveries.state m) STATE_RUNNING
  && sql_eq (event_deliveries.lease_owner m) (delivery_owner f)
  && (event_deliveries.lease_generation m =? delivery_generation f).

Definition released_row (restore_resume : bool) (now : string) (m : event_deliveries.Model)
    : event_deliveries.Model :=
  let m := m <| event_deliveries.state := STATE_PENDING |>
             <| event_deliveries.lease_owner := None |>
             <| event_deliveries.lease_expires_at := None |>
             <| event_deliveries.updated_at := now |> in
  if restore_resume then m <| event_deliveries.resume_pending := 1 |>
  else m <| event_deliveries.attempt_count :=
              if 0 <? event_deliveries.attempt_count m
              then event_deliveries.attempt_count m - 1 else 0 |>.

Definition release_unexecuted_event_delivery (f : EventDeliveryFence) (restore_resume : bool)
    : prog Db (result bool) :=
  let* now := now_str in
  let* n := event_deliveries_update (delivery_fence_matches f) (released_row restore_resume now) in
  Ret (Ok (n =? 1)%nat).

Definition heartbeat_event_delivery (f : EventDeliveryFence) (lease_secs : Z)
    : prog Db (result bool) :=
  let* now := Utc_now in
  let* n := event_deliveries_update (delivery_fence_matches f)
    (λ m, m <| event_deliveries.lease_expires_at :=
                 Some (to_rfc3339 (now + seconds (default 60 (i64_try_from lease_secs)))) |>
            <| event_deliveries.updated_at := to_rfc3339 now |>) in
  Ret (Ok (n =? 1)%nat).

Definition finalized_row (state : string) (outcome error : option string) (now : string)
    (m : event_deliveries.Model) : event_deliveries.Model :=
  m <| event_deliveries.state := state |>
    <| event_deliveries.outcome := outcome |>
    <| event_deliveries.error_message := error |>
    <| event_deliveries.lease_owner := None |>
    <| event_deliveries.lease_expires_at := None |>
    <| event_deliveries.updated_at := now |>.

Definition finalize_delivery (f : EventDeliveryFence) (state : string)
    (outcome error : option string) : prog Db (result bool) :=
  let* now := now_str in
  let* n := event_deliveries_update (delivery_fence_matches f)
    (finalized_row state outcome error now) in
  Ret (Ok (n =? 1)%nat).

Definition ack_event_delivery (f : EventDeliveryFence) : prog Db (result bool) :=
  finalize_delivery f STATE_ACKED (Some "ack") None.

Definition reject_event_delivery (f : EventDeliveryFence) (reason : string)
    : prog Db (result bool) :=
  finalize_delivery f STATE_REJECTED (Some "reject") (Some reason).

Definition dead_letter_event_delivery (f : EventDeliveryFence) (reason : string)
    : prog Db (result bool) :=
  let? ok := finalize_delivery f STATE_DEAD_LETTER (Some "dead_letter") (Some reason) in
  if ok then let? _ := bump_event_stats 0 0 1 None None in Ret (Ok true)
  else Ret (Ok false).

Definition retried_row (run_after reason now : string) (m : event_deliveries.Model)
    : event_deliveries.Model :=
  m <| event_deliveries.state := STATE_PENDING |>
    <| event_deliveries.run_after := run_after |>
    <| event_deliveries.lease_owner := None |>
    <| event_deliveries.lease_expires_at := None |>
    <| event_deliveries.error_message := Some reason |>
    <| event_deliveries.updated_at := now |>.

Definition retry_event_delivery (f : EventDeliveryFence) (run_after : Z) (reason : string)
    : prog Db (result bool) :=
  let* row := event_deliveries_find_by_id (delivery_id f) in
  match row with
  | None => Ret (Ok false)
  | Some row =>
  if negb (delivery_is_fenced f row) then Ret (Ok false) else
  if event_deliveries.max_attempts row <=? event_deliveries.attempt_count row then
    dead_letter_event_delivery f
      ("retry exhausted after " +:+ pretty (event_deliveries.attempt_count row)
       +:+ " attempts: " +:+ reason)
  else
  let* now := now_str in
  let* n := event_deliveries_update (delivery_fence_matches f)
    (retried_row (to_rfc3339 run_after) reason now) in
  if (n =? 1)%nat then let? _ := bump_event_stats 1 0 0 None None in Ret (Ok true)
  else Ret (Ok false)
  end.

(** Columns written by a suspension; [seq] is the invocation ordinal read before. *)
Definition suspended_delivery_row (run_after checkpoint : string) (version seq : Z)
    (wake_type wake_filter wake_grants now : string) (m : event_deliveries.Model)
    : event_deliveries.Model :=
  m <| event_deliveries.state := STATE_PENDING |>
    <| event_deliveries.run_after := run_after |>
    <| event_deliveries.checkpoint_json := Some checkpoint |>
    <| event_deliveries.checkpoint_schema_version := version |>
    <| event_deliveries.invocation_sequence := seq + 1 |>
    <| event_deliveries.resume_pending := 1 |>
    <| event_deliveries.wake_event_type := wake_type |>
    <| event_deliveries.wake_filter_json := wake_filter |>
    <| event_deliveries.wake_grants_json := wake_grants |>
    <| event_deliveries.lease_owner := None |>
    <| event_deliveries.lease_expires_at := None |>
    <| event_deliveries.updated_at := now |>.

(** The argument checks of [suspend_event_delivery]; serde's error text is left out. *)
Definition check_suspend (checkpoint_json wake_type wake_filter : string) : result unit :=
  if MAX_EVENT_BYTES <? str_len checkpoint_json
  then Err (Other ("event checkpoint of " +:+ pretty (str_len checkpoint_json)
                   +:+ " bytes exceeds 65536")) else
  match (if str_is_empty wake_type then Ok () else validate_wake_event_type wake_type) with
  | Err e => Err e
  | Ok _ =>
      if str_is_empty wake_filter then Ok () else
      match value_from_str wake_filter with
      | None => Err (Other "wake filter JSON is invalid")
      | Some parsed =>
          if is_null (as_object parsed)
          then Err (Other "wake filter JSON must be an object") else Ok ()
      end
  end.

(** [wake_at.timestamp_millis()]. *)
Definition timestamp_millis (t : Z) : Z := t / 1000000.

Definition suspend_event_delivery (f : EventDeliveryFence) (checkpoint_json : string)
    (checkpoint_schema_version wake_at : Z) (wake_event_type wake_filter_json
    wake_grants_json : string) : prog Db (result bool) :=
  let wake_type := trim wake_event_type in
  let wake_filter := trim wake_filter_json in
  match check_suspend checkpoint_json wake_type wake_filter with
  | Err e => Ret (Err e)
  | Ok _ =>
  let* now := Utc_now in
  let* row := event_deliveries_find_by_id (delivery_id f) in
  match row with
  | None => Ret (Ok false)
  | Some row =>
  if negb (delivery_is_fenced f row) then Ret (Ok false) else
  let run_after := if negb (str_is_empty wake_type) && (timestamp_millis wake_at <=? 0)
                   then EVENT_WAKE_FAR_FUTURE else to_rfc3339 wake_at in
  let* n := event_deliveries_update (delivery_fence_matches f)
    (suspended_delivery_row run_after checkpoint_json checkpoint_schema_version
       (event_deliveries.invocation_sequence row) wake_type wake_filter wake_grants_json
       (to_rfc3339 now)) in
  if (n =? 1)%nat then let? _ := bump_event_stats 0 1 0 None None in Ret (Ok true)
  else Ret (Ok false)
  end end.

Definition fail_event_delivery (f : EventDeliveryFence) (reason : string)
    : prog Db (result bool) :=
  let* row := event_deliveries_find_by_id (delivery_id f) in
  match row with
  | None => Ret (Ok false)
  | Some row =>
  if negb (delivery_is_fenced f row) then Ret (Ok false) else
  if event_deliveries.max_attempts row <=? event_deliveries.attempt_count row
  then dead_letter_event_delivery f reason
  else
  let* now := Utc_now in
  retry_event_delivery f (job_backoff_run_after (event_deliveries.attempt_count row) now) reason
  end.

(** ** Lease reclaim *)

(** [lease_expires_at IS NULL OR lease_expires_at <= now]. *)
Definition delivery_expired (now_s : string) (m : event_deliveries.Model) : bool :=
  is_null (event_deliveries.lease_expires_at m) || sql_le (event_deliveries.lease_expires_at m) now_s.

Definition expired_running (now_s : string) (m : event_deliveries.Model) : bool :=
  text_eq (event_deliveries.state m) STATE_RUNNING && delivery_expired now_s m.

(** The rows the first statement of the pass takes. *)
Definition expired_cancelled (now_s : string) (m : event_deliveries.Model) : bool :=
  text_eq (event_deliveries.state m) STATE_RUNNING
  && (event_deliveries.cancel_requested m =? 1) && delivery_expired now_s m.

Definition operator_cancelled_row (now_s : string) (m : event_deliveries.Model)
    : event_deliveries.Model :=
  m <| event_deliveries.state := STATE_REJECTED |>
    <| event_deliveries.outcome := Some "reject" |>
    <| event_deliveries.error_message := Some "cancelled by operator" |>
    <| event_deliveries.lease_owner := None |>
    <| event_deliveries.lease_expires_at := None |>
    <| event_deliveries.cancel_requested := 0 |>
    <| event_deliveries.updated_at := now_s |>.

Definition reclaimed_delivery_row (now_s : string) (m : event_deliveries.Model)
    : event_deliveries.Model :=
  m <| event_deliveries.state := STATE_PENDING |>
    <| event_deliveries.lease_owner := None |>
    <| event_deliveries.lease_expires_at := None |>
    <| event_deliveries.updated_at := now_s |>
    <| event_deliveries.resume_pending :=
         if is_null (event_deliveries.checkpoint_json m)
         then event_deliveries.resume_pending m else 1 |>.

Definition reclaim_expired_event_deliveries : prog Db (result Z) :=
  let* now := Utc_now in
  let now_s := to_rfc3339 now in
  let* cancelled := event_deliveries_update (expired_cancelled now_s)
    (operator_cancelled_row now_s) in
  let* n := event_deliveries_update (expired_running now_s) (reclaimed_delivery_row now_s) in
  let? _ := if (0 <? n)%nat
            then bump_event_stats (default 0 (i64_try_from (Z.of_nat n))) 0 0 None None
            else Ret (Ok ()) in
  Ret (Ok (default u32_MAX (u32_try_from (Z.of_nat (cancelled + n))))).

(** ** Reads *)

Definition get_domain_event (id : string) : prog Db (result (option DomainEventRecord)) :=
  let* row := domain_events_find_by_id id in
  let* now := Utc_now in
  Ret (Ok (map_event now <$> row)).

Definition get_event_delivery (id : string) : prog Db (result (option EventDeliveryRecord)) :=
  let* row := event_deliveries_find_by_id id in
  let* now := Utc_now in
  Ret (Ok (map_delivery now <$> row)).

Definition list_domain_events (limit : Z) : prog Db (result (list DomainEventRecord)) :=
  let* rows := domain_events_select (λ _, true) in
  let* now := Utc_now in
  Ret (Ok (map (map_event now) (take (Z.to_nat limit)
    (order_by (λ a b, text_le (domain_events.created_at b) (domain_events.created_at a)) rows)))).

Definition list_event_deliveries (state : option string) (limit : Z)
    : prog Db (result (list EventDeliveryRecord)) :=
  let* rows := event_deliveries_select
    (λ m, match state with Some st => text_eq (event_deliveries.state m) st | None => true end) in
  let* now := Utc_now in
  Ret (Ok (map (map_delivery now) (take (Z.to_nat limit)
    (order_by (λ a b, text_le (event_deliveries.updated_at b) (event_deliveries.updated_at a))
       rows)))).

Definition count_event_deliveries (state : string) : prog Db (result Z) :=
  let* rows := event_deliveries_select (λ m, text_eq (event_deliveries.state m) state) in
  Ret (match i64_try_from (Z.of_nat (length rows)) with
       | Some n => Ok n
       | None => Err (Other "out of range integral type conversion attempted")
       end).

Definition event_delivery_cancel_requested (id : string) : prog Db (result bool) :=
  let* row := event_deliveries_find_by_id id in
  Ret (Ok (match row with
           | Some m => negb (event_deliveries.cancel_requested m =? 0)
           | None => false
           end)).

(** ** Operator actions *)

Definition requeued_row (now : string) (m : event_deliveries.Model) : event_deliveries.Model :=
  m <| event_deliveries.state := STATE_PENDING |>
    <| event_deliveries.run_after := now |>
    <| event_deliveries.outcome := None |>
    <| event_deliveries.error_message := None |>
    <| event_deliveries.attempt_count := 0 |>
    <| event_deliveries.resume_pending := 0 |>
    <| event_deliveries.invocation_sequence := 0 |>
    <| event_deliveries.checkpoint_json := None |>
    <| event_deliveries.checkpoint_schema_version := 0 |>
    <| event_deliveries.updated_at := now |>.

Definition dead_letter_with_id (id : string) (m : event_deliveries.Model) : bool :=
  text_eq (event_deliveries.id m) id && text_eq (event_deliveries.state m) STATE_DEAD_LETTER.

Definition retry_dead_letter_delivery (id : string) : prog Db (result bool) :=
  let* now := now_str in
  let* n := event_deliveries_update (dead_letter_with_id id) (requeued_row now) in
  Ret (Ok (n =? 1)%nat).

Definition acknowledge_dead_letter_delivery (id : string) : prog Db (result bool) :=
  let* now := now_str in
  let* n := event_deliveries_update (dead_letter_with_id id)
    (λ m, m <| event_deliveries.state := STATE_REJECTED |>
            <| event_deliveries.outcome := Some "ack" |>
            <| event_deliveries.updated_at := now |>) in
  Ret (Ok (n =? 1)%nat).

Definition cancelled_pending_row (now : string) (m : event_deliveries.Model)
    : event_deliveries.Model :=
  m <| event_deliveries.state := STATE_REJECTED |>
    <| event_deliveries.outcome := Some "reject" |>
    <| event_deliveries.error_message := Some "cancelled by operator" |>
    <| event_deliveries.cancel_requested := 0 |>
    <| event_deliveries.updated_at := now |>.

(** One round of the cancel loop: [Some r] returns [r]. *)
Definition delivery_cancel_round (id : string)
    : prog Db (result (option (option EventDeliveryRecord))) :=
  let* row := event_deliveries_find_by_id id in
  match row with
  | None => Ret (Ok (Some None))
  | Some model =>
  if negb (text_eq (event_deliveries.state model) STATE_PENDING)
     && negb (text_eq (event_deliveries.state model) STATE_RUNNING)
  then let* now := Utc_now in Ret (Ok (Some (Some (map_delivery now model)))) else
  if text_eq (event_deliveries.state model) STATE_PENDING then
    let* now := now_str in
    let* n := event_deliveries_update (pending_with_id id) (cancelled_pending_row now) in
    if (n =? 1)%nat then let? r := get_event_delivery id in Ret (Ok (Some r))
    else Ret (Ok None)
  else
  let* now := now_str in
  let* n := event_deliveries_update
    (λ m, text_eq (event_deliveries.id m) id && text_eq (event_deliveries.state m) STATE_RUNNING)
    (λ m, m <| event_deliveries.cancel_requested := 1 |>
            <| event_deliveries.updated_at := now |>) in
  if (n =? 1)%nat then let? r := get_event_delivery id in Ret (Ok (Some r))
  else Ret (Ok None)
  end.

Definition request_event_delivery_cancel (id : string)
    : prog Db (result (option EventDeliveryRecord)) :=
  let? r := for_until (seq 0 16) (λ _, delivery_cancel_round id) in
  match r with
  | Some d => Ret (Ok d)
  | None => get_event_delivery id
  end.

Definition resume_event_delivery (id : string) : prog Db (result bool) :=
  let* now := now_str in
  let* n := event_deliveries_update
    (λ m, pending_with_id id m && negb (is_null (event_deliveries.checkpoint_json m)))
    (λ m, m <| event_deliveries.run_after := now |>
            <| event_deliveries.resume_pending := 1 |>
            <| event_deliveries.updated_at := now |>) in
  Ret (Ok (n =? 1)%nat).

Definition prune_event_deliveries (retention_days dead_letter_retention_days : Z)
    : prog Db (result Z) :=
  let* t1 := Utc_now in
  let terminal_cutoff := to_rfc3339 (t1 - days (default 7 (i64_try_from retention_days))) in
  let* t2 := Utc_now in
  let dead_letter_cutoff :=
    to_rfc3339 (t2 - days (default 30 (i64_try_from dead_letter_retention_days))) in
  let* t3 := Utc_now in
  let heartbeat_cutoff := to_rfc3339 (t3 - seconds EVENT_SUBSCRIBER_HEARTBEAT_TTL_SECS) in
  let* acked := event_deliveries_delete
    (λ m, is_in (event_deliveries.state m) [STATE_ACKED; STATE_REJECTED]
          && text_le (event_deliveries.updated_at m) terminal_cutoff) in
  let* dead := event_deliveries_delete
    (λ m, text_eq (event_deliveries.state m) STATE_DEAD_LETTER
          && text_le (event_deliveries.updated_at m) dead_letter_cutoff) in
  let* stale_nodes := exec (λ s,
    let r := delete_rows (λ r, text_lt (event_subscriber_nodes.heartbeat_at r) heartbeat_cutoff)
               (event_subscriber_nodes_t s) in
    (r.1, s <| event_subscriber_nodes_t := r.2 |>)) in
  let* events := domain_events_delete_settled
    (λ e, text_eq (domain_events.dispatch_state e) STATE_DISPATCHED
          && text_le (domain_events.created_at e) terminal_cutoff) in
  Ret (Ok (Z.of_nat (acked + dead + stale_nodes + events))).

(** ** Subscriber catalog *)

Definition upsert_event_subscriber_at (node_id plugin_id : string)
    (subscriptions : list (EventCatalogSubscription Value)) (enabled : bool) (heartbeat_at : Z)
    : prog Db (result unit) :=
  let node_id := trim node_id in
  let plugin_id := trim plugin_id in
  if str_is_empty node_id || str_is_empty plugin_id then Ret (Ok ()) else
  let json := default "[]" (to_string subscriptions) in
  let row := event_subscriber_nodes.mk_Model node_id plugin_id json (if enabled then 1 else 0)
               (to_rfc3339 heartbeat_at) in
  let same r := text_eq (event_subscriber_nodes.node_id r) node_id
                && text_eq (event_subscriber_nodes.plugin_id r) plugin_id in
  let* _ := exec (λ s, ((),
    if existsb same (event_subscriber_nodes_t s)
    then s <| event_subscriber_nodes_t :=
               (update_rows same (λ _, row) (event_subscriber_nodes_t s)).2 |>
    else s <| event_subscriber_nodes_t := event_subscriber_nodes_t s ++ [row] |>)) in
  Ret (Ok ()).

Definition upsert_event_subscriber (node_id plugin_id : string)
    (subscriptions : list (EventCatalogSubscription Value)) (enabled : bool)
    : prog Db (result unit) :=
  let* now := Utc_now in
  upsert_event_subscriber_at node_id plugin_id subscriptions enabled now.

Definition map_node_row (now : Z) (m : event_subscriber_nodes.Model)
    : EventSubscriberNodeRecord Value :=
  {| nr_node_id := event_subscriber_nodes.node_id m;
     nr_plugin_id := event_subscriber_nodes.plugin_id m;
     nr_subscriptions := default [] (from_str (event_subscriber_nodes.subscriptions_json m));
     nr_enabled := negb (event_subscriber_nodes.enabled m =? 0);
     nr_heartbeat_at := parse_dt now (event_subscriber_nodes.heartbeat_at m) |}.

Definition node_le (a b : event_subscriber_nodes.Model) : bool :=
  keyset_le (event_subscriber_nodes.plugin_id a, event_subscriber_nodes.node_id a)
    (event_subscriber_nodes.plugin_id b, event_subscriber_nodes.node_id b).

Definition list_live_event_subscriber_nodes (ttl_secs : Z)
    : prog Db (result (list (EventSubscriberNodeRecord Value))) :=
  let* now := Utc_now in
  let cutoff := to_rfc3339 (now - seconds (Z.max ttl_secs 1)) in
  let* rows := query (λ s, List.filter
    (λ r, text_le cutoff (event_subscriber_nodes.heartbeat_at r)) (event_subscriber_nodes_t s)) in
  let* now := Utc_now in
  Ret (Ok (map (map_node_row now) (order_by node_le rows))).

Definition list_live_event_subscribers_with_ttl (ttl_secs : Z)
    : prog Db (result (list (EventSubscriberCatalogRecord Value))) :=
  let? rows := list_live_event_subscriber_nodes ttl_secs in
  Ret (Ok (collapse_live_subscriber_nodes rows)).

Definition list_live_event_subscribers
    : prog Db (result (list (EventSubscriberCatalogRecord Value))) :=
  list_live_event_subscribers_with_ttl EVENT_SUBSCRIBER_HEARTBEAT_TTL_SECS.

Definition dispatch_catalog_matches (event : DomainEventRecord) : prog Db (result Z) :=
  let? catalog := list_live_event_subscribers in
  dispatch_event_deliveries (ev_id event) (catalog_subscribers_for_event catalog event).

(** ** Wake pass over suspended deliveries *)

(** The token [owner] holds the wake lease of the event. *)
Definition wake_fenced (event_id owner : string) (m : domain_events.Model) : bool :=
  text_eq (domain_events.id m) event_id && (domain_events.wake_pending m =? 1)
  && sql_eq (domain_events.wake_lease_owner m) owner.

Definition woken_row (now : string) (m : event_deliveries.Model) : event_deliveries.Model :=
  m <| event_deliveries.run_after := now |>
    <| event_deliveries.resume_pending := 1 |>
    <| event_deliveries.wake_event_type := "" |>
    <| event_deliveries.wake_filter_json := "" |>
    <| event_deliveries.wake_grants_json := "" |>
    <| event_deliveries.updated_at := now |>.

(** [wake_fenced_update_sql]: one statement. *)
Definition wake_fenced_update (event_id owner now : string) (ids : list string) : prog Db nat :=
  exec (λ s,
    let r := update_rows
      (λ m, is_in (event_deliveries.id m) ids
            && text_eq (event_deliveries.state m) STATE_PENDING
            && existsb (wake_fenced event_id owner) (domain_events_t s))
      (woken_row now) (event_deliveries_t s) in
    (r.1, s <| event_deliveries_t := r.2 |>)).

Definition wake_deliveries_fenced_on (event_id owner : string) (ids : list string) (now : string)
    (max_binds : Z) : prog Db (result Z) :=
  for_each (chunks (Z.to_nat (wake_in_chunk_size max_binds)) ids) 0 (λ woken chunk,
    let* affected := wake_fenced_update event_id owner now chunk in
    Ret (Ok (u32_saturating_add woken (default 0 (u32_try_from (Z.of_nat affected)))))).

Definition release_wake_cursor_on (event_id owner cursor_at cursor_id : string)
    : prog Db (result bool) :=
  let* n := domain_events_update (wake_fenced event_id owner)
    (λ m, m <| domain_events.wake_cursor_at := cursor_at |>
            <| domain_events.wake_cursor_id := cursor_id |>
            <| domain_events.wake_lease_owner := None |>
            <| domain_events.wake_lease_expires_at := None |>) in
  Ret (Ok (n =? 1)%nat).

Definition finish_wake_on (event_id owner : string) : prog Db (result bool) :=
  let* n := domain_events_update (wake_fenced event_id owner)
    (λ m, m <| domain_events.wake_pending := 0 |>
            <| domain_events.wake_lease_owner := None |>
            <| domain_events.wake_lease_expires_at := None |>
            <| domain_events.wake_cursor_at := "" |>
            <| domain_events.wake_cursor_id := "" |>) in
  Ret (Ok (n =? 1)%nat).

(** The suspended deliveries of other events that wait for this type. *)
Definition sleeper (event : DomainEventRecord) (m : event_deliveries.Model) : bool :=
  text_eq (event_deliveries.state m) STATE_PENDING
  && text_eq (event_deliveries.wake_event_type m) (ev_event_type event)
  && negb (text_eq (event_deliveries.event_id m) (ev_id event)).

(** The account of each parent event, read in chunks. *)
Definition load_accounts (parent_ids : list string) (max_binds : Z)
    : prog Db (result (gmap string string)) :=
  for_each (chunks (Z.to_nat (Z.max max_binds 1)) parent_ids) ∅ (λ accounts chunk,
    let* parents := domain_events_select (λ m, is_in (domain_events.id m) chunk) in
    Ret (Ok (fold_left (λ acc p, <[domain_events.id p := domain_events.account_id p]> acc)
               parents accounts))).

(** A sleeper of the same account whose grants match the event. *)
Definition should_wake (event : DomainEventRecord) (accounts : gmap string string)
    (m : event_deliveries.Model) : bool :=
  bool_decide (accounts !! event_deliveries.event_id m = Some (ev_account_id event))
  && event_matches_wake_grants (event_deliveries.wake_grants_json m)
       (event_deliveries.wake_filter_json m) (ev_schema_version event) (ev_payload event).

Definition wake_one_page_on (row : domain_events.Model) (owner : string) (page max_binds : Z)
    : prog Db (result Z) :=
  let* t := Utc_now in
  let event := map_event t row in
  if str_is_empty (trim (ev_event_type event)) then
    let? _ := finish_wake_on (ev_id event) owner in Ret (Ok 0)
  else
  let* now := now_str in
  let cursor := (domain_events.wake_cursor_at row, domain_events.wake_cursor_id row) in
  let* found := event_deliveries_select
    (λ m, sleeper event m && keyset_gt (delivery_key m) cursor) in
  let rows := take (Z.to_nat page) (order_by delivery_le found) in
  match last rows with
  | None => let? _ := finish_wake_on (ev_id event) owner in Ret (Ok 0)
  | Some m =>
  let? accounts := load_accounts (map event_deliveries.event_id rows) max_binds in
  let ids := map event_deliveries.id (List.filter (should_wake event accounts) rows) in
  let? woken := wake_deliveries_fenced_on (ev_id event) owner ids now max_binds in
  let? _ := if Z.of_nat (length rows) <? page
            then finish_wake_on (ev_id event) owner
            else release_wake_cursor_on (ev_id event) owner
                   (event_deliveries.created_at m) (event_deliveries.id m) in
  Ret (Ok woken)
  end.

Definition wake_one_claimed_page (row : domain_events.Model) (owner : string) (max_binds : Z)
    : prog Db (result Z) :=
  txn (wake_one_page_on row owner (wake_page_for_max_binds max_binds) max_binds).

Definition wake_claimable (now_s : string) (m : domain_events.Model) : bool :=
  (domain_events.wake_pending m =? 1)
  && (is_null (domain_events.wake_lease_expires_at m)
      || sql_eq (domain_events.wake_lease_expires_at m) ""
      || sql_le (domain_events.wake_lease_expires_at m) now_s).

Definition event_le (a b : domain_events.Model) : bool :=
  keyset_le (domain_events.created_at a, domain_events.id a)
    (domain_events.created_at b, domain_events.id b).

(** The body of the wake loop on one candidate event. *)
Definition wake_candidate (now_s lease_expires : string) (max_binds : Z) (acc : Z * bool)
    (row : domain_events.Model) : prog Db (result (Z * bool)) :=
  let* token := draw_uuid in
  let* n := domain_events_update
    (λ m, text_eq (domain_events.id m) (domain_events.id row) && wake_claimable now_s m)
    (λ m, m <| domain_events.wake_lease_owner := Some token |>
            <| domain_events.wake_lease_expires_at := Some lease_expires |>) in
  if negb (n =? 1)%nat then Ret (Ok acc) else
  let claimed := u32_saturating_add acc.1 1 in
  let* fresh := domain_events_find_by_id (domain_events.id row) in
  match fresh with
  | None => Ret (Ok (claimed, acc.2))
  | Some fresh =>
      let? _ := wake_one_claimed_page fresh token max_binds in
      let* after := domain_events_find_by_id (domain_events.id row) in
      Ret (Ok (claimed,
        match after with
        | Some after => if domain_events.wake_pending after =? 0 then acc.2 else true
        | None => acc.2
        end))
  end.

Definition process_pending_wakes (limit lease_secs max_binds : Z)
    : prog Db (result PendingWakeProgress) :=
  let page := Z.max limit 1 in
  let* now := Utc_now in
  let now_s := to_rfc3339 now in
  let lease_expires := to_rfc3339 (now + seconds (default 60 (i64_try_from lease_secs))) in
  let* rows := domain_events_select (wake_claimable now_s) in
  let candidates := take (Z.to_nat page) (order_by event_le rows) in
  let still_pending := page <=? Z.of_nat (length candidates) in
  let? acc := for_each candidates (0, still_pending)
    (wake_candidate now_s lease_expires max_binds) in
  Ret (Ok (mk_PendingWakeProgress acc.1 acc.2)).
End EventOutbox.
