(* ===== verification/EventPlans.v ===== *)
(** * The outbox behind a database plugin

    When the store runs behind a database plugin ([self.atomic = Some]) publication, dispatch and
    claim execute as SQL batches of [sql_plan/named.rs], one transaction each, sent by
    [RpcAtomicBackend] ([bookclerk-plugin-host/src/host/database.rs]); the claim loop and the
    frozen dispatch snapshot around them are host code of [store/event_outbox.rs].  The receipts
    that replay a batch under its operation id are left out. *)

From stdpp Require Import base option list strings gmap pretty.
From Stdlib Require Import ZArith Lia.
From S2P Require Import Prelude Schema Store Concurrency JobModels EventModels EventOutbox.

Local Open Scope Z_scope.

(** [CAST((julianday(now) - julianday(created_at)) * 86400000 AS INTEGER)]. *)
Class JulianDay := julian_ms : string → option string → Z.

Section EventPlans.
Context {C : Chrono} {U : Uuid} {Value : Type} {JV : SerdeValue Value}.
Context {JS : SerdeJson (list (EventCatalogSubscription Value))}.
Context {JI : SerdeJson (list string)} {JD : JulianDay}.

(** ** Claim *)

(** The lease of a batch ends at least five seconds after its [now]. *)
Definition plan_event_expires (lease_secs : Z) (now : string) : string :=
  match parse_from_rfc3339 now with
  | Some dt => to_rfc3339 (dt + seconds (Z.max lease_secs 5))
  | None => now
  end.

Definition plan_claimed_delivery (owner expires now : string) (m : event_deliveries.Model)
    : event_deliveries.Model :=
  m <| event_deliveries.state := STATE_RUNNING |>
    <| event_deliveries.attempt_count :=
         if event_deliveries.resume_pending m =? 1 then Z.max (event_deliveries.attempt_count m) 1
         else event_deliveries.attempt_count m + 1 |>
    <| event_deliveries.resume_pending := 0 |>
    <| event_deliveries.lease_owner := Some owner |>
    <| event_deliveries.lease_expires_at := Some expires |>
    <| event_deliveries.lease_generation := event_deliveries.lease_generation m + 1 |>
    <| event_deliveries.updated_at := now |>.

(** [id = ? AND state = 'running' AND lease_owner = ? AND updated_at = ?]. *)
Definition delivery_just_claimed (id owner now : string) (m : event_deliveries.Model) : bool :=
  text_eq (event_deliveries.id m) id && text_eq (event_deliveries.state m) STATE_RUNNING
  && sql_eq (event_deliveries.lease_owner m) owner && text_eq (event_deliveries.updated_at m) now.

(** [plan_claim_event_delivery_cas]: slot, conditional update, status, payload row. *)
Definition plan_claim_event_delivery_cas (id owner : string) (lease_secs : Z)
    (plugin_id resource_class : string) (max_in_flight : Z) (now : string)
    : prog Db (result (string * option event_deliveries.Model)) :=
  let expires := plan_event_expires lease_secs now in
  let class := effective_class resource_class in
  let? _ := lock_serialization_slot (event_inflight_slot plugin_id class) in
  let* _ := exec (λ s,
    let r := update_rows
      (λ m, pending_with_id id m
            && (Z.of_nat (length (List.filter (in_flight plugin_id class) (event_deliveries_t s)))
                <? Z.max max_in_flight 0))
      (plan_claimed_delivery owner expires now) (event_deliveries_t s) in
    (r.1, s <| event_deliveries_t := r.2 |>)) in
  let* rows := event_deliveries_select (delivery_just_claimed id owner now) in
  Ret (Ok (if (0 <? length rows)%nat then "ok" else "empty", head rows)).

(** The payload object deserialized into a record: every timestamp must parse. *)
Definition decode_delivery (m : event_deliveries.Model) : option EventDeliveryRecord :=
  run_after ← parse_from_rfc3339 (event_deliveries.run_after m);
  created_at ← parse_from_rfc3339 (event_deliveries.created_at m);
  updated_at ← parse_from_rfc3339 (event_deliveries.updated_at m);
  lease_expires_at ← match event_deliveries.lease_expires_at m with
                     | None => Some None
                     | Some t => Some <$> parse_from_rfc3339 t
                     end;
  Some {| dl_id := event_deliveries.id m;
          dl_event_id := event_deliveries.event_id m;
          dl_plugin_id := event_deliveries.plugin_id m;
          dl_idempotency_key := event_deliveries.idempotency_key m;
          dl_state := event_deliveries.state m;
          dl_attempt_count := event_deliveries.attempt_count m;
          dl_max_attempts := event_deliveries.max_attempts m;
          dl_lease_owner := event_deliveries.lease_owner m;
          dl_lease_expires_at := lease_expires_at;
          dl_lease_generation := event_deliveries.lease_generation m;
          dl_run_after := run_after;
          dl_invocation_sequence := event_deliveries.invocation_sequence m;
          dl_resume_pending := negb (event_deliveries.resume_pending m =? 0);
          dl_checkpoint_json := event_deliveries.checkpoint_json m;
          dl_checkpoint_schema_version := event_deliveries.checkpoint_schema_version m;
          dl_ordering_key := event_deliveries.ordering_key m;
          dl_outcome := event_deliveries.outcome m;
          dl_error_message := event_deliveries.error_message m;
          dl_created_at := created_at;
          dl_updated_at := updated_at;
          dl_cancel_requested := negb (event_deliveries.cancel_requested m =? 0);
          dl_resource_class := event_deliveries.resource_class m;
          dl_wake_event_type := event_deliveries.wake_event_type m;
          dl_wake_filter_json := event_deliveries.wake_filter_json m;
          dl_wake_grants_json := event_deliveries.wake_grants_json m |}.

(** [RpcAtomicBackend::claim_event_delivery]. *)
Definition rpc_claim_event_delivery (id owner : string) (lease_secs : Z)
    (plugin_id resource_class : string) (max_in_flight : Z)
    : prog Db (result (option EventDeliveryRecord)) :=
  let* now := now_str in
  let? reply := txn (plan_claim_event_delivery_cas id owner (default 60 (i64_try_from lease_secs))
                       plugin_id resource_class max_in_flight now) in
  if text_eq reply.1 "empty" then Ret (Ok None) else
  match reply.2 with
  | None => Ret (Err (Other "database atomic operation ok without event delivery payload"))
  | Some row =>
      match decode_delivery row with
      | Some record => Ret (Ok (Some record))
      | None => Ret (Err (Other "database atomic event delivery payload"))
      end
  end.

(** The body of the host's claim loop. *)
Definition host_candidate (owner : string) (lease_secs : Z) (node_id : string) (max_in_flight : Z)
    (model : event_deliveries.Model) : prog Db (result (option EventDeliveryRecord)) :=
  let? blocked := fifo_blocked model in
  if blocked then Ret (Ok None) else
  let? eligible :=
    if str_is_empty (trim node_id) then Ret (Ok true)
    else delivery_model_matches_node_catalog node_id model in
  if negb eligible then Ret (Ok None) else
  rpc_claim_event_delivery (event_deliveries.id model) owner lease_secs
    (event_deliveries.plugin_id model) (event_deliveries.resource_class model) max_in_flight.

Definition claim_next_event_delivery_host_cas (owner : string) (lease_secs : Z)
    (plugin_ids : list string) (max_in_flight : Z) (node_id : string)
    : prog Db (result (option EventDeliveryRecord)) :=
  let* now := Utc_now in
  let now_s := to_rfc3339 now in
  let? _ := sanitize_unknown_event_resource_class_on now_s in
  let* fuel := query claim_fuel in
  claim_pages fuel now_s plugin_ids (host_candidate owner lease_secs node_id max_in_flight) None.

(** ** Publication *)

(** [plan_publish_domain_event]: conditional insert, status, id of the namespace's event. *)
Definition plan_publish_domain_event (spec : PublishDomainEventSpec) (now : string)
    : prog Db (result (string * option string)) :=
  let ns := same_namespace (pub_account_id spec) (pub_source spec) (pub_event_type spec)
              (pub_dedup_key spec) in
  let* taken := query (λ s, existsb ns (domain_events_t s)) in
  let? _ := if taken then Ret (Ok ()) else domain_events_insert (new_event_row spec now) in
  let* status := query (λ s,
    if existsb (λ e, text_eq (domain_events.id e) (pub_id spec)) (domain_events_t s) then "ok"
    else if existsb ns (domain_events_t s) then "duplicate" else "notFound") in
  let* rows := domain_events_select ns in
  Ret (Ok (status, domain_events.id <$> head rows)).

(** [RpcAtomicBackend::publish_domain_event]. *)
Definition rpc_publish_domain_event (spec : PublishDomainEventSpec)
    : prog Db (result PublishDomainEventOutcome) :=
  let? spec := prepare_publish_domain_event spec in
  let* now := now_str in
  let? reply := txn (plan_publish_domain_event spec now) in
  if text_eq reply.1 "ok" then
    match reply.2 with
    | Some id => Ret (Ok (EventCreated id))
    | None => Ret (Err (Other "publishDomainEvent ok without id"))
    end
  else if text_eq reply.1 "duplicate" then
    match reply.2 with
    | Some id => Ret (Ok (EventDuplicate id))
    | None => Ret (Err (Other "publishDomainEvent duplicate without id"))
    end
  else Ret (Err (Other ("publishDomainEvent failed: " +:+ reply.1))).

(** [LibraryStore::publish_domain_event] with a plugin. *)
Definition publish_domain_event_atomic (spec : PublishDomainEventSpec)
    : prog Db (result PublishDomainEventOutcome) :=
  let? spec := prepare_publish_domain_event spec in
  rpc_publish_domain_event spec.

(** ** Dispatch *)

Definition parse_dispatch_snapshot (event_id json : string) : result (list EventSubscriber) :=
  match from_str json with
  | Some ids => Ok (map EventSubscriber_plugin ids)
  | None => Err (Other ("domain event " +:+ event_id +:+ " has invalid dispatch_snapshot_json"))
  end.

(** The frozen list of subscribers, written on first use. *)
Definition load_or_init_dispatch_snapshot (event_id : string) (subscribers : list EventSubscriber)
    : prog Db (result (list EventSubscriber)) :=
  let missing := NotFound ("domain event " +:+ event_id) in
  let* row := domain_events_find_by_id event_id in
  match row with
  | None => Ret (Err missing)
  | Some row =>
  if negb (str_is_empty (trim (domain_events.dispatch_snapshot_json row)))
  then Ret (parse_dispatch_snapshot event_id (domain_events.dispatch_snapshot_json row))
  else
  let json := default "[]" (to_string (map sub_plugin_id subscribers)) in
  let* cas := domain_events_update
    (λ m, text_eq (domain_events.id m) event_id
          && text_eq (domain_events.dispatch_snapshot_json m) "")
    (λ m, m <| domain_events.dispatch_snapshot_json := json |>) in
  if (cas =? 0)%nat then
    let* row := domain_events_find_by_id event_id in
    match row with
    | None => Ret (Err missing)
    | Some row =>
        Ret (parse_dispatch_snapshot event_id (domain_events.dispatch_snapshot_json row))
    end
  else Ret (Ok subscribers)
  end.

(** The plugin of a subscriber the batch inserts a delivery for. *)
Definition plan_page_plugin (sub : EventSubscriber) : option string :=
  let plugin_id := trim (sub_plugin_id sub) in
  if str_is_empty plugin_id then None
  else if negb (text_eq (sub_resource_class sub) "network") then None
  else Some plugin_id.

(** [INSERT OR IGNORE … WHERE EXISTS (the event)]. *)
Definition plan_insert_delivery (event_id now plugin_id : string) : prog Db unit :=
  exec (λ s, ((),
    match List.find (λ e, text_eq (domain_events.id e) event_id) (domain_events_t s) with
    | None => s
    | Some e =>
        let row := new_delivery_row e event_id plugin_id now in
        if existsb (same_delivery row) (event_deliveries_t s) then s
        else s <| event_deliveries_t := event_deliveries_t s ++ [row] |>
    end)).

(** The statements that close a dispatch: counters, then the state of the event. *)
Definition plan_mark_dispatched (event_id now : string) : prog Db unit :=
  let* _ := exec (λ s, ((),
    if existsb (λ r, event_outbox_stats.id r =? EVENT_OUTBOX_STATS_ID) (event_outbox_stats_t s)
    then s
    else s <| event_outbox_stats_t := event_outbox_stats_t s
               ++ [event_outbox_stats.mk_Model EVENT_OUTBOX_STATS_ID 0 0 0 0 0 0 0] |>)) in
  let* _ := exec (λ s,
    let undispatched := existsb (λ e, text_eq (domain_events.id e) event_id
      && text_eq (domain_events.dispatch_state e) STATE_PENDING) (domain_events_t s) in
    let created_at := domain_events.created_at <$>
      List.find (λ e, text_eq (domain_events.id e) event_id) (domain_events_t s) in
    let r := update_rows
      (λ r, (event_outbox_stats.id r =? EVENT_OUTBOX_STATS_ID) && undispatched)
      (bumped_stats 0 0 0 (Z.max 0 (julian_ms now created_at)) 1 0 0)
      (event_outbox_stats_t s) in
    (r.1, s <| event_outbox_stats_t := r.2 |>)) in
  let* _ := domain_events_update
    (λ m, text_eq (domain_events.id m) event_id
          && text_eq (domain_events.dispatch_state m) STATE_PENDING)
    (λ m, m <| domain_events.dispatch_state := STATE_DISPATCHED |>) in
  Ret ().

(** [plan_dispatch_event_deliveries]; the subscribers travel as the JSON array of their fields. *)
Definition plan_dispatch_event_deliveries (event_id : string) (subscribers : list EventSubscriber)
    (mark_dispatched : bool) (now : string) : prog Db (result (string * Z)) :=
  let page_plugins := omap plan_page_plugin subscribers in
  let? _ := for_each page_plugins () (λ _ plugin_id,
    let* _ := plan_insert_delivery event_id now plugin_id in Ret (Ok ())) in
  let* _ := if mark_dispatched then plan_mark_dispatched event_id now else Ret () in
  let* present := query (λ s,
    existsb (λ e, text_eq (domain_events.id e) event_id) (domain_events_t s)) in
  let counted := match page_plugins with [] => [""] | _ => page_plugins end in
  let* created := event_deliveries_select
    (λ d, text_eq (event_deliveries.event_id d) event_id
          && text_eq (event_deliveries.created_at d) now
          && is_in (event_deliveries.plugin_id d) counted) in
  Ret (Ok (if present then "ok" else "notFound", Z.of_nat (length created))).

(** [RpcAtomicBackend::dispatch_event_deliveries]. *)
Definition rpc_dispatch_event_deliveries (event_id : string) (subscribers : list EventSubscriber)
    (mark_dispatched : bool) : prog Db (result Z) :=
  let* now := now_str in
  let? reply := txn (plan_dispatch_event_deliveries event_id subscribers mark_dispatched now) in
  if text_eq reply.1 "ok" then Ret (Ok reply.2)
  else Ret (Err (NotFound ("event " +:+ event_id))).

(** [LibraryStore::dispatch_chunk_size]. *)
Definition dispatch_chunk_size (max_statements max_binds : Z) : Z :=
  let by_stmts := Z.max (Z.max (max_statements - 12) 0) 1 in
  let by_binds := Z.max (max_binds - 16) 0 / 9 in
  Z.min by_stmts (Z.max by_binds 1).

(** The page loop; the last page marks the event dispatched. *)
Fixpoint dispatch_pages (event_id : string) (pages : list (list EventSubscriber)) (total : Z)
    : prog Db (result Z) :=
  match pages with
  | [] => Ret (Ok total)
  | page :: pages =>
      let last := match pages with [] => true | _ => false end in
      let? created := rpc_dispatch_event_deliveries event_id page last in
      dispatch_pages event_id pages (total + created)
  end.

(** [LibraryStore::dispatch_event_deliveries] with a plugin. *)
Definition dispatch_event_deliveries_atomic (chunk : Z) (event_id : string)
    (subscribers : list EventSubscriber) : prog Db (result Z) :=
  let? snapshot := load_or_init_dispatch_snapshot event_id subscribers in
  match snapshot with
  | [] => rpc_dispatch_event_deliveries event_id [] true
  | _ => dispatch_pages event_id (chunks (Z.to_nat (Z.max chunk 1)) snapshot) 0
  end.
End EventPlans.
