(* ===== verification/EventReads.v ===== *)
(** * Late joiners and operator reads

    [reconcile_catalog_deliveries] ([store/event_outbox.rs]) pages the dispatched events that lack
    a delivery for each live plugin and dispatches the ones its catalog matches.  It is written over
    the dispatch it calls: the local transaction, or the frozen pages behind a database plugin.
    Then the counters of the metrics endpoint and the listings of envelopes. *)

From stdpp Require Import base option list strings gmap pretty.
From Stdlib Require Import ZArith Lia.
From S2P Require Import Prelude Schema Store Concurrency JobModels EventModels EventOutbox EventPlans.

Local Open Scope Z_scope.

(** [RECONCILE_PAGE]. *)
Definition RECONCILE_PAGE : Z := 200.

(** [Vec::dedup]. *)
Fixpoint dedup (l : list string) : list string :=
  match l with
  | a :: (b :: _) as l' => if text_eq a b then dedup l' else a :: dedup l'
  | l => l
  end.

Definition event_key (m : domain_events.Model) : string * string :=
  (domain_events.created_at m, domain_events.id m).

Section Reconcile.
Context {C : Chrono} {U : Uuid} {Value : Type} {JV : SerdeValue Value}.
Context {JS : SerdeJson (list (EventCatalogSubscription Value))}.

(** ** The operation *)

(** The [WHERE] clause of the anti-join. *)
Definition missing_event (s : Db) (plugin_id : string) (event_types : list string)
    (created_after : string) (after : option (string * string)) (e : domain_events.Model) : bool :=
  text_eq (domain_events.dispatch_state e) STATE_DISPATCHED
  && text_lt created_after (domain_events.created_at e)
  && is_in (domain_events.event_type e) event_types
  && negb (existsb (λ d, text_eq (event_deliveries.event_id d) (domain_events.id e)
                         && text_eq (event_deliveries.plugin_id d) plugin_id)
             (event_deliveries_t s))
  && match after with Some key => keyset_gt (event_key e) key | None => true end.

(** [ids.into_iter().filter_map(|id| by_id.remove(&id))]. *)
Fixpoint remove_each (ids : list string) (by_id : gmap string domain_events.Model)
    : list domain_events.Model :=
  match ids with
  | [] => []
  | id :: ids =>
      match by_id !! id with
      | Some m => m :: remove_each ids (delete id by_id)
      | None => remove_each ids by_id
      end
  end.

Definition list_missing_dispatched_events_for_plugin (plugin_id : string) (event_types : list string)
    (created_after : string) (after : option (string * string)) (limit : Z)
    : prog Db (result (list DomainEventRecord)) :=
  if (length event_types =? 0)%nat || str_is_empty (trim plugin_id) then Ret (Ok []) else
  let* rows := query (λ s,
    take (Z.to_nat (default 200 (i64_try_from limit)))
      (order_by event_le (List.filter (missing_event s plugin_id event_types created_after after)
                            (domain_events_t s)))) in
  let ids := List.filter (λ id, negb (str_is_empty id)) (map domain_events.id rows) in
  if (length ids =? 0)%nat then Ret (Ok []) else
  let* models := domain_events_select (λ m, is_in (domain_events.id m) ids) in
  let by_id := fold_left (λ by_id m, <[domain_events.id m := m]> by_id) models ∅ in
  let* now := Utc_now in
  Ret (Ok (map (map_event now) (remove_each ids by_id))).

(** The types a catalog row subscribes to, sorted and deduplicated. *)
Definition catalog_types (row : EventSubscriberCatalogRecord Value) : list string :=
  dedup (order_by text_le (map cs_event_type (cr_subscriptions row))).

(** One page more than there are events. *)
Definition reconcile_fuel (s : Db) : nat := S (length (domain_events_t s)).

Section Loop.
Variable dispatch : string → list EventSubscriber → prog Db (result Z).

(** The body of the loop over a page. *)
Definition reconcile_event (row : EventSubscriberCatalogRecord Value) (total : Z)
    (event : DomainEventRecord) : prog Db (result Z) :=
  match List.find (λ sub, text_eq (sub_plugin_id sub) (cr_plugin_id row))
          (catalog_subscribers_for_event [row] event) with
  | None => Ret (Ok total)
  | Some sub => let? n := dispatch (ev_id event) [sub] in Ret (Ok (total + n))
  end.

(** The page loop of one catalog row. *)
Fixpoint reconcile_pages (fuel : nat) (row : EventSubscriberCatalogRecord Value) (types : list string)
    (cutoff : string) (after : option (string * string)) (total : Z) : prog Db (result Z) :=
  match fuel with
  | O => Ret (Ok total)
  | S fuel =>
      let? page := list_missing_dispatched_events_for_plugin (cr_plugin_id row) types cutoff after
                     RECONCILE_PAGE in
      match last page with
      | None => Ret (Ok total)
      | Some e =>
          let? total := for_each page total (reconcile_event row) in
          if Z.of_nat (length page) <? RECONCILE_PAGE then Ret (Ok total)
          else reconcile_pages fuel row types cutoff
                 (Some (to_rfc3339 (ev_created_at e), ev_id e)) total
      end
  end.

Definition reconcile_row (cutoff : string) (total : Z) (row : EventSubscriberCatalogRecord Value)
    : prog Db (result Z) :=
  if negb (cr_enabled row) then Ret (Ok total) else
  let types := catalog_types row in
  if (length types =? 0)%nat then Ret (Ok total) else
  let* fuel := query reconcile_fuel in
  reconcile_pages fuel row types cutoff None total.

Definition reconcile_with (created_after : Z) : prog Db (result Z) :=
  let? catalog := list_live_event_subscribers in
  for_each catalog 0 (reconcile_row (to_rfc3339 created_after)).
End Loop.

(** [reconcile_catalog_deliveries] on a local database. *)
Definition reconcile_catalog_deliveries : Z → prog Db (result Z) :=
  reconcile_with dispatch_event_deliveries.

(** The same behind a database plugin. *)
Definition reconcile_catalog_deliveries_atomic {JI : SerdeJson (list string)} {JD : JulianDay}
    (chunk : Z) : Z → prog Db (result Z) :=
  reconcile_with (dispatch_event_deliveries_atomic chunk).
End Reconcile.

(** ** Operator reads *)

Record EventDeliveryMetrics : Type := mk_EventDeliveryMetrics {
  dm_pending : Z;
  dm_running : Z;
  dm_suspended : Z;
  dm_dead_letter : Z;
  dm_acked : Z;
  dm_oldest_pending_age_secs : option Z;
  dm_retries_total : Z;
  dm_suspensions_total : Z;
  dm_dead_letters_total : Z;
  dm_dispatch_latency_ms_avg : option Z;
  dm_handler_latency_ms_avg : option Z;
}.

(** [Duration::num_seconds]. *)
Definition num_seconds (d : Z) : Z := Z.quot d 1000000000.

(** [ORDER BY created_at]. *)
Definition created_le (a b : event_deliveries.Model) : bool :=
  text_le (event_deliveries.created_at a) (event_deliveries.created_at b).

Definition is_suspended (m : event_deliveries.Model) : bool :=
  text_eq (event_deliveries.state m) STATE_PENDING
  && negb (is_null (event_deliveries.checkpoint_json m)).

Section Reads.
Context {C : Chrono} {U : Uuid}.

Definition event_delivery_metrics : prog Db (result EventDeliveryMetrics) :=
  let? pending_all := count_event_deliveries STATE_PENDING in
  let* rows := event_deliveries_select is_suspended in
  match i64_try_from (Z.of_nat (length rows)) with
  | None => Ret (Err (Other "out of range integral type conversion attempted"))
  | Some suspended =>
  let* pending := event_deliveries_select
    (λ m, text_eq (event_deliveries.state m) STATE_PENDING) in
  let* age := match head (order_by created_le pending) with
    | None => Ret None
    | Some row =>
        let* created := parse_dt_io (event_deliveries.created_at row) in
        let* now := Utc_now in
        Ret (Some (Z.max (num_seconds (now - created)) 0))
    end in
  let? stats := ensure_event_outbox_stats in
  let average sum count := if 0 <? count then Some (Z.quot sum count) else None in
  let? running := count_event_deliveries STATE_RUNNING in
  let? dead_letter := count_event_deliveries STATE_DEAD_LETTER in
  let? acked := count_event_deliveries STATE_ACKED in
  Ret (Ok {| dm_pending := Z.max (pending_all - suspended) 0;
             dm_running := running;
             dm_suspended := suspended;
             dm_dead_letter := dead_letter;
             dm_acked := acked;
             dm_oldest_pending_age_secs := age;
             dm_retries_total := event_outbox_stats.retries_total stats;
             dm_suspensions_total := event_outbox_stats.suspensions_total stats;
             dm_dead_letters_total := event_outbox_stats.dead_letters_total stats;
             dm_dispatch_latency_ms_avg :=
               average (event_outbox_stats.dispatch_latency_ms_sum stats)
                 (event_outbox_stats.dispatch_count stats);
             dm_handler_latency_ms_avg :=
               average (event_outbox_stats.handler_latency_ms_sum stats)
                 (event_outbox_stats.handler_count stats) |})
  end.

Definition list_domain_events_by_dispatch_state (dispatch_state : string) (limit : Z)
    : prog Db (result (list DomainEventRecord)) :=
  let* rows := domain_events_select (λ m, text_eq (domain_events.dispatch_state m) dispatch_state) in
  let* now := Utc_now in
  Ret (Ok (map (map_event now) (take (Z.to_nat limit) (order_by event_le rows)))).

Definition listed_event (created_after : string) (m : domain_events.Model) : bool :=
  text_eq (domain_events.dispatch_state m) STATE_DISPATCHED
  && text_lt created_after (domain_events.created_at m).

Definition list_dispatched_events_page (created_after : string) (after : option (string * string))
    (limit : Z) : prog Db (result (list DomainEventRecord)) :=
  let* rows := domain_events_select (λ m, listed_event created_after m
    && match after with Some key => keyset_gt (event_key m) key | None => true end) in
  let* now := Utc_now in
  Ret (Ok (map (map_event now) (take (Z.to_nat limit) (order_by event_le rows)))).
End Reads.
