(* ===== verification/EventInvariant.v ===== *)
(** * The outbox's invariant and history order

    [outbox_wf] is the well-formedness of the outbox tables, [outbox_evolves] the relation
    between the store now and the store at any later time while retention does not run.  Every
    operation of [EventOutbox] keeps the one and stays within the other at each access. *)

From stdpp Require Import base option list strings gmap.
From Stdlib Require Import ZArith Lia.
From S2P Require Import Prelude Schema Store Concurrency JobModels EventModels EventOutbox.

Local Open Scope Z_scope.

(** The configured number of deliveries a plugin may run at once. *)
Class InFlightCap := in_flight_cap : Z.

Definition delivery_pending (m : event_deliveries.Model) : Prop :=
  event_deliveries.state m = STATE_PENDING.
Definition delivery_running (m : event_deliveries.Model) : Prop :=
  event_deliveries.state m = STATE_RUNNING.
(** Acknowledged and rejected deliveries are over; a dead letter may be queued again. *)
Definition delivery_settled (m : event_deliveries.Model) : Prop :=
  event_deliveries.state m ∈ [STATE_ACKED; STATE_REJECTED].

Record delivery_ok (m : event_deliveries.Model) : Prop := {
  dok_attempt : 0 ≤ event_deliveries.attempt_count m;
  dok_generation : 0 ≤ event_deliveries.lease_generation m;
  dok_running : delivery_running m →
    is_Some (event_deliveries.lease_owner m) ∧ is_Some (event_deliveries.lease_expires_at m)
    ∧ 1 ≤ event_deliveries.attempt_count m ∧ 1 ≤ event_deliveries.lease_generation m
    ∧ event_deliveries.resource_class m = EVENT_RESOURCE_CLASS_NETWORK;
  dok_idle : ¬ delivery_running m →
    event_deliveries.lease_owner m = None ∧ event_deliveries.lease_expires_at m = None;
}.

(** The columns no operation changes. *)
Definition delivery_identity (m : event_deliveries.Model) :=
  (event_deliveries.id m, event_deliveries.event_id m, event_deliveries.plugin_id m,
   event_deliveries.idempotency_key m, event_deliveries.max_attempts m,
   event_deliveries.ordering_key m, event_deliveries.created_at m,
   event_deliveries.resource_class m).

Record delivery_grows (m m' : event_deliveries.Model) : Prop := {
  dg_identity : delivery_identity m' = delivery_identity m;
  dg_generation : event_deliveries.lease_generation m ≤ event_deliveries.lease_generation m';
  dg_running : event_deliveries.lease_generation m' = event_deliveries.lease_generation m →
    delivery_running m' →
    delivery_running m ∧ event_deliveries.lease_owner m' = event_deliveries.lease_owner m;
  dg_settled : delivery_settled m → m' = m;
}.

#[global] Instance delivery_grows_preorder : PreOrder delivery_grows.
Proof.
  split.
  - intros m. constructor; auto; lia.
  - intros a b c [Iab Gab Rab Sab] [Ibc Gbc Rbc Sbc]. constructor; [congruence|lia| |].
    + intros Hg Hr. destruct Rbc as [Hb Ho]; [lia|done|]. destruct Rab as [Ha Ho']; [lia|done|].
      split; congruence.
    + intros Hs. rewrite <-(Sab Hs). apply Sbc. by rewrite (Sab Hs).
Qed.

Section EventInvariant.
Context {C : Chrono} {U : Uuid} {Q : InFlightCap}.

(** The columns of an envelope no operation changes. *)
Definition event_identity (e : domain_events.Model) :=
  (domain_events.id e, domain_events.event_type e, domain_events.schema_version e,
   domain_events.account_id e, domain_events.source e, domain_events.dedup_key e,
   domain_events.payload e, domain_events.ordering_key e, domain_events.created_at e).

Record event_grows (e e' : domain_events.Model) : Prop := {
  eg_identity : event_identity e' = event_identity e;
  eg_dispatched : domain_events.dispatch_state e = STATE_DISPATCHED →
    domain_events.dispatch_state e' = STATE_DISPATCHED;
  eg_wake : domain_events.wake_pending e' = 1 → domain_events.wake_pending e = 1;
}.

#[global] Instance event_grows_preorder : PreOrder event_grows.
Proof.
  split; [by constructor|]. intros a b c [] []. constructor; [congruence|auto..].
Qed.

Record outbox_wf (s : Db) : Prop := {
  owf_event_ids : NoDup (map domain_events.id (domain_events_t s));
  owf_namespace : NoDup (map (λ e, (domain_events.account_id e, domain_events.source e,
                                    domain_events.event_type e, domain_events.dedup_key e))
                           (domain_events_t s));
  owf_ids : NoDup (map event_deliveries.id (event_deliveries_t s));
  owf_pairs : NoDup (map (λ d, (event_deliveries.event_id d, event_deliveries.plugin_id d))
                       (event_deliveries_t s));
  owf_rows : ∀ m, m ∈ event_deliveries_t s → delivery_ok m;
  owf_parent : ∀ m, m ∈ event_deliveries_t s →
    ∃ e, e ∈ domain_events_t s ∧ domain_events.id e = event_deliveries.event_id m;
  owf_cap : ∀ plugin, Z.of_nat (length (List.filter
      (in_flight plugin EVENT_RESOURCE_CLASS_NETWORK) (event_deliveries_t s))) ≤ in_flight_cap;
}.

(** Rows stay, and every row comes from a row with its id or is under a new id. *)
Record outbox_history (s s' : Db) : Prop := {
  oh_kept : ∀ m, m ∈ event_deliveries_t s → ∃ m', m' ∈ event_deliveries_t s' ∧ delivery_grows m m';
  oh_rows : ∀ m', m' ∈ event_deliveries_t s' →
    (∃ m, m ∈ event_deliveries_t s ∧ delivery_grows m m')
    ∨ ∀ m, m ∈ event_deliveries_t s → event_deliveries.id m ≠ event_deliveries.id m';
  oh_events_kept : ∀ e, e ∈ domain_events_t s →
    ∃ e', e' ∈ domain_events_t s' ∧ event_grows e e';
  oh_events : ∀ e', e' ∈ domain_events_t s' →
    (∃ e, e ∈ domain_events_t s ∧ event_grows e e')
    ∨ ∀ e, e ∈ domain_events_t s → domain_events.id e ≠ domain_events.id e';
}.

(** [retain]: retention does not run. *)
Definition outbox_evolves (retain : bool) (s s' : Db) : Prop :=
  (uuids_drawn s ≤ uuids_drawn s')%nat ∧ (retain = true → outbox_history s s').

Lemma outbox_history_refl s : outbox_history s s.
Proof.
  constructor; intros; [|left|..|left]; eexists; (split; [done|reflexivity]).
Qed.

Lemma outbox_history_trans a b c :
  outbox_history a b → outbox_history b c → outbox_history a c.
Proof.
  intros [K1 R1 E1 F1] [K2 R2 E2 F2]. constructor.
  - intros m Hm. destruct (K1 m Hm) as (m1 & Hm1 & G1). destruct (K2 m1 Hm1) as (m2 & Hm2 & G2).
    exists m2. split; [done|]. by transitivity m1.
  - intros m2 Hm2. destruct (R2 m2 Hm2) as [(m1 & Hm1 & G2)|Hn].
    + destruct (R1 m1 Hm1) as [(m & Hm & G1)|Hn].
      * left. exists m. split; [done|]. by transitivity m1.
      * right. intros m Hm. pose proof (dg_identity _ _ G2) as HI. injection HI as ->. auto.
    + right. intros m Hm. destruct (K1 m Hm) as (m1 & Hm1 & G1). specialize (Hn m1 Hm1).
      pose proof (dg_identity _ _ G1) as HI. injection HI. congruence.
  - intros e He. destruct (E1 e He) as (e1 & He1 & G1). destruct (E2 e1 He1) as (e2 & He2 & G2).
    exists e2. split; [done|]. by transitivity e1.
  - intros e2 He2. destruct (F2 e2 He2) as [(e1 & He1 & G2)|Hn].
    + destruct (F1 e1 He1) as [(e & He & G1)|Hn].
      * left. exists e. split; [done|]. by transitivity e1.
      * right. intros e He. pose proof (eg_identity _ _ G2) as HI. injection HI as ->. auto.
    + right. intros e He. destruct (E1 e He) as (e1 & He1 & G1). specialize (Hn e1 He1).
      pose proof (eg_identity _ _ G1) as HI. injection HI. congruence.
Qed.

#[global] Instance outbox_evolves_preorder retain : PreOrder (outbox_evolves retain).
Proof.
  split.
  - intros s. split; [done|]. intros _. apply outbox_history_refl.
  - intros a b c [D1 H1] [D2 H2]. split; [lia|]. intros Hr.
    eapply outbox_history_trans; auto.
Qed.

(** The row with an id, later. *)
Lemma outbox_row s s' m m' :
  outbox_wf s' → outbox_evolves true s s' → m ∈ event_deliveries_t s → m' ∈ event_deliveries_t s' →
  event_deliveries.id m' = event_deliveries.id m → delivery_grows m m'.
Proof.
  intros Hwf [_ Hev] Hm Hm' Hid. destruct (oh_kept _ _ (Hev eq_refl) m Hm) as (m1 & Hm1 & G).
  assert (m1 = m') as <-; [|done]. pose proof (dg_identity _ _ G) as HI. injection HI as ? _.
  eapply (NoDup_key event_deliveries.id); [apply owf_ids|..]; eauto. congruence.
Qed.

Lemma outbox_event s s' e e' :
  outbox_wf s' → outbox_evolves true s s' → e ∈ domain_events_t s → e' ∈ domain_events_t s' →
  domain_events.id e' = domain_events.id e → event_grows e e'.
Proof.
  intros Hwf [_ Hev] He He' Hid. destruct (oh_events_kept _ _ (Hev eq_refl) e He) as (e1 & He1 & G).
  assert (e1 = e') as <-; [|done]. pose proof (eg_identity _ _ G) as HI. injection HI as ? _.
  eapply (NoDup_key domain_events.id); [apply owf_event_ids|..]; eauto. congruence.
Qed.
End EventInvariant.
