(* ===== verification/EventSafety.v ===== *)
(** * Every outbox operation keeps the invariant under interference

    The effect of one statement on the invariant and the history, one lemma per row an operation
    writes, and one [safe_*] lemma per operation. *)

From stdpp Require Import base option list strings gmap pretty.
From Stdlib Require Import ZArith Lia.
From S2P Require Import Prelude Schema Store Concurrency JobModels EventModels EventOutbox EventInvariant.

Local Open Scope Z_scope.

(** An [UPDATE] after which no further row satisfies [q]. *)
Lemma where_update_le {A} (q p : A → bool) (f : A → A) l :
  (∀ x, x ∈ l → p x = true → q (f x) = true → q x = true) →
  (length (List.filter q (update_rows p f l).2) ≤ length (List.filter q l))%nat.
Proof.
  unfold update_rows. simpl. induction l as [|x l IH]; intros H; simpl; [lia|].
  assert (IH' := IH (λ y Hy, H y (list_elem_of_further _ _ _ Hy))).
  destruct (p x) eqn:Ep.
  - destruct (q (f x)) eqn:Ef; [rewrite (H x) by (try left; done); simpl; lia|].
    destruct (q x); simpl; lia.
  - destruct (q x); simpl; lia.
Qed.

Section Effects.
Context {C : Chrono} {U : Uuid} {Q : InFlightCap}.

(** Changes outside the envelopes and the deliveries. *)
Definition outbox_untouched (s s' : Db) : Prop :=
  domain_events_t s' = domain_events_t s ∧ event_deliveries_t s' = event_deliveries_t s
  ∧ (uuids_drawn s ≤ uuids_drawn s')%nat.

Lemma outbox_untouched_ok retain s s' :
  outbox_wf s → outbox_untouched s s' → outbox_evolves retain s s' ∧ outbox_wf s'.
Proof.
  intros Hwf (He & Hd & Hu). split.
  - split; [done|]. intros _. destruct (outbox_history_refl s).
    constructor; rewrite ?He, ?Hd; done.
  - constructor; rewrite ?He, ?Hd; apply Hwf.
Qed.

Lemma in_flight_true plugin cls m :
  in_flight plugin cls m = true ↔
  event_deliveries.plugin_id m = plugin ∧ delivery_running m
  ∧ event_deliveries.resource_class m = cls.
Proof. unfold in_flight. rewrite !andb_true_iff, !text_eq_true. unfold delivery_running. tauto. Qed.

(** An update of deliveries, the cap aside. *)
Lemma deliveries_update_gen retain p f s :
  outbox_wf s →
  (∀ m, m ∈ event_deliveries_t s → p m = true → delivery_ok m →
     delivery_grows m (f m) ∧ delivery_ok (f m)) →
  let s' := (s <| event_deliveries_t := (update_rows p f (event_deliveries_t s)).2 |>) in
  (∀ plugin, Z.of_nat (length (List.filter (in_flight plugin EVENT_RESOURCE_CLASS_NETWORK)
     (event_deliveries_t s'))) ≤ in_flight_cap) →
  outbox_evolves retain s s' ∧ outbox_wf s'.
Proof.
  intros Hwf Hf s' Hcap.
  assert (Hrow : ∀ y, y ∈ event_deliveries_t s → delivery_grows y (if p y then f y else y)
                                    ∧ delivery_ok (if p y then f y else y)).
  { intros y Hy. pose proof (owf_rows _ Hwf _ Hy).
    destruct (p y) eqn:E; [by apply Hf|split; [reflexivity|done]]. }
  assert (Hid : ∀ m, m ∈ event_deliveries_t s → p m = true →
    delivery_identity (f m) = delivery_identity m).
  { intros m Hm E. destruct (Hrow m Hm) as [G _]. rewrite E in G. apply G. }
  assert (Hk1 : map event_deliveries.id (update_rows p f (event_deliveries_t s)).2
                = map event_deliveries.id (event_deliveries_t s)).
  { apply update_key. intros m Hm E. specialize (Hid m Hm E). by injection Hid. }
  assert (Hk2 : map (λ d, (event_deliveries.event_id d, event_deliveries.plugin_id d))
                  (update_rows p f (event_deliveries_t s)).2
                = map (λ d, (event_deliveries.event_id d, event_deliveries.plugin_id d))
                    (event_deliveries_t s)).
  { apply update_key. intros m Hm E. specialize (Hid m Hm E). injection Hid. congruence. }
  pose proof (elem_of_update p f (event_deliveries_t s)) as Hmem. clear Hid.
  revert Hk1 Hk2 Hmem s' Hcap. generalize (update_rows p f (event_deliveries_t s)).2.
  intros t Hk1 Hk2 Hmem s' Hcap.
  split; [split; [done|intros _]|]; constructor; unfold s'; simpl; try apply Hwf; try done.
  - intros m Hm. exists (if p m then f m else m). split; [apply Hmem; eauto|by apply Hrow].
  - intros m' (y & Hy & ->)%Hmem. left. exists y. split; [done|by apply Hrow].
  - intros e He. by exists e.
  - intros e He. left. by exists e.
  - rewrite Hk1. apply Hwf.
  - rewrite Hk2. apply Hwf.
  - intros m (y & Hy & ->)%Hmem. by apply Hrow.
  - intros m (y & Hy & ->)%Hmem. destruct (owf_parent _ Hwf y Hy) as (e & He & Hei).
    exists e. split; [done|]. destruct (Hrow y Hy) as [G _]. pose proof (dg_identity _ _ G) as HI.
    injection HI. congruence.
Qed.

Lemma deliveries_update_ok retain p f s :
  outbox_wf s →
  (∀ m, m ∈ event_deliveries_t s → p m = true → delivery_ok m →
     delivery_grows m (f m) ∧ delivery_ok (f m) ∧ (delivery_running (f m) → delivery_running m)) →
  let s' := (s <| event_deliveries_t := (update_rows p f (event_deliveries_t s)).2 |>) in
  outbox_evolves retain s s' ∧ outbox_wf s'.
Proof.
  intros Hwf Hf s'. apply deliveries_update_gen; [done|naive_solver|].
  intros plugin. etrans; [|apply (owf_cap _ Hwf plugin)]. simpl. apply Nat2Z.inj_le, where_update_le.
  intros m Hm Hp. rewrite !in_flight_true.
  destruct (Hf m Hm Hp (owf_rows _ Hwf _ Hm)) as (G & _ & Hr). pose proof (dg_identity _ _ G) as HI.
  injection HI. intros. destruct_and?. split_and!; [congruence|auto|congruence].
Qed.

Lemma events_update_ok retain p f s :
  outbox_wf s → (∀ e, p e = true → event_grows e (f e)) →
  let s' := (s <| domain_events_t := (update_rows p f (domain_events_t s)).2 |>) in
  outbox_evolves retain s s' ∧ outbox_wf s'.
Proof.
  intros Hwf Hf s'.
  assert (Hrow : ∀ y, event_grows y (if p y then f y else y)).
  { intros y. destruct (p y) eqn:E; [by apply Hf|reflexivity]. }
  assert (Hid : ∀ e, e ∈ domain_events_t s → p e = true → event_identity (f e) = event_identity e).
  { intros e _ E. by apply Hf. }
  assert (Hk1 : map domain_events.id (update_rows p f (domain_events_t s)).2
                = map domain_events.id (domain_events_t s)).
  { apply update_key. intros m Hm E. specialize (Hid m Hm E). by injection Hid. }
  set (ns := λ e, (domain_events.account_id e, domain_events.source e,
                   domain_events.event_type e, domain_events.dedup_key e)).
  assert (Hk2 : map ns (update_rows p f (domain_events_t s)).2 = map ns (domain_events_t s)).
  { apply update_key. intros m Hm E. specialize (Hid m Hm E). unfold ns. injection Hid. congruence. }
  pose proof (elem_of_update p f (domain_events_t s)) as Hmem. clear Hid.
  revert Hk1 Hk2 Hmem s'. generalize (update_rows p f (domain_events_t s)).2.
  intros t Hk1 Hk2 Hmem s'.
  split; [split; [done|intros _]|]; constructor; unfold s'; simpl; try apply Hwf; try done.
  - intros m Hm. by exists m.
  - intros m Hm. left. by exists m.
  - intros e He. exists (if p e then f e else e). split; [apply Hmem; eauto|apply Hrow].
  - intros e' (y & Hy & ->)%Hmem. left. exists y. split; [done|apply Hrow].
  - rewrite Hk1. apply Hwf.
  - fold ns. rewrite Hk2. apply (owf_namespace _ Hwf).
  - intros m Hm. destruct (owf_parent _ Hwf m Hm) as (e & He & Hei).
    exists (if p e then f e else e). split; [apply Hmem; eauto|].
    pose proof (eg_identity _ _ (Hrow e)) as HI. injection HI. congruence.
Qed.

Lemma NoDup_snoc {A K} (key : A → K) l x :
  NoDup (map key l) → (∀ y, y ∈ l → key y ≠ key x) → NoDup (map key (l ++ [x])).
Proof.
  intros Hnd Hx. rewrite map_app. apply NoDup_app. split_and!; [done| |apply NoDup_singleton].
  intros k (y & -> & Hy)%list_elem_of_fmap Hk%list_elem_of_singleton. by apply (Hx y).
Qed.

(** A new envelope under a fresh id and namespace. *)
Lemma events_append_ok retain e s :
  outbox_wf s →
  (∀ y, y ∈ domain_events_t s → domain_events.id y ≠ domain_events.id e
     ∧ (domain_events.account_id y, domain_events.source y, domain_events.event_type y,
        domain_events.dedup_key y)
       ≠ (domain_events.account_id e, domain_events.source e, domain_events.event_type e,
          domain_events.dedup_key e)) →
  let s' := (s <| domain_events_t := domain_events_t s ++ [e] |>) in
  outbox_evolves retain s s' ∧ outbox_wf s'.
Proof.
  intros Hwf Hx s'.
  split; [split; [done|intros _]|]; constructor; unfold s'; simpl; try apply Hwf; try done.
  - intros m Hm. by exists m.
  - intros m Hm. left. by exists m.
  - intros y Hy. exists y. split; [set_solver|done].
  - intros y [Hy| ->%list_elem_of_singleton]%elem_of_app; [left; by exists y|].
    right. intros z Hz. by apply Hx.
  - apply NoDup_snoc; [apply Hwf|]. intros y Hy. by apply Hx.
  - apply NoDup_snoc; [apply (owf_namespace _ Hwf)|]. intros y Hy. by apply Hx.
  - intros m Hm. destruct (owf_parent _ Hwf m Hm) as (y & Hy & ?). exists y. set_solver.
Qed.

(** A new idle delivery of a known event under a fresh id and pair. *)
Lemma deliveries_append_ok retain d s :
  outbox_wf s → delivery_ok d → ¬ delivery_running d →
  existsb (same_delivery d) (event_deliveries_t s) = false →
  (∃ e, e ∈ domain_events_t s ∧ domain_events.id e = event_deliveries.event_id d) →
  let s' := (s <| event_deliveries_t := event_deliveries_t s ++ [d] |>) in
  outbox_evolves retain s s' ∧ outbox_wf s'.
Proof.
  intros Hwf Hok Hidle Hnew Hpar s'. rewrite existsb_false in Hnew.
  assert (Hid : ∀ y, y ∈ event_deliveries_t s → event_deliveries.id y ≠ event_deliveries.id d
    ∧ (event_deliveries.event_id y, event_deliveries.plugin_id y)
      ≠ (event_deliveries.event_id d, event_deliveries.plugin_id d)).
  { intros y Hy. specialize (Hnew y Hy). unfold same_delivery in Hnew.
    apply orb_false_iff in Hnew as [[H1 _]%orb_false_iff H2]. apply text_eq_false in H1.
    split; [done|]. intros [= E1 E2]. by rewrite E1, E2, !text_eq_refl in H2. }
  split; [split; [done|intros _]|]; constructor; unfold s'; simpl; try apply Hwf; try done.
  - intros m Hm. exists m. split; [set_solver|done].
  - intros y [Hy| ->%list_elem_of_singleton]%elem_of_app; [left; by exists y|].
    right. intros z Hz. by apply Hid.
  - intros e He. by exists e.
  - intros e He. left. by exists e.
  - apply NoDup_snoc; [apply Hwf|]. intros y Hy. by apply Hid.
  - apply NoDup_snoc; [apply (owf_pairs _ Hwf)|]. intros y Hy. by apply Hid.
  - intros y [Hy| ->%list_elem_of_singleton]%elem_of_app; [by apply Hwf|done].
  - intros y [Hy| ->%list_elem_of_singleton]%elem_of_app; [by apply Hwf|done].
  - intros plugin. rewrite List.filter_app. cbn [List.filter].
    replace (in_flight plugin _ d) with false; [rewrite app_nil_r; apply Hwf|].
    symmetry. apply not_true_iff_false. rewrite in_flight_true. tauto.
Qed.
End Effects.

(** ** The rows the operations write *)

Definition delivery_step (m m' : event_deliveries.Model) : Prop :=
  delivery_grows m m' ∧ delivery_ok m' ∧ (delivery_running m' → delivery_running m).

Lemma unsettled m :
  delivery_settled m → event_deliveries.state m ≠ STATE_PENDING
    ∧ event_deliveries.state m ≠ STATE_RUNNING ∧ event_deliveries.state m ≠ STATE_DEAD_LETTER.
Proof. unfold delivery_settled. set_unfold. intros [-> | [->|[]]]; done. Qed.

(** An unsettled row that is not running afterwards, its lease cleared. *)
Lemma delivery_idles m m' :
  delivery_ok m → ¬ delivery_settled m → delivery_identity m' = delivery_identity m →
  event_deliveries.lease_generation m' = event_deliveries.lease_generation m →
  ¬ delivery_running m' → 0 ≤ event_deliveries.attempt_count m' →
  event_deliveries.lease_owner m' = None → event_deliveries.lease_expires_at m' = None →
  delivery_step m m'.
Proof.
  intros [] Hs Hid Hg Hr Ha Ho He. split_and!; [|constructor|]; try done; try by rewrite Hg.
  constructor; [done|lia|done|done].
Qed.

(** A running row that stays running under its owner. *)
Lemma delivery_keeps m m' :
  delivery_ok m → delivery_running m → delivery_identity m' = delivery_identity m →
  event_deliveries.lease_generation m' = event_deliveries.lease_generation m →
  event_deliveries.attempt_count m' = event_deliveries.attempt_count m →
  event_deliveries.lease_owner m' = event_deliveries.lease_owner m →
  delivery_running m' → is_Some (event_deliveries.lease_expires_at m') → delivery_step m m'.
Proof.
  intros Hok Hr Hid Hg Ha Ho Hr' He. destruct (dok_running _ Hok Hr) as (? & ? & ? & ? & Hc).
  split_and!; [|constructor|done]; rewrite ?Ha, ?Hg, ?Ho; try done; try apply Hok.
  - constructor; [done|lia|done|]. intros Hs%unsettled. naive_solver.
  - intros _. split_and!; try done. injection Hid. congruence.
Qed.

Lemma pending_unsettled m : delivery_pending m → ¬ delivery_settled m ∧ ¬ delivery_running m.
Proof. intros H. split; [intros Hs%unsettled; naive_solver|]. unfold delivery_running. by rewrite H. Qed.
Lemma running_unsettled m : delivery_running m → ¬ delivery_settled m.
Proof. intros H Hs%unsettled. naive_solver. Qed.
Lemma dead_letter_unsettled m : event_deliveries.state m = STATE_DEAD_LETTER →
  ¬ delivery_settled m ∧ ¬ delivery_running m.
Proof. intros H. split; [intros Hs%unsettled; naive_solver|]. unfold delivery_running. by rewrite H. Qed.

#[export] Hint Resolve running_unsettled : store.

(** Close a row lemma: the columns left are computed. *)
Ltac delivery_auto :=
  first [ apply delivery_idles | apply delivery_keeps ]; simpl; auto with store;
  try done; try lia; try (by apply dok_attempt).

Section Rows.
Context {C : Chrono} {U : Uuid} {Q : InFlightCap}.

Lemma delivery_fence_running f m : delivery_fence_matches f m = true → delivery_running m.
Proof. unfold delivery_fence_matches. intros. where_clauses. done. Qed.

Lemma pending_id_pending id m : pending_with_id id m = true → delivery_pending m.
Proof. unfold pending_with_id. intros. where_clauses. done. Qed.

Lemma released_row_ok b now m :
  delivery_running m → delivery_ok m → delivery_step m (released_row b now m).
Proof.
  intros Hr Hok. pose proof (dok_attempt _ Hok). unfold released_row.
  destruct b; delivery_auto. destruct (0 <? _) eqn:E; where_clauses; lia.
Qed.

Lemma heartbeat_delivery_ok e u m :
  delivery_running m → delivery_ok m →
  delivery_step m (m <| event_deliveries.lease_expires_at := Some e |>
                     <| event_deliveries.updated_at := u |>).
Proof. intros Hr Hok. apply delivery_keeps; simpl; auto with store. Qed.

Lemma flag_delivery_ok u m :
  delivery_running m → delivery_ok m →
  delivery_step m (m <| event_deliveries.cancel_requested := 1 |>
                     <| event_deliveries.updated_at := u |>).
Proof. intros Hr Hok. apply delivery_keeps; simpl; auto with store. by apply dok_running. Qed.

Lemma finalized_row_ok st o e now m :
  st ≠ STATE_RUNNING → delivery_running m → delivery_ok m →
  delivery_step m (finalized_row st o e now m).
Proof. intros Hst Hr Hok. delivery_auto. Qed.

Lemma retried_row_ok r e now m :
  delivery_running m → delivery_ok m → delivery_step m (retried_row r e now m).
Proof. intros Hr Hok. delivery_auto. Qed.

Lemma suspended_delivery_row_ok r c v q wt wf wg now m :
  delivery_running m → delivery_ok m →
  delivery_step m (suspended_delivery_row r c v q wt wf wg now m).
Proof. intros Hr Hok. delivery_auto. Qed.

Lemma operator_cancelled_row_ok now m :
  delivery_running m → delivery_ok m → delivery_step m (operator_cancelled_row now m).
Proof. intros Hr Hok. delivery_auto. Qed.

Lemma reclaimed_delivery_row_ok now m :
  delivery_running m → delivery_ok m → delivery_step m (reclaimed_delivery_row now m).
Proof. intros Hr Hok. delivery_auto. Qed.

(** Rows that were not running stay so with their leases clear. *)
Lemma idle_row_ok m m' :
  delivery_ok m → ¬ delivery_settled m → ¬ delivery_running m →
  delivery_identity m' = delivery_identity m →
  event_deliveries.lease_generation m' = event_deliveries.lease_generation m →
  event_deliveries.lease_owner m' = event_deliveries.lease_owner m →
  event_deliveries.lease_expires_at m' = event_deliveries.lease_expires_at m →
  0 ≤ event_deliveries.attempt_count m' → ¬ delivery_running m' → delivery_step m m'.
Proof.
  intros Hok Hs Hr Hid Hg Ho He Ha Hr'. destruct (dok_idle _ Hok Hr).
  apply delivery_idles; auto; congruence.
Qed.

Lemma pending_row_ok m m' :
  delivery_ok m → delivery_pending m →
  delivery_identity m' = delivery_identity m →
  event_deliveries.lease_generation m' = event_deliveries.lease_generation m →
  event_deliveries.lease_owner m' = event_deliveries.lease_owner m →
  event_deliveries.lease_expires_at m' = event_deliveries.lease_expires_at m →
  event_deliveries.attempt_count m' = event_deliveries.attempt_count m →
  ¬ delivery_running m' → delivery_step m m'.
Proof.
  intros Hok Hp. destruct (pending_unsettled m Hp). intros. apply idle_row_ok; auto.
  pose proof (dok_attempt _ Hok). lia.
Qed.

Lemma requeued_row_ok now m :
  event_deliveries.state m = STATE_DEAD_LETTER → delivery_ok m → delivery_step m (requeued_row now m).
Proof. intros Hs Hok. destruct (dead_letter_unsettled m Hs). apply idle_row_ok; simpl; auto; done. Qed.

Lemma claimed_delivery_row_ok m o e u :
  delivery_pending m → delivery_ok m →
  event_deliveries.resource_class m = EVENT_RESOURCE_CLASS_NETWORK →
  delivery_grows m (claimed_delivery_row m o e u m) ∧ delivery_ok (claimed_delivery_row m o e u m).
Proof.
  intros Hp Hok Hc. destruct (pending_unsettled m Hp) as [Hs Hr].
  pose proof (dok_attempt _ Hok). pose proof (dok_generation _ Hok).
  assert (1 ≤ delivery_attempt m) by (unfold delivery_attempt; destruct (delivery_resuming m); lia).
  unfold claimed_delivery_row. destruct (delivery_resuming m);
    (split; [constructor|constructor]); simpl; try done; try lia; intros; split_and!; auto with store; lia.
Qed.
End Rows.

(** ** The operations *)

Section Safe.
Context {C : Chrono} {U : Uuid} {Q : InFlightCap} (retain : bool).
Context {Value : Type} {JV : SerdeValue Value}.
Context {JS : SerdeJson (list (EventCatalogSubscription Value))}.
Context {JG : SerdeJson (list (EventWakeGrant Value))}.

Local Abbreviation osafe := (safe (outbox_evolves retain) outbox_wf).

Lemma safe_deliveries_update p f :
  (∀ m, p m = true → delivery_ok m → delivery_step m (f m)) → osafe (event_deliveries_update p f).
Proof.
  intros Hf. apply safe_exec. intros s Hwf. apply deliveries_update_ok; [done|].
  intros m _. apply Hf.
Qed.

Lemma safe_events_update p f :
  (∀ e, p e = true → event_grows e (f e)) → osafe (domain_events_update p f).
Proof. intros Hf. apply safe_exec. intros s Hwf. by apply events_update_ok. Qed.

Lemma safe_untouched {X} (f : Db → X * Db) :
  (∀ s, outbox_untouched s (f s).2) → osafe (exec f).
Proof. intros Hf. apply safe_exec. intros s Hwf. by apply outbox_untouched_ok. Qed.

Lemma safe_draw_uuid_outbox : osafe draw_uuid.
Proof. apply safe_untouched. intros s. split_and!; [done..|simpl; lia]. Qed.

Lemma safe_lock_outbox key : osafe (lock_serialization_slot key).
Proof.
  unfold lock_serialization_slot. repeat safe_step; apply safe_untouched; intros s;
    [|by split_and!]. simpl. by destruct (_ !! _).
Qed.

Lemma safe_parse_dt_io v : osafe (parse_dt_io v).
Proof. unfold parse_dt_io. destruct (parse_from_rfc3339 v); [apply safe_ret|apply safe_query, _]. Qed.

Lemma safe_ensure_stats : osafe ensure_event_outbox_stats.
Proof.
  unfold ensure_event_outbox_stats, event_outbox_stats_find. repeat safe_step.
  apply safe_untouched. intros s. simpl. by destruct (existsb _ _).
Qed.

Lemma safe_bump_stats a b c d e : osafe (bump_event_stats a b c d e).
Proof.
  unfold bump_event_stats. apply safe_try_bind; [apply safe_ensure_stats|intros _]. repeat safe_step.
  apply safe_untouched. by intros s.
Qed.
End Safe.

#[export] Hint Resolve safe_draw_uuid_outbox safe_lock_outbox safe_parse_dt_io safe_ensure_stats
  safe_bump_stats : safe.

(** One step of a structural proof over the outbox's statements. *)
Ltac outbox_step :=
  first
  [ safe_step
  | match goal with
    | |- safe _ _ Utc_now => apply safe_query, _
    | |- safe _ _ now_str => unfold now_str
    | |- safe _ _ (event_deliveries_find_by_id _) => apply safe_query, _
    | |- safe _ _ (event_deliveries_select _) => apply safe_query, _
    | |- safe _ _ (domain_events_find_by_id _) => apply safe_query, _
    | |- safe _ _ (domain_events_select _) => apply safe_query, _
    | |- safe _ _ (event_deliveries_update _ _) => apply safe_deliveries_update; intros ? ? ?
    | |- safe _ _ (domain_events_update _ _) => apply safe_events_update; intros ? ?
    | |- safe _ _ (txn _) => apply safe_txn_of; [apply _|]
    end ].

Section Operations.
Context {C : Chrono} {U : Uuid} {Q : InFlightCap} (retain : bool).
Context {Value : Type} {JV : SerdeValue Value}.
Context {JS : SerdeJson (list (EventCatalogSubscription Value))}.
Context {JG : SerdeJson (list (EventWakeGrant Value))}.

Local Abbreviation osafe := (safe (outbox_evolves retain) outbox_wf).

Lemma safe_prepare spec : osafe (prepare_publish_domain_event spec).
Proof. unfold prepare_publish_domain_event. by repeat outbox_step. Qed.

Lemma safe_domain_events_insert m : osafe (domain_events_insert m).
Proof.
  apply safe_exec. intros s Hwf. destruct (existsb _ _) eqn:E; simpl; [done|].
  apply events_append_ok; [done|]. intros y Hy. rewrite existsb_false in E.
  specialize (E y Hy). apply orb_false_iff in E as [E1%text_eq_false E2]. split; [done|].
  intros [= Ea Es Et Ed]. unfold same_namespace in E2.
  by rewrite Ea, Es, Et, Ed, !text_eq_refl in E2.
Qed.

Lemma safe_publish spec : osafe (publish_domain_event spec).
Proof.
  unfold publish_domain_event, publish_domain_event_on, find_published.
  pose proof safe_prepare. pose proof safe_domain_events_insert. by repeat outbox_step.
Qed.

Lemma new_delivery_ok event id plugin now :
  delivery_ok (new_delivery_row event id plugin now)
  ∧ ¬ delivery_running (new_delivery_row event id plugin now).
Proof. split; [|done]. constructor; simpl; done || lia. Qed.

Lemma safe_deliveries_insert m : delivery_ok m → ¬ delivery_running m →
  osafe (event_deliveries_insert m).
Proof.
  intros Hok Hr. apply safe_exec. intros s Hwf. destruct (existsb (same_delivery m) _) eqn:E; [done|].
  destruct (existsb _ (domain_events_t s)) eqn:Ep; simpl; [|done].
  apply deliveries_append_ok; try done. apply existsb_exists in Ep as (e & He & Hi%text_eq_true).
  exists e. by rewrite list_elem_of_In.
Qed.

Lemma safe_dispatch id subs : osafe (dispatch_event_deliveries id subs).
Proof.
  unfold dispatch_event_deliveries, dispatch_event_deliveries_on. repeat outbox_step.
  - unfold dispatch_one. repeat outbox_step. apply safe_deliveries_insert; apply new_delivery_ok.
  - where_clauses. by constructor.
Qed.

Lemma safe_release f b : osafe (release_unexecuted_event_delivery f b).
Proof. unfold release_unexecuted_event_delivery. repeat outbox_step.
  apply released_row_ok; eauto using delivery_fence_running. Qed.

Lemma safe_heartbeat f n : osafe (heartbeat_event_delivery f n).
Proof. unfold heartbeat_event_delivery. repeat outbox_step.
  apply heartbeat_delivery_ok; eauto using delivery_fence_running. Qed.

Lemma safe_finalize f st o e : st ≠ STATE_RUNNING → osafe (finalize_delivery f st o e).
Proof. intros. unfold finalize_delivery. repeat outbox_step.
  apply finalized_row_ok; eauto using delivery_fence_running. Qed.

Lemma safe_dead_letter f r : osafe (dead_letter_event_delivery f r).
Proof. unfold dead_letter_event_delivery. repeat outbox_step. by apply safe_finalize. Qed.

Lemma safe_retry f t r : osafe (retry_event_delivery f t r).
Proof.
  unfold retry_event_delivery. pose proof safe_dead_letter. repeat outbox_step.
  apply retried_row_ok; eauto using delivery_fence_running.
Qed.

Lemma safe_suspend f c v w wt wf wg : osafe (suspend_event_delivery f c v w wt wf wg).
Proof.
  unfold suspend_event_delivery. repeat outbox_step.
  apply suspended_delivery_row_ok; eauto using delivery_fence_running.
Qed.

Lemma safe_fail f r : osafe (fail_event_delivery f r).
Proof. unfold fail_event_delivery. pose proof safe_dead_letter. pose proof safe_retry. by repeat outbox_step. Qed.

Lemma safe_reclaim : osafe reclaim_expired_event_deliveries.
Proof.
  unfold reclaim_expired_event_deliveries. repeat outbox_step.
  - unfold expired_cancelled in *. where_clauses. by apply operator_cancelled_row_ok.
  - unfold expired_running in *. where_clauses. by apply reclaimed_delivery_row_ok.
Qed.

Lemma dead_letter_id id m : dead_letter_with_id id m = true →
  event_deliveries.state m = STATE_DEAD_LETTER.
Proof. unfold dead_letter_with_id. intros. by where_clauses. Qed.

Lemma safe_retry_dead_letter id : osafe (retry_dead_letter_delivery id).
Proof. unfold retry_dead_letter_delivery. repeat outbox_step.
  apply requeued_row_ok; eauto using dead_letter_id. Qed.

Lemma safe_acknowledge id : osafe (acknowledge_dead_letter_delivery id).
Proof.
  unfold acknowledge_dead_letter_delivery. repeat outbox_step.
  destruct (dead_letter_unsettled m) as [Hs Hr]; [by eapply dead_letter_id|].
  apply idle_row_ok; simpl; auto; [by apply dok_attempt|done].
Qed.

Lemma safe_cancel id : osafe (request_event_delivery_cancel id).
Proof.
  unfold request_event_delivery_cancel, delivery_cancel_round, get_event_delivery.
  repeat outbox_step.
  - apply pending_row_ok; eauto using pending_id_pending; done.
  - where_clauses. by apply flag_delivery_ok.
Qed.

Lemma safe_resume id : osafe (resume_event_delivery id).
Proof.
  unfold resume_event_delivery. repeat outbox_step. where_clauses.
  assert (delivery_pending m) as Hp by eauto using pending_id_pending.
  apply pending_row_ok; simpl; auto. unfold delivery_running. simpl. by rewrite Hp.
Qed.

Lemma safe_upsert n p subs b t : osafe (upsert_event_subscriber_at n p subs b t).
Proof.
  unfold upsert_event_subscriber_at. repeat outbox_step. apply safe_untouched. intros s. simpl.
  by destruct (existsb _ _).
Qed.

Lemma safe_dispatch_catalog ev : osafe (dispatch_catalog_matches ev).
Proof.
  unfold dispatch_catalog_matches, list_live_event_subscribers, list_live_event_subscribers_with_ttl,
    list_live_event_subscriber_nodes. pose proof safe_dispatch. by repeat outbox_step.
Qed.

Lemma wake_grows id owner e e' :
  wake_fenced id owner e = true → event_identity e' = event_identity e →
  domain_events.dispatch_state e' = domain_events.dispatch_state e → event_grows e e'.
Proof. unfold wake_fenced. intros ? Hi Hd. where_clauses. constructor; [done|by rewrite Hd|done]. Qed.

Lemma safe_wake_update id owner now ids : osafe (wake_fenced_update id owner now ids).
Proof.
  apply safe_exec. intros s Hwf. apply deliveries_update_ok; [done|]. intros m _ Hp Hok. where_clauses.
  assert (delivery_pending m) as Hpend by done.
  apply pending_row_ok; try done. by apply (pending_unsettled m).
Qed.

Lemma safe_wake_page row owner page binds : osafe (wake_one_page_on row owner page binds).
Proof.
  unfold wake_one_page_on, finish_wake_on, release_wake_cursor_on, wake_deliveries_fenced_on,
    load_accounts. pose proof safe_wake_update.
  repeat outbox_step; by eapply wake_grows.
Qed.

Lemma safe_process_wakes limit lease binds : osafe (process_pending_wakes limit lease binds).
Proof.
  unfold process_pending_wakes, wake_candidate, wake_one_claimed_page. pose proof safe_wake_page.
  repeat outbox_step. where_clauses. by constructor.
Qed.
End Operations.

(** ** Retention *)

Section Retention.
Context {C : Chrono} {U : Uuid} {Q : InFlightCap}.

Lemma NoDup_where {A K} (key : A → K) p l : NoDup (map key l) → NoDup (map key (List.filter p l)).
Proof. intros H. eapply sublist_NoDup; [exact H|]. apply (fmap_sublist _), sublist_where. Qed.

Lemma where_where_le {A} (q p : A → bool) l :
  (length (List.filter q (List.filter p l)) ≤ length (List.filter q l))%nat.
Proof. induction l as [|x l IH]; simpl; [lia|]. destruct (p x), (q x) eqn:E; simpl; rewrite ?E; simpl; lia. Qed.

(** Envelopes and deliveries may go as long as no delivery loses its envelope. *)
Lemma outbox_delete_ok p q s :
  outbox_wf s →
  (∀ m e, m ∈ event_deliveries_t s → p m = true → e ∈ domain_events_t s →
     domain_events.id e = event_deliveries.event_id m → q e = true) →
  let s' := (s <| domain_events_t := List.filter q (domain_events_t s) |>
               <| event_deliveries_t := List.filter p (event_deliveries_t s) |>) in
  outbox_evolves false s s' ∧ outbox_wf s'.
Proof.
  intros Hwf Hq s'. split; [split; [done|discriminate]|]. constructor; unfold s'; simpl.
  - apply NoDup_where, Hwf.
  - apply NoDup_where, Hwf.
  - apply NoDup_where, Hwf.
  - apply NoDup_where, Hwf.
  - intros m [Hm _]%elem_of_where. by apply Hwf.
  - intros m [Hm Hp]%elem_of_where. destruct (owf_parent _ Hwf m Hm) as (e & He & Hei).
    exists e. split; [|done]. apply elem_of_where. split; [done|]. by eapply Hq.
  - intros plugin. etrans; [|apply (owf_cap _ Hwf plugin)]. apply Nat2Z.inj_le, where_where_le.
Qed.

Lemma safe_deliveries_delete p : safe (outbox_evolves false) outbox_wf (event_deliveries_delete p).
Proof.
  apply safe_exec. intros s Hwf.
  pose proof (outbox_delete_ok (λ m, negb (p m)) (λ _, true) s Hwf (λ _ _ _ _ _ _, eq_refl)) as H.
  cbv zeta in H. rewrite where_all in H. by destruct s.
Qed.

Lemma safe_settled_delete p :
  safe (outbox_evolves false) outbox_wf (domain_events_delete_settled p).
Proof.
  apply safe_exec. intros s Hwf. unfold delete_rows. cbn [snd].
  apply outbox_delete_ok; [done|]. intros m e Hm Hn He Hei. where_clauses.
  apply negb_true_iff, not_true_iff_false. intros Hs. apply not_true_iff_false in Hn. apply Hn, is_in_true.
  rewrite <-Hei. apply list_elem_of_fmap_2, elem_of_where. done.
Qed.

Lemma safe_prune a b : safe (outbox_evolves false) outbox_wf (prune_event_deliveries a b).
Proof.
  unfold prune_event_deliveries. pose proof safe_deliveries_delete. pose proof safe_settled_delete.
  repeat outbox_step. apply safe_untouched. by intros s.
Qed.
End Retention.
