(* ===== verification/EventClaim.v ===== *)
(** * The claim of a delivery

    The paged claim loop against one scan of the due deliveries: [run_claim] says what the
    transaction returns and leaves behind, with enough fuel in every store. *)

From stdpp Require Import base option list strings gmap pretty sorting.
From Stdlib Require Import ZArith Lia Sorted.
From S2P Require Import Prelude Schema Store Concurrency JobModels EventModels EventOutbox EventInvariant EventSafety.

Local Open Scope Z_scope.

(** ** The keyset *)

Lemma keyset_le_total a b : keyset_le a b = true ∨ keyset_le b a = true.
Proof.
  unfold keyset_le. destruct (decide (a.1 = b.1)) as [->|Hne].
  - rewrite !text_eq_refl. simpl. destruct (text_le_total a.2 b.2) as [->| ->]; rewrite orb_true_r; auto.
  - destruct (text_lt a.1 b.1) eqn:E; [by left|]. right. by rewrite (text_lt_total a.1 b.1).
Qed.

Lemma keyset_le_spec a b :
  keyset_le a b = true ↔ text_lt a.1 b.1 = true ∨ a.1 = b.1 ∧ text_le a.2 b.2 = true.
Proof. unfold keyset_le. by rewrite orb_true_iff, andb_true_iff, text_eq_true. Qed.

Lemma keyset_le_trans a b c : keyset_le a b = true → keyset_le b c = true → keyset_le a c = true.
Proof.
  rewrite !keyset_le_spec. intros [H1|[E1 H1]] [H2|[E2 H2]].
  - left. by eapply text_lt_trans.
  - left. by rewrite <-E2.
  - left. by rewrite E1.
  - right. split; [congruence|]. by eapply text_le_trans.
Qed.

Lemma keyset_gt_spec a b : keyset_gt a b = true ↔ keyset_le b a = true ∧ a ≠ b.
Proof.
  unfold keyset_gt. rewrite keyset_le_spec, orb_true_iff, andb_true_iff, text_eq_true, !text_lt_spec.
  destruct a as [a1 a2], b as [b1 b2]; simpl. split.
  - intros [[Hl Hne]|(-> & Hl & Hne)]; split; auto; congruence.
  - intros [[[Hl Hne]|[-> Hl]] Hn]; [auto|]. right. split_and!; auto; congruence.
Qed.

Lemma keyset_le_antisym a b : keyset_le a b = true → keyset_le b a = true → a = b.
Proof.
  rewrite !keyset_le_spec, !text_lt_spec. destruct a as [a1 a2], b as [b1 b2]; simpl.
  intros [[H1 N1]|[E1 H1]] [[H2 N2]|[E2 H2]].
  - destruct N1. by apply text_le_antisym.
  - by rewrite E2 in N1.
  - by rewrite E1 in N2.
  - rewrite E1. f_equal. by apply text_le_antisym.
Qed.

(** After a page of a sorted list without repeated keys, the keyset selects the rest. *)
Section Keyset.
Context {Row : Type} (key : Row → string * string).

Local Abbreviation sorted := (StronglySorted (λ a b, keyset_le (key a) (key b) = true)).

Definition past (c : option (string * string)) (x : Row) : bool :=
  match c with Some k => keyset_gt (key x) k | None => true end.

Lemma keyset_rest (L : list Row) n m :
  NoDup (map key L) → sorted L → last (take n L) = Some m →
  List.filter (past (Some (key m))) L = drop n L.
Proof.
  intros Hnd Hs Hl. rewrite <-(take_drop n L) in Hnd, Hs |- * at 1.
  rewrite map_app in Hnd. apply NoDup_app in Hnd as (_ & Hd & _).
  apply StronglySorted_app in Hs as (Hx & Hs & _).
  apply last_Some in Hl as [l Hl]. rewrite List.filter_app, where_none.
  - simpl. apply forallb_filter_id, forallb_forall. intros x Hin%list_elem_of_In.
    assert (Hm : m ∈ take n L) by (rewrite Hl; set_solver).
    apply keyset_gt_spec. split; [by apply (Hx m x)|]. intros E.
    apply (Hd (key m)); [by apply list_elem_of_fmap_2|]. rewrite <-E. by apply list_elem_of_fmap_2.
  - intros x Hin. apply not_true_iff_false. unfold past. rewrite keyset_gt_spec. intros [Hle Hne].
    apply Hne. rewrite Hl in Hin, Hs. apply elem_of_app in Hin as [Hin| ->%list_elem_of_singleton]; [|done].
    apply StronglySorted_app in Hs as (Hx' & _ & _).
    apply keyset_le_antisym; [|done]. apply (Hx' x m); [done|set_solver].
Qed.

Lemma StronglySorted_where {A} (R : A → A → Prop) p l :
  StronglySorted R l → StronglySorted R (List.filter p l).
Proof.
  induction 1 as [|x l Hl IH Hx]; simpl; [constructor|]. destruct (p x); [|done].
  constructor; [done|]. apply Forall_forall. intros y [Hy _]%elem_of_where.
  by apply (proj1 (Forall_forall _ _) Hx).
Qed.

Lemma elem_of_take_inv {A} n (l : list A) x : x ∈ take n l → x ∈ l.
Proof. intros H. rewrite <-(take_drop n l). set_solver. Qed.

(** The same from the cursor of the page before. *)
Lemma keyset_tail (L : list Row) c n m :
  NoDup (map key L) → sorted L → last (take n (List.filter (past c) L)) = Some m →
  List.filter (past (Some (key m))) L = drop n (List.filter (past c) L).
Proof.
  intros Hnd Hs Hl.
  assert (Hs' : sorted (List.filter (past c) L)) by by apply StronglySorted_where.
  rewrite <-(keyset_rest (List.filter (past c) L) n m); [|by apply NoDup_where|done|done].
  rewrite where_where. apply filter_ext_in. intros x Hx%list_elem_of_In.
  destruct (past (Some (key m)) x) eqn:E; [|by rewrite andb_false_r].
  rewrite andb_true_r. symmetry. destruct c as [k|]; [|done].
  assert (m ∈ List.filter (past (Some k)) L) as [_ Hm]%elem_of_where.
  { apply last_Some in Hl as [l Hl]. eapply elem_of_take_inv with (n := n). rewrite Hl. set_solver. }
  unfold past in *. rewrite keyset_gt_spec in *.
  destruct Hm as [Hm1 Hm2], E as [E1 E2]. split; [by eapply keyset_le_trans|].
  intros Hx'. rewrite Hx' in E1. apply Hm2. by apply keyset_le_antisym.
Qed.
End Keyset.

Lemma find_app {A} (p : A → bool) l1 l2 :
  List.find p (l1 ++ l2) =
  match List.find p l1 with Some x => Some x | None => List.find p l2 end.
Proof. induction l1 as [|x l1 IH]; simpl; [done|]. by destruct (p x). Qed.

Section Claim.
Context {C : Chrono} {U : Uuid} {Value : Type} {JV : SerdeValue Value}.
Context {JS : SerdeJson (list (EventCatalogSubscription Value))}.

(** ** What a claim may take *)

(** Unfinished older work of the same plugin and ordering key. *)
Definition fifo_blocked_in (s : Db) (m : event_deliveries.Model) : bool :=
  negb (str_is_empty (event_deliveries.ordering_key m))
  && existsb (fifo_before m) (event_deliveries_t s).

(** The node's own catalog matches the parent event; an empty node id matches all. *)
Definition node_accepts (s : Db) (node_id : string) (m : event_deliveries.Model) : bool :=
  str_is_empty (trim node_id) ||
  match List.find (λ e, text_eq (domain_events.id e) (event_deliveries.event_id m))
          (domain_events_t s),
        List.find (λ r, text_eq (event_subscriber_nodes.node_id r) node_id
                        && text_eq (event_subscriber_nodes.plugin_id r)
                             (event_deliveries.plugin_id m)) (event_subscriber_nodes_t s) with
  | Some e, Some r =>
      negb (event_subscriber_nodes.enabled r =? 0)
      && existsb (λ sub, subscription_matches_event sub (map_event (clock s) e))
           (default [] (from_str (event_subscriber_nodes.subscriptions_json r)))
  | _, _ => false
  end.

(** The deliveries of the plugin and class that run. *)
Definition in_flight_count (s : Db) (plugin cls : string) : Z :=
  Z.of_nat (length (List.filter (in_flight plugin cls) (event_deliveries_t s))).

Definition has_room (s : Db) (max_in_flight : Z) (m : event_deliveries.Model) : bool :=
  negb (max_in_flight =? 0)
  && (in_flight_count s (event_deliveries.plugin_id m)
        (effective_class (event_deliveries.resource_class m)) <? max_in_flight).

Definition claimable_delivery (s : Db) (node_id : string) (max_in_flight : Z)
    (m : event_deliveries.Model) : bool :=
  negb (fifo_blocked_in s m) && node_accepts s node_id m && has_room s max_in_flight m.

(** The due deliveries in claim order. *)
Definition delivery_queue (s : Db) (now_s : string) (plugin_ids : list string)
    : list event_deliveries.Model :=
  order_by delivery_le (List.filter (due_delivery now_s plugin_ids) (event_deliveries_t s)).

(** Only serialization slots differ. *)
Definition slots_only (s s' : Db) : Prop := ∃ g, s' = s <| bookclerk_slots_t := g |>.

Lemma slots_only_refl s : slots_only s s.
Proof. exists (bookclerk_slots_t s). by destruct s. Qed.

Lemma slots_only_trans a b c : slots_only a b → slots_only b c → slots_only a c.
Proof. intros [g ->] [h ->]. by exists h. Qed.

(** ** One candidate *)

Lemma run_fifo_blocked m s : run (fifo_blocked m) s = (Ok (fifo_blocked_in s m), s).
Proof.
  unfold fifo_blocked, fifo_blocked_in. destruct (str_is_empty _); [done|]. simpl. do 2 f_equal.
  induction (event_deliveries_t s) as [|x l IH]; simpl; [done|]. by destruct (fifo_before m x).
Qed.

Lemma run_node_accepts node_id m s :
  run (if str_is_empty (trim node_id) then Ret (Ok true)
       else delivery_model_matches_node_catalog node_id m) s = (Ok (node_accepts s node_id m), s).
Proof.
  unfold node_accepts. destruct (str_is_empty (trim node_id)); [done|].
  unfold delivery_model_matches_node_catalog. rewrite run_bind. simpl.
  destruct (List.find _ (domain_events_t s)) as [e|]; [|done]. simpl.
  destruct (List.find _ (event_subscriber_nodes_t s)) as [r|]; [|done]. simpl.
  by destruct (event_subscriber_nodes.enabled r =? 0).
Qed.

Lemma run_lock_in_flight plugin cls s :
  ∃ g, run (lock_plugin_in_flight plugin cls) s = (Ok (), s <| bookclerk_slots_t := g |>).
Proof.
  unfold lock_plugin_in_flight, lock_serialization_slot. simpl.
  destruct (bookclerk_slots_t s !! _); eexists; reflexivity.
Qed.

Lemma run_at_cap m max s :
  run (plugin_in_flight_at_cap (event_deliveries.plugin_id m) (event_deliveries.resource_class m) max)
    s = (Ok (negb (has_room s max m)), s).
Proof.
  unfold plugin_in_flight_at_cap, has_room. destruct (max =? 0); [done|]. simpl. do 2 f_equal.
  unfold in_flight_count. by rewrite Z.leb_antisym.
Qed.

(** The store after [m] was leased. *)
Definition leased_in (s : Db) (owner expires now_s : string) (m : event_deliveries.Model) : Db :=
  s <| event_deliveries_t :=
         set_by event_deliveries.id (event_deliveries.id m)
           (claimed_delivery_row m owner expires now_s m) (event_deliveries_t s) |>.

Lemma run_candidate owner expires now_s node_id max m s :
  NoDup (map event_deliveries.id (event_deliveries_t s)) → m ∈ event_deliveries_t s →
  event_deliveries.state m = STATE_PENDING →
  ∃ s', run (claim_candidate_delivery owner expires now_s node_id max m) s =
    (Ok (if claimable_delivery s node_id max m
         then Some (map_delivery (clock s) (claimed_delivery_row m owner expires now_s m))
         else None), s')
  ∧ slots_only (if claimable_delivery s node_id max m then leased_in s owner expires now_s m else s) s'.
Proof.
  intros Hnd Hm Hp. unfold claim_candidate_delivery, claimable_delivery.
  rewrite run_try_bind, run_fifo_blocked. destruct (fifo_blocked_in s m); cbn [negb andb].
  { exists s. split; [done|apply slots_only_refl]. }
  rewrite run_try_bind, run_node_accepts. destruct (node_accepts s node_id m); cbn [negb andb].
  2: { exists s. split; [done|apply slots_only_refl]. }
  rewrite run_try_bind. destruct (run_lock_in_flight (event_deliveries.plugin_id m)
    (event_deliveries.resource_class m) s) as [g ->].
  rewrite run_try_bind, run_at_cap.
  replace (has_room (s <| bookclerk_slots_t := g |>) max m) with (has_room s max m) by done.
  destruct (has_room s max m); cbn [negb]; [|by exists (s <| bookclerk_slots_t := g |>); split; [|exists g]].
  rewrite run_bind. unfold event_deliveries_update at 1 2. cbn [run exec fst snd].
  replace (event_deliveries_t (s <| bookclerk_slots_t := g |>)) with (event_deliveries_t s) by done.
  rewrite (update_by_key event_deliveries.id _ _ m); [|done|done| |].
  - cbn [fst snd Nat.eqb negb]. rewrite run_bind. unfold event_deliveries_find_by_id. cbn [run query fst snd].
    change (event_deliveries_t (?a <| event_deliveries_t := ?t |>)) with t.
    rewrite (find_by_key event_deliveries.id _ (claimed_delivery_row m owner expires now_s m)).
    + eexists. split; [reflexivity|]. by exists g.
    + unfold set_by. rewrite map_map. erewrite map_ext_in; [exact Hnd|]. intros x Hx. simpl.
      destruct (text_eq _ _) eqn:E; [|done]. apply text_eq_true in E as ->.
      unfold claimed_delivery_row. by destruct (delivery_resuming m).
    + by apply set_by_elem.
    + unfold claimed_delivery_row. by destruct (delivery_resuming m).
  - unfold pending_with_id. by rewrite text_eq_refl, Hp.
  - intros r. unfold pending_with_id. intros. by where_clauses.
Qed.

(** ** The pages *)

Lemma run_select p s :
  run (event_deliveries_select p) s = (List.filter p (event_deliveries_t s), s).
Proof. done. Qed.

(** What a scan of [L] does to [s] and returns. *)
Definition scan_result (s : Db) (owner expires now_s node_id : string) (max : Z)
    (L : list event_deliveries.Model) (r : result (option EventDeliveryRecord) * Db) : Prop :=
  match List.find (claimable_delivery s node_id max) L with
  | Some m => r.1 = Ok (Some (map_delivery (clock s) (claimed_delivery_row m owner expires now_s m)))
              ∧ slots_only (leased_in s owner expires now_s m) r.2
  | None => r.1 = Ok None ∧ slots_only s r.2
  end.

(** A scan of a store whose slots alone changed. *)
Lemma scan_result_slots s s' owner expires now_s node_id max L r :
  slots_only s s' → scan_result s' owner expires now_s node_id max L r →
  scan_result s owner expires now_s node_id max L r.
Proof.
  intros [g ->]. unfold scan_result.
  change (claimable_delivery (s <| bookclerk_slots_t := g |>) node_id max)
    with (claimable_delivery s node_id max).
  destruct (List.find _ L) as [m|]; intros [H1 [h H2]]; (split; [done|by exists h]).
Qed.

(** A loop body that decides as [claimable_delivery] does, in [s] and while only slots change. *)
Definition decides (s : Db) (owner expires now_s node_id : string) (plugin_ids : list string)
    (max : Z) (candidate : event_deliveries.Model → prog Db (result (option EventDeliveryRecord))) : Prop :=
  ∀ s1 m, slots_only s s1 → m ∈ event_deliveries_t s → due_delivery now_s plugin_ids m = true →
  ∃ s', run (candidate m) s1 =
    (Ok (if claimable_delivery s node_id max m
         then Some (map_delivery (clock s) (claimed_delivery_row m owner expires now_s m))
         else None), s')
  ∧ slots_only (if claimable_delivery s node_id max m then leased_in s1 owner expires now_s m else s1) s'.

Lemma decides_slots s s1 owner expires now_s node_id plugin_ids max candidate :
  slots_only s s1 → decides s owner expires now_s node_id plugin_ids max candidate →
  decides s1 owner expires now_s node_id plugin_ids max candidate.
Proof.
  intros Hs H s2 m H2. assert (slots_only s s2) as H' by by eapply slots_only_trans.
  destruct Hs as [g ->]. by apply H.
Qed.

Lemma due_pending now_s plugin_ids m : due_delivery now_s plugin_ids m = true →
  event_deliveries.state m = STATE_PENDING
  ∧ event_deliveries.resource_class m = EVENT_RESOURCE_CLASS_NETWORK
  ∧ event_deliveries.plugin_id m ∈ plugin_ids ∧ text_le (event_deliveries.run_after m) now_s = true.
Proof. unfold due_delivery. intros. by where_clauses. Qed.

Lemma local_candidate_decides s owner expires now_s node_id plugin_ids max :
  NoDup (map event_deliveries.id (event_deliveries_t s)) →
  decides s owner expires now_s node_id plugin_ids max
    (claim_candidate_delivery owner expires now_s node_id max).
Proof.
  intros Hnd s1 m [g ->] Hm [Hp _]%due_pending.
  pose proof (run_candidate owner expires now_s node_id max m (s <| bookclerk_slots_t := g |>)) as H.
  by apply H.
Qed.

Lemma run_page owner expires now_s node_id plugin_ids max candidate L s :
  decides s owner expires now_s node_id plugin_ids max candidate →
  (∀ m, m ∈ L → m ∈ event_deliveries_t s ∧ due_delivery now_s plugin_ids m = true) →
  scan_result s owner expires now_s node_id max L (run (for_until L candidate) s).
Proof.
  revert s. induction L as [|m L IH]; intros s Hd HL.
  { split; [done|apply slots_only_refl]. }
  destruct (HL m) as [Hm Hp]; [left|]. unfold scan_result. cbn [for_until List.find].
  destruct (Hd s m (slots_only_refl s) Hm Hp) as (s' & Hr & Hs).
  rewrite run_try_bind, Hr. destruct (claimable_delivery s node_id max m); [done|].
  fold (scan_result s owner expires now_s node_id max L (run (for_until L candidate) s')).
  eapply scan_result_slots; [exact Hs|].
  pose proof (decides_slots _ _ _ _ _ _ _ _ _ Hs Hd) as Hd'. destruct Hs as [g ->].
  apply IH; [done|]. intros x Hx. apply HL. by right.
Qed.

Lemma delivery_queue_elem_of s now_s plugin_ids m :
  m ∈ delivery_queue s now_s plugin_ids ↔
  m ∈ event_deliveries_t s ∧ due_delivery now_s plugin_ids m = true.
Proof. unfold delivery_queue. by rewrite elem_of_order_by, elem_of_where. Qed.

Lemma delivery_queue_sorted s now_s plugin_ids :
  StronglySorted (λ a b, delivery_le a b = true) (delivery_queue s now_s plugin_ids).
Proof.
  apply order_by_sorted; unfold delivery_le; intros *; [apply keyset_le_total|apply keyset_le_trans].
Qed.

Lemma delivery_queue_ids s now_s plugin_ids :
  NoDup (map event_deliveries.id (event_deliveries_t s)) →
  NoDup (map event_deliveries.id (delivery_queue s now_s plugin_ids)).
Proof.
  intros Hnd. unfold delivery_queue. rewrite (Permutation_map _ (order_by_perm _ _)).
  by apply NoDup_where.
Qed.

(** The keyset after a page of the queue's tail selects the rest of the tail. *)
Lemma tail_rest (L : list event_deliveries.Model) c n m :
  NoDup (map event_deliveries.id L) → StronglySorted (λ a b, delivery_le a b = true) L →
  last (take n (List.filter (after_cursor c) L)) = Some m →
  List.filter (after_cursor (Some (delivery_key m))) L = drop n (List.filter (after_cursor c) L).
Proof.
  assert (Hp : ∀ c, List.filter (after_cursor c) L = List.filter (past delivery_key c) L).
  { intros [[]|]; by apply filter_ext. }
  intros Hnd Hs. rewrite !Hp. apply keyset_tail; [|done].
  apply (NoDup_fmap_1 snd). rewrite <-list_fmap_compose. exact Hnd.
Qed.

Lemma run_claim_pages fuel owner expires now_s node_id plugin_ids max candidate c s :
  NoDup (map event_deliveries.id (event_deliveries_t s)) →
  decides s owner expires now_s node_id plugin_ids max candidate →
  let tail := List.filter (after_cursor c) (delivery_queue s now_s plugin_ids) in
  (length tail < fuel)%nat →
  scan_result s owner expires now_s node_id max tail
    (run (claim_pages fuel now_s plugin_ids candidate c) s).
Proof.
  revert c s. induction fuel as [|fuel IH]; intros c s Hnd Hd tail Hf; [lia|].
  cbn [claim_pages]. rewrite run_bind, run_select. cbn [fst snd].
  rewrite <-(where_where (due_delivery now_s plugin_ids) (after_cursor c)).
  rewrite <-where_order_by by (unfold delivery_le; intros *; (apply keyset_le_total || apply keyset_le_trans)).
  fold (delivery_queue s now_s plugin_ids). fold tail.
  assert (Ht : ∀ m, m ∈ tail → m ∈ event_deliveries_t s ∧ due_delivery now_s plugin_ids m = true).
  { by intros m [Hm%delivery_queue_elem_of _]%elem_of_where. }
  destruct (last (take EVENT_CLAIM_PAGE tail)) as [m|] eqn:El.
  2: { apply last_None in El. assert (tail = []) as ->.
       { by destruct tail. } split; [done|apply slots_only_refl]. }
  pose proof (tail_rest (delivery_queue s now_s plugin_ids) c EVENT_CLAIM_PAGE m
    (delivery_queue_ids _ _ _ Hnd) (delivery_queue_sorted _ _ _) El) as Hrest. fold tail in Hrest.
  pose proof (run_page owner expires now_s node_id plugin_ids max candidate (take EVENT_CLAIM_PAGE tail) s Hd
    (λ m Hm, Ht m (elem_of_take_inv _ _ _ Hm))) as Hpage.
  rewrite run_try_bind. unfold scan_result in Hpage |- *.
  pose proof (find_app (claimable_delivery s node_id max) (take EVENT_CLAIM_PAGE tail)
    (drop EVENT_CLAIM_PAGE tail)) as Hfind. rewrite take_drop in Hfind. rewrite Hfind.
  destruct (run (for_until _ _) s) as [r s1]. cbn [fst snd] in Hpage.
  destruct (List.find _ (take EVENT_CLAIM_PAGE tail)) as [x|].
  { destruct Hpage as [-> Hs]. split; [reflexivity|exact Hs]. }
  destruct Hpage as [-> Hs]. rewrite <-Hrest.
  fold (scan_result s owner expires now_s node_id max
    (List.filter (after_cursor (Some (delivery_key m))) (delivery_queue s now_s plugin_ids))
    (run (claim_pages fuel now_s plugin_ids candidate (Some (delivery_key m))) s1)).
  eapply scan_result_slots; [exact Hs|].
  pose proof (decides_slots _ _ _ _ _ _ _ _ _ Hs Hd) as Hd'. destruct Hs as [g ->].
  apply IH; [done|done|]. change (delivery_queue (s <| bookclerk_slots_t := g |>) now_s plugin_ids)
    with (delivery_queue s now_s plugin_ids). rewrite Hrest, length_drop.
  assert (length tail ≠ 0)%nat by (destruct tail; [by rewrite take_nil in El|done]).
  unfold EVENT_CLAIM_PAGE. lia.
Qed.

Lemma run_all_pages owner expires now_s node_id plugin_ids max candidate s :
  NoDup (map event_deliveries.id (event_deliveries_t s)) →
  decides s owner expires now_s node_id plugin_ids max candidate →
  scan_result s owner expires now_s node_id max (delivery_queue s now_s plugin_ids)
    (run (claim_pages (claim_fuel s) now_s plugin_ids candidate None) s).
Proof.
  intros Hnd Hd.
  pose proof (run_claim_pages (claim_fuel s) owner expires now_s node_id plugin_ids max candidate None
    s Hnd Hd) as H. cbv zeta in H. rewrite where_all in H. apply H.
  unfold delivery_queue, claim_fuel. rewrite (Permutation_length (order_by_perm _ _)).
  pose proof (where_partition (due_delivery now_s plugin_ids) (event_deliveries_t s)). lia.
Qed.

(** ** Rows of an unknown class *)

Definition unknown_class_reason (m : event_deliveries.Model) : string :=
  "unknown event resource class `" +:+ event_deliveries.resource_class m +:+ "`".

(** The table with the rows of [victims] rejected. *)
Definition reject_ids (now_s : string) (victims : list string) (t : list event_deliveries.Model)
    : list event_deliveries.Model :=
  map (λ m, if is_in (event_deliveries.id m) victims
            then unknown_class_row (unknown_class_reason m) now_s m else m) t.

(** What the claim tidies first: up to 32 pending rows of an unknown class. *)
Definition sanitized (now_s : string) (t : list event_deliveries.Model)
    : list event_deliveries.Model :=
  reject_ids now_s (map event_deliveries.id (take 32 (List.filter unknown_class t))) t.

Lemma reject_ids_key now_s victims t :
  map event_deliveries.id (reject_ids now_s victims t) = map event_deliveries.id t.
Proof.
  unfold reject_ids. rewrite map_map. apply map_ext. intros m. by destruct (is_in _ _).
Qed.

Lemma reject_ids_snoc now_s victims t x :
  NoDup (map event_deliveries.id t) → x ∈ t → is_in (event_deliveries.id x) victims = false →
  set_by event_deliveries.id (event_deliveries.id x)
    (unknown_class_row (unknown_class_reason x) now_s x) (reject_ids now_s victims t)
  = reject_ids now_s (victims ++ [event_deliveries.id x]) t.
Proof.
  intros Hnd Hx Hi. unfold set_by, reject_ids. rewrite map_map. apply map_ext_in.
  intros m Hm%list_elem_of_In. unfold is_in at 3. rewrite existsb_app.
  fold (is_in (event_deliveries.id m) victims). simpl. rewrite orb_false_r.
  assert (Hid : event_deliveries.id (if is_in (event_deliveries.id m) victims
    then unknown_class_row (unknown_class_reason m) now_s m else m) = event_deliveries.id m)
    by (destruct (is_in (event_deliveries.id m) victims); done).
  rewrite Hid. destruct (text_eq (event_deliveries.id m) (event_deliveries.id x)) eqn:E.
  - apply text_eq_true in E. rewrite (NoDup_key event_deliveries.id t m x) by done.
    by rewrite Hi.
  - rewrite orb_false_r. done.
Qed.

Lemma run_sanitize_loop now_s xs t victims s :
  NoDup (map event_deliveries.id t) → NoDup (victims ++ map event_deliveries.id xs) →
  (∀ x, x ∈ xs → x ∈ t ∧ event_deliveries.state x = STATE_PENDING) →
  event_deliveries_t s = reject_ids now_s victims t →
  run (for_each xs () (λ _ model,
    let reason := unknown_class_reason model in
    let* _ := event_deliveries_update (pending_with_id (event_deliveries.id model))
      (unknown_class_row reason now_s) in Ret (Ok ()))) s
  = (Ok (), s <| event_deliveries_t :=
                  reject_ids now_s (victims ++ map event_deliveries.id xs) t |>).
Proof.
  intros Hnd. revert victims s. induction xs as [|x xs IH]; intros victims s Hv Hxs Hs.
  { simpl. rewrite app_nil_r, <-Hs. by destruct s. }
  destruct (Hxs x) as [Hx Hp]; [left|].
  assert (Hi : is_in (event_deliveries.id x) victims = false).
  { apply not_true_iff_false. rewrite is_in_true. intros Hin. apply NoDup_app in Hv as (_ & Hd & _).
    apply (Hd _ Hin). left. }
  cbn [for_each]. rewrite run_try_bind. cbv zeta. rewrite run_bind.
  unfold event_deliveries_update at 1 2. cbn [run exec fst snd].
  rewrite Hs, (update_by_key event_deliveries.id _ _ x).
  - cbn [fst snd]. rewrite reject_ids_snoc by done. rewrite (IH (victims ++ [event_deliveries.id x])).
    + rewrite <-app_assoc. by destruct s.
    + by rewrite <-app_assoc.
    + intros y Hy. apply Hxs. by right.
    + done.
  - by rewrite reject_ids_key.
  - apply list_elem_of_fmap. exists x. by rewrite Hi.
  - unfold pending_with_id. by rewrite text_eq_refl, Hp.
  - intros r. unfold pending_with_id. intros. by where_clauses.
Qed.

Lemma run_sanitize now_s s :
  NoDup (map event_deliveries.id (event_deliveries_t s)) →
  run (sanitize_unknown_event_resource_class_on now_s) s
  = (Ok (), s <| event_deliveries_t := sanitized now_s (event_deliveries_t s) |>).
Proof.
  intros Hnd. unfold sanitize_unknown_event_resource_class_on. rewrite run_bind, run_select. cbn [fst snd].
  apply (run_sanitize_loop now_s _ (event_deliveries_t s) []); [done| | |].
  - simpl. eapply sublist_NoDup; [apply (NoDup_where event_deliveries.id unknown_class), Hnd|].
    apply (fmap_sublist _), sublist_take.
  - intros x [Hx Hu]%elem_of_take_inv%elem_of_where. split; [done|].
    unfold unknown_class in Hu. by where_clauses.
  - unfold reject_ids. simpl. by rewrite map_id.
Qed.

(** ** The transaction *)

(** The store the scan sees. *)
Definition tidied_outbox (s : Db) : Db :=
  s <| event_deliveries_t := sanitized (to_rfc3339 (clock s)) (event_deliveries_t s) |>.
Definition claim_expiry (s : Db) (lease_secs : Z) : string :=
  to_rfc3339 (clock s + seconds (default 60 (i64_try_from lease_secs))).

Lemma run_claim owner lease_secs plugin_ids max node_id s :
  NoDup (map event_deliveries.id (event_deliveries_t s)) → plugin_ids ≠ [] →
  scan_result (tidied_outbox s) owner (claim_expiry s lease_secs) (to_rfc3339 (clock s)) node_id max
    (delivery_queue (tidied_outbox s) (to_rfc3339 (clock s)) plugin_ids)
    (run (claim_next_event_delivery owner lease_secs plugin_ids max node_id) s).
Proof.
  intros Hnd Hne. unfold claim_next_event_delivery, claim_next_event_delivery_on.
  replace (length plugin_ids =? 0)%nat with false by by destruct plugin_ids.
  rewrite run_txn, run_bind. cbn [run Utc_now query fst snd]. rewrite run_try_bind, run_sanitize by done.
  fold (tidied_outbox s). rewrite run_bind. cbn [run query fst snd].
  assert (Hids : NoDup (map event_deliveries.id (event_deliveries_t (tidied_outbox s)))).
  { cbn. unfold sanitized. by rewrite reject_ids_key. }
  pose proof (run_all_pages owner (claim_expiry s lease_secs) (to_rfc3339 (clock s)) node_id plugin_ids
    max _ (tidied_outbox s) Hids (local_candidate_decides _ _ _ _ _ _ _ Hids)) as H.
  unfold claim_expiry in *. destruct (run (claim_pages _ _ _ _ _) (tidied_outbox s)) as [r s'].
  unfold scan_result in *. destruct (List.find _ _) as [m|]; simpl in H; destruct H as [-> H]; by split.
Qed.
End Claim.

(** ** The invariant *)

Lemma set_by_absent {A} (key : A → string) k r t : k ∉ map key t → set_by key k r t = t.
Proof.
  induction t as [|x t IH]; intros H; simpl; [done|]. simpl in H.
  rewrite (proj2 (text_eq_false (key x) k)) by set_solver. f_equal. apply IH. set_solver.
Qed.

(** Replacing one row adds at most that row to a selection. *)
Lemma where_set_by_le {A} (q : A → bool) key k r t :
  NoDup (map key t) →
  (length (List.filter q (set_by key k r t)) ≤ length (List.filter q t) + (if q r then 1 else 0))%nat.
Proof.
  induction t as [|x t IH]; simpl; [lia|]. intros [Hx Hnd]%NoDup_cons.
  destruct (text_eq (key x) k) eqn:E.
  - apply text_eq_true in E as <-. rewrite set_by_absent by done.
    destruct (q r), (q x); simpl; lia.
  - specialize (IH Hnd). destruct (q x), (q r); simpl; lia.
Qed.

Lemma safe_txn_run {S A} (R : S → S → Prop) (I : S → Prop) `{!PreOrder R} (p : prog S (result A)) :
  (∀ s, I s → R s (run (txn p) s).2 ∧ I (run (txn p) s).2) → safe R I (txn p).
Proof. intros H. by apply safe_exec. Qed.

Section ClaimSafe.
Context {C : Chrono} {U : Uuid} {Q : InFlightCap} {Value : Type} {JV : SerdeValue Value}.
Context {JS : SerdeJson (list (EventCatalogSubscription Value))}.

Lemma safe_sanitize retain now_s :
  safe (outbox_evolves retain) outbox_wf (sanitize_unknown_event_resource_class_on now_s).
Proof.
  unfold sanitize_unknown_event_resource_class_on. repeat outbox_step.
  apply pending_row_ok; eauto using pending_id_pending; done.
Qed.

Lemma tidied_outbox_ok retain s :
  outbox_wf s → outbox_evolves retain s (tidied_outbox s) ∧ outbox_wf (tidied_outbox s).
Proof.
  intros Hwf. pose proof (wp_run _ _ _ _ _ s Hwf
    (safe_sanitize retain (to_rfc3339 (clock s)) s)) as (H1 & H2 & _).
  rewrite run_sanitize in H1, H2 by apply Hwf. by split.
Qed.

(** A pending row is leased while its plugin has room under the cap. *)
Lemma lease_row_ok retain s m row max :
  outbox_wf s → max ≤ in_flight_cap → m ∈ event_deliveries_t s → delivery_pending m →
  in_flight_count s (event_deliveries.plugin_id m) EVENT_RESOURCE_CLASS_NETWORK < max →
  delivery_grows m row → delivery_ok row →
  let s' := (s <| event_deliveries_t := set_by event_deliveries.id (event_deliveries.id m) row
                                          (event_deliveries_t s) |>) in
  outbox_evolves retain s s' ∧ outbox_wf s'
  ∧ in_flight_count s' (event_deliveries.plugin_id m) EVENT_RESOURCE_CLASS_NETWORK ≤ max.
Proof.
  intros Hwf Hmax Hm Hp Hroom Hg Hok s'.
  assert (Hrow : event_deliveries.plugin_id row = event_deliveries.plugin_id m).
  { pose proof (dg_identity _ _ Hg) as HI. by injection HI. }
  assert (Hupd : update_rows (pending_with_id (event_deliveries.id m)) (λ _, row) (event_deliveries_t s)
    = (1%nat, set_by event_deliveries.id (event_deliveries.id m) row (event_deliveries_t s))).
  { apply update_by_key; [apply Hwf|done| |].
    - unfold pending_with_id. by rewrite text_eq_refl, Hp.
    - intros r. unfold pending_with_id. intros. by where_clauses. }
  assert (Hcount : ∀ plugin, in_flight_count s' plugin EVENT_RESOURCE_CLASS_NETWORK
    ≤ if decide (plugin = event_deliveries.plugin_id m) then max
      else in_flight_count s plugin EVENT_RESOURCE_CLASS_NETWORK).
  { intros plugin. unfold in_flight_count in *. unfold s'.
    change (event_deliveries_t (s <| event_deliveries_t := ?t |>)) with t.
    pose proof (where_set_by_le (in_flight plugin EVENT_RESOURCE_CLASS_NETWORK) event_deliveries.id
      (event_deliveries.id m) row (event_deliveries_t s) (owf_ids _ Hwf)) as Hle.
    destruct (decide _) as [->|Hne].
    - destruct (in_flight _ _ row); lia.
    - replace (in_flight plugin EVENT_RESOURCE_CLASS_NETWORK row) with false in Hle; [lia|].
      symmetry. apply not_true_iff_false. rewrite in_flight_true. rewrite Hrow. naive_solver. }
  destruct (deliveries_update_gen retain (pending_with_id (event_deliveries.id m)) (λ _, row) s) as [H1 H2].
  - done.
  - intros x Hx Hpx _. assert (x = m) as ->; [|done].
    eapply (NoDup_key event_deliveries.id); [apply (owf_ids _ Hwf)|done..|].
    unfold pending_with_id in Hpx. by where_clauses.
  - rewrite Hupd. intros plugin. etrans; [apply (Hcount plugin)|].
    destruct (decide _); [done|apply (owf_cap _ Hwf plugin)].
  - rewrite Hupd in H1, H2. cbn [snd] in H1, H2. split_and!; [done|done|].
    specialize (Hcount (event_deliveries.plugin_id m)). by rewrite decide_True in Hcount.
Qed.

(** A claimable due row has room under the cap. *)
Lemma leased_in_ok retain s owner expires now_s plugin_ids node_id max m :
  outbox_wf s → max ≤ in_flight_cap → m ∈ event_deliveries_t s →
  due_delivery now_s plugin_ids m = true → claimable_delivery s node_id max m = true →
  outbox_evolves retain s (leased_in s owner expires now_s m)
  ∧ outbox_wf (leased_in s owner expires now_s m)
  ∧ in_flight_count (leased_in s owner expires now_s m) (event_deliveries.plugin_id m)
      EVENT_RESOURCE_CLASS_NETWORK ≤ max.
Proof.
  intros Hwf Hmax Hm Hd Hc. destruct (due_pending _ _ _ Hd) as (Hp & Hcl & _ & _).
  apply andb_prop in Hc as [_ Hroom]. unfold has_room in Hroom. apply andb_prop in Hroom as [_ Hroom].
  rewrite Hcl in Hroom. change (effective_class EVENT_RESOURCE_CLASS_NETWORK)
    with EVENT_RESOURCE_CLASS_NETWORK in Hroom. where_clauses.
  destruct (claimed_delivery_row_ok m owner expires now_s) as [Hg Hok]; [done|by apply Hwf|done|].
  by apply lease_row_ok.
Qed.

Lemma slots_untouched s s' : slots_only s s' → outbox_untouched s s'.
Proof. intros [g ->]. by split_and!. Qed.

Lemma claim_cases owner lease_secs plugin_ids max node_id s :
  outbox_wf s → plugin_ids ≠ [] →
  let s1 := tidied_outbox s in
  let now_s := to_rfc3339 (clock s) in
  let r := run (claim_next_event_delivery owner lease_secs plugin_ids max node_id) s in
  (r.1 = Ok None ∧ slots_only s1 r.2)
  ∨ ∃ m, m ∈ event_deliveries_t s1 ∧ due_delivery now_s plugin_ids m = true
      ∧ claimable_delivery s1 node_id max m = true
      ∧ r.1 = Ok (Some (map_delivery (clock s)
                (claimed_delivery_row m owner (claim_expiry s lease_secs) now_s m)))
      ∧ slots_only (leased_in s1 owner (claim_expiry s lease_secs) now_s m) r.2.
Proof.
  intros Hwf Hne s1 now_s r.
  pose proof (run_claim owner lease_secs plugin_ids max node_id s (owf_ids _ Hwf) Hne) as H.
  fold r s1 now_s in H. unfold scan_result in H. destruct (List.find _ _) as [m|] eqn:Ef; [|by left].
  right. exists m. apply find_where in Ef as [[Hm Hd]%delivery_queue_elem_of Hc].
  destruct H as [H1 H2]. split_and!; done.
Qed.

Lemma safe_claim retain owner lease_secs plugin_ids max node_id :
  max ≤ in_flight_cap →
  safe (outbox_evolves retain) outbox_wf
    (claim_next_event_delivery owner lease_secs plugin_ids max node_id).
Proof.
  intros Hmax. destruct (decide (plugin_ids = [])) as [->|Hne]; [apply safe_ret|].
  pose proof (claim_cases owner lease_secs plugin_ids max node_id) as Hcases.
  unfold claim_next_event_delivery in *.
  replace (length plugin_ids =? 0)%nat with false in * by by destruct plugin_ids.
  apply safe_txn_run; [apply _|]. intros s Hwf. destruct (tidied_outbox_ok retain s Hwf) as [H1 Hwf1].
  destruct (Hcases s Hwf Hne) as [[_ Hs]|(m & Hm & Hd & Hc & _ & Hs)].
  - destruct (outbox_untouched_ok retain _ _ Hwf1 (slots_untouched _ _ Hs)) as [H2 Hwf2].
    split; [by transitivity (tidied_outbox s)|done].
  - destruct (leased_in_ok retain (tidied_outbox s) owner (claim_expiry s lease_secs) _ _ _ max m
      Hwf1 Hmax Hm Hd Hc) as (H2 & Hwf2 & _).
    destruct (outbox_untouched_ok retain _ _ Hwf2 (slots_untouched _ _ Hs)) as [H3 Hwf3].
    split; [|done]. etrans; [exact H1|]. by etrans; [exact H2|].
Qed.
End ClaimSafe.
