(* ===== verification/EventPlanSafety.v ===== *)
(** * The plugin path keeps the outbox's invariant

    One [safe_*] lemma per operation of [EventPlans] and [EventReads].  The claim through a batch
    per candidate acts on a row it read earlier: what it needs of the row is its identity, which
    every later state keeps while retention does not run. *)

From stdpp Require Import base option list strings gmap pretty.
From Stdlib Require Import ZArith Lia.
From S2P Require Import Prelude Schema Store Concurrency JobModels EventModels EventOutbox EventPlans EventReads EventInvariant EventSafety EventClaim.

Local Open Scope Z_scope.

Section PlanSafe.
Context {C : Chrono} {U : Uuid} {Q : InFlightCap} (retain : bool).
Context {Value : Type} {JV : SerdeValue Value}.
Context {JS : SerdeJson (list (EventCatalogSubscription Value))}.
Context {JI : SerdeJson (list string)} {JD : JulianDay}.

Local Abbreviation osafe := (safe (outbox_evolves retain) outbox_wf).

(** ** Publication *)

Lemma safe_publish_atomic spec : osafe (publish_domain_event_atomic spec).
Proof.
  unfold publish_domain_event_atomic, rpc_publish_domain_event, plan_publish_domain_event.
  pose proof (safe_prepare retain). pose proof (safe_domain_events_insert retain). by repeat outbox_step.
Qed.

(** ** Dispatch *)

Lemma safe_plan_insert event_id now plugin_id : osafe (plan_insert_delivery event_id now plugin_id).
Proof.
  apply safe_exec. intros s Hwf. cbn [fst snd].
  destruct (List.find _ (domain_events_t s)) as [e|] eqn:Ef; [|by split].
  destruct (existsb _ _) eqn:Ed; [by split|].
  destruct (new_delivery_ok e event_id plugin_id now) as [Hok Hr].
  apply deliveries_append_ok; try done. exists e. apply find_where in Ef as [He Hid%text_eq_true]. by split.
Qed.

Lemma safe_mark_dispatched event_id now : osafe (plan_mark_dispatched event_id now).
Proof.
  unfold plan_mark_dispatched. repeat outbox_step.
  - apply safe_untouched. intros s. cbn [fst snd]. by destruct (existsb _ _).
  - apply safe_untouched. by intros s.
  - where_clauses. by constructor.
Qed.

Lemma safe_rpc_dispatch event_id subs mark : osafe (rpc_dispatch_event_deliveries event_id subs mark).
Proof.
  unfold rpc_dispatch_event_deliveries, plan_dispatch_event_deliveries.
  pose proof safe_plan_insert. pose proof safe_mark_dispatched. by repeat outbox_step.
Qed.

Lemma safe_snapshot event_id subs : osafe (load_or_init_dispatch_snapshot event_id subs).
Proof. unfold load_or_init_dispatch_snapshot. repeat outbox_step. by constructor. Qed.

Lemma safe_dispatch_pages event_id pages total : osafe (dispatch_pages event_id pages total).
Proof.
  revert total. induction pages as [|page pages IH]; intros total; [apply safe_ret|].
  cbn [dispatch_pages]. apply safe_try_bind; [apply safe_rpc_dispatch|]. intros n. apply IH.
Qed.

Lemma safe_dispatch_atomic chunk event_id subs :
  osafe (dispatch_event_deliveries_atomic chunk event_id subs).
Proof.
  unfold dispatch_event_deliveries_atomic. apply safe_try_bind; [apply safe_snapshot|].
  intros [|sub all]; [apply safe_rpc_dispatch|apply safe_dispatch_pages].
Qed.

(** ** Reconciliation and reads *)

Lemma safe_list_missing plugin_id types after_s after limit :
  osafe (list_missing_dispatched_events_for_plugin plugin_id types after_s after limit).
Proof. unfold list_missing_dispatched_events_for_plugin. by repeat outbox_step. Qed.

Lemma safe_reconcile_with dispatch created_after :
  (∀ event_id subs, osafe (dispatch event_id subs)) → osafe (reconcile_with dispatch created_after).
Proof.
  intros Hd. unfold reconcile_with, list_live_event_subscribers, list_live_event_subscribers_with_ttl,
    list_live_event_subscriber_nodes, reconcile_row.
  assert (Hpages : ∀ fuel row types cutoff after total,
    osafe (reconcile_pages (Value := Value) dispatch fuel row types cutoff after total)).
  { induction fuel as [|fuel IH]; intros; [apply safe_ret|]. cbn [reconcile_pages].
    pose proof safe_list_missing. unfold reconcile_event. by repeat outbox_step. }
  by repeat outbox_step.
Qed.

Lemma safe_metrics : osafe event_delivery_metrics.
Proof. unfold event_delivery_metrics, count_event_deliveries. by repeat outbox_step. Qed.
End PlanSafe.

(** ** Claim *)

Section HostClaim.
Context {C : Chrono} {U : Uuid} {Q : InFlightCap} {Value : Type} {JV : SerdeValue Value}.
Context {JS : SerdeJson (list (EventCatalogSubscription Value))}.

Local Abbreviation R := (outbox_evolves true).

(** The delivery read as [m] is still there. *)
Definition known (m : event_deliveries.Model) (s : Db) : Prop :=
  ∃ m', m' ∈ event_deliveries_t s ∧ delivery_identity m' = delivery_identity m.

Lemma known_stable m s s' : R s s' → known m s → known m s'.
Proof.
  intros [_ Hev] (x & Hx & Hi). destruct (oh_kept _ _ (Hev eq_refl) x Hx) as (y & Hy & G).
  exists y. split; [done|]. rewrite <-Hi. apply G.
Qed.

Lemma plan_claimed_delivery_ok m o e u :
  delivery_pending m → delivery_ok m →
  event_deliveries.resource_class m = EVENT_RESOURCE_CLASS_NETWORK →
  delivery_grows m (plan_claimed_delivery o e u m) ∧ delivery_ok (plan_claimed_delivery o e u m).
Proof.
  intros Hp Hok Hc. destruct (pending_unsettled m Hp) as [Hs Hr].
  pose proof (dok_attempt _ Hok). pose proof (dok_generation _ Hok).
  unfold plan_claimed_delivery. destruct (event_deliveries.resume_pending m =? 1);
    (split; [constructor|constructor]); simpl; try done; try lia; intros; split_and!; auto with store; lia.
Qed.

(** The batch leases at most the row that was read, under the cap. *)
Lemma plan_cas_ok m owner lease_secs max now s :
  outbox_wf s → max ≤ in_flight_cap → known m s →
  event_deliveries.resource_class m = EVENT_RESOURCE_CLASS_NETWORK →
  let s' := (run (plan_claim_event_delivery_cas (event_deliveries.id m) owner lease_secs
    (event_deliveries.plugin_id m) (event_deliveries.resource_class m) max now) s).2 in
  R s s' ∧ outbox_wf s'.
Proof.
  intros Hwf Hmax (x & Hx & Hi) Hc s'.
  assert (Hxs : event_deliveries.id x = event_deliveries.id m
    ∧ event_deliveries.plugin_id x = event_deliveries.plugin_id m
    ∧ event_deliveries.resource_class x = event_deliveries.resource_class m)
    by (by injection Hi).
  destruct Hxs as (Hid & Hpl & Hcl).
  unfold s', plan_claim_event_delivery_cas. rewrite run_try_bind.
  destruct (run_lock_in_flight (event_deliveries.plugin_id m) (event_deliveries.resource_class m) s)
    as [g Hg]. unfold lock_plugin_in_flight in Hg.
  match goal with |- context [run (lock_serialization_slot ?k) s] =>
    assert (run (lock_serialization_slot k) s = (Ok (), s <| bookclerk_slots_t := g |>)) as -> by exact Hg end.
  rewrite run_bind. cbn [run exec fst snd]. rewrite run_bind, run_select. cbn [fst snd run].
  set (s1 := s <| bookclerk_slots_t := g |>).
  destruct (outbox_untouched_ok true s s1 Hwf) as [H1 Hwf1]; [by split_and!|].
  change (event_deliveries_t s1) with (event_deliveries_t s).
  rewrite Hc. change (effective_class EVENT_RESOURCE_CLASS_NETWORK) with EVENT_RESOURCE_CLASS_NETWORK.
  fold (in_flight_count s (event_deliveries.plugin_id m) EVENT_RESOURCE_CLASS_NETWORK).
  set (expires := plan_event_expires lease_secs now).
  destruct (pending_with_id (event_deliveries.id m) x
    && (in_flight_count s (event_deliveries.plugin_id m) EVENT_RESOURCE_CLASS_NETWORK <? Z.max max 0)) eqn:Eb.
  - rewrite (update_by_key event_deliveries.id _ _ x); [|apply Hwf|done|done|].
    2: { intros r Hr. unfold pending_with_id in Hr. where_clauses. congruence. }
    apply andb_prop in Eb as [Hp%pending_id_pending Hroom%Z.ltb_lt].
    destruct (plan_claimed_delivery_ok x owner expires now) as [Hgr Hok];
      [done|by apply Hwf|congruence|].
    assert (0 ≤ in_flight_count s (event_deliveries.plugin_id m) EVENT_RESOURCE_CLASS_NETWORK)
      by (unfold in_flight_count; lia).
    destruct (lease_row_ok true s1 x (plan_claimed_delivery owner expires now x) max) as (H2 & Hwf2 & _);
      [done|done|done|done| |done|done|].
    { change (in_flight_count s1) with (in_flight_count s). rewrite Hpl. lia. }
    cbn [snd]. split; [|done]. by transitivity s1.
  - rewrite update_rows_none; [by destruct s|]. intros y Hy.
    destruct (pending_with_id (event_deliveries.id m) y) eqn:Ey; [|done].
    assert (y = x) as ->.
    { eapply (NoDup_key event_deliveries.id); [apply (owf_ids _ Hwf)|done..|].
      unfold pending_with_id in Ey. where_clauses. congruence. }
    by rewrite Ey in Eb.
Qed.

Lemma safe_host_candidate owner lease_secs node_id max m s :
  max ≤ in_flight_cap → known m s →
  event_deliveries.resource_class m = EVENT_RESOURCE_CLASS_NETWORK →
  wp R R outbox_wf (host_candidate owner lease_secs node_id max m) (λ _ _, True) s.
Proof.
  intros Hmax Hk Hc. unfold host_candidate.
  assert (Hf : safe R outbox_wf (fifo_blocked m)) by (unfold fifo_blocked; by repeat outbox_step).
  assert (Hn : safe R outbox_wf (if str_is_empty (trim node_id) then Ret (Ok true)
    else delivery_model_matches_node_catalog node_id m))
    by (unfold delivery_model_matches_node_catalog; by repeat outbox_step).
  apply wp_try_bind. eapply wp_mono; [|apply (wp_history _ _ _ (λ _ _, True) s); [reflexivity|apply Hf]].
  intros [[]|e] s1 [_ H1]; [done| |done].
  apply wp_try_bind. eapply wp_mono; [|apply (wp_history _ _ _ (λ _ _, True) s1); [reflexivity|apply Hn]].
  intros [[]|e] s2 [_ H2]; [|done..]. cbn [negb]. unfold rpc_claim_event_delivery.
  apply wp_bind. unfold now_str. apply wp_bind, wp_query; [apply _|]. intros s3 H3 _. cbn [wp].
  apply wp_try_bind, wp_txn; [apply _|]. intros s4 H4 Hwf4. apply alone_run.
  assert (Hk4 : known m s4).
  { apply (known_stable m s); [|done]. by repeat (etrans; [eassumption|]). }
  pose proof (plan_cas_ok m owner (default 60 (i64_try_from lease_secs)) max (to_rfc3339 (clock s3)) s4
    Hwf4 Hmax Hk4 Hc) as Hok. cbv zeta in Hok.
  destruct (run _ s4) as [[reply|e] s5]; [|done]. cbn [fst snd] in *. destruct Hok as [H5 Hwf5].
  split_and!; [done|done|]. destruct (text_eq _ _); [done|]. destruct (reply.2); [|done].
  by destruct (decode_delivery _).
Qed.

Lemma safe_claim_pages fuel now_s plugin_ids owner lease_secs node_id max cursor :
  max ≤ in_flight_cap →
  safe R outbox_wf (claim_pages fuel now_s plugin_ids (host_candidate owner lease_secs node_id max) cursor).
Proof.
  intros Hmax. revert cursor. induction fuel as [|fuel IH]; intros cursor; [apply safe_ret|]. intros s.
  cbn [claim_pages]. apply wp_bind, wp_query; [apply _|]. intros s1 _ _.
  set (page := take _ _). destruct (last page) as [m|]; [|done].
  assert (Hpage : ∀ x, x ∈ page → x ∈ event_deliveries_t s1
    ∧ event_deliveries.resource_class x = EVENT_RESOURCE_CLASS_NETWORK).
  { intros x Hx%elem_of_take_inv. rewrite elem_of_order_by, elem_of_where in Hx.
    destruct Hx as [Hx [Hd _]%andb_prop]. split; [done|]. by apply due_pending in Hd as (_ & ? & _). }
  apply wp_try_bind. eapply wp_mono with (Q := λ _ s', R s1 s').
  { intros [[row|]|e] s2 _; [done|apply IH|done]. }
  apply wp_for_until; [|reflexivity]. intros x s2 Hx H2. destruct (Hpage x Hx) as [Hin Hcl].
  eapply wp_mono; [|apply (wp_history _ _ _ (λ _ _, True) s1);
    [exact H2|apply safe_host_candidate; [done| |done]]].
  - by intros a s3 [_ ?].
  - apply (known_stable x s1); [done|]. by exists x.
Qed.

Lemma safe_host_claim owner lease_secs plugin_ids max node_id :
  max ≤ in_flight_cap →
  safe R outbox_wf (claim_next_event_delivery_host_cas owner lease_secs plugin_ids max node_id).
Proof.
  intros Hmax. unfold claim_next_event_delivery_host_cas.
  apply safe_bind; [apply safe_query, _|]. intros now.
  apply safe_try_bind; [apply safe_sanitize|]. intros _.
  apply safe_bind; [apply safe_query, _|]. intros fuel. by apply safe_claim_pages.
Qed.
End HostClaim.
