(* ===== verification/EventPool.v ===== *)
(** * The outbox under concurrency

    [event_call] is one call of the outbox's API; a pool runs any number of calls interleaved.
    The theorems: the invariant in every reachable state, with the history of every row while
    retention does not run; a delivery fence that was lost is lost forever, and its holder can no
    longer write; settled deliveries are final. *)

From stdpp Require Import base option list strings gmap pretty relations.
From Stdlib Require Import ZArith Lia.
From S2P Require Import Prelude Schema Store Concurrency JobModels EventModels EventOutbox EventPlans EventReads EventInvariant EventSafety EventClaim EventPlanSafety.

Local Open Scope Z_scope.

(** The operations that present a fence. *)
Inductive fenced_call : Type :=
| FRelease (restore_resume : bool)
| FHeartbeat (lease_secs : Z)
| FAck
| FReject (reason : string)
| FDeadLetter (reason : string)
| FRetry (run_after : Z) (reason : string)
| FSuspend (checkpoint_json : string) (version wake_at : Z) (wake_type wake_filter wake_grants : string)
| FFail (reason : string).

Section Calls.
Context {C : Chrono} {U : Uuid} {Q : InFlightCap} {Value : Type} {JV : SerdeValue Value}.
Context {JS : SerdeJson (list (EventCatalogSubscription Value))}.
Context {JG : SerdeJson (list (EventWakeGrant Value))}.
Context {JI : SerdeJson (list string)} {JD : JulianDay}.

(** The public operations of [LibraryStore] on the outbox. *)
Inductive event_call : Type :=
| EPublish (spec : PublishDomainEventSpec)
| EDispatch (event_id : string) (subs : list EventSubscriber)
| EDispatchCatalog (event : DomainEventRecord)
| ENextUndispatched
| EProcessWakes (limit lease_secs max_binds : Z)
| EClaim (owner : string) (lease_secs : Z) (plugin_ids : list string) (max_in_flight : Z)
    (node_id : string)
| EFenced (f : EventDeliveryFence) (c : fenced_call)
| EReclaim
| EGetEvent (id : string)
| EGetDelivery (id : string)
| EListEvents (limit : Z)
| EListDeliveries (state : option string) (limit : Z)
| ECount (state : string)
| ERetryDeadLetter (id : string)
| EAcknowledgeDeadLetter (id : string)
| EHandlerLatency (duration_ms : Z)
| EUpsert (node_id plugin_id : string) (subs : list (EventCatalogSubscription Value)) (enabled : bool)
| EListLive (ttl_secs : Z)
| ECancel (id : string)
| ECancelRequested (id : string)
| EResume (id : string)
| EPrune (retention_days dead_letter_retention_days : Z)
| EReconcile (created_after : Z)
| EMetrics
| EListByState (dispatch_state : string) (limit : Z)
| EListDispatched (created_after : string) (after : option (string * string)) (limit : Z)
| EPublishAtomic (spec : PublishDomainEventSpec)
| EDispatchAtomic (chunk : Z) (event_id : string) (subs : list EventSubscriber)
| EReconcileAtomic (chunk created_after : Z)
| EClaimHost (owner : string) (lease_secs : Z) (plugin_ids : list string) (max_in_flight : Z)
    (node_id : string).

Definition exec_fenced (f : EventDeliveryFence) (c : fenced_call) : prog Db (result bool) :=
  match c with
  | FRelease b => release_unexecuted_event_delivery f b
  | FHeartbeat n => heartbeat_event_delivery f n
  | FAck => ack_event_delivery f
  | FReject r => reject_event_delivery f r
  | FDeadLetter r => dead_letter_event_delivery f r
  | FRetry t r => retry_event_delivery f t r
  | FSuspend cp v w wt wf wg => suspend_event_delivery f cp v w wt wf wg
  | FFail r => fail_event_delivery f r
  end.

(** A thread of the pool: the call, its result dropped. *)
Definition ignoring {A} (p : prog Db A) : prog Db unit := bind p (λ _, Ret ()).

Definition exec_event_call (c : event_call) : prog Db unit :=
  match c with
  | EPublish spec => ignoring (publish_domain_event spec)
  | EDispatch id subs => ignoring (dispatch_event_deliveries id subs)
  | EDispatchCatalog ev => ignoring (dispatch_catalog_matches ev)
  | ENextUndispatched => ignoring next_undispatched_event
  | EProcessWakes l n b => ignoring (process_pending_wakes l n b)
  | EClaim o n ps k node => ignoring (claim_next_event_delivery o n ps k node)
  | EFenced f c => ignoring (exec_fenced f c)
  | EReclaim => ignoring reclaim_expired_event_deliveries
  | EGetEvent id => ignoring (get_domain_event id)
  | EGetDelivery id => ignoring (get_event_delivery id)
  | EListEvents n => ignoring (list_domain_events n)
  | EListDeliveries st n => ignoring (list_event_deliveries st n)
  | ECount st => ignoring (count_event_deliveries st)
  | ERetryDeadLetter id => ignoring (retry_dead_letter_delivery id)
  | EAcknowledgeDeadLetter id => ignoring (acknowledge_dead_letter_delivery id)
  | EHandlerLatency ms => ignoring (record_event_handler_latency ms)
  | EUpsert n p subs b => ignoring (upsert_event_subscriber n p subs b)
  | EListLive ttl => ignoring (list_live_event_subscribers_with_ttl ttl)
  | ECancel id => ignoring (request_event_delivery_cancel id)
  | ECancelRequested id => ignoring (event_delivery_cancel_requested id)
  | EResume id => ignoring (resume_event_delivery id)
  | EPrune a b => ignoring (prune_event_deliveries a b)
  | EReconcile t => ignoring (reconcile_catalog_deliveries t)
  | EMetrics => ignoring event_delivery_metrics
  | EListByState st n => ignoring (list_domain_events_by_dispatch_state st n)
  | EListDispatched t k n => ignoring (list_dispatched_events_page t k n)
  | EPublishAtomic spec => ignoring (publish_domain_event_atomic spec)
  | EDispatchAtomic chunk id subs => ignoring (dispatch_event_deliveries_atomic chunk id subs)
  | EReconcileAtomic chunk t => ignoring (reconcile_catalog_deliveries_atomic chunk t)
  | EClaimHost o n ps k node => ignoring (claim_next_event_delivery_host_cas o n ps k node)
  end.

(** Every claim passes a cap within the configured one; retention is left out of a pool that
    [retain]s, and the claim behind a plugin, which acts on rows it read before, only runs there. *)
Definition event_admissible (retain : bool) (c : event_call) : Prop :=
  match c with
  | EClaim _ _ _ max_in_flight _ => max_in_flight ≤ in_flight_cap
  | EClaimHost _ _ _ max_in_flight _ => max_in_flight ≤ in_flight_cap ∧ retain = true
  | EPrune _ _ => retain = false
  | _ => True
  end.

Lemma safe_fenced retain f c : safe (outbox_evolves retain) outbox_wf (exec_fenced f c).
Proof.
  destruct c; simpl; [apply safe_release|apply safe_heartbeat| | |apply safe_dead_letter
    |apply safe_retry|apply safe_suspend|apply safe_fail]; by apply safe_finalize.
Qed.

Lemma safe_event_call retain c :
  event_admissible retain c → safe (outbox_evolves retain) outbox_wf (exec_event_call c).
Proof.
  intros Hc. destruct c; simpl in *; apply safe_bind; try (intros; apply safe_ret);
    unfold next_undispatched_event, get_domain_event, get_event_delivery, list_domain_events,
      list_event_deliveries, count_event_deliveries, record_event_handler_latency,
      upsert_event_subscriber, list_live_event_subscribers_with_ttl,
      list_live_event_subscriber_nodes, event_delivery_cancel_requested,
      list_domain_events_by_dispatch_state, list_dispatched_events_page;
    try by (repeat outbox_step).
  - apply safe_publish.
  - apply safe_dispatch.
  - apply safe_dispatch_catalog.
  - apply safe_process_wakes.
  - by apply safe_claim.
  - apply safe_fenced.
  - apply safe_reclaim.
  - apply safe_retry_dead_letter.
  - apply safe_acknowledge.
  - repeat outbox_step. apply safe_upsert.
  - apply safe_cancel.
  - apply safe_resume.
  - subst. apply safe_prune.
  - apply safe_reconcile_with, safe_dispatch.
  - apply safe_metrics.
  - apply safe_publish_atomic.
  - apply safe_dispatch_atomic.
  - apply safe_reconcile_with, safe_dispatch_atomic.
  - destruct Hc as [Hmax ->]. by apply safe_host_claim.
Qed.

(** A pool of outbox calls; around them, anything may happen to the rest of the store. *)
Definition outbox_step_pool (retain : bool) :=
  step (λ p, ∃ c, event_admissible retain c ∧ p = exec_event_call c) outbox_untouched.

End Calls.

Arguments event_call : clear implicits.

(** ** Fences *)

Section Fencing.
Context {C : Chrono} {U : Uuid} {Q : InFlightCap} {Value : Type} {JV : SerdeValue Value}.

Definition delivery_live (f : EventDeliveryFence) (s : Db) : Prop :=
  ∃ m, m ∈ event_deliveries_t s ∧ delivery_fence_matches f m = true.

(** The fence was issued on a row that is still there, and does not match any more. *)
Definition delivery_revoked (f : EventDeliveryFence) (s : Db) : Prop :=
  ∃ m, m ∈ event_deliveries_t s ∧ event_deliveries.id m = delivery_id f
    ∧ delivery_generation f ≤ event_deliveries.lease_generation m
    ∧ delivery_fence_matches f m = false.

Lemma delivery_fence_true f m :
  delivery_fence_matches f m = true ↔ event_deliveries.id m = delivery_id f ∧ delivery_running m
    ∧ event_deliveries.lease_owner m = Some (delivery_owner f)
    ∧ event_deliveries.lease_generation m = delivery_generation f.
Proof.
  unfold delivery_fence_matches. rewrite !andb_true_iff, !text_eq_true, sql_eq_true, Z.eqb_eq.
  unfold delivery_running. tauto.
Qed.

Lemma delivery_identity_id m m' :
  delivery_identity m' = delivery_identity m → event_deliveries.id m' = event_deliveries.id m.
Proof. intros H. by injection H. Qed.

Lemma delivery_revoked_stable f s s' :
  outbox_evolves true s s' → delivery_revoked f s → delivery_revoked f s'.
Proof.
  intros [_ Hev] (m & Hm & Hid & Hg & Hf). destruct (oh_kept _ _ (Hev eq_refl) m Hm) as (m' & Hm' & G).
  exists m'. pose proof (delivery_identity_id _ _ (dg_identity _ _ G)).
  pose proof (dg_generation _ _ G). split_and!; [done|congruence|lia|].
  apply not_true_iff_false. intros (_ & Hr & Ho & Hg')%delivery_fence_true.
  apply not_true_iff_false in Hf. apply Hf, delivery_fence_true.
  destruct (dg_running _ _ G) as [Hr' Ho']; [lia|done|]. split_and!; [done|done|congruence|lia].
Qed.

Lemma delivery_revoked_dead f s : outbox_wf s → delivery_revoked f s → ¬ delivery_live f s.
Proof.
  intros Hwf (m & Hm & Hid & _ & Hf) (m' & Hm' & Hf').
  assert (m' = m) as ->; [|congruence]. apply delivery_fence_true in Hf' as [? _].
  eapply (NoDup_key event_deliveries.id); [apply (owf_ids _ Hwf)|done..|congruence].
Qed.

Lemma delivery_live_revoked f s s' :
  outbox_wf s' → delivery_live f s → outbox_evolves true s s' → ¬ delivery_live f s' →
  delivery_revoked f s'.
Proof.
  intros Hwf' (m & Hm & Hf) [_ Hev] Hdead.
  destruct (oh_kept _ _ (Hev eq_refl) m Hm) as (m' & Hm' & G). exists m'.
  pose proof (delivery_identity_id _ _ (dg_identity _ _ G)). pose proof (dg_generation _ _ G).
  apply delivery_fence_true in Hf as (? & _ & _ & ?). split_and!; [done|congruence|lia|].
  apply not_true_iff_false. intros Hf'. apply Hdead. by exists m'.
Qed.

(** A delivery fence that named a running delivery and stopped matching never matches again in
    any later state of the outbox, as long as retention does not run. *)
Theorem delivery_fence_lost_forever f s s' s'' :
  outbox_wf s' → outbox_wf s'' → delivery_live f s → outbox_evolves true s s' →
  ¬ delivery_live f s' → outbox_evolves true s' s'' → ¬ delivery_live f s''.
Proof.
  intros Hwf' Hwf'' Hl Hev Hdead Hev'. apply delivery_revoked_dead; [done|].
  eapply delivery_revoked_stable; [exact Hev'|]. by eapply delivery_live_revoked.
Qed.

(** An acknowledged or rejected delivery is the same row, column for column, in every later
    state of the outbox that retention has not pruned. *)
Theorem settled_deliveries_are_final s s' m m' :
  outbox_wf s' → outbox_evolves true s s' → m ∈ event_deliveries_t s → delivery_settled m →
  m' ∈ event_deliveries_t s' → event_deliveries.id m' = event_deliveries.id m → m' = m.
Proof.
  intros Hwf' Hev Hm Hs Hm' Hid. by apply (dg_settled _ _ (outbox_row s s' m m' Hwf' Hev Hm Hm' Hid)).
Qed.

(** *** The holder of a revoked fence *)

Definition outbox_writes_nothing {A} (p : prog Db A) (P : A → Prop) (s : Db) : Prop :=
  wp (outbox_evolves true) (=) outbox_wf p (λ a _, P a) s.

Lemma delivery_revoked_update f upd (P : nat → Db → Prop) s :
  delivery_revoked f s → (∀ s', P 0%nat s') →
  wp (outbox_evolves true) (=) outbox_wf (event_deliveries_update (delivery_fence_matches f) upd) P s.
Proof.
  intros Hrev HP. apply wp_exec. intros s' Hev Hwf.
  pose proof (delivery_revoked_dead f s' Hwf (delivery_revoked_stable f s s' Hev Hrev)) as Hdead.
  rewrite update_rows_none.
  - cbn [fst snd].
    assert (s' <| event_deliveries_t := event_deliveries_t s' |> = s') as -> by by destruct s'. auto.
  - intros m Hm. apply not_true_iff_false. intros E. apply Hdead. by exists m.
Qed.

Lemma delivery_revoked_find f (P : option event_deliveries.Model → Db → Prop) s :
  delivery_revoked f s →
  (∀ s' o, (∀ m, o = Some m → delivery_is_fenced f m = false) → P o s') →
  wp (outbox_evolves true) (=) outbox_wf (event_deliveries_find_by_id (delivery_id f)) P s.
Proof.
  intros Hrev HP. apply wp_query; [apply _|]. intros s' Hev Hwf. apply HP.
  pose proof (delivery_revoked_dead f s' Hwf (delivery_revoked_stable f s s' Hev Hrev)) as Hdead.
  intros m Hf. apply find_where in Hf as [Hm Hid]. apply not_true_iff_false. intros Hrow.
  apply Hdead. exists m. split; [done|].
  unfold delivery_fence_matches. unfold delivery_is_fenced in Hrow. by rewrite Hid.
Qed.

Lemma own_clock {A} (k : Z → prog Db A) P s :
  (∀ s' now, outbox_evolves true s s' → wp (outbox_evolves true) (=) outbox_wf (k now) P s') →
  wp (outbox_evolves true) (=) outbox_wf (bind Utc_now k) P s.
Proof. intros H. apply wp_bind, wp_query; [apply _|]. auto. Qed.

(** What a fenced call returns when its fence is gone. *)
Definition refused (c : fenced_call) : result bool :=
  match c with
  | FSuspend cp _ _ wt wf _ =>
      match check_suspend cp (trim wt) (trim wf) with Ok _ => Ok false | Err e => Err e end
  | _ => Ok false
  end.

Lemma revoked_fenced_call c f s :
  delivery_revoked f s → outbox_writes_nothing (exec_fenced f c) (λ r, r = refused c) s.
Proof.
  intros Hrev. unfold outbox_writes_nothing.
  assert (Hupd : ∀ upd s', outbox_evolves true s s' → wp (outbox_evolves true) (=) outbox_wf
    (let* n := event_deliveries_update (delivery_fence_matches f) upd in Ret (Ok (n =? 1)%nat))
    (λ r _, r = Ok false) s').
  { intros upd s' Hev. apply wp_bind, delivery_revoked_update; [by eapply delivery_revoked_stable|done]. }
  assert (Hfin : ∀ st o e, wp (outbox_evolves true) (=) outbox_wf (finalize_delivery f st o e)
    (λ r _, r = Ok false) s).
  { intros. unfold finalize_delivery, now_str. apply wp_bind, own_clock. intros s' now Hev. by apply Hupd. }
  destruct c; cbn [exec_fenced refused];
    unfold release_unexecuted_event_delivery, heartbeat_event_delivery, now_str.
  - apply wp_bind, own_clock. intros s' now Hev. by apply Hupd.
  - apply own_clock. intros s' now Hev. by apply Hupd.
  - apply Hfin.
  - apply Hfin.
  - apply wp_try_bind. eapply wp_mono; [|apply Hfin]. by intros r s' ->.
  - apply wp_bind, delivery_revoked_find; [done|]. intros s' [m|] Hm; [|done]. by rewrite (Hm m eq_refl).
  - unfold suspend_event_delivery. destruct (check_suspend _ _ _); [|done].
    apply own_clock. intros s' now Hev. apply wp_bind, delivery_revoked_find;
      [by eapply delivery_revoked_stable|]. intros s'' [m|] Hm; [|done]. by rewrite (Hm m eq_refl).
  - apply wp_bind, delivery_revoked_find; [done|]. intros s' [m|] Hm; [|done]. by rewrite (Hm m eq_refl).
Qed.

(** A worker whose delivery fence has been revoked can no longer write: under any interference
    each of the eight fenced operations is refused (a suspension with malformed arguments
    reports those) and none of its accesses changes the store. *)
Theorem revoked_delivery_fence_cannot_write c f s :
  delivery_revoked f s → outbox_writes_nothing (exec_fenced f c) (λ r, r = refused c) s.
Proof. apply revoked_fenced_call. Qed.
End Fencing.
