(* ===== verification/EventSpec.v ===== *)
(** * What the outbox operations do, run alone

    Dispatch, claim, failure, suspension and reclaim against their specifications. *)

From stdpp Require Import base option list strings gmap pretty sorting.
From Stdlib Require Import ZArith Lia Sorted.
From S2P Require Import Prelude Schema Store Concurrency JobModels EventModels EventOutbox EventInvariant EventSafety EventClaim EventPool.

Local Open Scope Z_scope.

(** ** Counters *)

(** Only the counters differ. *)
Definition stats_only (s s' : Db) : Prop := ∃ t, s' = s <| event_outbox_stats_t := t |>.

Lemma run_bump_stats a b c d e s :
  ∃ s', run (bump_event_stats a b c d e) s = (Ok (), s') ∧ stats_only s s'.
Proof.
  unfold bump_event_stats, ensure_event_outbox_stats, event_outbox_stats_find.
  rewrite run_try_bind, run_bind. cbn [run query fst snd].
  destruct (List.find _ (event_outbox_stats_t s)) as [r|] eqn:E.
  { eexists. split; [reflexivity|]. by eexists. }
  assert (Ex : existsb (λ r, event_outbox_stats.id r =? EVENT_OUTBOX_STATS_ID)
    (event_outbox_stats_t s) = false).
  { apply existsb_false. intros x Hx. by eapply find_where_none in E. }
  rewrite run_bind. cbn [run exec fst snd]. rewrite Ex. rewrite run_bind. cbn [run query fst snd].
  change (event_outbox_stats_t (s <| event_outbox_stats_t := ?t |>)) with t.
  rewrite find_app, E. eexists. split; [reflexivity|]. by eexists.
Qed.

(** ** Dispatch *)

Fixpoint colon_free (s : string) : bool :=
  match s with
  | EmptyString => true
  | String c s => negb (Ascii.eqb c (byte 58)) && colon_free s
  end.

(** Delivery ids are [event_id:plugin_id], unambiguous when event ids have no colon. *)
Definition well_keyed (d : event_deliveries.Model) : Prop :=
  event_deliveries.id d = event_deliveries.event_id d +:+ ":" +:+ event_deliveries.plugin_id d
  ∧ event_deliveries.idempotency_key d = event_deliveries.id d
  ∧ colon_free (event_deliveries.event_id d) = true.

Lemma colon_split a b x y :
  colon_free a = true → colon_free b = true →
  a +:+ ":" +:+ x = b +:+ ":" +:+ y → a = b ∧ x = y.
Proof.
  revert b. induction a as [|c a IH]; intros [|d b]; simpl; intros Ha Hb.
  - intros [= H]. split; [done|exact H].
  - intros [= <- _]. done.
  - intros [= -> _]. done.
  - apply andb_prop in Ha as [_ Ha]. apply andb_prop in Hb as [_ Hb].
    intros [= -> Hr]. apply IH in Hr as [-> ->]; done.
Qed.

Section Dispatch.
Context {C : Chrono} {U : Uuid}.

(** The plugins of [subs] a delivery is still missing for, given those that [have] one. *)
Fixpoint missing_plugins (have : list string) (subs : list EventSubscriber) : list string :=
  match subs with
  | [] => []
  | sub :: subs =>
      if deliverable sub && negb (is_in (sub_plugin_id sub) have)
      then sub_plugin_id sub :: missing_plugins (sub_plugin_id sub :: have) subs
      else missing_plugins have subs
  end.

(** The plugins that have a delivery of the event. *)
Definition delivered_plugins (event_id : string) (t : list event_deliveries.Model) : list string :=
  map event_deliveries.plugin_id
    (List.filter (λ d, text_eq (event_deliveries.event_id d) event_id) t).

Lemma delivered_elem_of event_id t p :
  p ∈ delivered_plugins event_id t ↔
  ∃ d, d ∈ t ∧ event_deliveries.event_id d = event_id ∧ event_deliveries.plugin_id d = p.
Proof.
  unfold delivered_plugins. rewrite list_elem_of_fmap. setoid_rewrite elem_of_where.
  setoid_rewrite text_eq_true. naive_solver.
Qed.

(** A conflict on any key of the table is a delivery of the same pair. *)
Lemma same_delivery_pair e event_id plugin now d :
  well_keyed d → colon_free event_id = true →
  same_delivery (new_delivery_row e event_id plugin now) d = true ↔
  event_deliveries.event_id d = event_id ∧ event_deliveries.plugin_id d = plugin.
Proof.
  intros (Hid & Hik & Hcf) Hc. unfold same_delivery. cbn.
  rewrite !orb_true_iff, andb_true_iff, !text_eq_true, Hik, Hid. split; [|auto].
  intros [[H|H]|H]; [by apply colon_split in H|by apply colon_split in H|done].
Qed.

Lemma missing_ext have have' subs :
  (∀ p, p ∈ have ↔ p ∈ have') → missing_plugins have subs = missing_plugins have' subs.
Proof.
  revert have have'. induction subs as [|sub subs IH]; intros have have' H; simpl; [done|].
  assert (is_in (sub_plugin_id sub) have = is_in (sub_plugin_id sub) have') as ->.
  { apply eq_true_iff_eq. by rewrite !is_in_true. }
  destruct (_ && _); [f_equal|]; apply IH; [|done]. intros p. rewrite !elem_of_cons, H. done.
Qed.

(** The insert loop appends exactly the missing deliveries. *)
Lemma run_dispatch_loop e event_id now subs s n :
  (∀ d, d ∈ event_deliveries_t s → well_keyed d) → colon_free event_id = true →
  existsb (λ r, text_eq (domain_events.id r) event_id) (domain_events_t s) = true →
  let new := missing_plugins (delivered_plugins event_id (event_deliveries_t s)) subs in
  run (for_each subs n (dispatch_one e event_id now)) s =
  (Ok (n + Z.of_nat (length new)),
   s <| event_deliveries_t := event_deliveries_t s
          ++ map (λ p, new_delivery_row e event_id p now) new |>).
Proof.
  revert s n. induction subs as [|sub subs IH]; intros s n Hk Hc He new.
  { unfold new. simpl. rewrite app_nil_r, Z.add_0_r. by destruct s. }
  unfold new. cbn [for_each missing_plugins]. rewrite run_try_bind. unfold dispatch_one at 1.
  destruct (deliverable sub); cbn [negb andb]; [|apply IH; done].
  rewrite run_bind. unfold event_deliveries_insert at 1 2. cbn [run exec fst snd].
  assert (Hin : existsb (same_delivery (new_delivery_row e event_id (sub_plugin_id sub) now))
    (event_deliveries_t s) = is_in (sub_plugin_id sub) (delivered_plugins event_id (event_deliveries_t s))).
  { apply eq_true_iff_eq. rewrite is_in_true, delivered_elem_of, existsb_exists.
    setoid_rewrite <-list_elem_of_In. split.
    - intros (d & Hd & Hs). exists d. split; [done|]. by apply same_delivery_pair in Hs; [|auto..].
    - intros (d & Hd & Hp). exists d. split; [done|]. apply same_delivery_pair; auto. }
  rewrite Hin. destruct (is_in _ _); cbn [negb].
  { cbn [fst snd is_unique_violation run]. apply IH; done. }
  cbn [event_deliveries.event_id new_delivery_row]. rewrite He. cbn [negb fst snd run].
  assert (Hm : missing_plugins (delivered_plugins event_id (event_deliveries_t s
      ++ [new_delivery_row e event_id (sub_plugin_id sub) now])) subs
    = missing_plugins (sub_plugin_id sub :: delivered_plugins event_id (event_deliveries_t s)) subs).
  { apply missing_ext. intros p. unfold delivered_plugins. rewrite List.filter_app, map_app. cbn.
    rewrite text_eq_refl. cbn. set_solver. }
  rewrite IH.
  - change (event_deliveries_t (s <| event_deliveries_t := ?t |>)) with t. rewrite Hm. f_equal.
    + f_equal. cbn [length]. lia.
    + rewrite <-app_assoc. by destruct s.
  - cbn. intros d [Hd| ->%list_elem_of_singleton]%elem_of_app; [auto|]. by split_and!.
  - done.
  - done.
Qed.

Lemma exists_cons {A} (P : A → Prop) x l : (∃ y, y ∈ x :: l ∧ P y) ↔ P x ∨ ∃ y, y ∈ l ∧ P y.
Proof. setoid_rewrite elem_of_cons. naive_solver. Qed.

Lemma missing_elem_of have subs p :
  p ∈ missing_plugins have subs ↔
  p ∉ have ∧ ∃ sub, sub ∈ subs ∧ deliverable sub = true ∧ sub_plugin_id sub = p.
Proof.
  revert have. induction subs as [|sub subs IH]; intros have.
  { split; [by intros ?%not_elem_of_nil|]. by intros (_ & ? & ?%not_elem_of_nil & _). }
  rewrite exists_cons. cbn [missing_plugins]. destruct (deliverable sub); cbn [andb].
  - destruct (is_in (sub_plugin_id sub) have) eqn:Ei; cbn [negb].
    + apply is_in_true in Ei. rewrite IH. naive_solver.
    + assert (sub_plugin_id sub ∉ have) by (rewrite <-is_in_true; congruence).
      rewrite elem_of_cons, IH, not_elem_of_cons.
      destruct (decide (p = sub_plugin_id sub)) as [->|]; naive_solver.
  - rewrite IH. naive_solver.
Qed.

Lemma missing_NoDup have subs : NoDup (missing_plugins have subs).
Proof.
  revert have. induction subs as [|sub subs IH]; intros have; simpl; [constructor|].
  destruct (_ && _); [|done]. constructor; [|done]. rewrite missing_elem_of, not_elem_of_cons. naive_solver.
Qed.

(** The envelope's row after its dispatch. *)
Definition dispatched (event_id : string) (t : list domain_events.Model) : list domain_events.Model :=
  map (λ m, if text_eq (domain_events.id m) event_id
               && text_eq (domain_events.dispatch_state m) STATE_PENDING
            then m <| domain_events.dispatch_state := STATE_DISPATCHED |> else m) t.

Lemma run_dispatch event_id subs s e :
  (∀ d, d ∈ event_deliveries_t s → well_keyed d) → colon_free event_id = true →
  List.find (λ m, text_eq (domain_events.id m) event_id) (domain_events_t s) = Some e →
  let new := missing_plugins (delivered_plugins event_id (event_deliveries_t s)) subs in
  let r := run (dispatch_event_deliveries event_id subs) s in
  r.1 = Ok (Z.of_nat (length new)) ∧ clock r.2 = clock s
  ∧ event_deliveries_t r.2 = event_deliveries_t s
      ++ map (λ p, new_delivery_row e event_id p (to_rfc3339 (clock s))) new
  ∧ domain_events_t r.2 = dispatched event_id (domain_events_t s).
Proof.
  intros Hk Hc Hf new r.
  assert (He : existsb (λ m, text_eq (domain_events.id m) event_id) (domain_events_t s) = true).
  { apply find_where in Hf as [Hin Hid]. apply existsb_exists. exists e. by rewrite <-list_elem_of_In. }
  enough (∃ s', r = (Ok (Z.of_nat (length new)), s') ∧ clock s' = clock s
    ∧ event_deliveries_t s' = event_deliveries_t s
        ++ map (λ p, new_delivery_row e event_id p (to_rfc3339 (clock s))) new
    ∧ domain_events_t s' = dispatched event_id (domain_events_t s)) as (s' & -> & ?) by done.
  unfold r, dispatch_event_deliveries. rewrite run_txn. unfold dispatch_event_deliveries_on.
  rewrite run_bind. cbn [run domain_events_find_by_id query fst snd]. rewrite Hf.
  rewrite run_bind. change (run now_str s) with (to_rfc3339 (clock s), s). cbn [fst snd].
  rewrite run_bind. assert (Hp : ∃ z, run (parse_dt_io (domain_events.created_at e)) s = (z, s)).
  { unfold parse_dt_io. destruct (parse_from_rfc3339 _); by eexists. }
  destruct Hp as [z ->]. cbn [fst snd].
  rewrite run_try_bind, run_dispatch_loop by done. rewrite Z.add_0_l. fold new.
  rewrite run_bind. unfold domain_events_update at 1 2. cbn [run exec fst snd].
  destruct (_ && _); [|eexists; split; [reflexivity|by split_and!]].
  rewrite run_bind. cbn [run Utc_now query fst snd]. rewrite run_try_bind.
  match goal with |- context [run (bump_event_stats ?a ?b ?c ?d ?e) ?s0] =>
    destruct (run_bump_stats a b c d e s0) as (s' & -> & t & ->) end.
  eexists. split; [reflexivity|by split_and!].
Qed.

End Dispatch.

(** ** Claim *)

Section ClaimSpec.
Context {C : Chrono} {U : Uuid} {Q : InFlightCap} {Value : Type} {JV : SerdeValue Value}.
Context {JS : SerdeJson (list (EventCatalogSubscription Value))}.

(** C35: The paged claim loop always ends and equals one scan of the due deliveries in creation
    order: it leases the first one that no older unfinished delivery of its ordering key blocks,
    that the node subscribes to and that has room under the in-flight cap, and returns nothing
    exactly when there is none; the page boundaries are invisible. *)
Theorem claim_is_one_scan owner lease_secs plugin_ids max node_id s :
  outbox_wf s → plugin_ids ≠ [] →
  let s1 := tidied_outbox s in
  let now_s := to_rfc3339 (clock s) in
  let lease := claimed_delivery_row in
  let best := List.find (claimable_delivery s1 node_id max) (delivery_queue s1 now_s plugin_ids) in
  let r := run (claim_next_event_delivery owner lease_secs plugin_ids max node_id) s in
  r.1 = Ok ((λ m, map_delivery (clock s) (lease m owner (claim_expiry s lease_secs) now_s m)) <$> best)
  ∧ event_deliveries_t r.2 =
      match best with
      | Some m => set_by event_deliveries.id (event_deliveries.id m)
                    (lease m owner (claim_expiry s lease_secs) now_s m) (event_deliveries_t s1)
      | None => event_deliveries_t s1
      end
  ∧ domain_events_t r.2 = domain_events_t s.
Proof.
  intros Hwf Hne s1 now_s lease best r.
  pose proof (run_claim owner lease_secs plugin_ids max node_id s (owf_ids _ Hwf) Hne) as H.
  unfold scan_result in H. fold s1 now_s r best in H.
  destruct best as [m|]; destruct H as [-> [g ->]]; by split_and!.
Qed.

(** Rows of a known class survive the tidying. *)
Lemma sanitized_known now_s t m :
  m ∈ sanitized now_s t → event_deliveries.state m ≠ STATE_REJECTED → m ∈ t.
Proof.
  unfold sanitized, reject_ids. intros (x & -> & Hx)%list_elem_of_fmap Hs.
  destruct (is_in _ _); [done|done].
Qed.

(** A claimed delivery was due and pending for one of the requested plugins, keeps its identity,
    advances its generation by one, carries a live fence, has no older unfinished delivery under
    its ordering key, and leaves its plugin within the in-flight cap. *)
Theorem claimed_delivery_is_next owner lease_secs plugin_ids max node_id s d s' :
  outbox_wf s → max ≤ in_flight_cap → plugin_ids ≠ [] →
  run (claim_next_event_delivery owner lease_secs plugin_ids max node_id) s = (Ok (Some d), s') →
  ∃ m m', m ∈ event_deliveries_t s ∧ m' ∈ event_deliveries_t s'
    ∧ delivery_pending m ∧ event_deliveries.plugin_id m ∈ plugin_ids
    ∧ text_le (event_deliveries.run_after m) (to_rfc3339 (clock s)) = true
    ∧ delivery_identity m' = delivery_identity m
    ∧ event_deliveries.lease_generation m' = event_deliveries.lease_generation m + 1
    ∧ event_deliveries.attempt_count m' = delivery_attempt m
    ∧ delivery_fence_matches (delivery_fence d) m' = true
    ∧ (∀ o, o ∈ event_deliveries_t s' → event_deliveries.ordering_key m ≠ "" →
         fifo_before m' o = false)
    ∧ in_flight_count s' (event_deliveries.plugin_id m) EVENT_RESOURCE_CLASS_NETWORK ≤ max.
Proof.
  intros Hwf Hmax Hne Hr.
  destruct (claim_cases owner lease_secs plugin_ids max node_id s Hwf Hne) as [[H _]|H];
    rewrite Hr in H; [done|]. cbn [fst snd] in H.
  destruct H as (m & Hm & Hd & Hc & [= Hdd] & g & Hs').
  destruct (tidied_outbox_ok true s Hwf) as [_ Hwf1].
  destruct (leased_in_ok true (tidied_outbox s) owner (claim_expiry s lease_secs) _ _ _ max m
    Hwf1 Hmax Hm Hd Hc) as (_ & _ & Hcap).
  destruct (due_pending _ _ _ Hd) as (Hp & Hcl & Hpl & Hrun).
  set (row := claimed_delivery_row m owner (claim_expiry s lease_secs) (to_rfc3339 (clock s)) m) in *.
  assert (Hrow : delivery_identity row = delivery_identity m
    ∧ event_deliveries.lease_generation row = event_deliveries.lease_generation m + 1
    ∧ event_deliveries.attempt_count row = delivery_attempt m
    ∧ event_deliveries.lease_owner row = Some owner ∧ delivery_running row).
  { unfold row, claimed_delivery_row. by destruct (delivery_resuming m). }
  destruct Hrow as (Hi & Hg & Ha & Ho & Hrn).
  exists m, row. split_and!; try done.
  - apply (sanitized_known (to_rfc3339 (clock s))); [exact Hm|]. by rewrite Hp.
  - rewrite Hs'. apply set_by_elem, Hm.
  - rewrite Hdd. apply delivery_fence_true. unfold delivery_fence. simpl. by rewrite Ho.
  - intros o Hin Hkey. rewrite Hs' in Hin. apply list_elem_of_fmap in Hin as (x & -> & Hx).
    assert (Hb : ∀ y, fifo_before row y = fifo_before m y).
    { intros y. unfold row, claimed_delivery_row. by destruct (delivery_resuming m). }
    rewrite Hb. destruct (text_eq _ _).
    + apply not_true_iff_false. unfold fifo_before. rewrite !andb_true_iff, text_lt_spec.
      intros [[_ [_ Hlt]] _]. apply Hlt. by injection Hi.
    + apply andb_prop in Hc as [[Hc _]%andb_prop _]. unfold fifo_blocked_in in Hc.
      apply negb_true_iff, andb_false_iff in Hc as [Hc|Hc].
      * apply negb_false_iff, text_eq_true in Hc. done.
      * by apply (proj1 (existsb_false _ _) Hc).
  - rewrite Hs'. exact Hcap.
Qed.
End ClaimSpec.

(** ** Outcomes of the lease holder *)

Section Holder.
Context {C : Chrono} {U : Uuid} {Q : InFlightCap} {Value : Type} {JV : SerdeValue Value}.

Lemma run_fenced_delivery s f m upd :
  outbox_wf s → m ∈ event_deliveries_t s → delivery_fence_matches f m = true →
  run (event_deliveries_update (delivery_fence_matches f) upd) s =
  (1%nat, s <| event_deliveries_t :=
                set_by event_deliveries.id (event_deliveries.id m) (upd m) (event_deliveries_t s) |>).
Proof.
  intros Hwf Hm Hf. unfold event_deliveries_update. cbn [run exec fst snd].
  rewrite (update_by_key event_deliveries.id _ _ m); [done|apply Hwf|done|done|].
  intros r [? _]%delivery_fence_true. apply delivery_fence_true in Hf as [? _]. congruence.
Qed.

Lemma run_find_delivery s f m :
  outbox_wf s → m ∈ event_deliveries_t s → delivery_fence_matches f m = true →
  run (event_deliveries_find_by_id (delivery_id f)) s = (Some m, s) ∧ delivery_is_fenced f m = true.
Proof.
  intros Hwf Hm Hf. split.
  - cbn [run event_deliveries_find_by_id query fst snd].
    apply delivery_fence_true in Hf as [Hid _].
    by rewrite (find_by_key event_deliveries.id _ m) by (done || apply Hwf).
  - unfold delivery_fence_matches in Hf. unfold delivery_is_fenced.
    apply andb_prop in Hf as [[[_ H1]%andb_prop H2]%andb_prop H3]. by rewrite H1, H2, H3.
Qed.

(** The row replaced and the counters bumped. *)
Definition settles (s : Db) (m m' : event_deliveries.Model) (r : result bool * Db) : Prop :=
  ∃ t, r = (Ok true, s <| event_deliveries_t := set_by event_deliveries.id (event_deliveries.id m) m'
                                                  (event_deliveries_t s) |>
                       <| event_outbox_stats_t := t |>).

(** The common tail of the holder's operations. *)
Lemma run_update_bump s f m upd a b c d e :
  outbox_wf s → m ∈ event_deliveries_t s → delivery_fence_matches f m = true →
  settles s m (upd m) (run (let* n := event_deliveries_update (delivery_fence_matches f) upd in
    if (n =? 1)%nat then let? _ := bump_event_stats a b c d e in Ret (Ok true) else Ret (Ok false)) s).
Proof.
  intros Hwf Hm Hf. unfold settles. rewrite run_bind, (run_fenced_delivery s f m) by done.
  cbn [fst snd Nat.eqb]. rewrite run_try_bind.
  match goal with |- context [run (bump_event_stats a b c d e) ?s0] =>
    destruct (run_bump_stats a b c d e s0) as (s' & -> & t & ->) end. by exists t.
Qed.

Lemma run_dead_letter s f m reason :
  outbox_wf s → m ∈ event_deliveries_t s → delivery_fence_matches f m = true →
  settles s m (finalized_row STATE_DEAD_LETTER (Some "dead_letter") (Some reason)
                 (to_rfc3339 (clock s)) m) (run (dead_letter_event_delivery f reason) s).
Proof.
  intros Hwf Hm Hf. unfold dead_letter_event_delivery, finalize_delivery, settles.
  rewrite run_try_bind, run_bind. change (run now_str s) with (to_rfc3339 (clock s), s). cbn [fst snd].
  rewrite run_bind, (run_fenced_delivery s f m) by done. cbn [fst snd Nat.eqb run].
  rewrite run_try_bind.
  match goal with |- context [run (bump_event_stats ?a ?b ?c ?d ?e) ?s0] =>
    destruct (run_bump_stats a b c d e s0) as (s' & -> & t & ->) end. by exists t.
Qed.

Lemma run_retry s f m run_after reason :
  outbox_wf s → m ∈ event_deliveries_t s → delivery_fence_matches f m = true →
  settles s m
    (if event_deliveries.max_attempts m <=? event_deliveries.attempt_count m
     then finalized_row STATE_DEAD_LETTER (Some "dead_letter")
            (Some ("retry exhausted after " +:+ pretty (event_deliveries.attempt_count m)
                   +:+ " attempts: " +:+ reason)) (to_rfc3339 (clock s)) m
     else retried_row (to_rfc3339 run_after) reason (to_rfc3339 (clock s)) m)
    (run (retry_event_delivery f run_after reason) s).
Proof.
  intros Hwf Hm Hf. destruct (run_find_delivery s f m Hwf Hm Hf) as [Hfind Hfen].
  unfold retry_event_delivery. rewrite run_bind, Hfind. cbn [fst snd]. rewrite Hfen. cbn [negb].
  destruct (_ <=? _); [by apply run_dead_letter|].
  rewrite run_bind. change (run now_str s) with (to_rfc3339 (clock s), s). cbn [fst snd].
  by apply run_update_bump.
Qed.

(** A failed delivery returns to pending with the exponential backoff while attempts are left
    and becomes a dead letter when the budget is spent; no other delivery changes. *)
Theorem fail_event_delivery_spec s f m reason :
  outbox_wf s → m ∈ event_deliveries_t s → delivery_fence_matches f m = true →
  settles s m
    (if event_deliveries.max_attempts m <=? event_deliveries.attempt_count m
     then finalized_row STATE_DEAD_LETTER (Some "dead_letter") (Some reason) (to_rfc3339 (clock s)) m
     else retried_row
            (to_rfc3339 (job_backoff_run_after (event_deliveries.attempt_count m) (clock s)))
            reason (to_rfc3339 (clock s)) m)
    (run (fail_event_delivery f reason) s).
Proof.
  intros Hwf Hm Hf. destruct (run_find_delivery s f m Hwf Hm Hf) as [Hfind Hfen].
  unfold fail_event_delivery. rewrite run_bind, Hfind. cbn [fst snd]. rewrite Hfen. cbn [negb].
  destruct (_ <=? _) eqn:E; [by apply run_dead_letter|].
  rewrite run_bind. cbn [run Utc_now query fst snd].
  pose proof (run_retry s f m (job_backoff_run_after (event_deliveries.attempt_count m) (clock s))
    reason Hwf Hm Hf) as H. by rewrite E in H.
Qed.

Theorem suspended_delivery_resumes s f m cp version wake_at wt wf wg owner expires now_s :
  outbox_wf s → m ∈ event_deliveries_t s → delivery_fence_matches f m = true →
  check_suspend cp (trim wt) (trim wf) = Ok () →
  ∃ parked, settles s m parked (run (suspend_event_delivery f cp version wake_at wt wf wg) s)
    ∧ delivery_pending parked ∧ event_deliveries.lease_owner parked = None
    ∧ event_deliveries.run_after parked =
        (if negb (str_is_empty (trim wt)) && (timestamp_millis wake_at <=? 0)
         then EVENT_WAKE_FAR_FUTURE else to_rfc3339 wake_at)
    ∧ event_deliveries.wake_event_type parked = trim wt
    ∧ let resumed := claimed_delivery_row parked owner expires now_s parked in
      event_deliveries.checkpoint_json resumed = Some cp
      ∧ event_deliveries.attempt_count resumed = event_deliveries.attempt_count m
      ∧ event_deliveries.invocation_sequence resumed = event_deliveries.invocation_sequence m + 1
      ∧ event_deliveries.lease_generation resumed = event_deliveries.lease_generation m + 1
      ∧ event_deliveries.resume_pending resumed = 0.
Proof.
  intros Hwf Hm Hf Hck. destruct (run_find_delivery s f m Hwf Hm Hf) as [Hfind Hfen].
  pose proof (dok_running _ (owf_rows _ Hwf m Hm) (delivery_fence_running f m Hf)) as (_ & _ & Ha & _).
  eexists. split.
  - unfold suspend_event_delivery. cbv zeta. rewrite Hck. rewrite run_bind. cbn [run Utc_now query fst snd].
    rewrite run_bind, Hfind. cbn [fst snd]. rewrite Hfen. cbn [negb]. by apply run_update_bump.
  - split_and!; try done. cbn. split_and!; try done. unfold delivery_attempt. cbn. lia.
Qed.
End Holder.

(** ** Reclaim *)

Lemma run_deliveries_update p f s :
  run (event_deliveries_update p f) s =
  ((update_rows p f (event_deliveries_t s)).1,
   s <| event_deliveries_t := (update_rows p f (event_deliveries_t s)).2 |>).
Proof. done. Qed.

Section Reclaim.
Context {C : Chrono} {U : Uuid} {Q : InFlightCap}.

(** One row of the reclaim pass. *)
Definition reclaim_delivery_row (now_s : string) (m : event_deliveries.Model)
    : event_deliveries.Model :=
  if expired_running now_s m
  then if event_deliveries.cancel_requested m =? 1 then operator_cancelled_row now_s m
       else reclaimed_delivery_row now_s m
  else m.

Lemma count_where_cons {A} (p : A → bool) x l :
  length (List.filter p (x :: l)) = ((if p x then 1 else 0) + length (List.filter p l))%nat.
Proof. simpl. by destruct (p x). Qed.

(** The two statements on one row. *)
Lemma reclaim_row_cases now_s m :
  let m1 := if expired_cancelled now_s m then operator_cancelled_row now_s m else m in
  ((if expired_cancelled now_s m then 1 else 0) + (if expired_running now_s m1 then 1 else 0))%nat
    = (if expired_running now_s m then 1 else 0)%nat
  ∧ (if expired_running now_s m1 then reclaimed_delivery_row now_s m1 else m1)
    = reclaim_delivery_row now_s m.
Proof.
  unfold reclaim_delivery_row, expired_cancelled.
  destruct (event_deliveries.cancel_requested m =? 1) eqn:E2.
  - rewrite andb_true_r. fold (expired_running now_s m).
    destruct (expired_running now_s m) eqn:E; simpl; [done|]. by rewrite E.
  - rewrite andb_false_r. simpl. done.
Qed.

Lemma reclaim_counts now_s t :
  let t1 := (update_rows (expired_cancelled now_s) (operator_cancelled_row now_s) t).2 in
  (length (List.filter (expired_cancelled now_s) t)
   + length (List.filter (expired_running now_s) t1))%nat
    = length (List.filter (expired_running now_s) t)
  ∧ (update_rows (expired_running now_s) (reclaimed_delivery_row now_s) t1).2
    = map (reclaim_delivery_row now_s) t.
Proof.
  unfold update_rows. cbn [snd]. induction t as [|m t [IH1 IH2]]; [done|].
  destruct (reclaim_row_cases now_s m) as [H1 H2]. cbn [map]. rewrite !count_where_cons.
  split; [lia|]. by rewrite H2, IH2.
Qed.

Theorem delivery_reclaim_is_one_pass s :
  let r := run reclaim_expired_event_deliveries s in
  r.1 = Ok (Z.min (Z.of_nat (length (List.filter (expired_running (to_rfc3339 (clock s)))
                                       (event_deliveries_t s)))) u32_MAX)
  ∧ event_deliveries_t r.2 = map (reclaim_delivery_row (to_rfc3339 (clock s))) (event_deliveries_t s)
  ∧ domain_events_t r.2 = domain_events_t s.
Proof.
  intros r. set (now_s := to_rfc3339 (clock s)).
  destruct (reclaim_counts now_s (event_deliveries_t s)) as [Hn Ht].
  enough (∃ t n, r = (Ok (default u32_MAX (u32_try_from (Z.of_nat n))),
    s <| event_deliveries_t := map (reclaim_delivery_row now_s) (event_deliveries_t s) |>
      <| event_outbox_stats_t := t |>)
    ∧ n = length (List.filter (expired_running now_s) (event_deliveries_t s))) as (t & n & -> & ->).
  { split_and!; [|done..]. cbn. f_equal. unfold u32_try_from. destruct (_ <=? _) eqn:E; where_clauses; simpl; lia. }
  unfold r, reclaim_expired_event_deliveries. rewrite run_bind. cbn [run Utc_now query fst snd].
  fold now_s. rewrite run_bind, run_deliveries_update. cbn [fst snd].
  rewrite run_bind, run_deliveries_update. cbn [fst snd].
  change (event_deliveries_t (s <| event_deliveries_t := ?t |>)) with t. rewrite Ht. unfold update_rows in Hn |- *. cbn [fst snd] in Hn |- *.
  rewrite run_try_bind. destruct (0 <? _)%nat.
  - match goal with |- context [run (bump_event_stats ?a ?b ?c ?d ?e) ?s0] =>
      destruct (run_bump_stats a b c d e s0) as (s' & -> & t & ->) end.
    exists t. eexists. split; [reflexivity|exact Hn].
  - exists (event_outbox_stats_t s). eexists. split; [|exact Hn]. by destruct s.
Qed.
End Reclaim.
