(* ===== verification/EventWake.v ===== *)
(** * The wake pass

    One page of the pass over suspended deliveries against its specification: the statements in
    chunks against one statement, the accounts read in chunks against the envelopes, the cursor
    against the sleepers still to visit. *)

From stdpp Require Import base option list strings gmap pretty sorting.
From Stdlib Require Import ZArith Lia Sorted.
From S2P Require Import Prelude Schema Store Concurrency JobModels EventModels EventOutbox EventInvariant EventSafety EventClaim EventSpec.

Local Open Scope Z_scope.

(** ** Chunks *)

Lemma concat_chunks_go {A} fuel n (l : list A) :
  (1 ≤ n)%nat → (length l ≤ fuel)%nat → concat (chunks_go fuel n l) = l.
Proof.
  intros Hn. revert l. induction fuel as [|fuel IH]; intros [|x l] Hl; try done; [simpl in Hl; lia|].
  cbn [chunks_go concat]. rewrite IH; [apply take_drop|]. rewrite length_drop. simpl in *. lia.
Qed.

Lemma concat_chunks {A} n (l : list A) : (1 ≤ n)%nat → concat (chunks n l) = l.
Proof. intros Hn. by apply concat_chunks_go. Qed.

Lemma is_in_app a l l' : is_in a (l ++ l') = is_in a l || is_in a l'.
Proof. apply existsb_app. Qed.

(** ** Accounts *)

Definition account_of (s : Db) (event_id : string) : option string :=
  domain_events.account_id <$>
    List.find (λ e, text_eq (domain_events.id e) event_id) (domain_events_t s).

Lemma fold_accounts (ps : list domain_events.Model) (acc : gmap string string) k :
  NoDup (map domain_events.id ps) →
  fold_left (λ acc p, <[domain_events.id p := domain_events.account_id p]> acc) ps acc !! k =
  match List.find (λ e, text_eq (domain_events.id e) k) ps with
  | Some e => Some (domain_events.account_id e)
  | None => acc !! k
  end.
Proof.
  revert acc. induction ps as [|p ps IH]; intros acc; simpl; [done|]. intros [Hp Hnd]%NoDup_cons.
  rewrite IH by done. destruct (text_eq (domain_events.id p) k) eqn:E.
  - apply text_eq_true in E as <-. destruct (List.find _ ps) as [e|] eqn:Ef; [|by rewrite lookup_insert_eq].
    apply find_where in Ef as [He Hid%text_eq_true]. destruct Hp. rewrite <-Hid.
    by apply list_elem_of_fmap_2.
  - apply text_eq_false in E. by rewrite lookup_insert_ne.
Qed.

Lemma find_in_chunk (ids : list string) k (es : list domain_events.Model) :
  List.find (λ e, text_eq (domain_events.id e) k)
    (List.filter (λ m, is_in (domain_events.id m) ids) es) =
  if is_in k ids then List.find (λ e, text_eq (domain_events.id e) k) es else None.
Proof.
  induction es as [|e es IH]; simpl; [by destruct (is_in k ids)|].
  destruct (is_in (domain_events.id e) ids) eqn:Ei; simpl;
    destruct (text_eq (domain_events.id e) k) eqn:E; rewrite ?IH; try done;
    apply text_eq_true in E as <-; by rewrite Ei.
Qed.

Lemma run_load_chunks cs s (acc : gmap string string) :
  NoDup (map domain_events.id (domain_events_t s)) →
  ∃ acc', run (for_each cs acc (λ accounts chunk,
      let* parents := domain_events_select (λ m, is_in (domain_events.id m) chunk) in
      Ret (Ok (fold_left (λ acc p, <[domain_events.id p := domain_events.account_id p]> acc)
                 parents accounts)))) s = (Ok acc', s)
  ∧ ∀ k, acc' !! k = if is_in k (concat cs)
                     then match account_of s k with Some a => Some a | None => acc !! k end
                     else acc !! k.
Proof.
  intros Hnd. revert acc. induction cs as [|c cs IH]; intros acc; [by exists acc|].
  cbn [for_each]. rewrite run_try_bind, run_bind. cbn [run domain_events_select query fst snd].
  destruct (IH (fold_left (λ acc p, <[domain_events.id p := domain_events.account_id p]> acc)
    (List.filter (λ m, is_in (domain_events.id m) c) (domain_events_t s)) acc)) as (acc' & -> & H).
  exists acc'. split; [done|]. intros k. rewrite H, fold_accounts by by apply NoDup_where.
  rewrite find_in_chunk. cbn [concat]. rewrite is_in_app. unfold account_of.
  destruct (is_in k c), (is_in k (concat cs)); simpl; try done; by destruct (List.find _ _).
Qed.

Lemma run_load_accounts ids binds s :
  NoDup (map domain_events.id (domain_events_t s)) →
  ∃ acc, run (load_accounts ids binds) s = (Ok acc, s) ∧ ∀ k, k ∈ ids → acc !! k = account_of s k.
Proof.
  intros Hnd. destruct (run_load_chunks (chunks (Z.to_nat (Z.max binds 1)) ids) s ∅ Hnd)
    as (acc & Hr & H). exists acc. split; [exact Hr|]. intros k Hk.
  rewrite H, concat_chunks, (proj2 (is_in_true k ids) Hk) by lia. rewrite lookup_empty.
  by destruct (account_of s k).
Qed.

Section Wake.
Context {C : Chrono} {U : Uuid} {Value : Type} {JV : SerdeValue Value}.
Context {JG : SerdeJson (list (EventWakeGrant Value))}.

(** ** The fenced statements *)

Definition woken_if (ids : list string) (now : string) (m : event_deliveries.Model)
    : event_deliveries.Model :=
  if is_in (event_deliveries.id m) ids && text_eq (event_deliveries.state m) STATE_PENDING
  then woken_row now m else m.

Lemma woken_row_twice now m : woken_row now (woken_row now m) = woken_row now m.
Proof. destruct m. vm_compute. reflexivity. Qed.

Lemma woken_row_fields now m :
  event_deliveries.id (woken_row now m) = event_deliveries.id m
  ∧ event_deliveries.state (woken_row now m) = event_deliveries.state m
  ∧ event_deliveries.wake_event_type (woken_row now m) = "".
Proof. destruct m. split_and!; reflexivity. Qed.

Lemma woken_if_app ids ids' now m : woken_if ids' now (woken_if ids now m) = woken_if (ids ++ ids') now m.
Proof.
  unfold woken_if. rewrite is_in_app.
  destruct (is_in (event_deliveries.id m) ids); cbn [orb andb]; [|done].
  destruct (text_eq (event_deliveries.state m) STATE_PENDING) eqn:E.
  - destruct (woken_row_fields now m) as (-> & -> & _). rewrite E, woken_row_twice.
    by destruct (is_in _ _).
  - by rewrite E, andb_false_r.
Qed.

Lemma run_wake_chunks cs event_id owner now s n :
  existsb (wake_fenced event_id owner) (domain_events_t s) = true →
  ∃ k, run (for_each cs n (λ woken chunk,
      let* affected := wake_fenced_update event_id owner now chunk in
      Ret (Ok (u32_saturating_add woken (default 0 (u32_try_from (Z.of_nat affected))))))) s
    = (Ok k, s <| event_deliveries_t := map (woken_if (concat cs) now) (event_deliveries_t s) |>).
Proof.
  revert s n. induction cs as [|c cs IH]; intros s n Hf.
  { exists n. cbn. rewrite (map_ext _ id), map_id; [by destruct s|]. done. }
  cbn [for_each]. rewrite run_try_bind, run_bind. unfold wake_fenced_update at 1 2.
  cbn [run exec fst snd]. rewrite Hf.
  match goal with |- context [run (for_each cs ?k _) ?s1] => destruct (IH s1 k Hf) as [k' ->] end.
  exists k'. f_equal. unfold update_rows. cbn [snd].
  change (event_deliveries_t (?s <| event_deliveries_t := ?t |>)) with t. rewrite map_map.
  rewrite (map_ext _ (woken_if (concat (c :: cs)) now)); [by destruct s|]. intros m.
  rewrite andb_true_r. fold (woken_if c now m). apply woken_if_app.
Qed.

Lemma run_wake_deliveries event_id owner ids now binds s :
  existsb (wake_fenced event_id owner) (domain_events_t s) = true →
  ∃ k, run (wake_deliveries_fenced_on event_id owner ids now binds) s
    = (Ok k, s <| event_deliveries_t := map (woken_if ids now) (event_deliveries_t s) |>).
Proof.
  intros Hf. destruct (run_wake_chunks (chunks (Z.to_nat (wake_in_chunk_size binds)) ids)
    event_id owner now s 0 Hf) as [k Hk]. exists k. unfold wake_deliveries_fenced_on. rewrite Hk.
  rewrite concat_chunks; [done|]. unfold wake_in_chunk_size. lia.
Qed.

(** ** One page *)

(** The sleepers of the event after the cursor, in the order of the pass. *)
Definition sleepers_left (s : Db) (row : domain_events.Model) : list event_deliveries.Model :=
  order_by delivery_le (List.filter
    (λ m, sleeper (map_event (clock s) row) m
          && keyset_gt (delivery_key m)
               (domain_events.wake_cursor_at row, domain_events.wake_cursor_id row))
    (event_deliveries_t s)).

(** The event concerns the sleeper: same account, and its stored grants match. *)
Definition concerns (s : Db) (row : domain_events.Model) (m : event_deliveries.Model) : bool :=
  bool_decide (account_of s (event_deliveries.event_id m) = Some (domain_events.account_id row))
  && event_matches_wake_grants (event_deliveries.wake_grants_json m)
       (event_deliveries.wake_filter_json m) (domain_events.schema_version row)
       (domain_events.payload row).

Definition concerned_ids (s : Db) (row : domain_events.Model) (l : list event_deliveries.Model)
    : list string := map event_deliveries.id (List.filter (concerns s row) l).

Definition wake_done (e : domain_events.Model) : domain_events.Model :=
  e <| domain_events.wake_pending := 0 |>
    <| domain_events.wake_lease_owner := None |>
    <| domain_events.wake_lease_expires_at := None |>
    <| domain_events.wake_cursor_at := "" |>
    <| domain_events.wake_cursor_id := "" |>.

(** The event row after a page: finished when the page was the last, else the cursor moved. *)
Definition after_page (page : Z) (batch : list event_deliveries.Model) (e : domain_events.Model)
    : domain_events.Model :=
  match last batch with
  | Some m =>
      if Z.of_nat (length batch) <? page then wake_done e
      else e <| domain_events.wake_cursor_at := event_deliveries.created_at m |>
             <| domain_events.wake_cursor_id := event_deliveries.id m |>
             <| domain_events.wake_lease_owner := None |>
             <| domain_events.wake_lease_expires_at := None |>
  | None => wake_done e
  end.

Definition page_events (row : domain_events.Model) (owner : string) (page : Z)
    (batch : list event_deliveries.Model) : list domain_events.Model → list domain_events.Model :=
  map (λ e, if wake_fenced (domain_events.id row) owner e then after_page page batch e else e).

Lemma woken_if_nil now l : map (woken_if [] now) l = l.
Proof. rewrite (map_ext _ id), map_id; done. Qed.

(** The accounts read in chunks decide as the envelopes do. *)
Lemma should_wake_concerns s row accounts batch :
  (∀ k, k ∈ map event_deliveries.event_id batch → accounts !! k = account_of s k) →
  List.filter (should_wake (map_event (clock s) row) accounts) batch
  = List.filter (concerns s row) batch.
Proof.
  intros Ha. apply filter_ext_in. intros m Hm%list_elem_of_In. unfold should_wake, concerns.
  rewrite Ha; [done|]. by apply list_elem_of_fmap_2.
Qed.

Lemma run_wake_page row owner page binds s :
  NoDup (map domain_events.id (domain_events_t s)) →
  existsb (wake_fenced (domain_events.id row) owner) (domain_events_t s) = true →
  str_is_empty (trim (domain_events.event_type row)) = false →
  let batch := take (Z.to_nat page) (sleepers_left s row) in
  ∃ k, run (wake_one_page_on row owner page binds) s =
    (Ok k, s <| event_deliveries_t :=
                  map (woken_if (concerned_ids s row batch) (to_rfc3339 (clock s)))
                    (event_deliveries_t s) |>
             <| domain_events_t := page_events row owner page batch (domain_events_t s) |>).
Proof.
  intros Hnd Hf Ht batch. unfold wake_one_page_on. rewrite run_bind. cbn [run Utc_now query fst snd].
  cbn [map_event ev_event_type]. rewrite Ht. rewrite run_bind, run_now_str. cbn [fst snd].
  rewrite run_bind, run_select. cbn [fst snd].
  fold (sleepers_left s row). fold batch. unfold page_events, after_page.
  destruct (last batch) as [m|] eqn:El.
  - rewrite run_try_bind.
    destruct (run_load_accounts (map event_deliveries.event_id batch) binds s Hnd) as (acc & -> & Ha).
    rewrite (should_wake_concerns s row acc batch Ha). fold (concerned_ids s row batch).
    rewrite run_try_bind.
    destruct (run_wake_deliveries (domain_events.id row) owner (concerned_ids s row batch)
      (to_rfc3339 (clock s)) binds s Hf) as [k Hk]. change (ev_id (map_event ?t ?r)) with (domain_events.id r).
    rewrite Hk.
    exists k. rewrite run_try_bind. destruct (Z.of_nat (length batch) <? page); by destruct s.
  - apply last_None in El. rewrite El. cbn [concerned_ids List.filter map]. exists 0.
    unfold concerned_ids. cbn. rewrite woken_if_nil. by destruct s.
Qed.

(** ** The rest of the pass *)

Lemma where_map_same {A} (p : A → bool) (f : A → A) l :
  (∀ x, x ∈ l → p (f x) = p x ∧ (p x = true → f x = x)) →
  List.filter p (map f l) = List.filter p l.
Proof.
  induction l as [|x l IH]; intros H; simpl; [done|].
  destruct (H x) as [-> Hx]; [left|]. rewrite IH by (intros; apply H; by right).
  destruct (p x); [|done]. by rewrite Hx.
Qed.

Lemma woken_if_key ids now m : delivery_key (woken_if ids now m) = delivery_key m.
Proof. unfold woken_if. destruct (_ && _); by destruct m. Qed.

(** All sleepers of the event, in the order of the pass. *)
Definition sleeper_queue (s : Db) (row : domain_events.Model) : list event_deliveries.Model :=
  order_by delivery_le (List.filter (sleeper (map_event (clock s) row)) (event_deliveries_t s)).

Lemma sleepers_left_after s row :
  sleepers_left s row =
  List.filter (after_cursor (Some (domain_events.wake_cursor_at row, domain_events.wake_cursor_id row)))
    (sleeper_queue s row).
Proof.
  unfold sleepers_left, sleeper_queue. rewrite where_order_by, where_where; [done|..];
    unfold delivery_le; intros *; [apply keyset_le_total|apply keyset_le_trans].
Qed.

Lemma sleeper_queue_sorted s row :
  NoDup (map event_deliveries.id (event_deliveries_t s)) →
  NoDup (map event_deliveries.id (sleeper_queue s row))
  ∧ StronglySorted (λ a b, delivery_le a b = true) (sleeper_queue s row).
Proof.
  intros Hnd. unfold sleeper_queue. split.
  - rewrite (Permutation_map _ (order_by_perm _ _)). by apply NoDup_where.
  - apply order_by_sorted; unfold delivery_le; intros *; [apply keyset_le_total|apply keyset_le_trans].
Qed.

(** A page leaves alone what follows its last row. *)
Lemma page_leaves_the_rest s row ids now L m x :
  NoDup (map event_deliveries.id (event_deliveries_t s)) →
  (∀ y, y ∈ L → y ∈ event_deliveries_t s ∧ keyset_le (delivery_key y) (delivery_key m) = true) →
  (∀ i, i ∈ ids → i ∈ map event_deliveries.id L) →
  x ∈ event_deliveries_t s →
  let rest y := sleeper (map_event (clock s) row) y && keyset_gt (delivery_key y) (delivery_key m) in
  rest (woken_if ids now x) = rest x ∧ (rest x = true → woken_if ids now x = x).
Proof.
  intros Hnd HL Hids Hx rest. unfold rest. rewrite woken_if_key.
  destruct (is_in (event_deliveries.id x) ids) eqn:Ei; [|unfold woken_if; by rewrite Ei].
  apply is_in_true, Hids, list_elem_of_fmap in Ei as (y & Hid & Hy). destruct (HL y Hy) as [HyD Hle].
  assert (x = y) as <- by (eapply (NoDup_key event_deliveries.id); eauto).
  assert (keyset_gt (delivery_key x) (delivery_key m) = false) as ->.
  { apply not_true_iff_false. rewrite keyset_gt_spec. intros [Hle' Hne]. by apply Hne, keyset_le_antisym. }
  by rewrite !andb_false_r.
Qed.

Lemma sorted_last (L : list event_deliveries.Model) n m y :
  StronglySorted (λ a b, delivery_le a b = true) L → last (take n L) = Some m →
  y ∈ take n L → keyset_le (delivery_key y) (delivery_key m) = true.
Proof.
  intros Hs [l Hl]%last_Some Hy. rewrite <-(take_drop n L) in Hs.
  apply StronglySorted_app in Hs as (_ & Hs & _). rewrite Hl in Hs, Hy.
  apply elem_of_app in Hy as [Hy| ->%list_elem_of_singleton].
  - apply StronglySorted_app in Hs as (Hx & _ & _). apply (Hx y m); [done|set_solver].
  - by destruct (keyset_le_total (delivery_key m) (delivery_key m)).
Qed.

Lemma concerned_ids_in s row L i : i ∈ concerned_ids s row L → i ∈ map event_deliveries.id L.
Proof.
  unfold concerned_ids. rewrite !list_elem_of_fmap. intros (y & -> & [Hy _]%elem_of_where). eauto.
Qed.

(** With the cursor on the last row of a page, the rest of the pass is what follows the page. *)
Lemma sleepers_left_page s s' e e' n m now :
  NoDup (map event_deliveries.id (event_deliveries_t s)) →
  let batch := take n (sleepers_left s e) in
  last batch = Some m →
  event_deliveries_t s' = map (woken_if (concerned_ids s e batch) now) (event_deliveries_t s) →
  domain_events.id e' = domain_events.id e → domain_events.event_type e' = domain_events.event_type e →
  (domain_events.wake_cursor_at e', domain_events.wake_cursor_id e') = delivery_key m →
  sleepers_left s' e' = drop n (sleepers_left s e).
Proof.
  intros Hnd batch Hl Ht Hid Hty Hc. destruct (sleeper_queue_sorted s e Hnd) as [Hq Hs].
  rewrite (sleepers_left_after s e), <-(tail_rest (sleeper_queue s e) _ n m); [|done..|].
  2: { by rewrite <-sleepers_left_after. }
  unfold sleepers_left, sleeper_queue. rewrite Ht, Hc, where_order_by, where_where;
    [|unfold delivery_le; intros *; first [apply keyset_le_total|apply keyset_le_trans]..].
  f_equal. unfold sleeper. cbn [map_event ev_event_type ev_id]. rewrite Hid, Hty.
  apply where_map_same. intros x Hx.
  apply (page_leaves_the_rest s e _ _ batch m x Hnd); [|apply concerned_ids_in|done].
  intros y Hy. unfold batch in Hy, Hl. rewrite sleepers_left_after in Hy, Hl. split.
  - apply elem_of_take_inv, elem_of_where in Hy as [Hy _]. unfold sleeper_queue in Hy.
    by apply elem_of_order_by, elem_of_where in Hy as [Hy _].
  - eapply sorted_last; [|exact Hl|exact Hy]. by apply StronglySorted_where.
Qed.

Lemma account_of_set s s' e e' k :
  e ∈ domain_events_t s → NoDup (map domain_events.id (domain_events_t s)) →
  domain_events.id e' = domain_events.id e → domain_events.account_id e' = domain_events.account_id e →
  domain_events_t s' = set_by domain_events.id (domain_events.id e) e' (domain_events_t s) →
  account_of s' k = account_of s k.
Proof.
  intros He Hnd Hid Ha Hs'. unfold account_of. rewrite Hs'. unfold set_by. clear Hs'.
  assert (Hm : ∀ x, x ∈ domain_events_t s → domain_events.id x = domain_events.id e → x = e).
  { intros x Hx Hi. eapply (NoDup_key domain_events.id); eauto. }
  clear Hnd He. induction (domain_events_t s) as [|x l IH]; simpl; [done|].
  destruct (text_eq (domain_events.id x) (domain_events.id e)) eqn:E.
  - apply text_eq_true in E. rewrite Hid, E. destruct (text_eq _ k); simpl.
    + rewrite Ha. by rewrite (Hm x (list_elem_of_here x l) E).
    + apply IH. intros y Hy. apply Hm. by right.
  - destruct (text_eq (domain_events.id x) k); simpl; [done|]. apply IH. intros y Hy. apply Hm. by right.
Qed.

(** ** A round of the pass *)

Definition wake_batch (s : Db) (e : domain_events.Model) (binds : Z) : list event_deliveries.Model :=
  take (Z.to_nat (wake_page_for_max_binds binds)) (sleepers_left s e).

(** The store after a round on [e]. *)
Definition woken_round (s : Db) (e : domain_events.Model) (binds : Z) : Db :=
  s <| uuids_drawn := S (uuids_drawn s) |>
    <| event_deliveries_t :=
         map (woken_if (concerned_ids s e (wake_batch s e binds)) (to_rfc3339 (clock s)))
           (event_deliveries_t s) |>
    <| domain_events_t :=
         set_by domain_events.id (domain_events.id e)
           (after_page (wake_page_for_max_binds binds) (wake_batch s e binds) e)
           (domain_events_t s) |>.

Definition leased_event (token expires : string) (e : domain_events.Model) : domain_events.Model :=
  e <| domain_events.wake_lease_owner := Some token |>
    <| domain_events.wake_lease_expires_at := Some expires |>.

Lemma after_page_leased page batch token expires e :
  after_page page batch (leased_event token expires e) = after_page page batch e.
Proof.
  unfold after_page, wake_done, leased_event.
  destruct (last batch) as [m|]; [destruct (_ <? _)|]; destruct e; vm_compute; reflexivity.
Qed.

Lemma after_page_id page batch e : domain_events.id (after_page page batch e) = domain_events.id e.
Proof. unfold after_page. destruct (last batch); [destruct (_ <? _)|]; by destruct e. Qed.

Lemma leased_event_fenced now_s token expires e :
  wake_claimable now_s e = true → wake_fenced (domain_events.id e) token (leased_event token expires e) = true.
Proof.
  unfold wake_claimable, wake_fenced. intros [Hp _]%andb_prop. unfold leased_event.
  cbn. by rewrite text_eq_refl, Hp, text_eq_refl.
Qed.

Lemma page_events_leased token expires page batch e t :
  wake_fenced (domain_events.id e) token (leased_event token expires e) = true →
  page_events (leased_event token expires e) token page batch
    (set_by domain_events.id (domain_events.id e) (leased_event token expires e) t)
  = set_by domain_events.id (domain_events.id e) (after_page page batch e) t.
Proof.
  intros Hf. unfold page_events, set_by. rewrite map_map. apply map_ext. intros r.
  change (domain_events.id (leased_event token expires e)) with (domain_events.id e).
  destruct (text_eq (domain_events.id r) (domain_events.id e)) eqn:E.
  - by rewrite Hf, after_page_leased.
  - unfold wake_fenced. by rewrite E.
Qed.

Lemma concerned_ids_ext s s' e e' L :
  (∀ k, account_of s' k = account_of s k) →
  domain_events.account_id e' = domain_events.account_id e →
  domain_events.schema_version e' = domain_events.schema_version e →
  domain_events.payload e' = domain_events.payload e →
  concerned_ids s' e' L = concerned_ids s e L.
Proof.
  intros Ha H1 H2 H3. unfold concerned_ids. f_equal. apply filter_ext. intros m.
  unfold concerns. by rewrite Ha, H1, H2, H3.
Qed.

Lemma run_wake_candidate now_s expires binds acc row e s :
  NoDup (map domain_events.id (domain_events_t s)) → e ∈ domain_events_t s →
  domain_events.id row = domain_events.id e → wake_claimable now_s e = true →
  str_is_empty (trim (domain_events.event_type e)) = false →
  ∃ acc', run (wake_candidate now_s expires binds acc row) s = (Ok acc', woken_round s e binds).
Proof.
  intros Hnd He Hid Hc Ht. unfold wake_candidate. rewrite run_bind. cbn [run draw_uuid exec fst snd].
  set (token := new_v4 (uuids_drawn s)). rewrite run_bind. unfold domain_events_update.
  cbn [run exec fst snd].
  change (domain_events_t (s <| uuids_drawn := ?d |>)) with (domain_events_t s).
  rewrite (update_by_key domain_events.id _ _ e); [|done|done|by rewrite Hid, text_eq_refl, Hc|].
  2: { intros r Hr. rewrite Hid in Hr. by where_clauses. }
  fold (leased_event token expires e). cbn [fst snd Nat.eqb negb]. rewrite run_bind.
  set (t1 := set_by domain_events.id (domain_events.id e) (leased_event token expires e) (domain_events_t s)).
  set (s1 := s <| uuids_drawn := S (uuids_drawn s) |> <| domain_events_t := t1 |>).
  assert (Hnd1 : NoDup (map domain_events.id t1)).
  { unfold t1, set_by. rewrite map_map. erewrite map_ext; [exact Hnd|]. intros r. simpl.
    destruct (text_eq _ _) eqn:E; [|done]. by apply text_eq_true in E as ->. }
  assert (He1 : leased_event token expires e ∈ t1) by by apply set_by_elem.
  pose proof (leased_event_fenced now_s token expires e Hc) as Hf.
  unfold domain_events_find_by_id. cbn [run query fst snd]. change (domain_events_t s1) with t1.
  rewrite (find_by_key domain_events.id _ (leased_event token expires e)) by done.
  rewrite run_try_bind. unfold wake_one_claimed_page. rewrite run_txn.
  destruct (run_wake_page (leased_event token expires e) token (wake_page_for_max_binds binds) binds s1)
    as [k Hk]; [done| |done|].
  { apply existsb_exists. exists (leased_event token expires e). split; [by apply list_elem_of_In|done]. }
  rewrite Hk. cbn [fst snd]. rewrite run_bind. cbn [run query fst snd]. eexists. f_equal.
  change (domain_events_t s1) with t1. unfold t1 at 1. rewrite page_events_leased by done.
  change (sleepers_left s1 (leased_event token expires e)) with (sleepers_left s e).
  fold (wake_batch s e binds).
  rewrite (concerned_ids_ext s s1 e); [by destruct s|intros k'; by apply (account_of_set s s1 e (leased_event token expires e))|done..].
Qed.

(** ** The whole pass *)

(** The store after the pass over [e]: every sleeper the event concerns woken, the event done. *)
Definition woken_pass (s : Db) (e : domain_events.Model) (drawn : nat) : Db :=
  s <| uuids_drawn := drawn |>
    <| event_deliveries_t :=
         map (woken_if (concerned_ids s e (sleepers_left s e)) (to_rfc3339 (clock s)))
           (event_deliveries_t s) |>
    <| domain_events_t :=
         set_by domain_events.id (domain_events.id e) (wake_done e) (domain_events_t s) |>.

Lemma run_idle_rounds now_s expires binds row n acc s :
  (∀ e, e ∈ domain_events_t s → domain_events.id e = domain_events.id row →
        wake_claimable now_s e = false) →
  ∃ acc' d, run (for_each (repeat row n) acc (wake_candidate now_s expires binds)) s
    = (Ok acc', s <| uuids_drawn := d |>).
Proof.
  revert s acc. induction n as [|n IH]; intros s acc Hno; cbn [repeat for_each].
  { exists acc, (uuids_drawn s). by destruct s. }
  rewrite run_try_bind. unfold wake_candidate at 1. rewrite run_bind. cbn [run draw_uuid exec fst snd].
  rewrite run_bind. unfold domain_events_update. cbn [run exec fst snd].
  rewrite update_rows_none.
  - cbn [fst snd Nat.eqb negb run].
    match goal with |- context [run _ ?s1] => destruct (IH s1 acc Hno) as (acc' & d & ->) end.
    exists acc', d. by destruct s.
  - intros e He. apply andb_false_iff. destruct (text_eq _ _) eqn:E; [right|by left].
    apply text_eq_true in E. by apply Hno.
Qed.

Lemma short_page_is_last s e binds :
  Z.of_nat (length (wake_batch s e binds)) < wake_page_for_max_binds binds →
  wake_batch s e binds = sleepers_left s e
  ∧ after_page (wake_page_for_max_binds binds) (wake_batch s e binds) e = wake_done e.
Proof.
  intros Hl. unfold after_page. rewrite (proj2 (Z.ltb_lt _ _) Hl). split; [|by destruct (last _)].
  revert Hl. unfold wake_batch. rewrite length_take. intros Hl. apply take_ge. lia.
Qed.

(** A round that was the last, and one that was not. *)
Lemma woken_round_last s e binds :
  Z.of_nat (length (wake_batch s e binds)) < wake_page_for_max_binds binds →
  woken_round s e binds = woken_pass s e (S (uuids_drawn s)).
Proof. intros [H1 H2]%short_page_is_last. unfold woken_round, woken_pass. by rewrite H2, H1. Qed.

Lemma wake_done_claimable now_s e : wake_claimable now_s (wake_done e) = false.
Proof. by destruct e. Qed.

(** The event row after a full page. *)
Record moved_cursor (now_s : string) (m : event_deliveries.Model) (e e1 : domain_events.Model) : Prop := {
  mc_id : domain_events.id e1 = domain_events.id e;
  mc_type : domain_events.event_type e1 = domain_events.event_type e;
  mc_account : domain_events.account_id e1 = domain_events.account_id e;
  mc_schema : domain_events.schema_version e1 = domain_events.schema_version e;
  mc_payload : domain_events.payload e1 = domain_events.payload e;
  mc_cursor : (domain_events.wake_cursor_at e1, domain_events.wake_cursor_id e1) = delivery_key m;
  mc_claimable : wake_claimable now_s e = true → wake_claimable now_s e1 = true;
  mc_done : wake_done e1 = wake_done e;
}.

Lemma full_page_moves_cursor now_s s e binds :
  wake_page_for_max_binds binds ≤ Z.of_nat (length (wake_batch s e binds)) →
  ∃ m, last (wake_batch s e binds) = Some m
  ∧ moved_cursor now_s m e (after_page (wake_page_for_max_binds binds) (wake_batch s e binds) e).
Proof.
  intros Hl. unfold after_page. rewrite (proj2 (Z.ltb_ge _ _) Hl).
  destruct (last (wake_batch s e binds)) as [m|] eqn:E.
  - exists m. split; [done|]. destruct e. constructor; try done.
    unfold wake_claimable. cbn. by intros [-> _]%andb_prop.
  - apply last_None in E. rewrite E in Hl. unfold wake_page_for_max_binds in Hl. simpl in Hl. lia.
Qed.

Lemma woken_round_full now_s s e binds m drawn :
  NoDup (map event_deliveries.id (event_deliveries_t s)) →
  NoDup (map domain_events.id (domain_events_t s)) → e ∈ domain_events_t s →
  last (wake_batch s e binds) = Some m →
  let s1 := woken_round s e binds in
  let e1 := after_page (wake_page_for_max_binds binds) (wake_batch s e binds) e in
  moved_cursor now_s m e e1 →
  sleepers_left s1 e1 = drop (Z.to_nat (wake_page_for_max_binds binds)) (sleepers_left s e)
  ∧ woken_pass s1 e1 drawn = woken_pass s e drawn.
Proof.
  intros Hnd Hnde He Hl s1 e1 [Hid Hty Hac Hsc Hpl Hcu _ Hdo].
  assert (Hleft : sleepers_left s1 e1 = drop (Z.to_nat (wake_page_for_max_binds binds)) (sleepers_left s e)).
  { by apply (sleepers_left_page s s1 e e1 _ m (to_rfc3339 (clock s))). }
  split; [done|]. unfold woken_pass. rewrite Hleft, Hdo, Hid.
  rewrite (concerned_ids_ext s s1 e) by (try done; intros k; by apply (account_of_set s s1 e e1)).
  change (domain_events_t s1) with (set_by domain_events.id (domain_events.id e) e1 (domain_events_t s)).
  rewrite set_by_twice by done.
  change (event_deliveries_t s1) with (map (woken_if (concerned_ids s e (wake_batch s e binds))
    (to_rfc3339 (clock s))) (event_deliveries_t s)).
  change (clock s1) with (clock s). rewrite map_map.
  rewrite (map_ext _ (woken_if (concerned_ids s e (sleepers_left s e)) (to_rfc3339 (clock s)))).
  - by destruct s.
  - intros d. rewrite woken_if_app. f_equal. unfold concerned_ids, wake_batch.
    by rewrite <-map_app, <-List.filter_app, take_drop.
Qed.

Lemma run_wake_rounds now_s expires binds n row e s acc :
  NoDup (map event_deliveries.id (event_deliveries_t s)) →
  NoDup (map domain_events.id (domain_events_t s)) → e ∈ domain_events_t s →
  domain_events.id row = domain_events.id e → wake_claimable now_s e = true →
  str_is_empty (trim (domain_events.event_type e)) = false →
  Z.of_nat (length (sleepers_left s e)) < Z.of_nat n * wake_page_for_max_binds binds →
  ∃ acc' drawn, run (for_each (repeat row n) acc (wake_candidate now_s expires binds)) s
    = (Ok acc', woken_pass s e drawn).
Proof.
  revert e s acc. induction n as [|n IH]; intros e s acc Hnd Hnde He Hr Hc Ht Hn; [lia|].
  cbn [repeat for_each]. rewrite run_try_bind.
  destruct (run_wake_candidate now_s expires binds acc row e s Hnde He Hr Hc Ht) as [acc1 ->].
  destruct (Z.lt_ge_cases (Z.of_nat (length (wake_batch s e binds))) (wake_page_for_max_binds binds))
    as [Hlt|Hge].
  - rewrite woken_round_last by done.
    destruct (run_idle_rounds now_s expires binds row n acc1 (woken_pass s e (S (uuids_drawn s))))
      as (acc' & d & ->); [|by exists acc', d; destruct s].
    intros r (x & -> & Hx)%list_elem_of_fmap. rewrite Hr.
    destruct (text_eq _ _) eqn:E; [intros _; apply wake_done_claimable|].
    by intros Hi%text_eq_true; rewrite Hi in E.
  - destruct (full_page_moves_cursor now_s s e binds Hge) as (m & Hl & Hm).
    destruct (woken_round_full now_s s e binds m 0 Hnd Hnde He Hl Hm) as [Hleft _].
    destruct (IH (after_page (wake_page_for_max_binds binds) (wake_batch s e binds) e)
      (woken_round s e binds) acc1) as (acc' & d & Hrun).
    + cbn. rewrite map_map. erewrite map_ext; [exact Hnd|]. intros x.
      pose proof (woken_if_key (concerned_ids s e (wake_batch s e binds)) (to_rfc3339 (clock s)) x) as Hk.
      by injection Hk.
    + cbn. by rewrite set_by_key by apply Hm.
    + by apply set_by_elem.
    + rewrite Hr. symmetry. apply Hm.
    + by apply Hm.
    + by rewrite (mc_type _ _ _ _ Hm).
    + rewrite Hleft, length_drop. unfold wake_batch in Hge. rewrite length_take in Hge. lia.
    + exists acc', d. rewrite Hrun. f_equal. by apply (woken_round_full now_s s e binds m d).
Qed.

(** C38: The wake pass over an event terminates: after more rounds than the sleepers left fill
    pages the event is done, and exactly the sleepers of the same account whose stored grants
    match the event have been woken, each statement and lookup in chunks notwithstanding. *)
Theorem wake_pass_terminates `{Q : !InFlightCap} now_s expires binds n e s acc :
  outbox_wf s → e ∈ domain_events_t s → wake_claimable now_s e = true →
  str_is_empty (trim (domain_events.event_type e)) = false →
  Z.of_nat (length (sleepers_left s e)) < Z.of_nat n * wake_page_for_max_binds binds →
  ∃ acc' drawn, run (for_each (repeat e n) acc (wake_candidate now_s expires binds)) s
    = (Ok acc', woken_pass s e drawn).
Proof. intros [] **. by apply run_wake_rounds. Qed.

(** ** A page whose lease was taken *)

Definition wake_lease_lost (s : Db) (event_id owner : string) : Prop :=
  existsb (wake_fenced event_id owner) (domain_events_t s) = false.

Lemma run_lost_events s event_id owner f :
  wake_lease_lost s event_id owner →
  run (domain_events_update (wake_fenced event_id owner) f) s = (0%nat, s).
Proof.
  intros Hl. unfold domain_events_update. cbn [run exec]. rewrite update_rows_none; [by destruct s|].
  by apply existsb_false.
Qed.

Lemma run_lost_wakes s event_id owner now ids binds :
  wake_lease_lost s event_id owner →
  ∃ k, run (wake_deliveries_fenced_on event_id owner ids now binds) s = (Ok k, s).
Proof.
  intros Hl. unfold wake_deliveries_fenced_on. generalize 0 at 1.
  induction (chunks _ ids) as [|c cs IH]; intros n; cbn [for_each]; [by exists n|].
  rewrite run_try_bind, run_bind. unfold wake_fenced_update at 1 2. cbn [run exec fst snd].
  rewrite Hl, update_rows_none by (intros; apply andb_false_r). cbn [fst snd].
  replace (s <| event_deliveries_t := event_deliveries_t s |>) with s by by destruct s. apply IH.
Qed.

(** A worker that no longer holds the wake lease of an event changes nothing: its page wakes no
    delivery, moves no cursor and finishes no pass. *)
Theorem lost_wake_lease_changes_nothing `{Q : !InFlightCap} row owner binds s :
  outbox_wf s → wake_lease_lost s (domain_events.id row) owner →
  ∃ k, run (wake_one_claimed_page row owner binds) s = (Ok k, s).
Proof.
  intros [Hnd _ _ _ _ _ _] Hl. unfold wake_one_claimed_page, wake_one_page_on, finish_wake_on, release_wake_cursor_on.
  rewrite run_txn, run_bind. cbn [run Utc_now query fst snd].
  change (ev_id (map_event ?t ?r)) with (domain_events.id r).
  destruct (str_is_empty _).
  { exists 0. by rewrite run_try_bind, run_bind, run_lost_events. }
  rewrite run_bind, run_now_str. cbn [fst snd]. rewrite run_bind, run_select. cbn [fst snd].
  destruct (last _) as [m|].
  2: { exists 0. by rewrite run_try_bind, run_bind, run_lost_events. }
  rewrite run_try_bind. edestruct run_load_accounts as (acc & -> & _); [done|].
  rewrite run_try_bind. edestruct run_lost_wakes as [k ->]; [done|]. exists k. rewrite run_try_bind.
  by destruct (_ <? _); rewrite run_bind, run_lost_events.
Qed.
End Wake.
