(* ===== verification/EventPublish.v ===== *)
(** * The two ends of an event's life

    Publication under a namespaced dedup key, and retention. *)

From stdpp Require Import base option list strings gmap pretty.
From Stdlib Require Import ZArith Lia.
From S2P Require Import Prelude Schema Store Concurrency JobModels EventModels EventOutbox EventInvariant EventSafety.

Local Open Scope Z_scope.

(** ** Publication *)

Section Publish.
Context {C : Chrono} {U : Uuid} {Q : InFlightCap}.

(** The dedup namespace of a publication. *)
Definition in_namespace (spec : PublishDomainEventSpec) : domain_events.Model → bool :=
  same_namespace (pub_account_id spec) (pub_source spec) (pub_event_type spec) (pub_dedup_key spec).

(** The event published under the spec's namespace has this id. *)
Definition published (s : Db) (spec : PublishDomainEventSpec) (id : string) : Prop :=
  ∃ e, e ∈ domain_events_t s ∧ in_namespace spec e = true ∧ domain_events.id e = id.

(** Preparation checks, trims or draws the id, and nothing else. *)
Lemma run_prepare spec s :
  ∃ i d, run (prepare_publish_domain_event spec) s =
    (match check_publish spec with Ok _ => Ok (spec <| pub_id := i |>) | Err e => Err e end,
     s <| uuids_drawn := d |>).
Proof.
  unfold prepare_publish_domain_event. destruct (check_publish spec) as [?|e].
  - destruct (str_is_empty _); [by eexists _, _|]. exists (trim (pub_id spec)), (uuids_drawn s).
    by destruct s.
  - exists "", (uuids_drawn s). by destruct s.
Qed.

Lemma namespace_unique s spec e e' :
  outbox_wf s → e ∈ domain_events_t s → e' ∈ domain_events_t s →
  in_namespace spec e = true → in_namespace spec e' = true → e = e'.
Proof.
  intros Hwf He He' H H'. eapply (NoDup_key (λ e, (domain_events.account_id e, domain_events.source e,
    domain_events.event_type e, domain_events.dedup_key e))); [apply (owf_namespace _ Hwf)|done..|].
  unfold in_namespace, same_namespace in *. where_clauses. congruence.
Qed.

Lemma head_where {A} (p : A → bool) l : head (List.filter p l) = List.find p l.
Proof. induction l as [|x l IH]; simpl; [done|]. by destruct (p x). Qed.

Lemma run_find_published spec s :
  run (find_published spec) s = (List.find (in_namespace spec) (domain_events_t s), s).
Proof. unfold find_published. rewrite run_bind. cbn. by rewrite head_where. Qed.

Lemma published_find s spec id :
  outbox_wf s → published s spec id →
  ∃ e, List.find (in_namespace spec) (domain_events_t s) = Some e ∧ domain_events.id e = id.
Proof.
  intros Hwf (e & He & Hns & Hid). destruct (List.find _ _) as [e'|] eqn:E.
  - apply find_where in E as [He' Hns']. exists e'. split; [done|].
    by rewrite (namespace_unique s spec e' e).
  - eapply find_where_none in E; [|done]. congruence.
Qed.

(** What the publishing transaction returns is published when it ends. *)
Lemma publish_on_published spec s id s' :
  check_publish spec = Ok () → (run (publish_domain_event_on spec) s).2 = s' →
  (run (publish_domain_event_on spec) s).1 = Ok (EventCreated id)
  ∨ (run (publish_domain_event_on spec) s).1 = Ok (EventDuplicate id) →
  published s' spec id.
Proof.
  intros Hck <-. unfold publish_domain_event_on. rewrite run_try_bind.
  destruct (run_prepare spec s) as (i & d & ->). rewrite Hck, run_bind, run_find_published.
  cbn [fst snd]. change (in_namespace (spec <| pub_id := i |>)) with (in_namespace spec).
  change (domain_events_t (s <| uuids_drawn := d |>)) with (domain_events_t s).
  destruct (List.find (in_namespace spec) (domain_events_t s)) as [e|] eqn:Ef.
  { apply find_where in Ef as [He Hns]. cbn. intros [[=]|[= <-]]. by exists e. }
  rewrite run_bind. cbn [run now_str bind query Utc_now fst snd]. rewrite run_bind.
  unfold domain_events_insert. cbn [run exec fst snd].
  destruct (existsb _ _); cbn [fst snd is_unique_violation].
  - rewrite run_bind, run_find_published. cbn [fst snd].
    change (in_namespace (spec <| pub_id := i |>)) with (in_namespace spec).
    change (domain_events_t (s <| uuids_drawn := d |>)) with (domain_events_t s).
    rewrite Ef. by intros [[=]|[=]].
  - cbn. intros [[= <-]|[=]]. exists (new_event_row (spec <| pub_id := i |>) (to_rfc3339 (clock s))).
    split_and!; [apply elem_of_app; right; by apply list_elem_of_singleton| |done].
    unfold in_namespace, same_namespace. cbn. by rewrite !text_eq_refl.
Qed.

Lemma publish_on_again spec s id :
  outbox_wf s → check_publish spec = Ok () → published s spec id →
  ∃ d, run (publish_domain_event_on spec) s = (Ok (EventDuplicate id), s <| uuids_drawn := d |>).
Proof.
  intros Hwf Hck Hp. destruct (published_find s spec id Hwf Hp) as (e & Hf & <-).
  unfold publish_domain_event_on. rewrite run_try_bind.
  destruct (run_prepare spec s) as (i & d & ->). rewrite Hck, run_bind, run_find_published.
  cbn [fst snd]. change (in_namespace (spec <| pub_id := i |>)) with (in_namespace spec).
  change (domain_events_t (s <| uuids_drawn := d |>)) with (domain_events_t s). rewrite Hf.
  by exists d.
Qed.

Lemma published_stays s s' spec id :
  outbox_evolves true s s' → published s spec id → published s' spec id.
Proof.
  intros [_ Hev] (e & He & Hns & Hid). destruct (oh_events_kept _ _ (Hev eq_refl) e He) as (e' & He' & G).
  pose proof (eg_identity _ _ G) as HI. injection HI as Hi Ht _ Ha Hsrc Hd _ _ _.
  exists e'. split_and!; [done| |congruence].
  unfold in_namespace, same_namespace in *. by rewrite Ha, Hsrc, Ht, Hd.
Qed.

(** Two publications in one namespace. *)
Definition same_publication (spec spec' : PublishDomainEventSpec) : Prop :=
  pub_account_id spec' = pub_account_id spec ∧ pub_source spec' = pub_source spec
  ∧ pub_event_type spec' = pub_event_type spec ∧ pub_dedup_key spec' = pub_dedup_key spec.

Definition outcome_id (o : PublishDomainEventOutcome) : string :=
  match o with EventCreated id => id | EventDuplicate id => id end.

(** C37: Publication is idempotent per account, source, event type and dedup key: once a
    publication has returned an id, any valid publication in the same namespace, at any later
    state retention has not pruned, returns that id as a duplicate and changes no table. *)
Theorem published_once spec spec' s s1 s2 o :
  outbox_wf s2 → run (publish_domain_event spec) s = (Ok o, s1) → outbox_evolves true s1 s2 →
  same_publication spec spec' → check_publish spec' = Ok () →
  ∃ d, run (publish_domain_event spec') s2
    = (Ok (EventDuplicate (outcome_id o)), s2 <| uuids_drawn := d |>).
Proof.
  intros Hwf Hrun Hev (Ha & Hs & Ht & Hd) Hck'.
  assert (Hp : published s1 spec (outcome_id o)).
  { unfold publish_domain_event in Hrun. rewrite run_try_bind in Hrun.
    destruct (run_prepare spec s) as (i & d & E). rewrite E in Hrun.
    destruct (check_publish spec) as [[]|] eqn:Hck; [|done]. rewrite run_txn in Hrun.
    destruct (run (publish_domain_event_on _) _) as [[o'|] s'] eqn:Er; [|done].
    cbn in Hrun. injection Hrun as -> ->.
    enough (published s1 (spec <| pub_id := i |>) (outcome_id o)) by done.
    apply (publish_on_published _ (s <| uuids_drawn := d |>)); [done|by rewrite Er|]. rewrite Er. destruct o; auto. }
  assert (Hp' : published s2 spec' (outcome_id o)).
  { unfold published, in_namespace. rewrite Ha, Hs, Ht, Hd. by apply (published_stays s1 s2 spec). }
  unfold publish_domain_event. rewrite run_try_bind. destruct (run_prepare spec' s2) as (i & d & ->).
  rewrite Hck', run_txn.
  destruct (publish_on_again (spec' <| pub_id := i |>) (s2 <| uuids_drawn := d |>) (outcome_id o))
    as [d' ->]; [|done|done|].
  - destruct Hwf. by constructor.
  - exists d'. by destruct s2.
Qed.
End Publish.

(** ** Retention *)

Section Retention.
Context {C : Chrono} {U : Uuid} {Q : InFlightCap}.

(** Acknowledged or rejected by [cutoff], or dead letters by [cutoff]. *)
Definition over_by (cutoff : string) (m : event_deliveries.Model) : bool :=
  is_in (event_deliveries.state m) [STATE_ACKED; STATE_REJECTED]
  && text_le (event_deliveries.updated_at m) cutoff.
Definition dead_by (cutoff : string) (m : event_deliveries.Model) : bool :=
  text_eq (event_deliveries.state m) STATE_DEAD_LETTER
  && text_le (event_deliveries.updated_at m) cutoff.

Definition outlived_delivery (terminal dead : string) (m : event_deliveries.Model) : bool :=
  over_by terminal m || dead_by dead m.

(** Dispatched, old, and without a delivery in [t]. *)
Definition outlived_event (terminal : string) (t : list event_deliveries.Model)
    (e : domain_events.Model) : bool :=
  text_eq (domain_events.dispatch_state e) STATE_DISPATCHED
  && text_le (domain_events.created_at e) terminal
  && negb (existsb (λ d, text_eq (event_deliveries.event_id d) (domain_events.id e)) t).

Definition stale_node (cutoff : string) (r : event_subscriber_nodes.Model) : bool :=
  text_lt (event_subscriber_nodes.heartbeat_at r) cutoff.

Lemma delete_count {A} (p : A → bool) l :
  (length l = length (List.filter p l) + length (List.filter (λ x, negb (p x)) l))%nat.
Proof. induction l as [|x l IH]; simpl; [done|]. destruct (p x); simpl; lia. Qed.

(** The cascade of the last statement finds nothing: the deleted events have no delivery. *)
Lemma run_delete_settled p s :
  let settled e := p e && negb (existsb (λ d, text_eq (event_deliveries.event_id d)
                                              (domain_events.id e)) (event_deliveries_t s)) in
  run (domain_events_delete_settled p) s =
  (length (List.filter settled (domain_events_t s)),
   s <| domain_events_t := List.filter (λ e, negb (settled e)) (domain_events_t s) |>).
Proof.
  intros settled. unfold domain_events_delete_settled. cbn [run exec]. fold settled.
  unfold delete_rows. cbn [fst snd]. f_equal.
  rewrite forallb_filter_id; [by destruct s|]. apply forallb_forall.
  intros d Hd%list_elem_of_In. apply negb_true_iff, not_true_iff_false.
  rewrite is_in_true, list_elem_of_fmap. intros (e & Hid & [_ Hs]%elem_of_where).
  unfold settled in Hs. apply andb_prop in Hs as [_ Hs]. apply negb_true_iff in Hs.
  eapply existsb_false in Hs; [|exact Hd]. by rewrite Hid, text_eq_refl in Hs.
Qed.

Lemma run_delete_deliveries p s :
  run (event_deliveries_delete p) s =
  (length (List.filter p (event_deliveries_t s)),
   s <| event_deliveries_t := List.filter (λ m, negb (p m)) (event_deliveries_t s) |>).
Proof. done. Qed.

Lemma run_prune_events s retention_days dead_letter_retention_days :
  let terminal := to_rfc3339 (clock s - days (default 7 (i64_try_from retention_days))) in
  let dead := to_rfc3339 (clock s - days (default 30 (i64_try_from dead_letter_retention_days))) in
  let stale := to_rfc3339 (clock s - seconds EVENT_SUBSCRIBER_HEARTBEAT_TTL_SECS) in
  let t1 := List.filter (λ m, negb (over_by terminal m)) (event_deliveries_t s) in
  let t2 := List.filter (λ m, negb (dead_by dead m)) t1 in
  run (prune_event_deliveries retention_days dead_letter_retention_days) s =
  (Ok (Z.of_nat (length (List.filter (over_by terminal) (event_deliveries_t s))
                 + length (List.filter (dead_by dead) t1)
                 + length (List.filter (stale_node stale) (event_subscriber_nodes_t s))
                 + length (List.filter (outlived_event terminal t2) (domain_events_t s)))),
   s <| event_deliveries_t := t2 |>
     <| event_subscriber_nodes_t :=
          List.filter (λ n, negb (stale_node stale n)) (event_subscriber_nodes_t s) |>
     <| domain_events_t :=
          List.filter (λ e, negb (outlived_event terminal t2 e)) (domain_events_t s) |>).
Proof.
  intros terminal dead stale t1 t2. unfold prune_event_deliveries.
  do 3 (rewrite run_bind; cbn [run Utc_now query fst snd]). fold terminal dead stale.
  rewrite run_bind, run_delete_deliveries. cbn [fst snd].
  rewrite run_bind, run_delete_deliveries. cbn [fst snd].
  rewrite run_bind. cbn [run exec delete_rows fst snd]. rewrite run_bind, run_delete_settled.
  by destruct s.
Qed.

(** Retention removes exactly the settled deliveries and dead letters past their cutoffs, the
    stale nodes, and the old dispatched events left without a delivery; pending and running
    deliveries and the parents of all remaining deliveries stay, and the count returned is the
    number of rows removed. *)
Theorem event_retention_keeps_live_work s retention_days dead_letter_retention_days :
  outbox_wf s →
  let terminal := to_rfc3339 (clock s - days (default 7 (i64_try_from retention_days))) in
  let dead := to_rfc3339 (clock s - days (default 30 (i64_try_from dead_letter_retention_days))) in
  let stale := to_rfc3339 (clock s - seconds EVENT_SUBSCRIBER_HEARTBEAT_TTL_SECS) in
  let r := run (prune_event_deliveries retention_days dead_letter_retention_days) s in
  event_deliveries_t r.2
    = List.filter (λ m, negb (outlived_delivery terminal dead m)) (event_deliveries_t s)
  ∧ domain_events_t r.2
    = List.filter (λ e, negb (outlived_event terminal (event_deliveries_t r.2) e)) (domain_events_t s)
  ∧ event_subscriber_nodes_t r.2
    = List.filter (λ n, negb (stale_node stale n)) (event_subscriber_nodes_t s)
  ∧ (∀ m, m ∈ event_deliveries_t s → delivery_pending m ∨ delivery_running m →
       m ∈ event_deliveries_t r.2)
  ∧ (∀ m, m ∈ event_deliveries_t r.2 →
       ∃ e, e ∈ domain_events_t r.2 ∧ domain_events.id e = event_deliveries.event_id m)
  ∧ r.1 = Ok (Z.of_nat (length (event_deliveries_t s)) - Z.of_nat (length (event_deliveries_t r.2))
              + (Z.of_nat (length (domain_events_t s)) - Z.of_nat (length (domain_events_t r.2)))
              + (Z.of_nat (length (event_subscriber_nodes_t s))
                 - Z.of_nat (length (event_subscriber_nodes_t r.2)))).
Proof.
  intros Hwf terminal dead stale r.
  assert (Ht2 : List.filter (λ m, negb (dead_by dead m))
      (List.filter (λ m, negb (over_by terminal m)) (event_deliveries_t s))
    = List.filter (λ m, negb (outlived_delivery terminal dead m)) (event_deliveries_t s)).
  { rewrite where_where. apply filter_ext. intros m. unfold outlived_delivery. by rewrite negb_orb. }
  pose proof (delete_count (over_by terminal) (event_deliveries_t s)) as Hn1.
  pose proof (delete_count (dead_by dead)
    (List.filter (λ m, negb (over_by terminal m)) (event_deliveries_t s))) as Hn2.
  unfold r. rewrite run_prune_events. cbv zeta. fold terminal dead stale. rewrite Ht2 in *. cbn [fst snd].
  pose proof (delete_count (stale_node stale) (event_subscriber_nodes_t s)) as Hn3.
  set (t := List.filter (λ m, negb (outlived_delivery terminal dead m)) (event_deliveries_t s)) in *.
  pose proof (delete_count (outlived_event terminal t) (domain_events_t s)) as Hn4.
  change (event_deliveries_t (s <| event_deliveries_t := t |> <| event_subscriber_nodes_t := ?a |>
    <| domain_events_t := ?b |>)) with t.
  split_and!; [done..| | |].
  - intros m Hm Hst. apply elem_of_where. split; [done|]. unfold outlived_delivery, over_by, dead_by.
    destruct Hst as [-> | ->]; done.
  - intros m Hm. assert (m ∈ event_deliveries_t s) as Hms by by apply elem_of_where in Hm as [? _].
    destruct (owf_parent _ Hwf m Hms) as (e & He & Hid). exists e. split; [|done].
    apply elem_of_where. split; [done|]. unfold outlived_event.
    assert (existsb (λ d, text_eq (event_deliveries.event_id d) (domain_events.id e)) t = true) as ->.
    { apply existsb_exists. exists m. split; [by apply list_elem_of_In|]. by rewrite Hid, text_eq_refl. }
    by rewrite andb_false_r.
  - cbn. f_equal. lia.
Qed.
End Retention.
