(* ===== verification/EventPlanSpec.v ===== *)
(** * The two paths of the outbox agree

    The claim, the publication and the dispatch through a database plugin against the local
    transactions of [EventOutbox], and the write-once dispatch snapshot. *)

From stdpp Require Import base option list strings gmap pretty sorting.
From Stdlib Require Import ZArith Lia Sorted.
From S2P Require Import Prelude Schema Store Concurrency JobModels EventModels EventOutbox EventInvariant EventSafety EventClaim EventSpec EventPublish EventPlans.

Local Open Scope Z_scope.

Section Claim.
Context {C : Chrono} {U : Uuid} {Q : InFlightCap} {Value : Type} {JV : SerdeValue Value}.
Context {JS : SerdeJson (list (EventCatalogSubscription Value))}.
Context {CL : ChronoLaws C}.

(** A row both paths read alike: flags are booleans, timestamps parse. *)
Record portable_row (m : event_deliveries.Model) : Prop := {
  pr_resume : event_deliveries.resume_pending m = 0 ∨ event_deliveries.resume_pending m = 1;
  pr_run_after : is_Some (parse_from_rfc3339 (event_deliveries.run_after m));
  pr_created : is_Some (parse_from_rfc3339 (event_deliveries.created_at m));
}.

Lemma plan_row_is_local_row owner expires now m :
  event_deliveries.resume_pending m = 0 ∨ event_deliveries.resume_pending m = 1 →
  plan_claimed_delivery owner expires now m = claimed_delivery_row m owner expires now m.
Proof.
  intros Hr. destruct m; unfold plan_claimed_delivery, claimed_delivery_row, delivery_attempt,
    delivery_resuming; cbn in Hr |- *. destruct Hr as [-> | ->]; vm_compute; reflexivity.
Qed.

Lemma decode_claimed owner expires_t now_t m :
  portable_row m → event_deliveries.resource_class m = EVENT_RESOURCE_CLASS_NETWORK →
  representable expires_t → representable now_t →
  let m' := claimed_delivery_row m owner (to_rfc3339 expires_t) (to_rfc3339 now_t) m in
  decode_delivery m' = Some (map_delivery now_t m').
Proof.
  intros [Hr [ra Hra] [ca Hca]] Hc He Hn m'.
  assert (Hf : event_deliveries.run_after m' = event_deliveries.run_after m
    ∧ event_deliveries.created_at m' = event_deliveries.created_at m
    ∧ event_deliveries.resource_class m' = event_deliveries.resource_class m
    ∧ event_deliveries.updated_at m' = to_rfc3339 now_t
    ∧ event_deliveries.lease_expires_at m' = Some (to_rfc3339 expires_t)).
  { unfold m', claimed_delivery_row. by destruct (delivery_resuming m). }
  destruct Hf as (H1 & H2 & H3 & H4 & H5). unfold decode_delivery, map_delivery, parse_dt_opt, parse_dt.
  rewrite H1, H2, H3, H4, H5, Hra, Hca, Hc. cbn [fmap option_fmap option_map].
  rewrite !parse_to_rfc3339 by done. reflexivity.
Qed.

Lemma plan_expires_is_claim_expiry s lease_secs :
  representable (clock s) → 5 ≤ lease_secs ≤ i64_MAX →
  plan_event_expires (default 60 (i64_try_from lease_secs)) (to_rfc3339 (clock s)) = claim_expiry s lease_secs.
Proof.
  intros Hc Hl. unfold plan_event_expires, claim_expiry, i64_try_from. rewrite parse_to_rfc3339 by done.
  rewrite (proj2 (Z.leb_le _ _)) by lia. cbn [default from_option id]. by rewrite Z.max_l by lia.
Qed.

(** The store a claim of the host reads: clock and lease end representable, rows portable. *)
Record portable (s : Db) (lease_secs : Z) : Prop := {
  po_clock : representable (clock s);
  po_lease : 5 ≤ lease_secs ≤ i64_MAX;
  po_expiry : representable (clock s + seconds lease_secs);
  po_rows : ∀ m, m ∈ event_deliveries_t s → delivery_pending m → portable_row m;
}.

(** The batch on one candidate, when it has room and when it has not. *)
Lemma run_plan_cas s m owner lease_secs max now :
  NoDup (map event_deliveries.id (event_deliveries_t s)) → m ∈ event_deliveries_t s →
  delivery_pending m → 0 ≤ max →
  let row := plan_claimed_delivery owner (plan_event_expires lease_secs now) now m in
  ∃ g, run (plan_claim_event_delivery_cas (event_deliveries.id m) owner lease_secs
              (event_deliveries.plugin_id m) (event_deliveries.resource_class m) max now) s
    = if has_room s max m
      then (Ok ("ok", Some row),
            s <| bookclerk_slots_t := g |>
              <| event_deliveries_t := set_by event_deliveries.id (event_deliveries.id m) row
                                         (event_deliveries_t s) |>)
      else (Ok ("empty", None), s <| bookclerk_slots_t := g |>).
Proof.
  intros Hnd Hm Hp Hmax row. unfold plan_claim_event_delivery_cas. rewrite run_try_bind.
  destruct (run_lock_in_flight (event_deliveries.plugin_id m) (event_deliveries.resource_class m) s)
    as [g Hg]. unfold lock_plugin_in_flight in Hg. rewrite Hg. exists g.
  rewrite run_bind. cbn [run exec fst snd].
  change (event_deliveries_t (s <| bookclerk_slots_t := g |>)) with (event_deliveries_t s).
  fold (in_flight_count s (event_deliveries.plugin_id m) (effective_class (event_deliveries.resource_class m))).
  rewrite Z.max_l by done. unfold has_room.
  set (room := in_flight_count s _ _ <? max). rewrite run_bind, run_select. cbn [fst snd].
  assert (Hr : negb (max =? 0) && room = room).
  { destruct (max =? 0) eqn:E; [|done]. apply Z.eqb_eq in E as ->. symmetry. apply Z.ltb_ge.
    unfold in_flight_count. lia. }
  rewrite Hr. destruct room.
  - rewrite (update_by_key event_deliveries.id _ _ m); [|done|done| |].
    + fold row. cbn [snd]. change (event_deliveries_t (?s <| event_deliveries_t := ?t |>)) with t.
      assert (Hid : event_deliveries.id row = event_deliveries.id m) by by destruct m.
      rewrite (where_by_key event_deliveries.id _ row); [done|..].
      * by rewrite set_by_key.
      * by apply set_by_elem.
      * unfold delivery_just_claimed, row, plan_claimed_delivery. cbn. by rewrite !text_eq_refl.
      * intros y Hy. rewrite Hid. unfold delivery_just_claimed in Hy. by where_clauses.
    + unfold pending_with_id. by rewrite text_eq_refl, Hp.
    + intros r Hr'. unfold pending_with_id in Hr'. by where_clauses.
  - rewrite update_rows_none by (intros; apply andb_false_r). cbn [snd].
    change (event_deliveries_t (?s <| event_deliveries_t := ?t |>)) with t.
    rewrite where_none; [by destruct s|]. intros x Hx. apply not_true_iff_false. intros Hj.
    unfold delivery_just_claimed in Hj. where_clauses.
    assert (x = m) as -> by (eapply (NoDup_key event_deliveries.id); eauto; congruence).
    unfold delivery_pending in Hp. by assert (STATE_PENDING = STATE_RUNNING) by congruence.
Qed.

Lemma host_candidate_decides s owner lease_secs node_id plugin_ids max :
  NoDup (map event_deliveries.id (event_deliveries_t s)) → portable s lease_secs → 0 ≤ max →
  decides s owner (claim_expiry s lease_secs) (to_rfc3339 (clock s)) node_id plugin_ids max
    (host_candidate owner lease_secs node_id max).
Proof.
  intros Hnd [Hcl Hle Hex Hrows] Hmax s1 m [g ->] Hm Hdue.
  destruct (due_pending _ _ _ Hdue) as (Hp & Hc & _). set (s1 := s <| bookclerk_slots_t := g |>).
  unfold host_candidate, claimable_delivery. rewrite run_try_bind, run_fifo_blocked.
  change (fifo_blocked_in s1 m) with (fifo_blocked_in s m).
  destruct (fifo_blocked_in s m); cbn [negb andb].
  { exists s1. split; [done|apply slots_only_refl]. }
  rewrite run_try_bind, run_node_accepts. change (node_accepts s1 node_id m) with (node_accepts s node_id m).
  destruct (node_accepts s node_id m); cbn [negb andb].
  2: { exists s1. split; [done|apply slots_only_refl]. }
  unfold rpc_claim_event_delivery. rewrite run_bind, run_now_str. cbn [fst snd].
  rewrite run_try_bind, run_txn.
  destruct (run_plan_cas s1 m owner (default 60 (i64_try_from lease_secs)) max (to_rfc3339 (clock s))
    Hnd Hm Hp Hmax) as [h Hh]. change (clock s1) with (clock s). rewrite Hh.
  rewrite plan_expires_is_claim_expiry by done. change (has_room s1 max m) with (has_room s max m).
  destruct (has_room s max m); cbn [fst snd].
  - change (text_eq "ok" "empty") with false. cbn iota.
    destruct (Hrows m Hm Hp) as [Hres Hra Hca]. rewrite plan_row_is_local_row by done.
    unfold claim_expiry, i64_try_from. rewrite (proj2 (Z.leb_le _ _)) by lia. cbn [default from_option id].
    rewrite (decode_claimed owner (clock s + seconds lease_secs) (clock s) m) by done.
    eexists. split; [reflexivity|]. by exists h.
  - eexists. split; [reflexivity|]. by exists h.
Qed.

Lemma tidied_portable s lease_secs : portable s lease_secs → portable (tidied_outbox s) lease_secs.
Proof.
  intros [Hcl Hle Hex Hrows]. constructor; [done..|]. intros m (y & -> & Hy)%list_elem_of_fmap.
  destruct (is_in _ _); [done|]. auto.
Qed.

(** Run alone, the claim that reads candidates on the host and leases each through an SQL batch
    of the database plugin returns the record, and leaves the deliveries, of the claim that runs
    as one local transaction, for every lease of at least five seconds. *)
Theorem host_claim_is_local_claim owner lease_secs plugin_ids max node_id s :
  outbox_wf s → plugin_ids ≠ [] → 0 ≤ max → portable s lease_secs →
  let host := run (claim_next_event_delivery_host_cas owner lease_secs plugin_ids max node_id) s in
  let local := run (claim_next_event_delivery owner lease_secs plugin_ids max node_id) s in
  host.1 = local.1 ∧ event_deliveries_t host.2 = event_deliveries_t local.2
  ∧ domain_events_t host.2 = domain_events_t local.2.
Proof.
  intros Hwf Hne Hmax Hpo host local. pose proof (owf_ids _ Hwf) as Hnd.
  pose proof (run_claim owner lease_secs plugin_ids max node_id s Hnd Hne) as Hlocal. fold local in Hlocal.
  assert (Hhost : scan_result (tidied_outbox s) owner (claim_expiry s lease_secs) (to_rfc3339 (clock s))
    node_id max (delivery_queue (tidied_outbox s) (to_rfc3339 (clock s)) plugin_ids) host).
  { unfold host, claim_next_event_delivery_host_cas. rewrite run_bind, run_clock. cbn [fst snd].
    rewrite run_try_bind, run_sanitize by done. fold (tidied_outbox s). rewrite run_bind.
    cbn [run query fst snd]. apply run_all_pages.
    - cbn. unfold sanitized. by rewrite reject_ids_key.
    - apply (host_candidate_decides (tidied_outbox s)); [|by apply tidied_portable|done].
      cbn. unfold sanitized. by rewrite reject_ids_key. }
  unfold scan_result in *. destruct (List.find _ _) as [m|];
    destruct Hlocal as [-> [g ->]], Hhost as [-> [h ->]]; done.
Qed.
End Claim.

(** ** Publication *)

Section Publish.
Context {C : Chrono} {U : Uuid} {Q : InFlightCap}.

(** The id a publication ends up with: trimmed or drawn by the two preparations of either path. *)
Definition prepare_twice (spec : PublishDomainEventSpec) : prog Db (result PublishDomainEventSpec) :=
  let? spec := prepare_publish_domain_event spec in prepare_publish_domain_event spec.

Definition prepared_id (s : Db) (spec : PublishDomainEventSpec) : string :=
  match (run (prepare_twice spec) s).1 with Ok spec => pub_id spec | Err _ => "" end.

(** Both paths, up to the preparations. *)
Lemma run_publish_paths spec s :
  match check_publish spec with
  | Err e => (run (publish_domain_event spec) s).1 = Err e
             ∧ (run (publish_domain_event_atomic spec) s).1 = Err e
             ∧ domain_events_t (run (publish_domain_event spec) s).2 = domain_events_t s
             ∧ domain_events_t (run (publish_domain_event_atomic spec) s).2 = domain_events_t s
  | Ok _ => True
  end.
Proof.
  destruct (check_publish spec) as [|e] eqn:Hck; [done|].
  unfold publish_domain_event, publish_domain_event_atomic. rewrite !run_try_bind.
  destruct (run_prepare spec s) as (i & d & ->). by rewrite Hck.
Qed.

(** What both do with the prepared id [i]. *)
Definition publication (s : Db) (spec : PublishDomainEventSpec) (i : string)
    : PublishDomainEventOutcome * list domain_events.Model :=
  match List.find (in_namespace spec) (domain_events_t s) with
  | Some e => (EventDuplicate (domain_events.id e), domain_events_t s)
  | None => (EventCreated i,
             domain_events_t s ++ [new_event_row (spec <| pub_id := i |>) (to_rfc3339 (clock s))])
  end.

Lemma run_plan_publish spec s i :
  (∀ e, e ∈ domain_events_t s → domain_events.id e ≠ i) →
  ∃ s', run (plan_publish_domain_event (spec <| pub_id := i |>) (to_rfc3339 (clock s))) s =
    (Ok (match (publication s spec i).1 with
         | EventCreated id => ("ok", Some id)
         | EventDuplicate id => ("duplicate", Some id)
         end), s') ∧ domain_events_t s' = (publication s spec i).2.
Proof.
  intros Hfresh. unfold plan_publish_domain_event, publication. rewrite run_bind. cbn [run query fst snd].
  change (same_namespace (pub_account_id (spec <| pub_id := i |>)) (pub_source (spec <| pub_id := i |>))
    (pub_event_type (spec <| pub_id := i |>)) (pub_dedup_key (spec <| pub_id := i |>)))
    with (in_namespace spec). change (pub_id (spec <| pub_id := i |>)) with i.
  assert (Hid : ∀ t, t = domain_events_t s → existsb (λ e, text_eq (domain_events.id e) i) t = false).
  { intros t ->. apply existsb_false. intros e He. by apply text_eq_false, Hfresh. }
  destruct (List.find (in_namespace spec) (domain_events_t s)) as [e|] eqn:Ef.
  - assert (Hex : existsb (in_namespace spec) (domain_events_t s) = true).
    { apply find_where in Ef as [He Hns]. apply existsb_exists. exists e. by rewrite <-list_elem_of_In. }
    rewrite Hex, run_try_bind. cbn [run]. rewrite run_bind. cbn [run query fst snd].
    rewrite (Hid _ eq_refl), Hex, run_bind. cbn [run domain_events_select query fst snd].
    rewrite head_where, Ef. by exists s.
  - assert (Hex : existsb (in_namespace spec) (domain_events_t s) = false).
    { apply existsb_false. intros x Hx. by eapply find_where_none in Ef. }
    set (row := new_event_row (spec <| pub_id := i |>) (to_rfc3339 (clock s))).
    assert (Hns : in_namespace spec row = true).
    { unfold in_namespace, same_namespace. cbn. by rewrite !text_eq_refl. }
    rewrite Hex, run_try_bind. unfold domain_events_insert. cbn [run exec fst snd].
    assert (existsb (λ r, text_eq (domain_events.id r) (domain_events.id row)
      || same_namespace (domain_events.account_id row) (domain_events.source row)
           (domain_events.event_type row) (domain_events.dedup_key row) r) (domain_events_t s) = false) as ->.
    { apply existsb_false. intros x Hx. apply orb_false_iff. split; [by apply text_eq_false, Hfresh|].
      by eapply existsb_false in Hex. }
    cbn [fst snd]. rewrite run_bind. cbn [run query fst snd].
    change (domain_events_t (?s <| domain_events_t := ?t |>)) with t.
    rewrite existsb_app, (Hid _ eq_refl). cbn [existsb orb]. change (domain_events.id row) with i.
    rewrite text_eq_refl, run_bind. cbn [orb run domain_events_select query fst snd].
    change (domain_events_t (?s <| domain_events_t := ?t |>)) with t.
    rewrite head_where, find_app, Ef. cbn [List.find]. rewrite Hns. eexists. split; [reflexivity|done].
Qed.

Lemma run_local_publish spec s i :
  check_publish spec = Ok () → (∀ e, e ∈ domain_events_t s → domain_events.id e ≠ i) →
  (∃ d, run (prepare_publish_domain_event spec) s = (Ok (spec <| pub_id := i |>), s <| uuids_drawn := d |>)) →
  ∃ s', run (publish_domain_event_on spec) s = (Ok (publication s spec i).1, s')
    ∧ domain_events_t s' = (publication s spec i).2.
Proof.
  intros Hck Hfresh [d Hp]. unfold publish_domain_event_on, publication. rewrite run_try_bind, Hp, run_bind,
    run_find_published. cbn [fst snd]. change (in_namespace (spec <| pub_id := i |>)) with (in_namespace spec).
  change (domain_events_t (s <| uuids_drawn := d |>)) with (domain_events_t s).
  destruct (List.find (in_namespace spec) (domain_events_t s)) as [e|] eqn:Ef; [by eexists|].
  rewrite run_bind, run_now_str. cbn [fst snd]. rewrite run_bind.
  unfold domain_events_insert. cbn [run exec fst snd].
  change (domain_events_t (s <| uuids_drawn := d |>)) with (domain_events_t s).
  match goal with |- context [existsb ?p ?l] => assert (existsb p l = false) as -> end.
  { apply existsb_false. intros x Hx. apply orb_false_iff. split; [by apply text_eq_false, Hfresh|].
    by eapply find_where_none in Ef. }
  cbn [fst snd run]. eexists. split; [reflexivity|done].
Qed.

(** Publication through the database plugin returns the outcome, errors included, and leaves the
    events, of the local transaction, as long as the id it would use is new. *)
Theorem atomic_publish_is_publish spec s :
  (∀ e, e ∈ domain_events_t s → domain_events.id e ≠ prepared_id s spec) →
  (run (publish_domain_event_atomic spec) s).1 = (run (publish_domain_event spec) s).1
  ∧ domain_events_t (run (publish_domain_event_atomic spec) s).2
    = domain_events_t (run (publish_domain_event spec) s).2.
Proof.
  intros Hfresh. pose proof (run_publish_paths spec s) as Herr.
  destruct (check_publish spec) as [[]|e] eqn:Hck; [clear Herr|].
  2: { destruct Herr as (-> & -> & -> & ->). done. }
  unfold publish_domain_event, publish_domain_event_atomic, rpc_publish_domain_event.
  unfold prepared_id, prepare_twice in Hfresh.
  destruct (run_prepare spec s) as (i1 & d1 & E1). rewrite Hck in E1.
  rewrite !run_try_bind, E1. rewrite run_try_bind, E1 in Hfresh.
  set (spec1 := spec <| pub_id := i1 |>) in *. set (s1 := s <| uuids_drawn := d1 |>) in *.
  destruct (run_prepare spec1 s1) as (i & d2 & E2). change (check_publish spec1) with (check_publish spec) in E2.
  rewrite Hck in E2. rewrite run_try_bind, E2. rewrite E2 in Hfresh. cbn [fst] in Hfresh.
  rewrite run_bind, run_now_str. cbn [fst snd]. rewrite run_try_bind, !run_txn.
  destruct (run_local_publish spec1 s1 i Hck Hfresh) as (s2 & -> & Hev2); [by exists d2|].
  set (sp := s1 <| uuids_drawn := d2 |>).
  destruct (run_plan_publish spec1 sp i Hfresh) as (s3 & -> & Hev3).
  change (publication sp spec1 i) with (publication s1 spec1 i) in *.
  cbn [fst snd]. destruct (publication s1 spec1 i) as [[] t]; cbn [fst snd] in *; cbn; by rewrite Hev2, Hev3.
Qed.

(** Under an id the namespace's event already has, the batch reports a new event. *)
Lemma atomic_republish_reports_created spec s e :
  check_publish spec = Ok () → e ∈ domain_events_t s → in_namespace spec e = true →
  List.find (in_namespace spec) (domain_events_t s) = Some e → domain_events.id e = pub_id spec →
  (run (txn (plan_publish_domain_event spec (to_rfc3339 (clock s)))) s).1
    = Ok ("ok", Some (pub_id spec)).
Proof.
  intros Hck He Hns Hf Hid. rewrite run_txn. unfold plan_publish_domain_event. rewrite run_bind.
  cbn [run query fst snd]. fold (in_namespace spec).
  assert (∀ p, p e = true → existsb p (domain_events_t s) = true) as Hex.
  { intros p Hp. apply existsb_exists. exists e. by rewrite <-list_elem_of_In. }
  rewrite Hex by done. rewrite run_try_bind. cbn [run]. rewrite run_bind. cbn [run query fst snd].
  rewrite Hex by (by rewrite Hid, text_eq_refl). rewrite run_bind. cbn [run domain_events_select query fst snd].
  rewrite head_where, Hf. cbn. by rewrite Hid.
Qed.
End Publish.
