(* ===== verification/EventDispatch.v ===== *)
(** * Dispatch in pages over a frozen snapshot

    Behind a database plugin a dispatch freezes its subscribers in the event row and inserts their
    deliveries page by page.  The pages together are one dispatch of the frozen list, from whatever
    point an interrupted one left; dispatchers that race agree on the list. *)

From stdpp Require Import base option list strings gmap pretty sorting.
From Stdlib Require Import ZArith Lia.
From S2P Require Import Prelude Schema Store Concurrency JobModels EventModels EventOutbox EventInvariant EventSafety EventClaim EventSpec EventWake EventPublish EventPlans.

Local Open Scope Z_scope.

Section Pages.
Context {C : Chrono} {U : Uuid} {Q : InFlightCap} {JI : SerdeJson (list string)} {JD : JulianDay}.

(** A subscriber the batch and the local loop read alike. *)
Definition plain (sub : EventSubscriber) : Prop :=
  trim (sub_plugin_id sub) = sub_plugin_id sub
  ∧ sub_resource_class sub = EVENT_RESOURCE_CLASS_NETWORK.

Lemma plain_page_plugin sub :
  plain sub → plan_page_plugin sub = if deliverable sub then Some (sub_plugin_id sub) else None.
Proof.
  intros [Ht Hc]. unfold plan_page_plugin, deliverable. rewrite Hc, Ht.
  by destruct (str_is_empty (sub_plugin_id sub)).
Qed.

Lemma missing_app have a b :
  missing_plugins have (a ++ b) =
  missing_plugins have a ++ missing_plugins (missing_plugins have a ++ have) b.
Proof.
  revert have. induction a as [|sub a IH]; intros have; [done|]. cbn [app missing_plugins].
  destruct (_ && _); [|apply IH]. rewrite IH. cbn [app]. do 2 f_equal. apply missing_ext.
  intros p. rewrite !elem_of_app, !elem_of_cons, elem_of_app. naive_solver.
Qed.

(** A list missing a first part is missing the same plugins after it. *)
Lemma missing_have have (a : list EventSubscriber) :
  missing_plugins (missing_plugins have a ++ have) a = [].
Proof.
  apply elem_of_nil_inv. intros p [Hn Hs]%missing_elem_of. apply Hn, elem_of_app.
  destruct (decide (p ∈ have)); [by right|]. left. by apply missing_elem_of.
Qed.

Lemma missing_resumed have (a b : list EventSubscriber) :
  missing_plugins have (a ++ b)
  = missing_plugins have a ++ missing_plugins (missing_plugins have a ++ have) (a ++ b).
Proof. by rewrite missing_app, (missing_app _ a b), missing_have. Qed.

(** The plugins that have a delivery once [new] got theirs. *)
Lemma delivered_with e event_id now t new :
  delivered_plugins event_id (t ++ map (λ q, new_delivery_row e event_id q now) new)
  = delivered_plugins event_id t ++ new.
Proof.
  unfold delivered_plugins. rewrite List.filter_app, map_app. f_equal.
  induction new as [|q new IH]; [done|]. cbn. rewrite text_eq_refl. cbn. by f_equal.
Qed.

Lemma delivered_app e event_id now t new p :
  p ∈ delivered_plugins event_id (t ++ map (λ q, new_delivery_row e event_id q now) new)
  ↔ p ∈ new ++ delivered_plugins event_id t.
Proof. rewrite delivered_with, !elem_of_app. tauto. Qed.

Lemma new_rows_keyed e event_id now t new :
  colon_free event_id = true → (∀ d, d ∈ t → well_keyed d) →
  ∀ d, d ∈ t ++ map (λ q, new_delivery_row e event_id q now) new → well_keyed d.
Proof.
  intros Hc Hk d [Hd|(q & -> & _)%list_elem_of_fmap]%elem_of_app; [auto|]. by split_and!.
Qed.

(** ** The inserts of a page *)

Lemma run_plan_insert e event_id now p s :
  (∀ d, d ∈ event_deliveries_t s → well_keyed d) → colon_free event_id = true →
  List.find (λ m, text_eq (domain_events.id m) event_id) (domain_events_t s) = Some e →
  run (plan_insert_delivery event_id now p) s =
  ((), if is_in p (delivered_plugins event_id (event_deliveries_t s)) then s
       else s <| event_deliveries_t :=
                  event_deliveries_t s ++ [new_delivery_row e event_id p now] |>).
Proof.
  intros Hk Hc Hf. unfold plan_insert_delivery. cbn [run exec fst snd]. rewrite Hf. f_equal.
  assert (existsb (same_delivery (new_delivery_row e event_id p now)) (event_deliveries_t s)
    = is_in p (delivered_plugins event_id (event_deliveries_t s))) as ->; [|done].
  apply eq_true_iff_eq. rewrite is_in_true, delivered_elem_of, existsb_exists.
  setoid_rewrite <-list_elem_of_In. split; intros (d & Hd & Hp); exists d; (split; [done|]).
  - by apply same_delivery_pair in Hp; [|auto..].
  - by apply same_delivery_pair; [auto..|].
Qed.

Lemma run_plan_inserts e event_id now subs s :
  (∀ d, d ∈ event_deliveries_t s → well_keyed d) → colon_free event_id = true →
  List.find (λ m, text_eq (domain_events.id m) event_id) (domain_events_t s) = Some e →
  (∀ sub, sub ∈ subs → plain sub) →
  run (for_each (omap plan_page_plugin subs) () (λ _ plugin_id,
    let* _ := plan_insert_delivery event_id now plugin_id in Ret (Ok ()))) s =
  (Ok (), s <| event_deliveries_t := event_deliveries_t s
                ++ map (λ p, new_delivery_row e event_id p now)
                     (missing_plugins (delivered_plugins event_id (event_deliveries_t s)) subs) |>).
Proof.
  revert s. induction subs as [|sub subs IH]; intros s Hk Hc Hf Hpl.
  { cbn. rewrite app_nil_r. by destruct s. }
  assert (Hsub : plain sub) by (apply Hpl; left). cbn [omap list_omap missing_plugins].
  rewrite plain_page_plugin by done. destruct (deliverable sub); cbn [andb].
  2: { apply IH; [done..|]. intros x Hx. apply Hpl. by right. }
  cbn [for_each]. rewrite run_try_bind, run_bind, (run_plan_insert e) by done. cbn [fst snd run].
  destruct (is_in _ _) eqn:Ei; cbn [negb].
  { apply IH; [done..|]. intros x Hx. apply Hpl. by right. }
  rewrite IH; [|by apply (new_rows_keyed e event_id now _ [sub_plugin_id sub])|done|done
    |intros x Hx; apply Hpl; by right].
  change (event_deliveries_t (s <| event_deliveries_t := ?t |>)) with t.
  rewrite (missing_ext _ (sub_plugin_id sub :: delivered_plugins event_id (event_deliveries_t s)))
    by (intros p; apply (delivered_app e event_id now _ [sub_plugin_id sub])).
  cbn [map]. f_equal. rewrite <-app_assoc. by destruct s.
Qed.

(** ** One page *)

(** No delivery of the event was created at this instant, blank or for a plugin of [ids]. *)
Definition uncounted (event_id now : string) (ids : list string) (t : list event_deliveries.Model)
    : Prop :=
  ∀ d, d ∈ t → event_deliveries.event_id d = event_id → event_deliveries.created_at d = now →
  event_deliveries.plugin_id d ≠ "" ∧ event_deliveries.plugin_id d ∉ ids.

Lemma plain_page (subs : list EventSubscriber) :
  (∀ sub, sub ∈ subs → plain sub) →
  ∀ p : string, p ∈ omap plan_page_plugin subs ↔
       ∃ sub, sub ∈ subs ∧ deliverable sub = true ∧ sub_plugin_id sub = p.
Proof.
  intros Hpl p. rewrite list_elem_of_omap. split.
  - intros (sub & Hs & Hp). exists sub. rewrite plain_page_plugin in Hp by auto.
    destruct (deliverable sub); naive_solver.
  - intros (sub & Hs & Hd & <-). exists sub. rewrite plain_page_plugin, Hd by auto. done.
Qed.

(** The rows the payload statement counts are the ones the page inserted. *)
Lemma page_count e event_id now (subs : list EventSubscriber) t (new : list string) :
  (∀ sub, sub ∈ subs → plain sub) → uncounted event_id now (map sub_plugin_id subs) t →
  (∀ p, p ∈ new → ∃ sub, sub ∈ subs ∧ deliverable sub = true ∧ sub_plugin_id sub = p) →
  length (List.filter (λ d, text_eq (event_deliveries.event_id d) event_id
      && text_eq (event_deliveries.created_at d) now
      && is_in (event_deliveries.plugin_id d)
           (match omap plan_page_plugin subs with [] => [""] | _ => omap plan_page_plugin subs end))
    (t ++ map (λ p, new_delivery_row e event_id p now) new)) = length new.
Proof.
  intros Hpl Hun Hnew. rewrite List.filter_app, where_none.
  - rewrite forallb_filter_id; [by rewrite length_app, length_map|]. apply forallb_forall.
    intros d (p & -> & Hp)%list_elem_of_In%list_elem_of_fmap. cbn. rewrite !text_eq_refl. cbn [andb].
    apply is_in_true. pose proof (proj2 (plain_page subs Hpl p) (Hnew p Hp)) as Hin.
    by destruct (omap plan_page_plugin subs); [apply not_elem_of_nil in Hin|].
  - intros d Hd. apply not_true_iff_false. intros H. apply andb_prop in H as [H Hin].
    where_clauses. destruct (Hun d Hd) as [Hne Hni]; [done..|].
    destruct (omap plan_page_plugin subs) as [|q l] eqn:Eo; [by apply list_elem_of_singleton in Hin|].
    rewrite <-Eo, plain_page in Hin by done. destruct Hin as (sub & Hs & _ & Heq).
    apply Hni. rewrite <-Heq. by apply list_elem_of_fmap_2.
Qed.

Lemma run_mark_dispatched event_id now s :
  ∃ t, run (plan_mark_dispatched event_id now) s =
    ((), s <| event_outbox_stats_t := t |> <| domain_events_t := dispatched event_id (domain_events_t s) |>).
Proof.
  unfold plan_mark_dispatched. rewrite run_bind. cbn [run exec fst snd].
  destruct (existsb _ (event_outbox_stats_t s)); rewrite run_bind; cbn [run exec fst snd];
    rewrite run_bind; unfold domain_events_update; cbn [run exec fst snd]; eexists; destruct s; reflexivity.
Qed.

(** The event is still there when it is marked. *)
Lemma find_dispatched event_id t e :
  List.find (λ m, text_eq (domain_events.id m) event_id) t = Some e →
  ∃ e', List.find (λ m, text_eq (domain_events.id m) event_id) (dispatched event_id t) = Some e'.
Proof.
  intros Hf. unfold dispatched. rewrite find_map, Hf; [by eexists|]. intros m. by destruct (_ && _).
Qed.

Lemma run_rpc_dispatch e event_id (subs : list EventSubscriber) (mark : bool) s :
  (∀ d, d ∈ event_deliveries_t s → well_keyed d) → colon_free event_id = true →
  List.find (λ m, text_eq (domain_events.id m) event_id) (domain_events_t s) = Some e →
  (∀ sub, sub ∈ subs → plain sub) →
  uncounted event_id (to_rfc3339 (clock s)) (map sub_plugin_id subs) (event_deliveries_t s) →
  let new := missing_plugins (delivered_plugins event_id (event_deliveries_t s)) subs in
  ∃ t, run (rpc_dispatch_event_deliveries event_id subs mark) s =
    (Ok (Z.of_nat (length new)),
     s <| event_deliveries_t := event_deliveries_t s
            ++ map (λ p, new_delivery_row e event_id p (to_rfc3339 (clock s))) new |>
       <| event_outbox_stats_t := t |>
       <| domain_events_t := if mark then dispatched event_id (domain_events_t s)
                             else domain_events_t s |>).
Proof.
  intros Hk Hc Hf Hpl Hun new. unfold rpc_dispatch_event_deliveries. rewrite run_bind, run_now_str.
  cbn [fst snd]. rewrite run_try_bind, run_txn. unfold plan_dispatch_event_deliveries.
  rewrite run_try_bind, (run_plan_inserts e) by done. fold new.
  set (s1 := s <| event_deliveries_t := _ |>). rewrite run_bind.
  assert (Hm : ∃ t, run (if mark then plan_mark_dispatched event_id (to_rfc3339 (clock s)) else Ret ()) s1
    = ((), s1 <| event_outbox_stats_t := t |>
              <| domain_events_t := if mark then dispatched event_id (domain_events_t s)
                                    else domain_events_t s |>)).
  { destruct mark; [exact (run_mark_dispatched event_id _ s1)|]. exists (event_outbox_stats_t s). unfold s1. by destruct s. }
  destruct Hm as [t ->]. exists t. cbn [fst snd]. rewrite run_bind. cbn [run query fst snd].
  rewrite run_bind, run_select. cbn [fst snd].
  match goal with |- context [existsb ?p ?l] => assert (existsb p l = true) as -> end.
  { apply existsb_exists. destruct mark.
    - apply (find_dispatched event_id) in Hf as (x & Hx). apply find_where in Hx as [Hx Hid].
      exists x. by rewrite <-list_elem_of_In.
    - apply find_where in Hf as [He Hid]. exists e. by rewrite <-list_elem_of_In. }
  change (event_deliveries_t (s1 <| event_outbox_stats_t := ?a |> <| domain_events_t := ?b |>))
    with (event_deliveries_t s ++ map (λ p, new_delivery_row e event_id p (to_rfc3339 (clock s))) new).
  rewrite page_count; [done..|]. intros p Hp. by apply missing_elem_of in Hp as [_ Hp].
Qed.

(** ** A run of pages *)

(** What a page needs of the list it reads. *)
Record dispatchable (s : Db) (event_id : string) (e : domain_events.Model)
    (subs : list EventSubscriber) : Prop := {
  dp_keyed : ∀ d, d ∈ event_deliveries_t s → well_keyed d;
  dp_colon : colon_free event_id = true;
  dp_found : List.find (λ m, text_eq (domain_events.id m) event_id) (domain_events_t s) = Some e;
  dp_plain : ∀ sub, sub ∈ subs → plain sub;
  dp_once : NoDup (map sub_plugin_id subs);
  dp_fresh : uncounted event_id (to_rfc3339 (clock s)) (map sub_plugin_id subs) (event_deliveries_t s);
}.

Lemma dispatchable_app s event_id e (a b : list EventSubscriber) :
  dispatchable s event_id e (a ++ b) → dispatchable s event_id e a.
Proof.
  intros [? ? ? Hp Ho Hu]. rewrite map_app in Ho, Hu. apply NoDup_app in Ho as (? & _ & _).
  split; try done.
  - intros sub Hs. apply Hp, elem_of_app. by left.
  - intros d Hd He Hc. destruct (Hu d Hd He Hc) as [? Hn]. rewrite not_elem_of_app in Hn. by destruct Hn.
Qed.

(** The store after a page: new rows, other counters. *)
Definition paged (s : Db) (event_id : string) (e : domain_events.Model) (subs : list EventSubscriber)
    (t : list event_outbox_stats.Model) : Db :=
  s <| event_deliveries_t := event_deliveries_t s
        ++ map (λ p, new_delivery_row e event_id p (to_rfc3339 (clock s)))
             (missing_plugins (delivered_plugins event_id (event_deliveries_t s)) subs) |>
    <| event_outbox_stats_t := t |>.

(** The next page finds what it needs. *)
Lemma dispatchable_next s event_id e (a b : list EventSubscriber) t :
  dispatchable s event_id e (a ++ b) → dispatchable (paged s event_id e a t) event_id e b.
Proof.
  intros [Hk ? Hf Hp Ho Hu]. rewrite map_app in Ho, Hu. apply NoDup_app in Ho as (_ & Hd & ?).
  split; try done.
  - by apply new_rows_keyed.
  - intros sub Hs. apply Hp, elem_of_app. by right.
  - intros d [Hin|(p & -> & Hin)%list_elem_of_fmap]%elem_of_app He Hc.
    + destruct (Hu d Hin He Hc) as [? Hn]. rewrite not_elem_of_app in Hn. by destruct Hn.
    + cbn. apply missing_elem_of in Hin as (_ & sub & Hs & Hdel & <-). split.
      * intros Hz. unfold deliverable in Hdel. rewrite Hz in Hdel. done.
      * by apply Hd, list_elem_of_fmap_2.
Qed.

Lemma missing_paged s event_id e (a b : list EventSubscriber) t :
  missing_plugins (delivered_plugins event_id (event_deliveries_t (paged s event_id e a t))) b =
  missing_plugins (missing_plugins (delivered_plugins event_id (event_deliveries_t s)) a
    ++ delivered_plugins event_id (event_deliveries_t s)) b.
Proof. apply missing_ext. intros p. apply delivered_app. Qed.

Lemma paged_paged s event_id e (a b : list EventSubscriber) t t' :
  paged (paged s event_id e a t) event_id e b t' = paged s event_id e (a ++ b) t'.
Proof.
  unfold paged at 1. rewrite missing_paged. unfold paged. rewrite missing_app, map_app, app_assoc.
  by destruct s.
Qed.

(** The number of deliveries [subs] still lacks. *)
Definition lacking (s : Db) (event_id : string) (subs : list EventSubscriber) : Z :=
  Z.of_nat (length (missing_plugins (delivered_plugins event_id (event_deliveries_t s)) subs)).

Lemma lacking_app s event_id e (a b : list EventSubscriber) t :
  lacking s event_id (a ++ b) = lacking s event_id a + lacking (paged s event_id e a t) event_id b.
Proof. unfold lacking. rewrite missing_paged, missing_app, length_app. lia. Qed.

Lemma run_open_page s event_id e (subs : list EventSubscriber) :
  dispatchable s event_id e subs →
  ∃ t, run (rpc_dispatch_event_deliveries event_id subs false) s =
    (Ok (lacking s event_id subs), paged s event_id e subs t).
Proof.
  intros []. destruct (run_rpc_dispatch e event_id subs false s) as [t ->]; [done..|].
  exists t. by destruct s.
Qed.

Lemma run_last_page s event_id e (subs : list EventSubscriber) :
  dispatchable s event_id e subs →
  ∃ t, run (rpc_dispatch_event_deliveries event_id subs true) s =
    (Ok (lacking s event_id subs),
     (paged s event_id e subs t) <| domain_events_t := dispatched event_id (domain_events_t s) |>).
Proof. intros []. by apply (run_rpc_dispatch e event_id subs true s). Qed.

Lemma run_dispatch_pages event_id e pages s total :
  pages ≠ [] → dispatchable s event_id e (concat pages) →
  ∃ t, run (dispatch_pages event_id pages total) s =
    (Ok (total + lacking s event_id (concat pages)),
     (paged s event_id e (concat pages) t) <| domain_events_t := dispatched event_id (domain_events_t s) |>).
Proof.
  revert s total. induction pages as [|page pages IH]; intros s total Hne H; [done|].
  cbn [dispatch_pages concat] in *. rewrite run_try_bind.
  destruct pages as [|next pages].
  { cbn [concat] in *. rewrite app_nil_r in *.
    destruct (run_last_page s event_id e page H) as [t ->]. by exists t. }
  destruct (run_open_page s event_id e page) as [t ->]; [by eapply dispatchable_app|].
  destruct (IH (paged s event_id e page t) (total + lacking s event_id page)) as [t' Hr];
    [done|by apply dispatchable_next|].
  rewrite Hr. exists t'. rewrite (lacking_app _ _ e _ _ t), Z.add_assoc, paged_paged. done.
Qed.

(** The pages an interrupted dispatch got through: none of them marks the event. *)
Definition first_pages (event_id : string) (pages : list (list EventSubscriber)) : prog Db (result Z) :=
  for_each pages 0 (λ total page,
    let? created := rpc_dispatch_event_deliveries event_id page false in Ret (Ok (total + created))).

Lemma run_first_pages event_id e pages s :
  dispatchable s event_id e (concat pages) →
  ∃ r t, run (first_pages event_id pages) s = (r, paged s event_id e (concat pages) t).
Proof.
  unfold first_pages. generalize 0. revert s. induction pages as [|page pages IH]; intros s n H.
  { exists (Ok n), (event_outbox_stats_t s). unfold paged. cbn. rewrite app_nil_r. by destruct s. }
  cbn [for_each concat] in *. rewrite !run_try_bind.
  destruct (run_open_page s event_id e page) as [t ->]; [by eapply dispatchable_app|]. cbn [run].
  destruct (IH (paged s event_id e page t) (n + lacking s event_id page)) as (r & t' & Hr);
    [by apply dispatchable_next|]. exists r, t'. by rewrite Hr, paged_paged.
Qed.

(** ** The snapshot *)

(** The event's row once its subscribers are frozen. *)
Definition freeze (event_id json : string) (m : domain_events.Model) : domain_events.Model :=
  if text_eq (domain_events.id m) event_id && text_eq (domain_events.dispatch_snapshot_json m) ""
  then m <| domain_events.dispatch_snapshot_json := json |> else m.

Definition snapshot_of (subs : list EventSubscriber) : string :=
  default "[]" (to_string (map sub_plugin_id subs)).

Definition frozen (s : Db) (event_id : string) (subs : list EventSubscriber) : Db :=
  s <| domain_events_t := map (freeze event_id (snapshot_of subs)) (domain_events_t s) |>.

Lemma find_freeze event_id json t e :
  List.find (λ m, text_eq (domain_events.id m) event_id) t = Some e →
  List.find (λ m, text_eq (domain_events.id m) event_id) (map (freeze event_id json) t)
  = Some (freeze event_id json e).
Proof.
  intros Hf. rewrite find_map, Hf; [done|]. intros m. unfold freeze. by destruct (_ && _).
Qed.

Lemma frozen_rows event_id json e p now :
  new_delivery_row (freeze event_id json e) event_id p now = new_delivery_row e event_id p now.
Proof. unfold freeze. by destruct (_ && _). Qed.

(** First use writes the snapshot. *)
Lemma run_snapshot_init s event_id e (subs : list EventSubscriber) :
  List.find (λ m, text_eq (domain_events.id m) event_id) (domain_events_t s) = Some e →
  domain_events.dispatch_snapshot_json e = "" →
  run (load_or_init_dispatch_snapshot event_id subs) s = (Ok subs, frozen s event_id subs).
Proof.
  intros Hf He. unfold load_or_init_dispatch_snapshot. rewrite run_bind.
  unfold domain_events_find_by_id at 1 2. cbn [run query fst snd]. rewrite Hf, He.
  change (str_is_empty (trim "")) with true. cbn [negb]. rewrite run_bind. unfold domain_events_update at 1 2. cbn [run exec fst snd].
  destruct (_ =? 0)%nat eqn:Ec; [|done]. exfalso. apply Nat.eqb_eq in Ec.
  apply find_where in Hf as [Hin Hid]. apply length_zero_iff_nil in Ec.
  apply (not_elem_of_nil e). rewrite <-Ec. apply elem_of_where. by rewrite Hid, He.
Qed.

(** Later uses read it back, whoever the subscribers are by then. *)
Lemma run_snapshot_load s event_id e ids (subs : list EventSubscriber) :
  List.find (λ m, text_eq (domain_events.id m) event_id) (domain_events_t s) = Some e →
  str_is_empty (trim (domain_events.dispatch_snapshot_json e)) = false →
  from_str (domain_events.dispatch_snapshot_json e) = Some ids →
  run (load_or_init_dispatch_snapshot event_id subs) s = (Ok (map EventSubscriber_plugin ids), s).
Proof.
  intros Hf He Hj. unfold load_or_init_dispatch_snapshot. rewrite run_bind.
  unfold domain_events_find_by_id at 1 2. cbn [run query fst snd]. rewrite Hf, He. cbn [negb run].
  unfold parse_dispatch_snapshot. by rewrite Hj.
Qed.

Lemma plain_subscribers (subs : list EventSubscriber) :
  (∀ sub, sub ∈ subs → plain sub) → map EventSubscriber_plugin (map sub_plugin_id subs) = subs.
Proof.
  intros H. rewrite map_map. rewrite <-(map_id subs) at 2. apply map_ext_in.
  intros [p c] [_ Hc]%list_elem_of_In%H. cbn in *. by subst.
Qed.

(** ** The whole dispatch *)

Lemma run_paged_dispatch chunk event_id e (subs all : list EventSubscriber) s s1 :
  run (load_or_init_dispatch_snapshot event_id subs) s = (Ok all, s1) →
  dispatchable s1 event_id e all →
  ∃ t, run (dispatch_event_deliveries_atomic chunk event_id subs) s =
    (Ok (lacking s1 event_id all),
     (paged s1 event_id e all t) <| domain_events_t := dispatched event_id (domain_events_t s1) |>).
Proof.
  intros Hl Hd. unfold dispatch_event_deliveries_atomic. rewrite run_try_bind, Hl.
  destruct all as [|sub all]; [by apply run_last_page|].
  set (pages := chunks (Z.to_nat (Z.max chunk 1)) (sub :: all)).
  assert (Hc : concat pages = sub :: all) by (apply concat_chunks; lia).
  destruct (run_dispatch_pages event_id e pages s1 0) as [t Hr]; [|by rewrite Hc|].
  { intros Hz. by rewrite Hz in Hc. }
  exists t. fold pages. by rewrite Hr, Hc, Z.add_0_l.
Qed.

Lemma dispatchable_frozen s event_id e (subs : list EventSubscriber) :
  dispatchable s event_id e subs →
  dispatchable (frozen s event_id subs) event_id (freeze event_id (snapshot_of subs) e) subs.
Proof. intros []. split; try done. by apply find_freeze. Qed.

(** Behind a database plugin the first dispatch of an event freezes its subscribers, then sends
    them in pages; whatever the page size, it returns the count, and leaves the deliveries, of
    the dispatch that runs as one local transaction. *)
Theorem paged_dispatch_is_dispatch chunk event_id (subs : list EventSubscriber) s e :
  dispatchable s event_id e subs → domain_events.dispatch_snapshot_json e = "" →
  let r := run (dispatch_event_deliveries_atomic chunk event_id subs) s in
  let local := run (dispatch_event_deliveries event_id subs) s in
  r.1 = local.1 ∧ event_deliveries_t r.2 = event_deliveries_t local.2
  ∧ domain_events_t r.2
    = dispatched event_id (map (freeze event_id (snapshot_of subs)) (domain_events_t s)).
Proof.
  intros Hd He r local. pose proof (dispatchable_frozen _ _ _ _ Hd) as Hd1.
  destruct (run_paged_dispatch chunk event_id (freeze event_id (snapshot_of subs) e) subs subs s (frozen s event_id subs))
    as [t Hr]; [by eapply run_snapshot_init; [apply Hd|]|exact Hd1|].
  destruct Hd. destruct (run_dispatch event_id subs s e) as (H1 & _ & H2 & _); [done..|].
  unfold r, local. rewrite Hr, H1, H2. split_and!; [done| |done].
  unfold paged, frozen. cbn. f_equal. apply map_ext. intros p. apply frozen_rows.
Qed.

(** A dispatch that stopped after any number of its pages is finished by any later one: the
    later one ignores the subscribers it is given, sends the frozen list in pages of its own
    size, and the deliveries are, in the same order, those of one uninterrupted dispatch. *)
Theorem interrupted_dispatch_finishes chunk chunk' k event_id (subs others : list EventSubscriber)
    s e now :
  dispatchable s event_id e subs → domain_events.dispatch_snapshot_json e = "" →
  str_is_empty (trim (snapshot_of subs)) = false →
  from_str (snapshot_of subs) = Some (map sub_plugin_id subs) →
  (∀ d, d ∈ event_deliveries_t s → event_deliveries.created_at d ≠ to_rfc3339 now) →
  to_rfc3339 now ≠ to_rfc3339 (clock s) →
  let stopped := (run (let? all := load_or_init_dispatch_snapshot event_id subs in
      first_pages event_id (take k (chunks (Z.to_nat (Z.max chunk 1)) all))) s).2 in
  let r := run (dispatch_event_deliveries_atomic chunk' event_id others) (stopped <| clock := now |>) in
  delivered_plugins event_id (event_deliveries_t r.2)
  = delivered_plugins event_id (event_deliveries_t (run (dispatch_event_deliveries event_id subs) s).2)
  ∧ r.1 = Ok (lacking stopped event_id subs).
Proof.
  intros Hd He Hnb Hj Hold Hnow stopped. pose proof (dispatchable_frozen _ _ _ _ Hd) as Hd1.
  set (e1 := freeze event_id (snapshot_of subs) e) in *. set (s1 := frozen s event_id subs) in *.
  set (pages := chunks (Z.to_nat (Z.max chunk 1)) subs).
  assert (Hc : concat pages = subs) by (apply concat_chunks; lia).
  rewrite <-Hc, <-(take_drop k pages), concat_app in Hd1. set (a := concat (take k pages)) in *.
  assert (Hs : ∃ t, stopped = paged s1 event_id e1 a t).
  { unfold stopped. rewrite run_try_bind, (run_snapshot_init s event_id e) by (done || apply Hd).
    destruct (run_first_pages event_id e1 (take k pages) s1) as (q & t & Hq);
      [by eapply dispatchable_app|]. exists t. fold pages s1. by rewrite Hq. }
  destruct Hs as [t ->]. set (s2 := paged s1 event_id e1 a t). set (s3 := s2 <| clock := now |>).
  assert (Hd3 : dispatchable s3 event_id e1 subs).
  { destruct Hd, Hd1 as [Hk1 Hcf Hf1 _ _ _]. split; try done; [by apply new_rows_keyed|].
    intros d [Hin|(p & -> & _)%list_elem_of_fmap]%elem_of_app _ Hat; exfalso; [by eapply Hold|].
    by apply Hnow. }
  destruct (run_paged_dispatch chunk' event_id e1 others subs s3 s3) as [t' Hr]; [|exact Hd3|].
  { rewrite <-(plain_subscribers subs) by apply Hd.
    assert (He1 : domain_events.dispatch_snapshot_json e1 = snapshot_of subs).
    { destruct (find_where _ _ _ (dp_found _ _ _ _ Hd)) as [_ Hid]. unfold e1, freeze. by rewrite Hid, He. }
    apply (run_snapshot_load s3 event_id e1); [apply Hd3|by rewrite He1..]. }
  intros r. unfold r. rewrite Hr. split; [|done]. destruct Hd as [Hk Hcf Hf _ _ _].
  destruct (run_dispatch event_id subs s e Hk Hcf Hf) as (_ & _ & -> & _).
  rewrite delivered_with. cbn [fst snd].
  change (event_deliveries_t ((paged s3 event_id e1 subs t') <| domain_events_t := _ |>))
    with (event_deliveries_t s3 ++ map (λ p, new_delivery_row e1 event_id p (to_rfc3339 now))
            (missing_plugins (delivered_plugins event_id (event_deliveries_t s3)) subs)).
  rewrite delivered_with. change (event_deliveries_t s3) with (event_deliveries_t s2).
  unfold s2. rewrite missing_paged. unfold paged.
  change (event_deliveries_t (s1 <| event_deliveries_t := ?x |> <| event_outbox_stats_t := _ |>)) with x.
  rewrite delivered_with, <-app_assoc. f_equal. change (event_deliveries_t s1) with (event_deliveries_t s).
  symmetry. rewrite <-Hc, <-(take_drop k pages), concat_app. apply missing_resumed.
Qed.
End Pages.
