(* ===== verification/EventReconcile.v ===== *)
(** * Reconciliation of late joiners, run alone

    With the local dispatch a pass adds exactly the missing deliveries, and nothing the second
    time; with frozen pages a plugin outside the snapshot never gets one. *)

From stdpp Require Import base option list strings gmap pretty sorting.
From Stdlib Require Import ZArith Lia Sorted.
From S2P Require Import Prelude Schema Store Concurrency JobModels EventModels EventMatch EventOutbox EventPlans EventReads EventInvariant EventSafety EventClaim EventSpec EventWake EventPublish EventDispatch.

Local Open Scope Z_scope.

(** ** The page read *)

Lemma dedup_elem_of (l : list string) x : x ∈ dedup l ↔ x ∈ l.
Proof.
  induction l as [|a l IH]; [done|]. destruct l as [|b l]; [done|]. cbn [dedup].
  destruct (text_eq a b) eqn:E; rewrite ?elem_of_cons, IH, ?elem_of_cons; [|done].
  apply text_eq_true in E as ->. naive_solver.
Qed.

(** The rows read by id, whatever order they came in. *)
Lemma index_lookup (ms : list domain_events.Model) (acc : gmap string domain_events.Model) m :
  NoDup (map domain_events.id ms) → m ∈ ms →
  fold_left (λ by_id m, <[domain_events.id m := m]> by_id) ms acc !! domain_events.id m = Some m.
Proof.
  intros Hnd Hm. apply list_elem_of_split in Hm as (a & b & ->). rewrite fold_left_app. cbn [fold_left].
  rewrite map_app in Hnd. apply NoDup_app in Hnd as (_ & _ & [Hb _]%NoDup_cons).
  generalize (fold_left (λ by_id m, <[domain_events.id m := m]> by_id) a acc). clear acc. intros acc.
  assert (Hacc : <[domain_events.id m := m]> acc !! domain_events.id m = Some m) by apply lookup_insert_eq.
  revert Hacc. generalize (<[domain_events.id m := m]> acc). clear acc a.
  induction b as [|x b IH]; intros acc Hacc; [done|]. cbn [map] in Hb.
  apply not_elem_of_cons in Hb as [Hne Hb]. cbn [fold_left]. apply IH; [done|].
  by rewrite lookup_insert_ne.
Qed.

Lemma remove_each_all (rows : list domain_events.Model) by_id :
  NoDup (map domain_events.id rows) → (∀ m, m ∈ rows → by_id !! domain_events.id m = Some m) →
  remove_each (map domain_events.id rows) by_id = rows.
Proof.
  revert by_id. induction rows as [|m rows IH]; intros by_id Hnd H; [done|].
  cbn [map remove_each] in *. apply NoDup_cons in Hnd as [Hm Hnd]. rewrite (H m) by left.
  f_equal. apply IH; [done|]. intros x Hx. rewrite lookup_delete_ne; [by apply H; right|].
  intros Heq. apply Hm. rewrite Heq. by apply list_elem_of_fmap_2.
Qed.

Section Late.
Context {C : Chrono} {U : Uuid} {Value : Type} {JV : SerdeValue Value}.
Context {JS : SerdeJson (list (EventCatalogSubscription Value))}.

(** What the tables hold by construction: keys, non-empty ids without colons, canonical times. *)
Record late_wf (s : Db) : Prop := {
  lw_keyed : ∀ d, d ∈ event_deliveries_t s → well_keyed d;
  lw_ids : NoDup (map domain_events.id (domain_events_t s));
  lw_colon : ∀ e, e ∈ domain_events_t s → colon_free (domain_events.id e) = true;
  lw_named : ∀ e, e ∈ domain_events_t s → domain_events.id e ≠ "";
  lw_time : ∀ e, e ∈ domain_events_t s →
    to_rfc3339 (parse_dt (clock s) (domain_events.created_at e)) = domain_events.created_at e;
}.

(** The events past a cursor that lack a delivery for the plugin, oldest first. *)
Definition missing_events (s : Db) (plugin_id : string) (types : list string) (cutoff : string)
    (c : option (string * string)) : list domain_events.Model :=
  List.filter (past event_key c)
    (order_by event_le (List.filter (missing_event s plugin_id types cutoff None) (domain_events_t s))).

Lemma where_events p l : List.filter p (order_by event_le l) = order_by event_le (List.filter p l).
Proof.
  apply where_order_by; unfold event_le; intros *; [apply keyset_le_total|apply keyset_le_trans].
Qed.

Lemma missing_events_where s plugin_id types cutoff c :
  missing_events s plugin_id types cutoff c
  = order_by event_le (List.filter (missing_event s plugin_id types cutoff c) (domain_events_t s)).
Proof.
  unfold missing_events. rewrite where_events, where_where. f_equal. apply filter_ext. intros e.
  unfold missing_event. by rewrite andb_true_r.
Qed.

Lemma missing_events_elem_of s plugin_id types cutoff c e :
  e ∈ missing_events s plugin_id types cutoff c ↔
  e ∈ domain_events_t s ∧ missing_event s plugin_id types cutoff c e = true.
Proof. by rewrite missing_events_where, elem_of_order_by, elem_of_where. Qed.

Lemma missing_events_ids s plugin_id types cutoff c :
  late_wf s → NoDup (map domain_events.id (missing_events s plugin_id types cutoff c)).
Proof.
  intros []. rewrite missing_events_where, (Permutation_map _ (order_by_perm _ _)). by apply NoDup_where.
Qed.

Lemma run_list_missing s plugin_id types cutoff c :
  late_wf s → types ≠ [] → str_is_empty (trim plugin_id) = false →
  run (list_missing_dispatched_events_for_plugin plugin_id types cutoff c RECONCILE_PAGE) s =
  (Ok (map (map_event (clock s)) (take 200 (missing_events s plugin_id types cutoff c))), s).
Proof.
  intros Hwf Ht Hp. unfold list_missing_dispatched_events_for_plugin. rewrite Hp.
  destruct types as [|ty types]; [done|]. cbn [length Nat.eqb orb]. set (tys := ty :: types).
  rewrite run_bind. cbn [run query fst snd]. rewrite <-missing_events_where.
  change (Z.to_nat (default 200 (i64_try_from RECONCILE_PAGE))) with 200%nat.
  pose proof (missing_events_ids s plugin_id tys cutoff c Hwf) as Hnd.
  set (page := take 200 (missing_events s plugin_id tys cutoff c)).
  assert (Hpage : ∀ e, e ∈ page → e ∈ domain_events_t s).
  { intros e He%elem_of_take_inv. by apply missing_events_elem_of in He as [He _]. }
  assert (Hndp : NoDup (map domain_events.id page)).
  { rewrite <-(take_drop 200 (missing_events _ _ _ _ _)), map_app in Hnd. by apply NoDup_app in Hnd as [Hnd _]. }
  rewrite forallb_filter_id.
  2: { apply forallb_forall. intros id (e & -> & He)%list_elem_of_In%list_elem_of_fmap.
       pose proof (lw_named _ Hwf e (Hpage e He)). by destruct (domain_events.id e). }
  destruct (length _ =? 0)%nat eqn:El.
  { apply Nat.eqb_eq in El. rewrite length_map in El. apply length_zero_iff_nil in El. by rewrite El. }
  rewrite run_bind. cbn [run domain_events_select query fst snd]. rewrite run_bind, run_clock.
  cbn [fst snd run]. do 3 f_equal. apply remove_each_all; [done|]. intros m Hm.
  apply index_lookup; [apply NoDup_where, Hwf|]. apply elem_of_where. split; [by apply Hpage|].
  apply is_in_true. by apply list_elem_of_fmap_2.
Qed.

(** ** One event *)

Definition wanted (row : EventSubscriberCatalogRecord Value) (now : Z) (e : domain_events.Model) : bool :=
  existsb (λ sub, subscription_matches_event sub (map_event now e)) (cr_subscriptions row).

(** The store once the events [es] got their delivery for the plugin. *)
Definition joined (s : Db) (plugin_id : string) (es : list domain_events.Model) : Db :=
  s <| event_deliveries_t := event_deliveries_t s
        ++ map (λ e, new_delivery_row e (domain_events.id e) plugin_id (to_rfc3339 (clock s))) es |>.

Lemma joined_nil s p : joined s p [] = s.
Proof. unfold joined. cbn. rewrite app_nil_r. by destruct s. Qed.

Lemma joined_app s p a b : joined (joined s p a) p b = joined s p (a ++ b).
Proof. unfold joined. rewrite map_app, app_assoc. by destruct s. Qed.

Lemma joined_wf s p es :
  late_wf s → (∀ e, e ∈ es → e ∈ domain_events_t s) → late_wf (joined s p es).
Proof.
  intros [] Hes. split; try done. cbn.
  intros d [Hd|(e & -> & He)%list_elem_of_fmap]%elem_of_app; [auto|]. split_and!; [done..|]. cbn. auto.
Qed.

(** Dispatch of an already dispatched event to a plugin that has no delivery of it. *)
Lemma run_redispatch s e p :
  late_wf s → e ∈ domain_events_t s → domain_events.dispatch_state e = STATE_DISPATCHED →
  str_is_empty (trim p) = false → p ∉ delivered_plugins (domain_events.id e) (event_deliveries_t s) →
  run (dispatch_event_deliveries (domain_events.id e) [EventSubscriber_plugin p]) s
  = (Ok 1, joined s p [e]).
Proof.
  intros [Hk Hnd Hc _ _] He Hs Hp Hd. unfold dispatch_event_deliveries. rewrite run_txn.
  assert (Hf : List.find (λ m, text_eq (domain_events.id m) (domain_events.id e)) (domain_events_t s) = Some e)
    by by apply (find_by_key domain_events.id).
  unfold dispatch_event_deliveries_on. rewrite run_bind.
  cbn [run domain_events_find_by_id query fst snd]. rewrite Hf, Hs.
  change (text_eq STATE_DISPATCHED STATE_PENDING) with false. rewrite run_bind, run_now_str. cbn [fst snd].
  rewrite run_bind. assert (Hz : ∃ z, run (parse_dt_io (domain_events.created_at e)) s = (z, s)).
  { unfold parse_dt_io. destruct (parse_from_rfc3339 _); by eexists. }
  destruct Hz as [z ->]. cbn [fst snd].
  rewrite run_try_bind, run_dispatch_loop; [|done|by apply Hc|].
  2: { apply existsb_exists. exists e. rewrite <-list_elem_of_In, text_eq_refl. done. }
  cbn [missing_plugins sub_plugin_id EventSubscriber_plugin].
  assert (deliverable (EventSubscriber_plugin p) = true) as -> by (unfold deliverable; cbn [sub_plugin_id EventSubscriber_plugin]; by rewrite Hp).
  assert (is_in p (delivered_plugins (domain_events.id e) (event_deliveries_t s)) = false) as ->
    by (apply not_true_iff_false; by rewrite is_in_true).
  cbn [andb negb length map]. rewrite run_bind. unfold domain_events_update at 1. cbn [run exec fst snd].
  rewrite update_rows_none; [by destruct s|]. intros m Hm.
  destruct (text_eq (domain_events.id m) _) eqn:E; [|done]. apply text_eq_true in E.
  rewrite (NoDup_key domain_events.id (domain_events_t s) m e) by done. by rewrite Hs.
Qed.

Lemma delivered_joined s p es event_id q :
  q ∈ delivered_plugins event_id (event_deliveries_t (joined s p es)) ↔
  q ∈ delivered_plugins event_id (event_deliveries_t s)
  ∨ q = p ∧ ∃ e, e ∈ es ∧ domain_events.id e = event_id.
Proof.
  rewrite !delivered_elem_of. cbn. setoid_rewrite elem_of_app. setoid_rewrite list_elem_of_fmap. split.
  - intros (d & [Hd|(e & -> & He)] & <- & <-); [left; eauto|right; eauto].
  - intros [(d & Hd & H)|(-> & e & He & <-)]; [exists d; auto|]. eexists. split; [right; eauto|done].
Qed.

(** [missing_event] on the tables. *)
Lemma missing_event_spec s p types cutoff c e :
  missing_event s p types cutoff c e = true ↔
  domain_events.dispatch_state e = STATE_DISPATCHED
  ∧ text_lt cutoff (domain_events.created_at e) = true ∧ domain_events.event_type e ∈ types
  ∧ p ∉ delivered_plugins (domain_events.id e) (event_deliveries_t s) ∧ past event_key c e = true.
Proof.
  unfold missing_event. fold (past event_key c e).
  rewrite !andb_true_iff, text_eq_true, is_in_true, negb_true_iff, delivered_elem_of.
  rewrite <-not_true_iff_false, existsb_exists. setoid_rewrite <-list_elem_of_In.
  setoid_rewrite andb_true_iff. setoid_rewrite text_eq_true. tauto.
Qed.

Lemma row_subscribers (row : EventSubscriberCatalogRecord Value) now e :
  cr_enabled row = true →
  List.find (λ sub, text_eq (sub_plugin_id sub) (cr_plugin_id row))
    (catalog_subscribers_for_event [row] (map_event now e))
  = if wanted row now e then Some (EventSubscriber_plugin (cr_plugin_id row)) else None.
Proof.
  intros He. unfold catalog_subscribers_for_event, wanted. cbn [omap list_omap]. rewrite He. cbn [negb].
  destruct (existsb _ _); cbn; [by rewrite text_eq_refl|done].
Qed.

Lemma run_reconcile_events (row : EventSubscriberCatalogRecord Value) L s total :
  let p := cr_plugin_id row in
  late_wf s → cr_enabled row = true → str_is_empty (trim p) = false →
  NoDup (map domain_events.id L) →
  (∀ e, e ∈ L → e ∈ domain_events_t s ∧ domain_events.dispatch_state e = STATE_DISPATCHED
     ∧ p ∉ delivered_plugins (domain_events.id e) (event_deliveries_t s)) →
  let new := List.filter (wanted row (clock s)) L in
  run (for_each (map (map_event (clock s)) L) total (reconcile_event dispatch_event_deliveries row)) s
  = (Ok (total + Z.of_nat (length new)), joined s p new).
Proof.
  intros p. revert s total. induction L as [|e L IH]; intros s total Hwf He Hp Hnd HL new.
  { unfold new. cbn. by rewrite joined_nil, Z.add_0_r. }
  unfold new. cbn [map for_each List.filter]. rewrite run_try_bind. unfold reconcile_event at 1.
  rewrite row_subscribers by done. apply NoDup_cons in Hnd as [Hx Hnd].
  destruct (HL e) as (Hin & Hst & Hd); [left|]. destruct (wanted row (clock s) e).
  - change (ev_id (map_event (clock s) e)) with (domain_events.id e).
    rewrite run_try_bind, run_redispatch by done. cbn [run]. fold p.
    pose proof (IH (joined s p [e]) (total + 1)) as H.
    change (clock (joined s p [e])) with (clock s) in H. rewrite H; [| |done..|].
    + rewrite joined_app. cbn [length app]. do 2 f_equal. lia.
    + apply joined_wf; [done|]. by intros x ->%list_elem_of_singleton.
    + intros x Hxl. destruct (HL x) as (? & ? & ?); [by right|]. split_and!; [done..|].
      rewrite delivered_joined. intros [?|(_ & y & ->%list_elem_of_singleton & Hid)]; [done|].
      apply Hx. rewrite Hid. by apply list_elem_of_fmap_2.
  - apply IH; [done..|]. intros x Hxl. apply HL. by right.
Qed.

(** ** The page loop *)

Lemma missing_events_sorted s p types cutoff :
  StronglySorted (λ a b, keyset_le (event_key a) (event_key b) = true)
    (order_by event_le (List.filter (missing_event s p types cutoff None) (domain_events_t s))).
Proof.
  apply (order_by_sorted event_le); unfold event_le; intros *; [apply keyset_le_total|apply keyset_le_trans].
Qed.

Lemma missing_events_keys s p types cutoff c :
  late_wf s → NoDup (map event_key (missing_events s p types cutoff c)).
Proof.
  intros Hwf. apply (NoDup_fmap_1 snd). rewrite <-list_fmap_compose.
  exact (missing_events_ids s p types cutoff c Hwf).
Qed.

(** The page after [m] is the rest of the list, whatever the page before was given. *)
Lemma missing_events_next s p types cutoff c m es :
  let rest := missing_events s p types cutoff c in
  late_wf s → last (take 200 rest) = Some m → (∀ e, e ∈ es → e ∈ take 200 rest) →
  missing_events (joined s p es) p types cutoff (Some (event_key m)) = drop 200 rest.
Proof.
  intros rest Hwf Hl Hes.
  assert (Htail : missing_events s p types cutoff (Some (event_key m)) = drop 200 rest).
  { apply (keyset_tail event_key _ c); [|apply missing_events_sorted|done].
    pose proof (missing_events_keys s p types cutoff None Hwf) as H. unfold missing_events in H.
    cbn [past] in H. by rewrite where_all in H. }
  rewrite <-Htail, !missing_events_where. f_equal. apply filter_ext_in. intros x Hx%list_elem_of_In.
  apply eq_true_iff_eq. rewrite !missing_event_spec, delivered_joined.
  enough (past event_key (Some (event_key m)) x = true →
    ¬ (p = p ∧ ∃ e, e ∈ es ∧ domain_events.id e = domain_events.id x)) by tauto.
  intros Hpast (_ & e & He & Hid).
  assert (e ∈ domain_events_t s ∧ missing_event s p types cutoff c e = true) as [Hin Hm].
  { apply missing_events_elem_of. by eapply elem_of_take_inv, Hes. }
  assert (x = e) as -> by by apply (NoDup_key domain_events.id (domain_events_t s)); [apply Hwf|..].
  assert (e ∈ drop 200 rest) as Hdrop.
  { rewrite <-Htail. apply missing_events_elem_of. split; [done|].
    rewrite missing_event_spec in Hm |- *. tauto. }
  pose proof (missing_events_ids s p types cutoff c Hwf) as Hnd. fold rest in Hnd.
  rewrite <-(take_drop 200 rest), map_app in Hnd. apply NoDup_app in Hnd as (_ & Hno & _).
  apply (Hno (domain_events.id e)); apply list_elem_of_fmap_2; auto.
Qed.

Lemma run_reconcile_pages fuel (row : EventSubscriberCatalogRecord Value) types cutoff c total s :
  let p := cr_plugin_id row in
  late_wf s → cr_enabled row = true → str_is_empty (trim p) = false → types ≠ [] →
  let rest := missing_events s p types cutoff c in
  (length rest < fuel)%nat →
  let new := List.filter (wanted row (clock s)) rest in
  run (reconcile_pages dispatch_event_deliveries fuel row types cutoff c total) s
  = (Ok (total + Z.of_nat (length new)), joined s p new).
Proof.
  intros p. revert c total s. induction fuel as [|fuel IH]; intros c total s Hwf He Hp Ht rest Hfuel new; [lia|].
  cbn [reconcile_pages]. rewrite run_try_bind, run_list_missing by done. fold p rest.
  assert (last (map (map_event (clock s)) (take 200 rest)) = map_event (clock s) <$> last (take 200 rest))
    as -> by apply fmap_last.
  destruct (last (take 200 rest)) as [m|] eqn:Hl; cbn [fmap option_fmap option_map].
  2: { apply last_None in Hl. assert (rest = []) as Hz by by destruct rest.
       unfold new. rewrite Hz. cbn. by rewrite joined_nil, Z.add_0_r. }
  rewrite run_try_bind, run_reconcile_events; [|done..| |].
  2: { pose proof (missing_events_ids s p types cutoff c Hwf) as Hnd. fold rest in Hnd.
       rewrite <-(take_drop 200 rest), map_app in Hnd. by apply NoDup_app in Hnd as [Hnd _]. }
  2: { intros e [Hin Hm]%elem_of_take_inv%missing_events_elem_of.
       apply missing_event_spec in Hm. tauto. }
  fold p. set (es := List.filter (wanted row (clock s)) (take 200 rest)).
  assert (Hnew : new = es ++ List.filter (wanted row (clock s)) (drop 200 rest)).
  { unfold new, es. by rewrite <-List.filter_app, take_drop. }
  rewrite length_map. destruct (Z.of_nat (length (take 200 rest)) <? RECONCILE_PAGE) eqn:Elen.
  { apply Z.ltb_lt in Elen. rewrite length_take in Elen. unfold RECONCILE_PAGE in Elen.
    rewrite Hnew, drop_ge by lia. by rewrite app_nil_r. }
  assert (Hm : m ∈ rest) by (apply last_Some in Hl as [l Hl]; eapply (elem_of_take_inv 200); rewrite Hl; set_solver).
  apply missing_events_elem_of in Hm as [Hm _].
  change (to_rfc3339 (ev_created_at (map_event (clock s) m)), ev_id (map_event (clock s) m))
    with (to_rfc3339 (parse_dt (clock s) (domain_events.created_at m)), domain_events.id m).
  rewrite (lw_time _ Hwf m Hm). fold (event_key m).
  assert (Hes : ∀ e, e ∈ es → e ∈ take 200 rest) by (intros e Hin; by apply elem_of_where in Hin as [? _]).
  pose proof (missing_events_next s p types cutoff c m es Hwf Hl Hes) as Hnext. fold rest in Hnext.
  pose proof (IH (Some (event_key m)) (total + Z.of_nat (length es)) (joined s p es)) as H.
  change (clock (joined s p es)) with (clock s) in H. fold p in H. rewrite Hnext in H.
  rewrite H; [|apply joined_wf; [done|]|done..|].
  - rewrite joined_app, Hnew, length_app. do 2 f_equal. lia.
  - intros e Hin. apply Hes, elem_of_take_inv, missing_events_elem_of in Hin. by destruct Hin.
  - rewrite length_drop. apply Z.ltb_ge in Elen. rewrite length_take in Elen.
    unfold RECONCILE_PAGE in Elen. lia.
Qed.

(** ** A catalog row *)

(** The plugin of the row should get the event and has not. *)
Definition joins (s : Db) (cutoff : string) (row : EventSubscriberCatalogRecord Value)
    (e : domain_events.Model) : bool :=
  cr_enabled row && negb (str_is_empty (trim (cr_plugin_id row)))
  && text_eq (domain_events.dispatch_state e) STATE_DISPATCHED
  && text_lt cutoff (domain_events.created_at e)
  && negb (is_in (cr_plugin_id row) (delivered_plugins (domain_events.id e) (event_deliveries_t s)))
  && wanted row (clock s) e.

Definition late_joiners (s : Db) (cutoff : string) (row : EventSubscriberCatalogRecord Value)
    : list domain_events.Model :=
  order_by event_le (List.filter (joins s cutoff row) (domain_events_t s)).

Lemma late_joiners_elem_of s cutoff row e :
  e ∈ late_joiners s cutoff row ↔ e ∈ domain_events_t s ∧ joins s cutoff row e = true.
Proof. unfold late_joiners. by rewrite elem_of_order_by, elem_of_where. Qed.

Lemma late_joiners_nil s cutoff row :
  (∀ e, e ∈ domain_events_t s → joins s cutoff row e = false) → late_joiners s cutoff row = [].
Proof. intros H. unfold late_joiners. by rewrite where_none. Qed.

Lemma wanted_type (row : EventSubscriberCatalogRecord Value) now e :
  wanted row now e = true → domain_events.event_type e ∈ catalog_types row.
Proof.
  unfold wanted. rewrite existsb_exists. intros (sub & Hin%list_elem_of_In & Hm).
  unfold catalog_types. rewrite dedup_elem_of, elem_of_order_by.
  unfold subscription_matches_event in Hm. rewrite !andb_true_iff, !text_eq_true in Hm.
  destruct Hm as [[[_ Ht] _] _].
  change (domain_events.event_type e) with (ev_event_type (map_event now e)). rewrite <-Ht. by apply list_elem_of_fmap_2.
Qed.

(** The subscribed types cut off nothing the catalog matches. *)
Lemma wanted_missing s cutoff (row : EventSubscriberCatalogRecord Value) :
  cr_enabled row = true → str_is_empty (trim (cr_plugin_id row)) = false →
  List.filter (wanted row (clock s))
    (missing_events s (cr_plugin_id row) (catalog_types row) cutoff None) = late_joiners s cutoff row.
Proof.
  intros He Hp. rewrite missing_events_where, where_events, where_where. unfold late_joiners. f_equal.
  apply filter_ext. intros e. apply eq_true_iff_eq. unfold joins.
  rewrite andb_true_iff, missing_event_spec, !andb_true_iff, He, Hp, text_eq_true.
  rewrite <-(is_in_true (cr_plugin_id row)), (negb_true_iff (is_in _ _)), not_true_iff_false.
  pose proof (wanted_type row (clock s) e). cbn [negb past]. tauto.
Qed.

Lemma run_reconcile_row cutoff (row : EventSubscriberCatalogRecord Value) total s :
  late_wf s → let new := late_joiners s cutoff row in
  run (reconcile_row dispatch_event_deliveries cutoff total row) s
  = (Ok (total + Z.of_nat (length new)), joined s (cr_plugin_id row) new).
Proof.
  intros Hwf new. unfold reconcile_row.
  assert (Hnone : new = [] → (Ok total, s)
    = (Ok (total + Z.of_nat (length new)), joined s (cr_plugin_id row) new)).
  { intros ->. by rewrite joined_nil, Z.add_0_r. }
  destruct (cr_enabled row) eqn:He; cbn [negb].
  2: { apply Hnone, late_joiners_nil. intros e _. unfold joins. by rewrite He. }
  destruct (catalog_types row) as [|ty types] eqn:Ety; cbn [length Nat.eqb].
  { apply Hnone, late_joiners_nil. intros e _. apply not_true_iff_false. unfold joins.
    rewrite andb_true_iff. intros [_ Hw%wanted_type]. rewrite Ety in Hw. by apply not_elem_of_nil in Hw. }
  rewrite <-Ety, run_bind. unfold reconcile_fuel. cbn [run query fst snd].
  destruct (str_is_empty (trim (cr_plugin_id row))) eqn:Hp.
  { rewrite Ety. cbn [reconcile_pages]. rewrite run_try_bind.
    unfold list_missing_dispatched_events_for_plugin. rewrite Hp. cbn [length Nat.eqb orb run last].
    apply Hnone, late_joiners_nil. intros e _. unfold joins. by rewrite He, Hp. }
  rewrite run_reconcile_pages; [|done|done|done|by rewrite Ety|].
  - by rewrite wanted_missing.
  - rewrite missing_events_where, (Permutation_length (order_by_perm _ _)).
    pose proof (where_partition (missing_event s (cr_plugin_id row) (catalog_types row) cutoff None)
      (domain_events_t s)). lia.
Qed.

(** Another plugin's deliveries do not matter. *)
Lemma late_joiners_other s p es cutoff (row : EventSubscriberCatalogRecord Value) :
  cr_plugin_id row ≠ p → late_joiners (joined s p es) cutoff row = late_joiners s cutoff row.
Proof.
  intros Hne. unfold late_joiners. f_equal. apply filter_ext. intros e. unfold joins.
  assert (is_in (cr_plugin_id row) (delivered_plugins (domain_events.id e) (event_deliveries_t (joined s p es)))
    = is_in (cr_plugin_id row) (delivered_plugins (domain_events.id e) (event_deliveries_t s))) as ->.
  { apply eq_true_iff_eq. rewrite !is_in_true, delivered_joined. naive_solver. }
  done.
Qed.

(** ** The catalog *)

Definition late_deliveries (s : Db) (cutoff : string) (catalog : list (EventSubscriberCatalogRecord Value))
    : list event_deliveries.Model :=
  flat_map (λ row, map (λ e, new_delivery_row e (domain_events.id e) (cr_plugin_id row)
                               (to_rfc3339 (clock s))) (late_joiners s cutoff row)) catalog.

Definition with_deliveries (s : Db) (new : list event_deliveries.Model) : Db :=
  s <| event_deliveries_t := event_deliveries_t s ++ new |>.

Lemma run_reconcile_rows cutoff catalog total s :
  late_wf s → NoDup (map cr_plugin_id catalog) →
  run (for_each catalog total (reconcile_row dispatch_event_deliveries cutoff)) s
  = (Ok (total + Z.of_nat (length (late_deliveries s cutoff catalog))),
     with_deliveries s (late_deliveries s cutoff catalog)).
Proof.
  revert total s. induction catalog as [|row catalog IH]; intros total s Hwf Hnd.
  { unfold with_deliveries. cbn. rewrite app_nil_r, Z.add_0_r. by destruct s. }
  cbn [map for_each] in *. apply NoDup_cons in Hnd as [Hx Hnd].
  rewrite run_try_bind, run_reconcile_row by done.
  set (p := cr_plugin_id row) in *. set (es := late_joiners s cutoff row).
  assert (Hrest : late_deliveries (joined s p es) cutoff catalog = late_deliveries s cutoff catalog).
  { unfold late_deliveries. rewrite !flat_map_concat_map. f_equal. apply map_ext_in.
    intros r Hr%list_elem_of_In. rewrite late_joiners_other; [done|]. intros Heq. apply Hx.
    rewrite <-Heq. by apply list_elem_of_fmap_2. }
  rewrite IH; [|apply joined_wf; [done|]; intros e He; by apply late_joiners_elem_of in He as [? _]|done].
  rewrite Hrest. unfold late_deliveries at 3 4. cbn [flat_map]. fold p es (late_deliveries s cutoff catalog).
  rewrite length_app, length_map. f_equal; [f_equal; lia|]. unfold with_deliveries, joined.
  rewrite app_assoc. by destruct s.
Qed.

(** The live catalog of a store. *)
Definition live_catalog (s : Db) : list (EventSubscriberCatalogRecord Value) :=
  let cutoff := to_rfc3339 (clock s - seconds (Z.max EVENT_SUBSCRIBER_HEARTBEAT_TTL_SECS 1)) in
  collapse_live_subscriber_nodes (map (map_node_row (clock s)) (order_by node_le
    (List.filter (λ r, text_le cutoff (event_subscriber_nodes.heartbeat_at r))
       (event_subscriber_nodes_t s)))).

Lemma run_reconcile created_after s :
  late_wf s → let new := late_deliveries s (to_rfc3339 created_after) (live_catalog s) in
  run (reconcile_catalog_deliveries created_after) s
  = (Ok (Z.of_nat (length new)), with_deliveries s new).
Proof.
  intros Hwf new. unfold reconcile_catalog_deliveries, reconcile_with. rewrite run_try_bind.
  assert (run list_live_event_subscribers s = (Ok (live_catalog s), s)) as -> by done.
  apply run_reconcile_rows; [done|]. apply collapse_NoDup.
Qed.

(** Every delivery the pass owes is there after it. *)
Lemma reconciled_delivered s cutoff catalog row e :
  row ∈ catalog → e ∈ late_joiners s cutoff row →
  cr_plugin_id row ∈ delivered_plugins (domain_events.id e)
    (event_deliveries_t (with_deliveries s (late_deliveries s cutoff catalog))).
Proof.
  intros Hrow He. apply delivered_elem_of.
  exists (new_delivery_row e (domain_events.id e) (cr_plugin_id row) (to_rfc3339 (clock s))).
  split; [|done]. unfold with_deliveries. cbn. apply elem_of_app. right.
  apply list_elem_of_In, in_flat_map. exists row. rewrite <-!list_elem_of_In. split; [done|].
  by apply (list_elem_of_fmap_2 (λ e, new_delivery_row e (domain_events.id e) _ _)).
Qed.

Lemma with_deliveries_delivered s new event_id p :
  p ∈ delivered_plugins event_id (event_deliveries_t s) →
  p ∈ delivered_plugins event_id (event_deliveries_t (with_deliveries s new)).
Proof.
  rewrite !delivered_elem_of. intros (d & Hd & H). exists d. split; [|done].
  unfold with_deliveries. cbn. apply elem_of_app. by left.
Qed.

Lemma with_deliveries_wf s cutoff catalog :
  late_wf s → late_wf (with_deliveries s (late_deliveries s cutoff catalog)).
Proof.
  intros []. split; try done. unfold with_deliveries. cbn.
  intros d [Hd|Hd]%elem_of_app; [auto|]. apply list_elem_of_In, in_flat_map in Hd as (row & _ & Hd).
  apply list_elem_of_In, list_elem_of_fmap in Hd as (e & -> & He).
  apply late_joiners_elem_of in He as [He _]. split_and!; [done..|]. cbn. auto.
Qed.

(** On a local database, reconciliation always ends and adds exactly one pending delivery for
    every live enabled plugin and dispatched event newer than the cutoff that the plugin's
    catalog matches and that lacks one, oldest event first, whatever the number of pages; it
    returns their number and changes nothing else, and a second pass adds nothing. *)
Theorem reconcile_adds_exactly_the_missing created_after s :
  late_wf s →
  let new := late_deliveries s (to_rfc3339 created_after) (live_catalog s) in
  let r := run (reconcile_catalog_deliveries created_after) s in
  r = (Ok (Z.of_nat (length new)), with_deliveries s new)
  ∧ run (reconcile_catalog_deliveries created_after) r.2 = (Ok 0, r.2).
Proof.
  intros Hwf new r. pose proof (run_reconcile created_after s Hwf) as Hr. fold new in Hr.
  split; [exact Hr|]. unfold r. rewrite Hr. cbn [fst snd].
  rewrite run_reconcile by by apply with_deliveries_wf.
  change (live_catalog (with_deliveries s new)) with (live_catalog s).
  assert (Hno : late_deliveries (with_deliveries s new) (to_rfc3339 created_after) (live_catalog s) = []).
  { apply elem_of_nil_inv. intros d Hd. apply list_elem_of_In, in_flat_map in Hd as (row & Hrow & Hd).
    apply list_elem_of_In, list_elem_of_fmap in Hd as (e & _ & He). apply list_elem_of_In in Hrow.
    apply late_joiners_elem_of in He as [Hin Hj].
    assert (e ∈ late_joiners s (to_rfc3339 created_after) row) as Hl.
    { apply late_joiners_elem_of. split; [done|]. unfold joins in *. rewrite !andb_true_iff in *.
      destruct Hj as [[Hj1 Hj2] Hj3]. split; [split; [exact Hj1|]|exact Hj3].
      rewrite negb_true_iff, <-not_true_iff_false, is_in_true in *. intros H. apply Hj2.
      by apply with_deliveries_delivered. }
    unfold joins in Hj. rewrite !andb_true_iff in Hj. destruct Hj as [[_ Hj] _].
    rewrite negb_true_iff, <-not_true_iff_false, is_in_true in Hj. apply Hj.
    by apply reconciled_delivered. }
  rewrite Hno. f_equal. unfold with_deliveries at 1. rewrite app_nil_r. by destruct s.
Qed.

(** ** Behind a database plugin *)

(** Behind a database plugin a late joiner gets nothing: an event whose frozen subscribers all
    have their delivery keeps its deliveries when it is dispatched to a plugin outside the
    snapshot, while the local dispatch creates one. *)
Theorem frozen_dispatch_drops_late_joiners {JI : SerdeJson (list string)} {JD : JulianDay} {Q : InFlightCap}
    chunk s e ids p :
  let event_id := domain_events.id e in
  late_wf s → dispatchable s event_id e (map EventSubscriber_plugin ids) →
  domain_events.dispatch_state e = STATE_DISPATCHED →
  str_is_empty (trim (domain_events.dispatch_snapshot_json e)) = false →
  from_str (domain_events.dispatch_snapshot_json e) = Some ids →
  (∀ q, q ∈ ids → q ∈ delivered_plugins event_id (event_deliveries_t s)) →
  str_is_empty (trim p) = false → p ∉ delivered_plugins event_id (event_deliveries_t s) →
  let subs := [EventSubscriber_plugin p] in
  let r := run (dispatch_event_deliveries_atomic chunk event_id subs) s in
  r.1 = Ok 0 ∧ event_deliveries_t r.2 = event_deliveries_t s
  ∧ run (dispatch_event_deliveries event_id subs) s = (Ok 1, joined s p [e]).
Proof.
  intros event_id Hwf Hd Hst Hnb Hj Hall Hp Hno subs r. pose proof (dp_found _ _ _ _ Hd) as Hf.
  destruct (run_paged_dispatch chunk event_id e subs (map EventSubscriber_plugin ids) s s) as [t Hr];
    [by apply (run_snapshot_load s event_id e)|done|].
  assert (Hz : missing_plugins (delivered_plugins event_id (event_deliveries_t s))
    (map EventSubscriber_plugin ids) = []).
  { apply elem_of_nil_inv. intros q [Hq (sub & Hs & _ & <-)]%missing_elem_of.
    apply list_elem_of_fmap in Hs as (x & -> & Hx). by apply Hq, Hall. }
  unfold r. rewrite Hr. unfold lacking, paged. rewrite Hz. cbn [length map]. rewrite app_nil_r.
  split_and!; [done|done|]. apply run_redispatch; try done. by apply find_where in Hf as [? _].
Qed.
End Late.
