(* ===== verification/EventReadSpec.v ===== *)
(** * What the operator reads return

    The delivery counts are those of disjoint sets of rows, and the keyset listing walks the
    dispatched events page by page without a gap or a repetition. *)

From stdpp Require Import base option list strings gmap pretty sorting.
From Stdlib Require Import ZArith Lia Sorted.
From S2P Require Import Prelude Schema Store Concurrency JobModels EventModels EventOutbox EventPlans EventReads EventInvariant EventSafety EventClaim EventSpec EventWake EventPublish EventDispatch EventReconcile.

Local Open Scope Z_scope.

Section Reads.
Context {C : Chrono} {U : Uuid}.

Definition rows_in (s : Db) (p : event_deliveries.Model → bool) : Z :=
  Z.of_nat (length (List.filter p (event_deliveries_t s))).

Lemma rows_in_split s p q :
  rows_in s p = rows_in s (λ m, p m && q m) + rows_in s (λ m, p m && negb (q m)).
Proof.
  unfold rows_in. pose proof (where_partition q (List.filter p (event_deliveries_t s))) as H.
  rewrite !where_where in H. lia.
Qed.

Lemma rows_in_le s p : rows_in s p ≤ rows_in s (λ _, true).
Proof.
  pose proof (where_partition p (event_deliveries_t s)). unfold rows_in. rewrite where_all. lia.
Qed.

Lemma run_count state s :
  rows_in s (λ _, true) ≤ i64_MAX →
  run (count_event_deliveries state) s = (Ok (rows_in s (λ m, text_eq (event_deliveries.state m) state)), s).
Proof.
  intros Hmax. unfold count_event_deliveries. rewrite run_bind, run_select. cbn [fst snd run].
  fold (rows_in s (λ m, text_eq (event_deliveries.state m) state)).
  unfold i64_try_from. rewrite (proj2 (Z.leb_le _ _)); [done|]. etrans; [apply rows_in_le|done].
Qed.

(** The counts of the metrics are those of the rows in each state, a pending row with a checkpoint
    counting as suspended only; reading them changes at most the counters' row. *)
Lemma metrics_partition s :
  rows_in s (λ _, true) ≤ i64_MAX →
  ∃ m s', run event_delivery_metrics s = (Ok m, s') ∧ stats_only s s'
    ∧ dm_pending m = rows_in s (λ d, text_eq (event_deliveries.state d) STATE_PENDING
                                     && is_null (event_deliveries.checkpoint_json d))
    ∧ dm_suspended m = rows_in s is_suspended
    ∧ dm_running m = rows_in s (λ d, text_eq (event_deliveries.state d) STATE_RUNNING)
    ∧ dm_dead_letter m = rows_in s (λ d, text_eq (event_deliveries.state d) STATE_DEAD_LETTER)
    ∧ dm_acked m = rows_in s (λ d, text_eq (event_deliveries.state d) STATE_ACKED).
Proof.
  intros Hmax. unfold event_delivery_metrics.
  pose proof (rows_in_split s (λ d, text_eq (event_deliveries.state d) STATE_PENDING)
    (λ d, is_null (event_deliveries.checkpoint_json d))) as Hsplit. cbv beta in Hsplit.
  change (λ m, text_eq (event_deliveries.state m) STATE_PENDING
    && negb (is_null (event_deliveries.checkpoint_json m))) with is_suspended in Hsplit.
  rewrite run_try_bind, run_count by done. rewrite run_bind, run_select. cbn [fst snd].
  fold (rows_in s is_suspended). unfold i64_try_from at 1. rewrite (proj2 (Z.leb_le _ _)).
  2: { etrans; [apply rows_in_le|done]. }
  rewrite run_bind, run_select. cbn [fst snd]. rewrite run_bind.
  match goal with |- context [run ?a s] => match a with context [head] =>
    assert (Hage : ∃ z, run a s = (z, s)) end end.
  { destruct (head _); [|by eexists]. rewrite run_bind. unfold parse_dt_io.
    destruct (parse_from_rfc3339 _); by eexists. }
  destruct Hage as [z ->]. cbn [fst snd]. rewrite run_try_bind.
  assert (Hen : ∃ st s1, run ensure_event_outbox_stats s = (Ok st, s1) ∧ stats_only s s1).
  { unfold ensure_event_outbox_stats, event_outbox_stats_find. rewrite run_bind. cbn [run query fst snd].
    destruct (List.find _ (event_outbox_stats_t s)) as [r|] eqn:E.
    { exists r, s. split; [done|]. exists (event_outbox_stats_t s). by destruct s. }
    assert (Ex : existsb (λ r, event_outbox_stats.id r =? EVENT_OUTBOX_STATS_ID)
      (event_outbox_stats_t s) = false) by (apply existsb_false; intros x Hx; by eapply find_where_none in E).
    rewrite run_bind. cbn [run exec fst snd]. rewrite Ex, run_bind. cbn [run query fst snd].
    change (event_outbox_stats_t (s <| event_outbox_stats_t := ?t |>)) with t.
    rewrite find_app, E. do 2 eexists. split; [reflexivity|]. by eexists. }
  destruct Hen as (st & s1 & -> & [t ->]). set (s1 := s <| event_outbox_stats_t := t |>).
  do 3 (rewrite run_try_bind, run_count by exact Hmax).
  do 2 eexists. split; [reflexivity|]. split; [by exists t|].
  cbn [dm_pending dm_suspended dm_running dm_dead_letter dm_acked].
  split_and!; [|done..]. rewrite Hsplit, Z.add_simpl_r, Z.max_l; [done|]. unfold rows_in. lia.
Qed.

(** The rows of the listing, oldest first. *)
Definition listing (s : Db) (created_after : string) : list domain_events.Model :=
  order_by event_le (List.filter (listed_event created_after) (domain_events_t s)).

Lemma run_list_page s created_after after limit :
  run (list_dispatched_events_page created_after after limit) s =
  (Ok (map (map_event (clock s)) (take (Z.to_nat limit)
     (List.filter (past event_key after) (listing s created_after)))), s).
Proof.
  unfold list_dispatched_events_page, listing. rewrite run_bind. cbn [run domain_events_select query fst snd].
  rewrite run_bind, run_clock. cbn [run fst snd]. by rewrite where_events, where_where.
Qed.

(** A page that ends at [m] is followed by the page of the rows after it. *)
Lemma pages_follow s created_after after limit m :
  NoDup (map domain_events.id (domain_events_t s)) →
  let rest := List.filter (past event_key after) (listing s created_after) in
  last (take (Z.to_nat limit) rest) = Some m →
  run (list_dispatched_events_page created_after (Some (event_key m)) limit) s =
  (Ok (map (map_event (clock s)) (take (Z.to_nat limit) (drop (Z.to_nat limit) rest))), s).
Proof.
  intros Hnd rest Hl. rewrite run_list_page.
  rewrite (keyset_tail event_key (listing s created_after) after (Z.to_nat limit) m); [done| | |done].
  - apply (NoDup_fmap_1 snd). rewrite <-list_fmap_compose. unfold listing.
    rewrite (Permutation_map _ (order_by_perm _ _)). by apply NoDup_where.
  - apply (order_by_sorted event_le); unfold event_le; intros *; [apply keyset_le_total|apply keyset_le_trans].
Qed.
End Reads.
