(* ===== verification/BTree.v ===== *)
(** * Ordered sets

    [std::collections::BTreeSet] over a derived [Ord]: a set is the list of its members in
    increasing order, which is the order the code iterates in.  Two such lists with the same
    members are equal, so facts about members are facts about sets. *)

From stdpp Require Import base option list strings sets list_relations.
From Stdlib Require Import ZArith Lia Sorted.
From S2P Require Import Prelude.

Local Open Scope Z_scope.

(** The strict order of [#[derive(Ord)]]. *)
Class Ord (A : Type) := ord_lt : A → A → bool.

Class OrdLaws (A : Type) `{Ord A} : Prop := {
  ord_irrefl (a : A) : ord_lt a a = false;
  ord_trans (a b c : A) : ord_lt a b = true → ord_lt b c = true → ord_lt a c = true;
  ord_total (a b : A) : a ≠ b → ord_lt a b = true ∨ ord_lt b a = true;
}.

(** ** Derived orders *)

#[global] Instance ord_string : Ord string := text_lt.
#[global] Instance ord_Z : Ord Z := Z.ltb.
#[global] Instance ord_bool : Ord bool := λ a b, negb a && b.

(** Fields compare in their order of declaration. *)
#[global] Instance ord_prod {A B} `{EqDecision A, Ord A, Ord B} : Ord (A * B) := λ a b,
  ord_lt a.1 b.1 || bool_decide (a.1 = b.1) && ord_lt a.2 b.2.

Fixpoint list_lt {A} `{EqDecision A, Ord A} (a b : list A) : bool :=
  match a, b with
  | [], [] => false
  | [], _ :: _ => true
  | _ :: _, [] => false
  | x :: a, y :: b => ord_lt x y || bool_decide (x = y) && list_lt a b
  end.
#[global] Instance ord_list {A} `{EqDecision A, Ord A} : Ord (list A) := list_lt.

#[global] Instance ord_option {A} `{Ord A} : Ord (option A) := λ a b,
  match a, b with
  | None, Some _ => true
  | Some a, Some b => ord_lt a b
  | _, None => false
  end.

(** The order of a structure through the tuple of its fields. *)
Definition ord_by {A B} `{Ord B} (fields : A → B) : Ord A := λ a b, ord_lt (fields a) (fields b).

#[global] Instance ord_string_laws : OrdLaws string.
Proof.
  split; unfold ord_lt, ord_string.
  - intros a. apply not_true_iff_false. intros [_ H]%text_lt_spec. done.
  - apply text_lt_trans.
  - intros a b Hne. destruct (text_lt a b) eqn:E; [by left|right]. by apply text_lt_total.
Qed.

#[global] Instance ord_Z_laws : OrdLaws Z.
Proof. split; unfold ord_lt, ord_Z; intros; lia. Qed.

#[global] Instance ord_bool_laws : OrdLaws bool.
Proof. split; unfold ord_lt, ord_bool; [by intros []|by intros [] [] []|intros [] []; auto]. Qed.

Section Lex.
Context {A B : Type} `{EqDecision A} `{Ord A} `{Ord B} `{!OrdLaws A} `{!OrdLaws B}.

Lemma prod_lt_spec (a b : A * B) :
  ord_lt a b = true ↔ ord_lt a.1 b.1 = true ∨ a.1 = b.1 ∧ ord_lt a.2 b.2 = true.
Proof.
  unfold ord_lt at 1, ord_prod. rewrite orb_true_iff, andb_true_iff, bool_decide_eq_true. done.
Qed.

#[global] Instance ord_prod_laws : OrdLaws (A * B).
Proof.
  split.
  - intros a. apply not_true_iff_false. rewrite prod_lt_spec, !ord_irrefl. naive_solver.
  - intros a b c. rewrite !prod_lt_spec. intros [H1|[E1 H1]] [H2|[E2 H2]].
    + left. by eapply ord_trans.
    + left. by rewrite <-E2.
    + left. by rewrite E1.
    + right. split; [congruence|]. by eapply ord_trans.
  - intros [a1 a2] [b1 b2] Hne. rewrite !prod_lt_spec. simpl.
    destruct (decide (a1 = b1)) as [->|Hne1]; [|destruct (ord_total a1 b1 Hne1); auto].
    destruct (ord_total a2 b2); [congruence|auto..].
Qed.

Lemma list_lt_cons (x y : A) a b :
  ord_lt (x :: a) (y :: b) = true ↔ ord_lt x y = true ∨ x = y ∧ ord_lt a b = true.
Proof.
  change (ord_lt (x :: a) (y :: b)) with (ord_lt x y || bool_decide (x = y) && ord_lt a b).
  rewrite orb_true_iff, andb_true_iff, bool_decide_eq_true. done.
Qed.

#[global] Instance ord_list_laws : OrdLaws (list A).
Proof.
  split.
  - intros a. apply not_true_iff_false. induction a as [|x a IH]; [done|].
    rewrite list_lt_cons, ord_irrefl. naive_solver.
  - intros a. induction a as [|x a IH]; intros [|y b] [|z c]; try done.
    rewrite !list_lt_cons. intros [H1|[-> H1]] [H2|[-> H2]]; eauto using ord_trans.
  - intros a. induction a as [|x a IH]; intros [|y b] Hne; try by auto.
    rewrite !list_lt_cons. destruct (decide (x = y)) as [->|Hxy]; [|destruct (ord_total x y Hxy); auto].
    destruct (IH b); [congruence|auto..].
Qed.

#[global] Instance ord_option_laws : OrdLaws (option A).
Proof.
  split.
  - intros [a|]; [apply (ord_irrefl a)|done].
  - intros [a|] [b|] [c|]; try done. apply (ord_trans a b c).
  - intros [a|] [b|] Hne; try by auto. apply (ord_total a b). congruence.
Qed.

Lemma ord_by_laws (fields : B → A) : Inj (=) (=) fields → @OrdLaws B (ord_by fields).
Proof.
  intros Hinj. split; unfold ord_lt, ord_by.
  - intros a. apply (ord_irrefl (fields a)).
  - intros a b c. apply (ord_trans (fields a) (fields b) (fields c)).
  - intros a b Hne. apply (ord_total (fields a) (fields b)). intros E. by apply Hinj in E.
Qed.
End Lex.

(** ** Sets *)

Module BTreeSet.
Section Operations.
Context {A : Type} `{EqDecision A} `{Ord A}.

Definition contains (x : A) (l : list A) : bool := bool_decide (x ∈ l).

Fixpoint insert (x : A) (l : list A) : list A :=
  match l with
  | [] => [x]
  | y :: l' => if decide (x = y) then l else if ord_lt x y then x :: l else y :: insert x l'
  end.

Definition extend (l xs : list A) : list A := fold_left (λ l x, insert x l) xs l.
Definition collect (xs : list A) : list A := extend [] xs.
Definition remove (x : A) (l : list A) : list A := List.filter (λ y, negb (bool_decide (y = x))) l.
Definition difference (a b : list A) : list A := List.filter (λ x, negb (contains x b)) a.
Definition intersection (a b : list A) : list A := List.filter (λ x, contains x b) a.
Definition is_subset (a b : list A) : bool := forallb (λ x, contains x b) a.

(** In increasing order, so without duplicates. *)
Definition ordered (l : list A) : Prop := StronglySorted (λ a b, ord_lt a b = true) l.
End Operations.

Section Members.
Context {A : Type} `{EqDecision A} `{Ord A}.
Implicit Types (x y : A) (l a b : list A).

Lemma contains_true x l : contains x l = true ↔ x ∈ l.
Proof. apply bool_decide_eq_true. Qed.

Lemma elem_of_insert x y l : y ∈ insert x l ↔ y = x ∨ y ∈ l.
Proof.
  induction l as [|z l IH]; simpl; [set_solver|].
  destruct (decide (x = z)) as [->|]; [set_solver|]. destruct (ord_lt x z); [set_solver|].
  rewrite !elem_of_cons, IH. tauto.
Qed.

Lemma elem_of_extend y l xs : y ∈ extend l xs ↔ y ∈ l ∨ y ∈ xs.
Proof.
  revert l. induction xs as [|x xs IH]; intros l; simpl; [set_solver|].
  change (y ∈ extend (insert x l) xs ↔ y ∈ l ∨ y ∈ x :: xs).
  rewrite IH, elem_of_insert, elem_of_cons. tauto.
Qed.

Lemma elem_of_collect y xs : y ∈ collect xs ↔ y ∈ xs.
Proof. unfold collect. rewrite elem_of_extend. set_solver. Qed.

Lemma elem_of_remove y x l : y ∈ remove x l ↔ y ∈ l ∧ y ≠ x.
Proof.
  unfold remove. rewrite elem_of_where, negb_true_iff. by rewrite bool_decide_eq_false.
Qed.

Lemma elem_of_difference y a b : y ∈ difference a b ↔ y ∈ a ∧ y ∉ b.
Proof.
  unfold difference. rewrite elem_of_where, negb_true_iff. unfold contains.
  by rewrite bool_decide_eq_false.
Qed.

Lemma elem_of_intersection y a b : y ∈ intersection a b ↔ y ∈ a ∧ y ∈ b.
Proof. unfold intersection. by rewrite elem_of_where, contains_true. Qed.

Lemma is_subset_true a b : is_subset a b = true ↔ a ⊆ b.
Proof.
  unfold is_subset. rewrite forallb_forall. split; intros Hs x Hx.
  - apply contains_true, Hs. by apply list_elem_of_In.
  - apply contains_true, Hs. by apply list_elem_of_In.
Qed.

End Members.

Section Laws.
Context {A : Type} `{EqDecision A} `{Ord A} `{!OrdLaws A}.
Implicit Types (x y : A) (l a b : list A).

Lemma ordered_insert x l : ordered l → ordered (insert x l).
Proof.
  induction 1 as [|z l Hl IH Hz]; simpl; [repeat constructor|].
  destruct (decide (x = z)) as [->|Hne]; [by constructor|]. destruct (ord_lt x z) eqn:E.
  - constructor; [by constructor|]. constructor; [done|].
    eapply Forall_impl; [exact Hz|]. intros y Hy. by eapply ord_trans.
  - constructor; [done|]. apply Forall_forall. intros y [->|Hy]%elem_of_insert.
    + destruct (ord_total x z Hne); congruence.
    + by apply (proj1 (Forall_forall _ _) Hz).
Qed.

Lemma ordered_extend l xs : ordered l → ordered (extend l xs).
Proof.
  revert l. induction xs as [|x xs IH]; intros l Hl; [done|]. apply IH. by apply ordered_insert.
Qed.

Lemma ordered_collect xs : ordered (collect xs).
Proof. apply ordered_extend. constructor. Qed.

Lemma ordered_where p l : ordered l → ordered (List.filter p l).
Proof.
  induction 1 as [|z l Hl IH Hz]; simpl; [constructor|]. destruct (p z); [|done].
  constructor; [done|]. apply Forall_forall. intros y [Hy _]%elem_of_where.
  by apply (proj1 (Forall_forall _ _) Hz).
Qed.

Lemma ordered_remove x l : ordered l → ordered (remove x l).
Proof. apply ordered_where. Qed.
Lemma ordered_difference a b : ordered a → ordered (difference a b).
Proof. apply ordered_where. Qed.
Lemma ordered_intersection a b : ordered a → ordered (intersection a b).
Proof. apply ordered_where. Qed.

(** Extensionality. *)
Lemma ordered_ext a b : ordered a → ordered b → (∀ x, x ∈ a ↔ x ∈ b) → a = b.
Proof.
  intros Ha. revert b. induction Ha as [|x a Ha IH Hx]; intros b Hb Hab.
  { destruct b as [|y b]; [done|]. specialize (Hab y). set_solver. }
  destruct Hb as [|y b Hb Hy]; [specialize (Hab x); set_solver|].
  assert (x = y) as ->.
  { destruct (decide (x = y)) as [|Hne]; [done|]. exfalso.
    assert (Hxb : x ∈ b) by (specialize (Hab x); set_solver).
    assert (Hya : y ∈ a) by (specialize (Hab y); set_solver).
    pose proof (proj1 (Forall_forall _ _) Hx y Hya) as H1.
    pose proof (proj1 (Forall_forall _ _) Hy x Hxb) as H2. cbv beta in *.
    pose proof (ord_trans _ _ _ H1 H2) as H3. by rewrite ord_irrefl in H3. }
  f_equal. apply IH; [done|]. intros z. specialize (Hab z). rewrite !elem_of_cons in Hab.
  split; intros Hz.
  - destruct (proj1 Hab (or_intror Hz)) as [->|]; [|done].
    pose proof (proj1 (Forall_forall _ _) Hx y Hz) as H1. cbv beta in H1. by rewrite ord_irrefl in H1.
  - destruct (proj2 Hab (or_intror Hz)) as [->|]; [|done].
    pose proof (proj1 (Forall_forall _ _) Hy y Hz) as H1. cbv beta in H1. by rewrite ord_irrefl in H1.
Qed.
End Laws.
End BTreeSet.

(** Membership in the result of a set operation. *)
Create HintDb btree.
#[export] Hint Resolve BTreeSet.ordered_insert BTreeSet.ordered_extend BTreeSet.ordered_collect
  BTreeSet.ordered_where BTreeSet.ordered_remove BTreeSet.ordered_difference
  BTreeSet.ordered_intersection : btree.

Ltac btree :=
  rewrite ?BTreeSet.elem_of_insert, ?BTreeSet.elem_of_extend, ?BTreeSet.elem_of_collect,
    ?BTreeSet.elem_of_remove, ?BTreeSet.elem_of_difference, ?BTreeSet.elem_of_intersection.
