(* ===== verification/Text.v ===== *)
(** * Text operations of the standard library

    [str] methods the plugin crates use, on UTF-8 bytes: ASCII case, prefixes and suffixes,
    splitting and joining. *)

From stdpp Require Import base option list strings.
From Stdlib Require Import ZArith Lia.
From S2P Require Import Prelude.

Local Open Scope Z_scope.

(** The byte of a character, and ASCII classes. *)
Definition code (c : Ascii.ascii) : N := Ascii.N_of_ascii c.
Definition char_in (lo hi : N) (c : Ascii.ascii) : bool := ((lo <=? code c) && (code c <=? hi))%N.
Definition is_lower (c : Ascii.ascii) : bool := char_in 97 122 c.
Definition is_upper (c : Ascii.ascii) : bool := char_in 65 90 c.
Definition is_digit (c : Ascii.ascii) : bool := char_in 48 57 c.
Definition is_char (n : N) (c : Ascii.ascii) : bool := (code c =? n)%N.

(** [str::to_ascii_lowercase] and [str::eq_ignore_ascii_case]. *)
Definition lower_char (c : Ascii.ascii) : Ascii.ascii :=
  if is_upper c then Ascii.ascii_of_N (code c + 32) else c.
Fixpoint to_ascii_lowercase (s : string) : string :=
  match s with
  | EmptyString => EmptyString
  | String c s => String (lower_char c) (to_ascii_lowercase s)
  end.
Definition eq_ignore_ascii_case (a b : string) : bool :=
  text_eq (to_ascii_lowercase a) (to_ascii_lowercase b).

(** [chars().enumerate().all(…)]; a byte of a multi-byte character fails every ASCII test the
    callers make. *)
Fixpoint all_indexed (p : nat → Ascii.ascii → bool) (i : nat) (s : string) : bool :=
  match s with
  | EmptyString => true
  | String c s => p i c && all_indexed p (S i) s
  end.

Fixpoint contains_char (n : N) (s : string) : bool :=
  match s with
  | EmptyString => false
  | String c s => is_char n c || contains_char n s
  end.

(** [str::starts_with], [str::strip_prefix], [str::ends_with]. *)
Definition starts_with (p s : string) : bool := String.prefix p s.
Fixpoint strip_prefix (p s : string) : option string :=
  match p, s with
  | EmptyString, _ => Some s
  | String a p, String b s => if Ascii.eqb a b then strip_prefix p s else None
  | String _ _, EmptyString => None
  end.
Fixpoint ends_with (suffix s : string) : bool :=
  text_eq s suffix || match s with EmptyString => false | String _ s => ends_with suffix s end.

(** [str::trim_end_matches] on one ASCII character. *)
Fixpoint trim_end_char (n : N) (s : string) : string :=
  match s with
  | EmptyString => EmptyString
  | String c s =>
      match trim_end_char n s with
      | EmptyString => if is_char n c then EmptyString else String c EmptyString
      | rest => String c rest
      end
  end.

(** [str::split] and [str::split_once] on one ASCII character; [cur] is the piece being read,
    reversed. *)
Fixpoint rev_string (acc s : string) : string :=
  match s with EmptyString => acc | String c s => rev_string (String c acc) s end.
Fixpoint split_go (n : N) (cur s : string) : list string :=
  match s with
  | EmptyString => [rev_string "" cur]
  | String c s => if is_char n c then rev_string "" cur :: split_go n "" s
                  else split_go n (String c cur) s
  end.
Definition split_char (n : N) (s : string) : list string := split_go n "" s.
Fixpoint split_once_go (n : N) (cur s : string) : option (string * string) :=
  match s with
  | EmptyString => None
  | String c s => if is_char n c then Some (rev_string "" cur, s)
                  else split_once_go n (String c cur) s
  end.
Definition split_once (n : N) (s : string) : option (string * string) := split_once_go n "" s.

(** [str::replace] of a character by one character. *)
Fixpoint replace_char (a : N) (b : Ascii.ascii) (s : string) : string :=
  match s with
  | EmptyString => EmptyString
  | String c s => String (if is_char a c then b else c) (replace_char a b s)
  end.

(** [slice::join]. *)
Fixpoint join (sep : string) (l : list string) : string :=
  match l with
  | [] => EmptyString
  | [s] => s
  | s :: l => s +:+ sep +:+ join sep l
  end.

(** ** Facts *)

Lemma lower_char_twice c : lower_char (lower_char c) = lower_char c.
Proof. by destruct c as [[] [] [] [] [] [] [] []]. Qed.

Lemma to_ascii_lowercase_twice s :
  to_ascii_lowercase (to_ascii_lowercase s) = to_ascii_lowercase s.
Proof. induction s as [|c s IH]; simpl; [done|]. by rewrite lower_char_twice, IH. Qed.

Lemma eq_ignore_ascii_case_true a b :
  eq_ignore_ascii_case a b = true ↔ to_ascii_lowercase a = to_ascii_lowercase b.
Proof. apply text_eq_true. Qed.

Lemma eq_ignore_ascii_case_refl a : eq_ignore_ascii_case a a = true.
Proof. by apply eq_ignore_ascii_case_true. Qed.

Lemma strip_prefix_Some p s rest : strip_prefix p s = Some rest ↔ s = p +:+ rest.
Proof.
  revert s. induction p as [|a p IH]; intros s; simpl; [split; [by intros [= ->]|by intros ->]|].
  destruct s as [|b s]; [done|]. destruct (Ascii.eqb_spec a b) as [->|Hne].
  - rewrite IH. split; [by intros ->|by intros [= ->]].
  - split; [done|]. by intros [= ].
Qed.

Lemma append_assoc (a b c : string) : (a +:+ b) +:+ c = a +:+ (b +:+ c).
Proof. induction a as [|x a IH]; [done|]. exact (f_equal (String x) IH). Qed.

Lemma append_nil_r (a : string) : a +:+ "" = a.
Proof. induction a as [|x a IH]; [done|]. exact (f_equal (String x) IH). Qed.

Lemma append_length (a b : string) : String.length (a +:+ b) = (String.length a + String.length b)%nat.
Proof. induction a as [|x a IH]; [done|]. exact (f_equal S IH). Qed.
