(* ===== verification/Address.v ===== *)
(** * Address space: [bookclerk-plugin-manifest/src/address.rs]

    IP addresses as integers of their width, the text format of [std::net], CIDR grants, and the
    test for the public Internet.  The theorems: the octet tests are the special-purpose blocks
    of the IANA registries, and a CIDR grant is the block it denotes. *)

From stdpp Require Import base option list strings pretty.
From Stdlib Require Import ZArith Lia Btauto.
From S2P Require Import Prelude Text.

Local Open Scope Z_scope.

Inductive IpAddr : Type :=
| V4 (bits : Z)
| V6 (bits : Z).
#[global] Instance IpAddr_eq_dec : EqDecision IpAddr.
Proof. solve_decision. Defined.

Definition u32_max : Z := 2 ^ 32 - 1.
Definition u128_max : Z := 2 ^ 128 - 1.

(** A value of the type. *)
Definition ip_ok (ip : IpAddr) : Prop :=
  match ip with V4 a => 0 ≤ a < 2 ^ 32 | V6 a => 0 ≤ a < 2 ^ 128 end.

(** [octets()[i]] and [segments()[i]]. *)
Definition octet (i : Z) (v4 : Z) : Z := Z.land (Z.shiftr v4 (8 * (3 - i))) 255.
Definition segment (i : Z) (v6 : Z) : Z := Z.land (Z.shiftr v6 (16 * (7 - i))) 65535.

(** ** Text: [std::net] *)

Definition to_digit (radix : Z) (c : Ascii.ascii) : option Z :=
  let n := Z.of_N (code c) in
  let d := if is_digit c then n - 48 else
           if is_lower c then n - 87 else
           if is_upper c then n - 55 else radix in
  if d <? radix then Some d else None.

Fixpoint read_digits (radix : Z) (s : string) : list Z * string :=
  match s with
  | EmptyString => ([], EmptyString)
  | String c rest =>
      match to_digit radix c with
      | Some d => let r := read_digits radix rest in (d :: r.1, r.2)
      | None => ([], s)
      end
  end.

(** [read_number]: at most [max_digits] digits, a value of the type, no leading zero unless
    allowed. *)
Definition read_number (radix max_digits bound : Z) (allow_zero_prefix : bool) (s : string)
    : option (Z * string) :=
  let r := read_digits radix s in
  let n := Z.of_nat (length r.1) in
  let value := fold_left (λ acc d, acc * radix + d) r.1 0 in
  if (n =? 0) || (max_digits <? n) then None else
  if negb allow_zero_prefix && starts_with "0" s && (1 <? n) then None else
  if bound <? value then None else Some (value, r.2).

Definition read_given_char (c s : string) : option string := strip_prefix c s.

(** [read_separator]. *)
Definition read_separator {A} (sep : string) (index : nat) (inner : string → option (A * string))
    (s : string) : option (A * string) :=
  if (0 <? index)%nat
  then match read_given_char sep s with Some s => inner s | None => None end
  else inner s.

Fixpoint read_octets (more index : nat) (acc : Z) (s : string) : option (Z * string) :=
  match more with
  | O => Some (acc, s)
  | S more =>
      match read_separator "." index (read_number 10 3 255 false) s with
      | None => None
      | Some (o, s) => read_octets more (S index) (acc * 256 + o) s
      end
  end.
Definition read_ipv4_addr (s : string) : option (Z * string) := read_octets 4 0 0 s.

(** [read_groups]: the groups read, whether the last two are an IPv4 address, the rest. *)
Fixpoint read_groups (more index : nat) (s : string) : list Z * bool * string :=
  match more with
  | O => ([], false, s)
  | S more' =>
      match (if (0 <? more')%nat then read_separator ":" index read_ipv4_addr s else None) with
      | Some (v4, s) => ([v4 / 65536; v4 mod 65536], true, s)
      | None =>
          match read_separator ":" index (read_number 16 4 65535 true) s with
          | None => ([], false, s)
          | Some (g, s) => let r := read_groups more' (S index) s in (g :: r.1.1, r.1.2, r.2)
          end
      end
  end.

Definition of_segments (l : list Z) : Z := fold_left (λ acc g, acc * 65536 + g) l 0.

Definition read_ipv6_addr (s : string) : option (Z * string) :=
  let head := read_groups 8 0 s in
  let size := length head.1.1 in
  if (size =? 8)%nat then Some (of_segments head.1.1, head.2) else
  if head.1.2 : bool then None else
  match strip_prefix "::" head.2 with
  | None => None
  | Some s =>
      let tail := read_groups (8 - (size + 1)) 0 s in
      Some (of_segments (head.1.1 ++ repeat 0 (8 - size - length tail.1.1) ++ tail.1.1), tail.2)
  end.

(** [str::parse::<IpAddr>]. *)
Definition parse_ip (s : string) : option IpAddr :=
  match read_ipv4_addr s with
  | Some (v4, rest) => if str_is_empty rest then Some (V4 v4) else None
  | None =>
      match read_ipv6_addr s with
      | Some (v6, rest) => if str_is_empty rest then Some (V6 v6) else None
      | None => None
      end
  end.

Definition show_v4 (v4 : Z) : string :=
  join "." (map (λ i, pretty (octet i v4)) [0; 1; 2; 3]).

Definition hex_char (d : Z) : Ascii.ascii :=
  Ascii.ascii_of_N (Z.to_N (if d <? 10 then 48 + d else 87 + d)).
Definition show_hex (g : Z) : string :=
  let digit i := String (hex_char (Z.land (Z.shiftr g (4 * i)) 15)) "" in
  if g <? 16 then digit 0 else if g <? 256 then digit 1 +:+ digit 0
  else if g <? 4096 then digit 2 +:+ digit 1 +:+ digit 0
  else digit 3 +:+ digit 2 +:+ digit 1 +:+ digit 0.

(** The first longest run of zero segments, as its start and length. *)
Fixpoint zero_span (i : nat) (cur longest : nat * nat) (l : list Z) : nat * nat :=
  match l with
  | [] => longest
  | g :: l =>
      if g =? 0 then
        let cur := if (cur.2 =? 0)%nat then (i, 1%nat) else (cur.1, S cur.2) in
        zero_span (S i) cur (if (longest.2 <? cur.2)%nat then cur else longest) l
      else zero_span (S i) (0, 0)%nat longest l
  end.

(** [Ipv6Addr::to_ipv4_mapped]. *)
Definition to_ipv4_mapped (v6 : Z) : option Z :=
  if Z.shiftr v6 32 =? 65535 then Some (Z.land v6 u32_max) else None.

Definition show_v6 (v6 : Z) : string :=
  match to_ipv4_mapped v6 with
  | Some v4 => "::ffff:" +:+ show_v4 v4
  | None =>
      let segs := map (λ i, segment i v6) [0; 1; 2; 3; 4; 5; 6; 7] in
      let span := zero_span 0 (0, 0)%nat (0, 0)%nat segs in
      let show l := join ":" (map show_hex l) in
      if (1 <? span.2)%nat
      then show (take span.1 segs) +:+ "::" +:+ show (drop (span.1 + span.2) segs)
      else show segs
  end.

Definition show_ip (ip : IpAddr) : string := match ip with V4 a => show_v4 a | V6 a => show_v6 a end.

(** ** CIDR grants *)

Record CidrGrant : Type := mk_CidrGrant { network : IpAddr; prefix : Z }.

Definition is_ipv4 (ip : IpAddr) : bool := match ip with V4 _ => true | V6 _ => false end.

(** [MAX << (width - prefix)] at its width. *)
Definition mask_bits (width prefix : Z) : Z :=
  if prefix =? 0 then 0
  else Z.land (Z.shiftl (2 ^ width - 1) (width - prefix)) (2 ^ width - 1).

Definition mask_ip (addr : IpAddr) (prefix : Z) : IpAddr :=
  match addr with
  | V4 a => V4 (Z.land a (mask_bits 32 prefix))
  | V6 a => V6 (Z.land a (mask_bits 128 prefix))
  end.

Definition ipv4_prefix_eq (ip net prefix : Z) : bool :=
  Z.land ip (mask_bits 32 prefix) =? Z.land net (mask_bits 32 prefix).
Definition ipv6_prefix_eq (ip net prefix : Z) : bool :=
  Z.land ip (mask_bits 128 prefix) =? Z.land net (mask_bits 128 prefix).

Definition masked (addr : IpAddr) (prefix : Z) : string + CidrGrant :=
  let max := if is_ipv4 addr then 32 else 128 in
  if max <? prefix
  then inl ("CIDR prefix " +:+ pretty prefix +:+ " exceeds " +:+ pretty max)
  else inr (mk_CidrGrant (mask_ip addr prefix) prefix).

(** [str::parse::<u8>]: decimal digits, a leading [+] allowed. *)
Definition parse_u8 (s : string) : option Z :=
  let s := default s (strip_prefix "+" s) in
  let r := read_digits 10 s in
  let value := fold_left (λ acc d, acc * 10 + d) r.1 0 in
  if str_is_empty r.2 && negb (bool_decide (r.1 = [])) && (value <=? 255) then Some value else None.

Definition CidrGrant_parse (raw : string) : string + CidrGrant :=
  let raw := trim raw in
  if str_is_empty raw then inl "empty CIDR" else
  match split_once 47 raw with
  | Some (addr_s, p) =>
      match parse_u8 p with
      | None => inl ("invalid CIDR prefix `" +:+ p +:+ "`")
      | Some prefix =>
          match parse_ip addr_s with
          | None => inl ("invalid CIDR address `" +:+ addr_s +:+ "`")
          | Some addr => masked addr prefix
          end
      end
  | None =>
      match parse_ip raw with
      | None => inl ("invalid IP `" +:+ raw +:+ "`")
      | Some addr => masked addr (if is_ipv4 addr then 32 else 128)
      end
  end.

(** [format!("{}/{}", network, prefix)]. *)
Definition show_cidr (g : CidrGrant) : string := show_ip (network g) +:+ "/" +:+ pretty (prefix g).

Definition canonical_ip (ip : IpAddr) : IpAddr :=
  match ip with
  | V6 v6 => match to_ipv4_mapped v6 with Some v4 => V4 v4 | None => ip end
  | V4 _ => ip
  end.

Definition contains (g : CidrGrant) (ip : IpAddr) : bool :=
  match canonical_ip ip, canonical_ip (network g) with
  | V4 ip, V4 net => ipv4_prefix_eq ip net (Z.min (prefix g) 32)
  | V6 ip, V6 net => ipv6_prefix_eq ip net (Z.min (prefix g) 128)
  | _, _ => false
  end.

(** ** The public Internet *)

Definition is_cgnat (v4 : Z) : bool := (octet 0 v4 =? 100) && (Z.land (octet 1 v4) 192 =? 64).
Definition is_benchmark_v4 (v4 : Z) : bool :=
  (octet 0 v4 =? 198) && ((octet 1 v4 =? 18) || (octet 1 v4 =? 19)).

(** The predicates of [Ipv4Addr] and [Ipv6Addr]. *)
Definition v4_is_private (v4 : Z) : bool :=
  (octet 0 v4 =? 10)
  || (octet 0 v4 =? 172) && (16 <=? octet 1 v4) && (octet 1 v4 <=? 31)
  || (octet 0 v4 =? 192) && (octet 1 v4 =? 168).
Definition v4_is_documentation (v4 : Z) : bool :=
  (octet 0 v4 =? 192) && (octet 1 v4 =? 0) && (octet 2 v4 =? 2)
  || (octet 0 v4 =? 198) && (octet 1 v4 =? 51) && (octet 2 v4 =? 100)
  || (octet 0 v4 =? 203) && (octet 1 v4 =? 0) && (octet 2 v4 =? 113).

Definition is_public_v4 (v4 : Z) : bool :=
  negb ((v4 =? 0) || (octet 0 v4 =? 127) || v4_is_private v4
        || (octet 0 v4 =? 169) && (octet 1 v4 =? 254) || (v4 =? u32_max)
        || (224 <=? octet 0 v4) && (octet 0 v4 <=? 239) || v4_is_documentation v4
        || (octet 0 v4 =? 0) || is_cgnat v4 || is_benchmark_v4 v4).

Definition is_public_v6 (v6 : Z) : bool :=
  negb ((v6 =? 0) || (v6 =? 1) || (Z.land (segment 0 v6) 65280 =? 65280)
        || (Z.land (segment 0 v6) 65024 =? 64512) || (Z.land (segment 0 v6) 65472 =? 65152)
        || (segment 0 v6 =? 8193) && (segment 1 v6 =? 3512)).

Definition is_public_internet (ip : IpAddr) : bool :=
  match canonical_ip ip with V4 v4 => is_public_v4 v4 | V6 v6 => is_public_v6 v6 end.

Definition is_restricted_hostname (host : string) : bool :=
  let h := to_ascii_lowercase (trim_end_char 46 (trim host)) in
  text_eq h "localhost" || text_eq h "localhost.localdomain" || ends_with ".localhost" h
  || text_eq h "metadata.google.internal".

Definition address_allowed (ip : IpAddr) (grants : list CidrGrant) : bool :=
  is_public_internet ip || existsb (λ g, contains g ip) grants.

(** ** What the masks decide *)

Lemma mask_bits_test width p i : 0 ≤ p ≤ width → 0 ≤ i →
  Z.testbit (mask_bits width p) i = bool_decide (width - p ≤ i < width).
Proof.
  intros Hp Hi. unfold mask_bits. destruct (p =? 0) eqn:E.
  { rewrite Z.bits_0. symmetry. apply bool_decide_eq_false. lia. }
  rewrite Z.land_spec, Z.shiftl_spec by done. replace (2 ^ width - 1) with (Z.ones width) by
    (rewrite Z.ones_equiv; lia).
  rewrite !Z.testbit_ones by lia. apply eq_true_iff_eq.
  rewrite bool_decide_eq_true, !andb_true_iff, !Z.leb_le, !Z.ltb_lt. lia.
Qed.

(** Masking clears the host bits. *)
Lemma land_mask width p a : 0 ≤ p ≤ width → 0 ≤ a < 2 ^ width →
  Z.land a (mask_bits width p) = a / 2 ^ (width - p) * 2 ^ (width - p).
Proof.
  intros Hp Ha. rewrite <-Z.shiftr_div_pow2, <-Z.shiftl_mul_pow2 by lia.
  apply Z.bits_inj'. intros i Hi. rewrite Z.land_spec, mask_bits_test, Z.shiftl_spec by lia.
  destruct (Z.lt_ge_cases i (width - p)) as [Hlt|Hge].
  - rewrite (Z.testbit_neg_r _ (i - (width - p))) by lia.
    rewrite bool_decide_eq_false_2 by lia. apply andb_false_r.
  - rewrite Z.shiftr_spec by lia. replace (i - (width - p) + (width - p)) with i by lia.
    destruct (Z.lt_ge_cases i width) as [Hlt|Hw].
    + rewrite bool_decide_eq_true_2 by lia. apply andb_true_r.
    + rewrite bool_decide_eq_false_2 by lia. rewrite andb_false_r. symmetry.
      destruct (decide (a = 0)) as [->|]; [apply Z.bits_0|].
      apply Z.bits_above_log2; [lia|]. apply Z.log2_lt_pow2; [lia|].
      eapply Z.lt_le_trans; [apply Ha|]. apply Z.pow_le_mono_r; lia.
Qed.

Lemma prefix_eq_quotient width p a b : 0 ≤ p ≤ width → 0 ≤ a < 2 ^ width → 0 ≤ b < 2 ^ width →
  (Z.land a (mask_bits width p) =? Z.land b (mask_bits width p))
  = (a / 2 ^ (width - p) =? b / 2 ^ (width - p)).
Proof.
  intros Hp Ha Hb. rewrite !land_mask by done. apply eq_true_iff_eq. rewrite !Z.eqb_eq.
  assert (0 < 2 ^ (width - p)) by (apply Z.pow_pos_nonneg; lia). nia.
Qed.

Lemma masked_range width p a : 0 ≤ p ≤ width → 0 ≤ a < 2 ^ width →
  0 ≤ Z.land a (mask_bits width p) < 2 ^ width
  ∧ Z.land a (mask_bits width p) / 2 ^ (width - p) = a / 2 ^ (width - p).
Proof.
  intros Hp Ha. rewrite land_mask by done.
  assert (0 < 2 ^ (width - p)) by (apply Z.pow_pos_nonneg; lia).
  rewrite Z.div_mul by lia. split; [|done].
  pose proof (Z.mul_div_le a (2 ^ (width - p))). pose proof (Z.div_pos a (2 ^ (width - p))). nia.
Qed.

Lemma to_ipv4_mapped_Some v6 v4 : to_ipv4_mapped v6 = Some v4 →
  v6 / 2 ^ 32 = 65535 ∧ 0 ≤ v4 < 2 ^ 32.
Proof.
  unfold to_ipv4_mapped. destruct (_ =? _) eqn:E; [|done]. intros [= <-].
  apply Z.eqb_eq in E. rewrite Z.shiftr_div_pow2 in E by lia. split; [done|].
  change u32_max with (Z.ones 32).
  rewrite Z.land_ones by lia. apply Z.mod_pos_bound. lia.
Qed.

Lemma to_ipv4_mapped_None v6 : to_ipv4_mapped v6 = None ↔ v6 / 2 ^ 32 ≠ 65535.
Proof.
  unfold to_ipv4_mapped. rewrite Z.shiftr_div_pow2 by lia. destruct (_ =? _) eqn:E; lia || naive_solver lia.
Qed.

Lemma canonical_ok ip : ip_ok ip → ip_ok (canonical_ip ip).
Proof.
  destruct ip as [a|a]; cbn [ip_ok canonical_ip]; [trivial|]. destruct (to_ipv4_mapped a) eqn:E; [|trivial].
  intros _. by apply to_ipv4_mapped_Some in E as [_ ?].
Qed.

Lemma canonical_twice ip : canonical_ip (canonical_ip ip) = canonical_ip ip.
Proof.
  destruct ip as [a|a]; cbn [canonical_ip]; [reflexivity|].
  destruct (to_ipv4_mapped a) eqn:E; cbn [canonical_ip]; rewrite ?E; reflexivity.
Qed.

(** The network of a grant on an address that is not IPv4-mapped is not mapped either. *)
Lemma masked_unmapped p a : 0 ≤ p ≤ 128 → 0 ≤ a < 2 ^ 128 →
  to_ipv4_mapped a = None → to_ipv4_mapped (Z.land a (mask_bits 128 p)) = None.
Proof.
  intros Hp Ha. rewrite !to_ipv4_mapped_None. intros Hne Heq. apply Hne.
  rewrite <-Z.shiftr_div_pow2 in * by lia. rewrite <-Heq. apply Z.bits_inj'. intros i Hi.
  rewrite !Z.shiftr_spec, Z.land_spec, mask_bits_test by lia.
  destruct (decide (96 ≤ p)) as [Hge|Hlt].
  - destruct (Z.lt_ge_cases (i + 32) 128) as [Hl|Hg].
    + rewrite bool_decide_eq_true_2 by lia. by rewrite andb_true_r.
    + rewrite bool_decide_eq_false_2 by lia. rewrite andb_false_r.
      destruct (decide (a = 0)) as [->|]; [apply Z.bits_0|].
      apply Z.bits_above_log2; [lia|]. apply Z.log2_lt_pow2; [lia|].
      eapply Z.lt_le_trans; [apply Ha|]. apply Z.pow_le_mono_r; lia.
  - exfalso. apply (f_equal (λ z, Z.testbit z 0)) in Heq. change (Z.testbit 65535 0) with true in Heq.
    rewrite Z.shiftr_spec, Z.land_spec, mask_bits_test in Heq by lia.
    rewrite bool_decide_eq_false_2 in Heq by lia. by rewrite andb_false_r in Heq.
Qed.

(** Two addresses of one family agree on their first [p] bits. *)
Definition same_block (p : Z) (a b : IpAddr) : Prop :=
  match a, b with
  | V4 a, V4 b => a / 2 ^ (32 - p) = b / 2 ^ (32 - p)
  | V6 a, V6 b => a / 2 ^ (128 - p) = b / 2 ^ (128 - p)
  | _, _ => False
  end.

Lemma contains_block addr p g ip :
  masked addr p = inr g → ip_ok addr → ip_ok ip → 0 ≤ p → canonical_ip addr = addr →
  contains g ip = true ↔ same_block p addr (canonical_ip ip).
Proof.
  unfold masked. intros Hg Ha Hip Hp Hc. destruct (_ <? p) eqn:El; [done|]. injection Hg as <-.
  apply Z.ltb_ge in El. apply canonical_ok in Hip. unfold contains. cbn [network prefix].
  destruct addr as [a|a]; cbn [mask_ip is_ipv4 canonical_ip ip_ok same_block] in *.
  - rewrite Z.min_l by lia. destruct (canonical_ip ip) as [i|i]; [|done]. cbn [ip_ok same_block] in *.
    destruct (masked_range 32 p a) as [? Hq]; [lia..|].
    unfold ipv4_prefix_eq. rewrite prefix_eq_quotient, Z.eqb_eq, Hq by (lia || done). done.
  - destruct (to_ipv4_mapped a) eqn:Em; [done|]. rewrite masked_unmapped by (lia || done).
    rewrite Z.min_l by lia. destruct (canonical_ip ip) as [i|i]; [done|]. cbn [ip_ok same_block] in *.
    destruct (masked_range 128 p a) as [? Hq]; [lia..|].
    unfold ipv6_prefix_eq. rewrite prefix_eq_quotient, Z.eqb_eq, Hq by (lia || done). done.
Qed.

(** ** The public Internet as a complement *)

(** The special-purpose blocks, as text. *)
Definition special_blocks : list string :=
  ["0.0.0.0/8"; "10.0.0.0/8"; "100.64.0.0/10"; "127.0.0.0/8"; "169.254.0.0/16"; "172.16.0.0/12";
   "192.0.2.0/24"; "192.168.0.0/16"; "198.18.0.0/15"; "198.51.100.0/24"; "203.0.113.0/24";
   "224.0.0.0/4"; "255.255.255.255/32";
   "::/128"; "::1/128"; "fc00::/7"; "fe80::/10"; "ff00::/8"; "2001:db8::/32"].

Definition parsed_block (s : string) : option CidrGrant :=
  match CidrGrant_parse s with inr g => Some g | inl _ => None end.

Lemma octet_spec i a : 0 ≤ a → octet i a = a / 2 ^ (8 * (3 - i)) mod 256 ∨ 3 < i.
Proof.
  intros Ha. destruct (decide (3 < i)); [by right|left]. unfold octet.
  rewrite Z.shiftr_div_pow2 by lia. change 255 with (Z.ones 8). by rewrite Z.land_ones.
Qed.

Lemma land_top p w a : 0 ≤ p ≤ w → 0 ≤ a < 2 ^ w → ∀ m n, m = mask_bits w p → n = n / 2 ^ (w - p) * 2 ^ (w - p) →
  (Z.land a m =? n) = (a / 2 ^ (w - p) =? n / 2 ^ (w - p)).
Proof.
  intros Hp Ha m n -> Hn. rewrite land_mask by done. apply eq_true_iff_eq. rewrite !Z.eqb_eq.
  assert (0 < 2 ^ (w - p)) by (apply Z.pow_pos_nonneg; lia). nia.
Qed.

(** The blocks an IPv4 address is in, by quotients. *)
Lemma v4_blocks a : 0 ≤ a < 2 ^ 32 →
  existsb (λ g, contains g (V4 a)) (omap parsed_block special_blocks)
  = existsb (λ pn : Z * Z, a / 2 ^ pn.1 =? pn.2)
      [(24, 0); (24, 10); (22, 401); (24, 127); (16, 43518); (20, 2753); (8, 12582914);
       (16, 49320); (17, 25353); (8, 12989284); (8, 13303921); (28, 14); (0, 4294967295)].
Proof.
  intros Ha. set (l := omap parsed_block special_blocks). vm_compute in l. subst l.
  cbn [existsb]. unfold contains. cbn [canonical_ip network prefix].
  repeat match goal with |- context [to_ipv4_mapped ?x] =>
    let y := eval vm_compute in (to_ipv4_mapped x) in change (to_ipv4_mapped x) with y end.
  cbn iota. rewrite !orb_false_r.
  unfold ipv4_prefix_eq.
  repeat match goal with |- context [Z.min ?x 32] =>
    let y := eval vm_compute in (Z.min x 32) in change (Z.min x 32) with y end.
  rewrite !prefix_eq_quotient by lia. reflexivity.
Qed.

(** [lia] with division by constants. *)
Ltac dlia := Z.to_euclidean_division_equations; lia.

(** A test on a number as the tests on its digits. *)
Ltac by_digits :=
  apply eq_true_iff_eq; repeat rewrite ?orb_true_iff, ?andb_true_iff, ?Z.eqb_eq, ?Z.leb_le;
  split; intros; dlia.

(** An address by its octets. *)
Lemma octets_of a : 0 ≤ a < 2 ^ 32 →
  ∃ o0 o1 o2 o3, 0 ≤ o0 < 256 ∧ 0 ≤ o1 < 256 ∧ 0 ≤ o2 < 256 ∧ 0 ≤ o3 < 256
    ∧ a = ((o0 * 256 + o1) * 256 + o2) * 256 + o3
    ∧ octet 0 a = o0 ∧ octet 1 a = o1 ∧ octet 2 a = o2.
Proof.
  intros Ha. exists (a / 2 ^ 24), (a / 2 ^ 16 mod 256), (a / 2 ^ 8 mod 256), (a mod 256).
  assert (Ho : ∀ i, i ≤ 3 → octet i a = a / 2 ^ (8 * (3 - i)) mod 256).
  { intros i Hi. destruct (octet_spec i a); lia. }
  rewrite !Ho by lia. change (8 * (3 - 0)) with 24. change (8 * (3 - 1)) with 16. change (8 * (3 - 2)) with 8.
  change (2 ^ 32) with 4294967296 in Ha. change (2 ^ 24) with 16777216. change (2 ^ 16) with 65536.
  change (2 ^ 8) with 256. split_and!; dlia.
Qed.

Lemma public_v4_blocks a : 0 ≤ a < 2 ^ 32 →
  is_public_v4 a = negb (existsb (λ pn : Z * Z, a / 2 ^ pn.1 =? pn.2)
      [(24, 0); (24, 10); (22, 401); (24, 127); (16, 43518); (20, 2753); (8, 12582914);
       (16, 49320); (17, 25353); (8, 12989284); (8, 13303921); (28, 14); (0, 4294967295)]).
Proof.
  intros Ha. destruct (octets_of a Ha) as (o0 & o1 & o2 & o3 & H0 & H1 & H2 & H3 & E & E0 & E1 & E2).
  unfold is_public_v4, v4_is_private, v4_is_documentation, is_cgnat, is_benchmark_v4.
  rewrite E0, E1, E2. rewrite (land_top 2 8 o1) by (lia || done). f_equal. cbn [existsb fst snd].
  change (2 ^ (8 - 2)) with 64. change (64 / 64) with 1. change u32_max with 4294967295.
  change (2 ^ 24) with 16777216. change (2 ^ 22) with 4194304. change (2 ^ 16) with 65536.
  change (2 ^ 20) with 1048576. change (2 ^ 8) with 256. change (2 ^ 17) with 131072.
  change (2 ^ 28) with 268435456. change (2 ^ 0) with 1. rewrite Z.div_1_r.
  clear Ha E0 E1 E2.
  assert (Q24 : a / 16777216 = o0) by (subst a; dlia).
  assert (Q22 : a / 4194304 = o0 * 4 + o1 / 64) by (subst a; dlia).
  assert (Q16 : a / 65536 = o0 * 256 + o1) by (subst a; dlia).
  assert (Q20 : a / 1048576 = o0 * 16 + o1 / 16) by (subst a; dlia).
  assert (Q8 : a / 256 = (o0 * 256 + o1) * 256 + o2) by (subst a; dlia).
  assert (Q17 : a / 131072 = o0 * 128 + o1 / 2) by (subst a; dlia).
  assert (Q28 : a / 268435456 = o0 / 16) by (subst a; dlia).
  rewrite Q24, Q22, Q16, Q20, Q8, Q17, Q28. clear Q24 Q22 Q16 Q20 Q8 Q17 Q28.
  assert (B0 : (a =? 0) = (a =? 0) && (o0 =? 0)) by (apply eq_true_iff_eq; rewrite andb_true_iff, !Z.eqb_eq; lia).
  clear E H3.
  assert (B22 : (o0 * 4 + o1 / 64 =? 401) = (o0 =? 100) && (o1 / 64 =? 1)) by (clear - H0 H1 H2; by_digits).
  assert (B16 : (o0 * 256 + o1 =? 43518) = (o0 =? 169) && (o1 =? 254)) by (clear - H0 H1 H2; by_digits).
  assert (B16' : (o0 * 256 + o1 =? 49320) = (o0 =? 192) && (o1 =? 168)) by (clear - H0 H1 H2; by_digits).
  assert (B20 : (o0 * 16 + o1 / 16 =? 2753) = (o0 =? 172) && (16 <=? o1) && (o1 <=? 31)) by (clear - H0 H1 H2; by_digits).
  assert (B8 : ((o0 * 256 + o1) * 256 + o2 =? 12582914) = (o0 =? 192) && (o1 =? 0) && (o2 =? 2)) by (clear - H0 H1 H2; by_digits).
  assert (B8' : ((o0 * 256 + o1) * 256 + o2 =? 12989284) = (o0 =? 198) && (o1 =? 51) && (o2 =? 100)) by (clear - H0 H1 H2; by_digits).
  assert (B8'' : ((o0 * 256 + o1) * 256 + o2 =? 13303921) = (o0 =? 203) && (o1 =? 0) && (o2 =? 113)) by (clear - H0 H1 H2; by_digits).
  assert (B17 : (o0 * 128 + o1 / 2 =? 25353) = (o0 =? 198) && ((o1 =? 18) || (o1 =? 19))) by (clear - H0 H1 H2; by_digits).
  assert (B28 : (o0 / 16 =? 14) = (224 <=? o0) && (o0 <=? 239)) by (clear - H0 H1 H2; by_digits).
  rewrite B22, B16, B16', B20, B8, B8', B8'', B17, B28, B0. btauto.
Qed.

Lemma v6_blocks a : 0 ≤ a < 2 ^ 128 → to_ipv4_mapped a = None →
  existsb (λ g, contains g (V6 a)) (omap parsed_block special_blocks)
  = existsb (λ pn : Z * Z, a / 2 ^ pn.1 =? pn.2)
      [(0, 0); (0, 1); (121, 126); (118, 1018); (120, 255); (96, 536939960)].
Proof.
  intros Ha Hm. set (l := omap parsed_block special_blocks). vm_compute in l. subst l.
  cbn [existsb]. unfold contains. cbn [canonical_ip network prefix]. rewrite Hm.
  repeat match goal with |- context [to_ipv4_mapped ?x] =>
    lazymatch x with a => fail | _ =>
    let y := eval vm_compute in (to_ipv4_mapped x) in change (to_ipv4_mapped x) with y end end.
  cbn iota. rewrite !orb_false_r, !orb_false_l. unfold ipv6_prefix_eq.
  repeat match goal with |- context [Z.min ?x 128] =>
    let y := eval vm_compute in (Z.min x 128) in change (Z.min x 128) with y end.
  rewrite !prefix_eq_quotient by lia. reflexivity.
Qed.

Lemma public_v6_blocks a : 0 ≤ a < 2 ^ 128 →
  is_public_v6 a = negb (existsb (λ pn : Z * Z, a / 2 ^ pn.1 =? pn.2)
      [(0, 0); (0, 1); (121, 126); (118, 1018); (120, 255); (96, 536939960)]).
Proof.
  intros Ha. unfold is_public_v6. f_equal.
  assert (H0 : 0 ≤ segment 0 a < 2 ^ 16 ∧ segment 0 a = a / 2 ^ 112).
  { unfold segment. rewrite Z.shiftr_div_pow2 by lia. change 65535 with (Z.ones 16).
    rewrite Z.land_ones by lia. change (16 * (7 - 0)) with 112.
    assert (a / 2 ^ 112 < 2 ^ 16) by (apply Z.div_lt_upper_bound; lia).
    pose proof (Z.div_pos a (2 ^ 112)). rewrite Z.mod_small by lia. lia. }
  assert (H1 : segment 1 a = a / 2 ^ 96 mod 65536).
  { unfold segment. rewrite Z.shiftr_div_pow2 by lia. change 65535 with (Z.ones 16).
    by rewrite Z.land_ones by lia. }
  destruct H0 as [Hr H0].
  rewrite (land_top 8 16 (segment 0 a) ltac:(lia) Hr 65280 65280) by done.
  rewrite (land_top 7 16 (segment 0 a) ltac:(lia) Hr 65024 64512) by done.
  rewrite (land_top 10 16 (segment 0 a) ltac:(lia) Hr 65472 65152) by done.
  rewrite H0, H1. cbn [existsb fst snd].
  rewrite !Z.div_div by lia. rewrite <-!Z.pow_add_r by lia.
  change (112 + (16 - 8)) with 120. change (112 + (16 - 7)) with 121. change (112 + (16 - 10)) with 118.
  change (65280 / 2 ^ (16 - 8)) with 255. change (64512 / 2 ^ (16 - 7)) with 126.
  change (65152 / 2 ^ (16 - 10)) with 1018. change (2 ^ 0) with 1. rewrite Z.div_1_r.
  assert (Hd : (a / 2 ^ 96 =? 536939960) = (a / 2 ^ 112 =? 8193) && (a / 2 ^ 96 mod 65536 =? 3512)).
  { change (2 ^ 112) with (2 ^ 96 * 65536). rewrite <-Z.div_div by lia.
    set (q := a / 2 ^ 96). clearbody q. clear. apply eq_true_iff_eq.
    rewrite andb_true_iff, !Z.eqb_eq. split; intros; dlia. }
  rewrite Hd. btauto.
Qed.

(** C32: The octet and segment tests are exactly the special-purpose blocks, as the crate's own
    parser reads them: an address, mapped or not, is on the public Internet when it is in none. *)
Theorem public_internet_is_the_complement ip :
  ip_ok ip →
  is_public_internet ip = negb (existsb (λ g, contains g ip) (omap parsed_block special_blocks)).
Proof.
  intros Hip. unfold is_public_internet.
  assert (Hcan : ∀ l, existsb (λ g, contains g ip) l = existsb (λ g, contains g (canonical_ip ip)) l).
  { intros l. induction l as [|g l IH]; [reflexivity|]. cbn [existsb]. rewrite IH. f_equal.
    unfold contains. by rewrite canonical_twice. }
  rewrite Hcan. pose proof (canonical_ok ip Hip) as Hok. pose proof (canonical_twice ip) as Htw.
  destruct (canonical_ip ip) as [a|a] eqn:E.
  - by rewrite v4_blocks, public_v4_blocks.
  - rewrite v6_blocks, public_v6_blocks; try done.
    cbn [canonical_ip] in Htw. by destruct (to_ipv4_mapped a).
Qed.

(** ** Parsed addresses have their width *)

Lemma to_digit_range radix c d : to_digit radix c = Some d → 0 ≤ d < radix.
Proof.
  unfold to_digit, is_digit, is_lower, is_upper, char_in. generalize (code c). intros n.
  assert (Hin : ∀ lo hi, ((lo <=? n)%N && (n <=? hi)%N) = true → Z.of_N lo ≤ Z.of_N n).
  { intros lo hi [H _]%andb_prop. apply N.leb_le in H. lia. }
  destruct ((48 <=? n)%N && _) eqn:Ed; [apply Hin in Ed|].
  { destruct (_ <? radix) eqn:E; [|done]. intros [= <-]. apply Z.ltb_lt in E. lia. }
  destruct ((97 <=? n)%N && _) eqn:El; [apply Hin in El|].
  { destruct (_ <? radix) eqn:E; [|done]. intros [= <-]. apply Z.ltb_lt in E. lia. }
  destruct ((65 <=? n)%N && _) eqn:Eu; [apply Hin in Eu|by rewrite Z.ltb_irrefl].
  destruct (_ <? radix) eqn:E; [|done]. intros [= <-]. apply Z.ltb_lt in E. lia.
Qed.

Lemma read_digits_range radix s : Forall (λ d, 0 ≤ d < radix) (read_digits radix s).1.
Proof.
  induction s as [|c s IH]; cbn [read_digits]; [constructor|].
  destruct (to_digit radix c) as [d|] eqn:E; [|constructor]. cbn [fst].
  constructor; [by eapply to_digit_range|done].
Qed.

Lemma positional_nonneg radix l acc :
  0 ≤ radix → 0 ≤ acc → Forall (λ d, 0 ≤ d < radix) l → 0 ≤ fold_left (λ acc d, acc * radix + d) l acc.
Proof.
  intros Hr. revert acc. induction l as [|d l IH]; intros acc Ha Hl; [done|].
  apply Forall_cons in Hl as [? ?]. apply IH; [nia|done].
Qed.

Lemma read_number_range radix digits bound zero s v rest :
  0 ≤ radix → read_number radix digits bound zero s = Some (v, rest) → 0 ≤ v ≤ bound.
Proof.
  intros Hr. unfold read_number. destruct (_ || _); [done|]. destruct (_ && _); [done|].
  destruct (bound <? _) eqn:E; [done|]. intros [= <- _]. apply Z.ltb_ge in E.
  split; [|done]. apply positional_nonneg; [done..|]. apply read_digits_range.
Qed.

Lemma read_separator_range {A} sep i (inner : string → option (A * string)) (P : A → Prop) s a rest :
  (∀ s a rest, inner s = Some (a, rest) → P a) →
  read_separator sep i inner s = Some (a, rest) → P a.
Proof.
  intros H. unfold read_separator. destruct (_ <? _)%nat; [|apply H].
  destruct (read_given_char sep s); [apply H|done].
Qed.

Lemma read_octets_range more i acc s v rest :
  0 ≤ acc → read_octets more i acc s = Some (v, rest) →
  0 ≤ v < (acc + 1) * 256 ^ Z.of_nat more.
Proof.
  revert i acc s. induction more as [|more IH]; intros i acc s Ha; cbn [read_octets].
  { intros [= <- _]. cbn. lia. }
  destruct (read_separator _ _ _ s) as [[o s']|] eqn:E; [|done]. intros H.
  apply (read_separator_range _ _ _ (λ o, 0 ≤ o ≤ 255)) in E;
    [|intros *; by apply read_number_range].
  apply IH in H; [|lia]. rewrite Nat2Z.inj_succ, Z.pow_succ_r by lia.
  assert (0 < 256 ^ Z.of_nat more) by lia. nia.
Qed.

Lemma read_ipv4_range s v rest : read_ipv4_addr s = Some (v, rest) → 0 ≤ v < 2 ^ 32.
Proof. intros H. apply read_octets_range in H; [|done]. exact H. Qed.

Lemma read_groups_range more i s :
  Forall (λ g, 0 ≤ g ≤ 65535) (read_groups more i s).1.1
  ∧ (length (read_groups more i s).1.1 ≤ more)%nat.
Proof.
  revert i s. induction more as [|more IH]; intros i s; cbn [read_groups]; [by split|].
  destruct (if (0 <? more)%nat then _ else _) as [[v4 s']|] eqn:E.
  - destruct (0 <? more)%nat eqn:Em; [|done]. apply Nat.ltb_lt in Em.
    apply (read_separator_range _ _ _ (λ v, 0 ≤ v < 2 ^ 32)) in E; [|apply read_ipv4_range].
    change (2 ^ 32) with 4294967296 in E. cbn [fst snd length]. split; [|lia].
    repeat constructor; dlia.
  - destruct (read_separator ":" i (read_number 16 4 65535 true) s) as [[g s']|] eqn:Eg;
      [|cbn; split; [constructor|lia]].
    apply (read_separator_range _ _ _ (λ g, 0 ≤ g ≤ 65535)) in Eg;
      [|intros *; by apply read_number_range].
    destruct (IH (S i) s') as [HF HL]. cbn [fst snd length]. split; [by constructor|lia].
Qed.

Lemma of_segments_range l : Forall (λ g, 0 ≤ g ≤ 65535) l → 0 ≤ of_segments l < 65536 ^ Z.of_nat (length l).
Proof.
  intros Hl. unfold of_segments.
  assert (H : ∀ acc, 0 ≤ acc → 0 ≤ fold_left (λ acc g, acc * 65536 + g) l acc
    < (acc + 1) * 65536 ^ Z.of_nat (length l)); [|specialize (H 0); lia].
  induction Hl as [|g l Hg Hl IH]; intros acc Ha; [cbn; lia|]. cbn [fold_left length].
  specialize (IH (acc * 65536 + g)). rewrite Nat2Z.inj_succ, Z.pow_succ_r by lia.
  assert (0 < 65536 ^ Z.of_nat (length l)) by lia. split; [apply IH; lia|].
  eapply Z.lt_le_trans; [apply IH; lia|]. nia.
Qed.

Lemma segments_width l : Forall (λ g, 0 ≤ g ≤ 65535) l → length l = 8%nat → 0 ≤ of_segments l < 2 ^ 128.
Proof. intros Hl Hn. pose proof (of_segments_range l Hl) as H. rewrite Hn in H. exact H. Qed.

Lemma read_ipv6_range s v rest : read_ipv6_addr s = Some (v, rest) → 0 ≤ v < 2 ^ 128.
Proof.
  unfold read_ipv6_addr. destruct (read_groups_range 8 0 s) as [HF HL].
  set (head := read_groups 8 0 s) in *. destruct (_ =? 8)%nat eqn:E8.
  { intros [= <- _]. apply segments_width; [done|]. by apply Nat.eqb_eq in E8. }
  apply Nat.eqb_neq in E8. destruct head.1.2; [done|]. destruct (strip_prefix _ _) as [s'|]; [|done].
  set (size := length head.1.1) in *. destruct (read_groups_range (8 - (size + 1)) 0 s') as [TF TL].
  set (tail := read_groups (8 - (size + 1)) 0 s') in *. intros [= <- _]. apply segments_width.
  - apply Forall_app_2; [done|]. apply Forall_app_2; [|done]. apply Forall_forall.
    intros x Hx%list_elem_of_In%repeat_spec. lia.
  - rewrite !length_app, repeat_length. fold size. lia.
Qed.

Lemma parse_ip_ok s ip : parse_ip s = Some ip → ip_ok ip.
Proof.
  unfold parse_ip. destruct (read_ipv4_addr s) as [[v4 rest]|] eqn:E4.
  { destruct (str_is_empty rest); [|done]. intros [= <-]. by apply read_ipv4_range in E4. }
  destruct (read_ipv6_addr s) as [[v6 rest]|] eqn:E6; [|done].
  destruct (str_is_empty rest); [|done]. intros [= <-]. by apply read_ipv6_range in E6.
Qed.

