(* ===== verification/Manifest.v ===== *)
(** * Plugin manifests: [crates/bookclerk-plugin-manifest]

    [types.rs] (the descriptor, its derived views and [validate]), [id.rs], [logo.rs] and the host
    names of [egress.rs].  The [url] and [idna] crates are parameters. *)

From stdpp Require Import base option list strings pretty.
From Stdlib Require Import ZArith Lia.
From S2P Require Import Prelude Text Address EventModels EventOutbox.

Local Open Scope Z_scope.

(** [Result<_, Error>]: a message or a value. *)
Definition checked (A : Type) : Type := string + A.

(** The first complaint of a sequence of checks with early return. *)
Fixpoint first_error (checks : list (option string)) : option string :=
  match checks with
  | [] => None
  | Some e :: _ => Some e
  | None :: checks => first_error checks
  end.

(** A loop whose body may return an error. *)
Definition for_all {A} (body : A → option string) (l : list A) : option string :=
  first_error (map body l).
Definition for_all_indexed {A} (body : nat → A → option string) (l : list A) : option string :=
  first_error (imap body l).
Definition complain (b : bool) (message : string) : option string :=
  if b then Some message else None.

(** The [url] crate: the parts of a parsed URL the code reads. *)
Inductive Host : Type :=
| Domain (d : string)
| HostIpv4
| HostIpv6.
Record Url : Type := mk_Url {
  scheme : string;
  username : string;
  password : option string;
  host : option Host;
}.
Class UrlCrate := url_parse : string → option Url.

(** [idna::domain_to_ascii_cow] with the URL deny list. *)
Class Idna := domain_to_ascii : string → option string.

(** ** Data *)

Inductive Entrypoint : Type :=
| Storefront | Storage | DatabaseAdapter | RemoteLibrary | EntryCli | EntryOidc.
#[global] Instance Entrypoint_eq_dec : EqDecision Entrypoint.
Proof. solve_decision. Defined.

Definition wire_name (e : Entrypoint) : string :=
  match e with
  | Storefront => "storefront"
  | Storage => "storage"
  | DatabaseAdapter => "databaseAdapter"
  | RemoteLibrary => "remoteLibrary"
  | EntryCli => "cli"
  | EntryOidc => "oidc"
  end.

Inductive PluginRuntimeKind : Type := Native | Workerd.
#[global] Instance PluginRuntimeKind_eq_dec : EqDecision PluginRuntimeKind.
Proof. solve_decision. Defined.

Inductive NetworkMode : Type := Deny | Outbound.
#[global] Instance NetworkMode_eq_dec : EqDecision NetworkMode.
Proof. solve_decision. Defined.

Record TcpCapability : Type := mk_TcpCapability { tcp_host : string; tcp_ports : list Z }.

Record NetworkCapabilities : Type := mk_NetworkCapabilities {
  net_mode : NetworkMode;
  net_domains : list string;
  net_tcp : list TcpCapability;
  net_allow_undeclared_public_redirects : bool;
  net_address_cidrs : list string;
}.

Definition MAX_DATABASE_BINDINGS : Z := 8.
Definition MAX_DATABASE_BINDING_NAME_LEN : Z := 32.
Definition PRODUCT_API_VERSION : Z := 3.

Definition is_valid_database_binding_name (name : string) : bool :=
  negb (str_is_empty name) && (str_len name <=? MAX_DATABASE_BINDING_NAME_LEN)
  && all_indexed (λ i c, is_char 95 c || is_upper c || (0 <? i)%nat && is_digit c) 0 name
  && match name with String c _ => is_upper c | EmptyString => false end.

Record BindingCapabilities : Type := mk_BindingCapabilities {
  b_config : bool;
  b_secrets : bool;
  b_plugin_kv : bool;
  b_work_fs : bool;
  b_oauth : bool;
  b_databases : list string;
}.

(** [NamedBinding]: its [binding] key. *)
Definition NamedBinding : Type := string.
Definition name_or (b : NamedBinding) (dflt : string) : string := if str_is_empty b then dflt else b.

Definition DEFAULT_SECRETS_BINDING : string := "SECRETS".
Definition DEFAULT_WORK_FS_BINDING : string := "WORK_FS".
Definition DEFAULT_OAUTH_BINDING : string := "OAUTH".
Definition DEFAULT_KV_BINDING : string := "KV".
Definition DEFAULT_EVENTS_BINDING : string := "EVENTS".
Definition CONFIG_BINDING : string := "CONFIG".

Record EventProducer : Type := mk_EventProducer { prod_event_type : string; prod_binding : string }.
Definition binding_name (p : EventProducer) : string :=
  if str_is_empty (prod_binding p) then DEFAULT_EVENTS_BINDING else prod_binding p.

Record WorkerdLimits : Type := mk_WorkerdLimits { cpu_ms : option Z; subrequests : option Z }.
Definition DEFAULT_CPU_MS : Z := 30000.
Definition DEFAULT_SUBREQUESTS : Z := 50.
Definition MAX_CPU_MS : Z := 120000.
Definition MAX_SUBREQUESTS : Z := 1000.

Definition clamp_limit (raw : option Z) (dflt max : Z) : Z :=
  match raw with
  | None => dflt
  | Some n => if n =? 0 then dflt else Z.min n max
  end.

(** [WorkerdLimits::effective]: CPU milliseconds and subrequests. *)
Definition effective_cpu_ms (l : WorkerdLimits) : Z := clamp_limit (cpu_ms l) DEFAULT_CPU_MS MAX_CPU_MS.
Definition effective_subrequests (l : WorkerdLimits) : Z :=
  clamp_limit (subrequests l) DEFAULT_SUBREQUESTS MAX_SUBREQUESTS.

Record WorkerdRuntimeManifest : Type := mk_WorkerdRuntimeManifest {
  w_compatibility_date : string;
  w_compatibility_flags : list string;
  w_main_module : string;
  w_limits : WorkerdLimits;
}.

Record ModuleSpec : Type := mk_ModuleSpec {
  mod_name : string;
  mod_path : string;
  mod_type : string;
}.

Record OidcClientToml : Type := mk_OidcClientToml {
  oidc_client_id : string;
  oidc_callback_path : string;
  oidc_origin_config_key : string;
}.

Record EventConsumerSpec : Type := mk_EventConsumerSpec {
  spec_event_type : string;
  spec_schema_versions : list Z;
  spec_supports_suspend : bool;
}.

(** The capability declaration of [describe()]. *)
Record PluginCapabilities : Type := mk_PluginCapabilities {
  cap_entrypoints : list Entrypoint;
  cap_consumes : list EventConsumerSpec;
  cap_produces : list string;
  cap_jobs : list string;
  cap_databases : list string;
  cap_bindings : list string;
}.

Section Manifest.
Context {Value : Type}.

Record EventConsumer : Type := mk_EventConsumer {
  con_event_type : string;
  con_schema_versions : list Z;
  con_supports_suspend : bool;
  con_resource_class : string;
  con_filter : option Value;
}.

(** The keys of [plugin.toml] the host reads; [m_vars] and [m_cli] only by their presence. *)
Record PluginManifest : Type := mk_PluginManifest {
  m_api_version : Z;
  m_id : string;
  m_logo : option string;
  m_runtime : PluginRuntimeKind;
  m_command : option string;
  m_entrypoints : list Entrypoint;
  m_workerd : option WorkerdRuntimeManifest;
  m_modules : list ModuleSpec;
  m_jobs : list string;
  m_consumers : list EventConsumer;
  m_producers : list EventProducer;
  m_databases : list string;
  m_vars : bool;
  m_secrets : option NamedBinding;
  m_kv_namespaces : list NamedBinding;
  m_work_fs : option NamedBinding;
  m_oauth : option NamedBinding;
  m_network : NetworkCapabilities;
  m_cli : bool;
  m_oidc : list OidcClientToml;
}.

Definition bindings (m : PluginManifest) : BindingCapabilities :=
  {| b_config := m_vars m;
     b_secrets := bool_decide (is_Some (m_secrets m));
     b_plugin_kv := match m_kv_namespaces m with [] => false | _ => true end;
     b_work_fs := bool_decide (is_Some (m_work_fs m));
     b_oauth := bool_decide (is_Some (m_oauth m));
     b_databases := m_databases m |}.

Definition has_entrypoint (m : PluginManifest) (e : Entrypoint) : bool :=
  bool_decide (e ∈ m_entrypoints m).
Definition consumes_events (m : PluginManifest) : bool :=
  match m_consumers m with [] => false | _ => true end.
Definition runs_jobs (m : PluginManifest) : bool :=
  match m_jobs m with [] => false | _ => true end.
Definition producer_types (m : PluginManifest) : list string := map prod_event_type (m_producers m).

(** [binding_names]: every name is pushed once for the tables, and once per distinct publisher. *)
Definition binding_names (m : PluginManifest) : list string :=
  let names := (if m_vars m then [CONFIG_BINDING] else [])
    ++ option_list ((λ b, name_or b DEFAULT_SECRETS_BINDING) <$> m_secrets m)
    ++ option_list ((λ b, name_or b DEFAULT_WORK_FS_BINDING) <$> m_work_fs m)
    ++ option_list ((λ b, name_or b DEFAULT_OAUTH_BINDING) <$> m_oauth m)
    ++ map (λ b, name_or b DEFAULT_KV_BINDING) (m_kv_namespaces m) in
  fold_left (λ names p,
    if bool_decide (binding_name p ∈ names) then names else names ++ [binding_name p])
    (m_producers m) names.

Definition capabilities (m : PluginManifest) : PluginCapabilities :=
  {| cap_entrypoints := m_entrypoints m;
     cap_consumes := map (λ c, mk_EventConsumerSpec (con_event_type c) (con_schema_versions c)
                                 (con_supports_suspend c)) (m_consumers m);
     cap_produces := producer_types m;
     cap_jobs := m_jobs m;
     cap_databases := m_databases m;
     cap_bindings := binding_names m |}.

(** ** Host names *)

Section HostNames.
Context {I : Idna}.

Definition normalize_hostname (host : string) : option string :=
  let host := trim_end_char 46 (trim host) in
  if str_is_empty host || contains_char 37 host then None else domain_to_ascii host.

Definition normalize_domain_pattern (pattern : string) : option string :=
  let pattern := trim_end_char 46 (trim pattern) in
  if str_is_empty pattern || contains_char 37 pattern then None else
  match strip_prefix "*." pattern with
  | Some rest => (λ ascii, "*." +:+ ascii) <$> normalize_hostname rest
  | None => normalize_hostname pattern
  end.

Fixpoint normalize_domain_list_go (out domains : list string) : checked (list string) :=
  match domains with
  | [] => inr out
  | d :: domains =>
      match normalize_domain_pattern d with
      | None => inl ("invalid network domain `" +:+ d +:+ "` (IDNA/percent-encoding)")
      | Some n => normalize_domain_list_go (if bool_decide (n ∈ out) then out else out ++ [n]) domains
      end
  end.
Definition normalize_domain_list (domains : list string) : checked (list string) :=
  normalize_domain_list_go [] domains.

Definition PYODIDE_EGRESS_HOSTS : list string :=
  ["cdn.jsdelivr.net"; "pypi.org"; "files.pythonhosted.org"].

Definition workerd_declares_python (w : WorkerdRuntimeManifest) : bool :=
  ends_with ".py" (to_ascii_lowercase (w_main_module w))
  || existsb (λ f, text_eq f "python_workers") (w_compatibility_flags w).

Definition manifest_needs_python (m : PluginManifest) : bool :=
  bool_decide (m_runtime m = Workerd)
  && (match m_workerd m with Some w => workerd_declares_python w | None => false end
      || existsb (λ md, eq_ignore_ascii_case (mod_type md) "python"
                       || ends_with ".py" (to_ascii_lowercase (mod_name md))
                       || ends_with ".py" (to_ascii_lowercase (mod_path md))) (m_modules m)).

Definition with_python_runtime_hosts (needs_python : bool) (mode : NetworkMode)
    (base : list string) : list string :=
  if needs_python && bool_decide (mode = Outbound)
  then fold_left (λ domains host,
         if existsb (λ d, eq_ignore_ascii_case d host) domains then domains else domains ++ [host])
         PYODIDE_EGRESS_HOSTS base
  else base.

Definition consent_domains_for (m : PluginManifest) : checked (list string) :=
  match normalize_domain_list (net_domains (m_network m)) with
  | inl e => inl e
  | inr base => inr (with_python_runtime_hosts (manifest_needs_python m) (net_mode (m_network m)) base)
  end.

(** Exact or [*.suffix] match on normalized text. *)
Definition host_matches_normalized (host pattern : string) : bool :=
  match strip_prefix "*." pattern with
  | Some rest => text_eq host rest || ends_with ("." +:+ rest) host
  | None => text_eq host pattern
  end.

Definition host_matches (host pattern : string) : bool :=
  match normalize_hostname host, normalize_domain_pattern pattern with
  | Some host, Some pattern => host_matches_normalized host pattern
  | _, _ => false
  end.
End HostNames.
End Manifest.

Arguments EventConsumer : clear implicits.
Arguments PluginManifest : clear implicits.

(** ** Validation *)

(** A double quote, as the messages print it. *)
Definition dq : string := String (Ascii.ascii_of_N 34) "".
Definition quoted (s : string) : string := dq +:+ s +:+ dq.
Definition toml (message : string) : string := "plugin.toml: " +:+ message.

(** [for x in l { check(x)?; if !seen.insert(key(x)) { return Err(dup(x)) } }]. *)
Fixpoint for_unique {A} (check : A → option string) (key : A → string) (dup : A → string)
    (seen : list string) (l : list A) : option string :=
  match l with
  | [] => None
  | x :: l =>
      match check x with
      | Some e => Some e
      | None => if bool_decide (key x ∈ seen) then Some (dup x)
                else for_unique check key dup (key x :: seen) l
      end
  end.

(** [validate_plugin_id]. *)
Definition validate_plugin_id (id : string) : option string :=
  let named := "plugin id `" +:+ id +:+ "` " in
  first_error [
    complain (negb (text_eq id (trim id))) (named +:+ "must not have leading or trailing whitespace");
    complain ((str_len id <? 2) || (32 <? str_len id)) (named +:+ "must be 2–32 characters");
    complain (negb (all_indexed (λ _ c, is_lower c || is_digit c || is_char 95 c) 0 id))
      (named +:+ "must be lowercase ascii letters, digits, or `_`");
    complain (starts_with_underscore id || ends_with_underscore id || contains_double_underscore id)
      (named +:+ "must not start/end with `_` or contain `__`")].

(** ** Logos *)

Inductive LogoKind : Type :=
| RemoteUrl (url : string)
| EmbeddedPath (path : string).

Definition LOGO_EXTENSIONS : list string :=
  [".png"; ".jpg"; ".jpeg"; ".gif"; ".webp"; ".svg"; ".ico"].

Definition validate_parsed_url (parsed : Url) (original : string) : checked LogoKind :=
  if negb (text_eq (scheme parsed) "http" || text_eq (scheme parsed) "https")
  then inl (toml "`logo` URL must use http:// or https:// (got scheme `" +:+ scheme parsed +:+ "`)") else
  if negb (str_is_empty (username parsed)) || bool_decide (is_Some (password parsed))
  then inl (toml "`logo` URL must not include userinfo (user:pass@host)") else
  match host parsed with
  | None => inl (toml "`logo` URL is missing a host")
  | Some (Domain d) =>
      if str_is_empty d || text_eq d "." || text_eq d ".."
      then inl (toml "`logo` URL is missing a host") else inr (RemoteUrl original)
  | Some _ => inr (RemoteUrl original)
  end.

(** The segment loop: [.] and empty segments are dropped, [..] is refused. *)
Fixpoint logo_segments (segments : list string) : checked (list string) :=
  match segments with
  | [] => inr []
  | seg :: rest =>
      if str_is_empty seg || text_eq seg "." then logo_segments rest else
      if text_eq seg ".." then inl (toml "embedded `logo` must not contain `..` segments") else
      match logo_segments rest with inl e => inl e | inr l => inr (seg :: l) end
  end.

Definition drive_letter (path : string) : bool :=
  match path with String _ (String c _) => is_char 58 c | _ => false end.

Definition validate_embedded_path (s : string) : checked LogoKind :=
  let path := replace_char 92 (Ascii.ascii_of_N 47) s in
  if starts_with "/" path || starts_with "~" path
  then inl (toml "embedded `logo` must be a relative path under the plugin root") else
  if drive_letter path
  then inl (toml "embedded `logo` must be a relative path (no drive letter)") else
  if starts_with "//" path
  then inl (toml "embedded `logo` must be a relative path (no UNC)") else
  match logo_segments (split_char 47 path) with
  | inl e => inl e
  | inr [] => inl (toml "embedded `logo` path is empty after normalization")
  | inr segments =>
      let normalized := join "/" segments in
      if existsb (λ ext, ends_with ext (to_ascii_lowercase normalized)) LOGO_EXTENSIONS
      then inr (EmbeddedPath normalized)
      else inl (toml "embedded `logo` must end with one of " +:+ join ", " LOGO_EXTENSIONS)
  end.

Definition validate_logo `{UrlCrate} (raw : string) : checked LogoKind :=
  let trimmed := trim raw in
  if str_is_empty trimmed
  then inl (toml "`logo` must not be empty (omit the key instead)") else
  if contains_char 0 trimmed then inl (toml "`logo` must not contain NUL") else
  match url_parse trimmed with
  | Some parsed => validate_parsed_url parsed trimmed
  | None => validate_embedded_path trimmed
  end.

(** ** [PluginManifest::validate] *)

(** [[a-z][a-z0-9_]*]. *)
Definition is_snake_case_type (name : string) : bool :=
  negb (str_is_empty name)
  && all_indexed (λ j c, if (j =? 0)%nat then is_lower c
                         else is_lower c || is_digit c || is_char 95 c) 0 name.

Section Validate.
Context {Value : Type} {I : Idna} {X : UrlCrate}.
Implicit Types m : PluginManifest Value.

Definition validate_oidc_client (i : nat) (c : OidcClientToml) : option string :=
  let at_i := "oidc.clients[" +:+ pretty i +:+ "]." in
  first_error [
    complain (str_is_empty (trim (oidc_client_id c))) (toml (at_i +:+ "client_id is required"));
    complain (str_is_empty (trim (oidc_callback_path c)) || negb (starts_with "/" (oidc_callback_path c)))
      (toml (at_i +:+ "callback_path must start with `/`"));
    complain (str_is_empty (trim (oidc_origin_config_key c)))
      (toml (at_i +:+ "origin_config_key is required"))].

Definition validate_runtime m : option string :=
  match m_runtime m with
  | Native =>
      complain (match m_command m with None => true | Some c => str_is_empty c end)
        (toml ("`command` is required when runtime = " +:+ quoted "native"))
  | Workerd =>
      match m_workerd m with
      | None => Some (toml ("`[workerd]` / runtime.workerd is required when runtime = " +:+ quoted "workerd"))
      | Some w => first_error [
          complain (str_is_empty (trim (w_compatibility_date w)))
            (toml "workerd.compatibility_date is required");
          complain (str_is_empty (trim (w_main_module w))) (toml "workerd.main_module is required")]
      end
  end.

Definition validate_tcp (t : TcpCapability) : option string :=
  let at_host := "capabilities.network.tcp host `" +:+ tcp_host t +:+ "` " in
  first_error [
    complain (is_null (normalize_domain_pattern (tcp_host t))) (toml (at_host +:+ "is not a valid hostname"));
    complain (bool_decide (tcp_ports t = [])) (toml (at_host +:+ "must declare at least one port"))].

Definition validate_network m : option string :=
  let net := m_network m in
  first_error [
    complain (bool_decide (m_runtime m = Native) && negb (bool_decide (net_domains net = [])))
      (toml ("capabilities.network.domains is only valid for runtime = " +:+ quoted "workerd"
             +:+ " (native guests use capabilities.network.tcp for mediated connect(); omit domains)"));
    complain (bool_decide (m_runtime m = Workerd) && bool_decide (net_mode net = Outbound)
              && bool_decide (net_domains net = []))
      (toml ("capabilities.network.domains is required when runtime = " +:+ quoted "workerd"
             +:+ " and mode = " +:+ quoted "outbound"));
    for_all (λ d, complain (is_null (normalize_domain_pattern d))
      (toml ("capabilities.network.domains entry `" +:+ d
             +:+ "` is not a valid hostname (IDNA ToASCII failed or percent-encoded host)")))
      (net_domains net);
    for_all validate_tcp (net_tcp net);
    for_all (λ c, match CidrGrant_parse c with
                  | inr _ => None
                  | inl e => Some (toml ("capabilities.network.address_cidrs entry `" +:+ c +:+ "`: " +:+ e))
                  end) (net_address_cidrs net)].

(** The table and name of every binding that is not a database. *)
Definition named_bindings m : list (string * string) :=
  option_list ((λ b, ("secrets", name_or b DEFAULT_SECRETS_BINDING)) <$> m_secrets m)
  ++ option_list ((λ b, ("work_fs", name_or b DEFAULT_WORK_FS_BINDING)) <$> m_work_fs m)
  ++ option_list ((λ b, ("oauth", name_or b DEFAULT_OAUTH_BINDING)) <$> m_oauth m)
  ++ map (λ b, ("kv_namespaces", name_or b DEFAULT_KV_BINDING)) (m_kv_namespaces m)
  ++ map (λ p, ("events.producers", binding_name p)) (m_producers m).

Definition collides (tn : string * string) : string :=
  toml ("[" +:+ tn.1 +:+ "] binding `" +:+ tn.2 +:+ "` collides with another binding").

Definition validate_bindings m : option string :=
  let named := named_bindings m in
  first_error [
    complain (MAX_DATABASE_BINDINGS <? Z.of_nat (length (m_databases m)))
      (toml ("[[databases]] lists " +:+ pretty (length (m_databases m)) +:+ " bindings; max is "
             +:+ pretty MAX_DATABASE_BINDINGS));
    for_unique
      (λ name, complain (negb (is_valid_database_binding_name name))
         (toml ("[[databases]] binding `" +:+ name +:+ "` must be `[A-Z][A-Z0-9_]*` and at most "
                +:+ pretty MAX_DATABASE_BINDING_NAME_LEN +:+ " chars")))
      id (λ name, toml ("[[databases]] binding `" +:+ name +:+ "` is duplicated")) [] (m_databases m);
    for_all (λ tn, first_error [
      complain (negb (is_valid_database_binding_name tn.2))
        (toml ("[" +:+ tn.1 +:+ "] binding `" +:+ tn.2 +:+ "` must be `[A-Z][A-Z0-9_]*`"));
      complain (text_eq tn.2 CONFIG_BINDING || bool_decide (tn.2 ∈ m_databases m)) (collides tn)]) named;
    for_unique (λ _, None) snd collides (m_databases m)
      (List.filter (λ tn, negb (text_eq tn.1 "events.producers")) named)].

Definition validate_consumer (i : nat) (sub : EventConsumer Value) : option string :=
  let at_i := "events.consumers[" +:+ pretty i +:+ "]." in
  let class := trim (con_resource_class sub) in
  first_error [
    complain (str_is_empty (trim (con_event_type sub))) (toml (at_i +:+ "type is required"));
    complain (negb (is_snake_case_type (con_event_type sub)))
      (toml (at_i +:+ "type `" +:+ con_event_type sub +:+ "` must be snake_case `[a-z][a-z0-9_]*`"));
    complain (bool_decide (con_schema_versions sub = []))
      (toml (at_i +:+ "schema_versions must not be empty"));
    complain (negb (str_is_empty class) && negb (text_eq class "network"))
      (toml (at_i +:+ "resource_class `" +:+ class +:+ "` is not supported (only `network`)"))].

(** The loop over [(i, producer)] with its set of types seen. *)
Definition validate_producers (l : list EventProducer) : option string :=
  for_unique
    (λ ip : nat * EventProducer, complain (negb (is_snake_case_type (prod_event_type ip.2)))
       (toml ("events.producers[" +:+ pretty ip.1 +:+ "].type `" +:+ prod_event_type ip.2
              +:+ "` must be snake_case `[a-z][a-z0-9_]*`")))
    (λ ip, prod_event_type ip.2)
    (λ ip, toml ("events.producers[" +:+ pretty ip.1 +:+ "].type `" +:+ prod_event_type ip.2
                 +:+ "` is duplicated"))
    [] (imap pair l).

(** The first rule [validate] finds broken. *)
Definition validate m : option string :=
  first_error [
    complain (str_is_empty (trim (m_id m))) (toml "`id` is required");
    toml <$> validate_plugin_id (m_id m);
    complain (negb (m_api_version m =? PRODUCT_API_VERSION))
      (toml ("`api_version` must be " +:+ pretty PRODUCT_API_VERSION));
    match m_logo m with
    | None => None
    | Some logo => match validate_logo logo with inl e => Some e | inr _ => None end
    end;
    for_all_indexed validate_oidc_client (m_oidc m);
    validate_runtime m;
    validate_network m;
    complain (bool_decide (m_entrypoints m = []) && negb (consumes_events m) && negb (runs_jobs m))
      (toml "declare at least one of `entrypoints`, `[[events.consumers]]`, or `[triggers].jobs`");
    for_unique (λ _, None) wire_name
      (λ e, toml ("entrypoints entry `" +:+ wire_name e +:+ "` is duplicated")) [] (m_entrypoints m);
    complain (m_cli m && negb (has_entrypoint m EntryCli))
      (toml ("`[cli]` requires `" +:+ quoted "cli" +:+ "` in `entrypoints`"));
    complain (negb (bool_decide (m_oidc m = [])) && negb (has_entrypoint m EntryOidc))
      (toml ("`[[oidc.clients]]` requires `" +:+ quoted "oidc" +:+ "` in `entrypoints`"));
    validate_bindings m;
    for_all_indexed (λ i job, complain (negb (is_snake_case_type job))
      (toml ("triggers.jobs[" +:+ pretty i +:+ "] `" +:+ job +:+ "` must be snake_case `[a-z][a-z0-9_]*`")))
      (m_jobs m);
    for_all_indexed validate_consumer (m_consumers m);
    validate_producers (m_producers m)].
End Validate.
