(* ===== verification/Consent.v ===== *)
(** * Operator consent: [bookclerk-plugin-host/src/consent.rs]

    What a package requests ([consent_request]), what the operator approved ([PluginGrant]), and
    the authority a guest gets from both ([effective_grant]); the approval of a grant draft, the
    store of grants, what is still pending, and the check of a guest's own [describe()].
    [BTreeSet] members are kept in their order ([BTree]). *)

From stdpp Require Import base option list strings pretty.
From Stdlib Require Import ZArith Lia.
From S2P Require Import Prelude BTree Text Address EventModels EventOutbox Manifest.

Local Open Scope Z_scope.

Definition GRANT_SCHEMA_VERSION : Z := 2.
Definition PLUGIN_STATE_BUDGET_MIB_DEFAULT : Z := 512.
Definition PLUGIN_STATE_BUDGET_MIB_MAX : Z := 4096.
Definition PLUGIN_JAIL_MEMORY_MIB_DEFAULT : Z := 512.
Definition PLUGIN_JAIL_MEMORY_MIB_MAX : Z := 4096.
Definition PLUGIN_JAIL_CPU_RATE_DEFAULT : Z := 80.
Definition PLUGIN_JAIL_EXTRA_PROCESSES_DEFAULT : Z := 2.
Definition PLUGIN_JAIL_EXTRA_PROCESSES_MAX : Z := 62.
Definition PLUGIN_JAIL_ACTIVE_PROCESSES_MAX : Z := 64.
Definition WINDOWS_SESSION_PROCESS_BASELINE : Z := 5.
Definition KNOWN_HOST_BINDINGS : list string := ["config"; "secrets"; "plugin_kv"; "work_fs"; "oauth"].
Definition DATABASE_BINDING_PREFIX : string := "database:".
Definition DEFAULT_MAX_REDIRECTS : Z := 10.

(** [std::thread::available_parallelism]: the logical CPUs the host reports, if it can. *)
Class HostCpu := available_parallelism : option Z.

Definition host_logical_cpus `{HostCpu} : Z :=
  Z.max (default 1 ((λ n, n `mod` (u32_MAX + 1)) <$> available_parallelism)) 1.
Definition host_cpu_rate_max `{HostCpu} : Z := Z.min (host_logical_cpus * 100) u32_MAX.

(** The rest of [serde_json::Value] the consent code uses. *)
Class ValueText (Value : Type) := {
  value_is_null : Value → bool;
  value_to_string : Value → option string;
}.

(** ** Budgets *)

Definition clamp (lo hi n : Z) : Z := if n <? lo then lo else if hi <? n then hi else n.

Definition effective_disk_mib (value : option Z) : Z :=
  clamp 1 PLUGIN_STATE_BUDGET_MIB_MAX (default PLUGIN_STATE_BUDGET_MIB_DEFAULT value).
Definition effective_memory_mib (value : option Z) : Z :=
  clamp 1 PLUGIN_JAIL_MEMORY_MIB_MAX (default PLUGIN_JAIL_MEMORY_MIB_DEFAULT value).
Definition effective_cpu_rate_percent `{HostCpu} (value : option Z) : Z :=
  clamp 1 host_cpu_rate_max (default PLUGIN_JAIL_CPU_RATE_DEFAULT value).
Definition effective_extra_processes (value : option Z) : Z :=
  Z.min (default PLUGIN_JAIL_EXTRA_PROCESSES_DEFAULT value) PLUGIN_JAIL_EXTRA_PROCESSES_MAX.
Definition normalize_cpu_ms (value : option Z) : option Z :=
  (λ n, effective_cpu_ms (mk_WorkerdLimits (Some n) None)) <$> value.
Definition normalize_subrequests (value : option Z) : option Z :=
  (λ n, effective_subrequests (mk_WorkerdLimits None (Some n))) <$> value.

(** [GuestRuntimeKind::process_overhead] is the argument. *)
Definition active_processes_for (overhead extra : Z) : Z :=
  Z.min (u32_saturating_add overhead (Z.min extra PLUGIN_JAIL_EXTRA_PROCESSES_MAX))
    PLUGIN_JAIL_ACTIVE_PROCESSES_MAX.
Definition windows_session_active_processes (extra : Z) : Z :=
  Z.min (u32_saturating_add WINDOWS_SESSION_PROCESS_BASELINE
           (Z.min extra PLUGIN_JAIL_EXTRA_PROCESSES_MAX)) PLUGIN_JAIL_ACTIVE_PROCESSES_MAX.

(** ** Grants *)

(** [sort_unstable] and [dedup]. *)
Fixpoint dedup_adjacent (l : list Z) : list Z :=
  match l with
  | x :: ((y :: _) as l') => if x =? y then dedup_adjacent l' else x :: dedup_adjacent l'
  | _ => l
  end.
Definition sort_dedup (l : list Z) : list Z := dedup_adjacent (order_by Z.leb l).

Record GrantedEventConsumer : Type := mk_GrantedEventConsumer {
  gc_event_type : string;
  gc_schema_versions : list Z;
  gc_supports_suspend : bool;
  gc_filter : option string;
}.
#[global] Instance GrantedEventConsumer_eq_dec : EqDecision GrantedEventConsumer.
Proof. solve_decision. Defined.

Definition consumer_fields (c : GrantedEventConsumer) :=
  (gc_event_type c, (gc_schema_versions c, (gc_supports_suspend c, gc_filter c))).
#[global] Instance consumer_ord : Ord GrantedEventConsumer := ord_by consumer_fields.

Record TcpGrant : Type := mk_TcpGrant { tg_host : string; tg_ports : list Z }.
#[global] Instance TcpGrant_eq_dec : EqDecision TcpGrant.
Proof. solve_decision. Defined.
Definition tcp_fields (t : TcpGrant) := (tg_host t, tg_ports t).
#[global] Instance tcp_ord : Ord TcpGrant := ord_by tcp_fields.

Record PluginGrant : Type := mk_PluginGrant {
  schema_version : Z;
  plugin_key : string;
  plugin_id : string;
  entrypoints : list string;
  producers : list string;
  consumers : list GrantedEventConsumer;
  jobs : list string;
  network_mode : string;
  domains : list string;
  manifest_domains : list string;
  operator_added_domains : list string;
  operator_denied_domains : list string;
  tcp : list TcpGrant;
  manifest_tcp : list TcpGrant;
  operator_added_tcp : list TcpGrant;
  operator_denied_tcp : list TcpGrant;
  address_cidrs : list string;
  manifest_cidrs : list string;
  operator_added_cidrs : list string;
  operator_denied_cidrs : list string;
  allow_undeclared_public_redirects : bool;
  operator_allow_undeclared_public_redirects : option bool;
  grant_bindings : list string;
  compatibility_flags : list string;
  grant_cpu_ms : option Z;
  grant_subrequests : option Z;
  disk_mib : option Z;
  memory_mib : option Z;
  cpu_rate_percent : option Z;
  extra_processes : option Z;
  approved_at : string;
}.

(** [GrantedEventConsumer::covers] and [intersect]. *)
Definition covers (self requested : GrantedEventConsumer) : bool :=
  text_eq (gc_event_type self) (gc_event_type requested)
  && forallb (λ v, bool_decide (v ∈ gc_schema_versions self)) (gc_schema_versions requested)
  && (negb (gc_supports_suspend requested) || gc_supports_suspend self)
  && bool_decide (gc_filter self = gc_filter requested).

Definition intersect (self requested : GrantedEventConsumer) : option GrantedEventConsumer :=
  if negb (text_eq (gc_event_type self) (gc_event_type requested))
     || negb (bool_decide (gc_filter self = gc_filter requested)) then None else
  let versions := List.filter (λ v, bool_decide (v ∈ gc_schema_versions self))
                    (gc_schema_versions requested) in
  if bool_decide (versions = []) && negb (bool_decide (gc_schema_versions requested = []))
  then None
  else Some (mk_GrantedEventConsumer (gc_event_type self) versions
               (gc_supports_suspend self && gc_supports_suspend requested) (gc_filter self)).

Definition consumers_cover (existing requested : list GrantedEventConsumer) : bool :=
  forallb (λ req, existsb (λ got, covers got req) existing) requested.

(** The consumer [intersect_consumers] picks for a request. *)
Definition same_subscription (req got : GrantedEventConsumer) : bool :=
  text_eq (gc_event_type got) (gc_event_type req) && bool_decide (gc_filter got = gc_filter req).

Definition intersect_consumers (existing requested : list GrantedEventConsumer)
    : list GrantedEventConsumer :=
  BTreeSet.collect (omap (λ req,
    List.find (same_subscription req) existing ≫= λ got, intersect got req) requested).

Definition allows_event_consumer (g : PluginGrant) (event_type : string) (version : Z) : bool :=
  existsb (λ c, text_eq (gc_event_type c) event_type && bool_decide (version ∈ gc_schema_versions c))
    (consumers g).
Definition allows_job (g : PluginGrant) (job_type : string) : bool :=
  existsb (λ j, text_eq j job_type) (jobs g).

(** ** Compatibility and pending requests *)

Definition network_compatible (existing requested : string) : bool :=
  eq_ignore_ascii_case existing requested
  || eq_ignore_ascii_case existing "deny" && eq_ignore_ascii_case requested "outbound".

Definition grant_within_ceiling (existing requested : PluginGrant) : bool :=
  network_compatible (network_mode existing) (network_mode requested)
  && BTreeSet.is_subset (domains existing) (domains requested)
  && BTreeSet.is_subset (grant_bindings existing) (grant_bindings requested)
  && BTreeSet.is_subset (compatibility_flags existing) (compatibility_flags requested)
  && consumers_cover (consumers requested) (consumers existing)
  && BTreeSet.is_subset (jobs existing) (jobs requested)
  && BTreeSet.is_subset (entrypoints existing) (entrypoints requested)
  && BTreeSet.is_subset (producers existing) (producers requested).

Definition grant_covers (existing requested : PluginGrant) : bool :=
  if negb (str_is_empty (plugin_key existing)) || negb (str_is_empty (plugin_key requested))
  then text_eq (plugin_key existing) (plugin_key requested)
  else text_eq (plugin_id existing) (plugin_id requested).

Record PendingStructural : Type := mk_PendingStructural {
  pend_entrypoints : list string;
  pend_producers : list string;
  pend_consumers : list GrantedEventConsumer;
  pend_jobs : list string;
  pend_bindings : list string;
  pend_compatibility_flags : list string;
}.

Definition pending_structural (existing requested : PluginGrant) : PendingStructural :=
  {| pend_entrypoints := BTreeSet.difference (entrypoints requested) (entrypoints existing);
     pend_producers := BTreeSet.difference (producers requested) (producers existing);
     pend_consumers := List.filter (λ req, negb (existsb (λ got, covers got req) (consumers existing)))
                         (consumers requested);
     pend_jobs := BTreeSet.difference (jobs requested) (jobs existing);
     pend_bindings := BTreeSet.difference (grant_bindings requested) (grant_bindings existing);
     pend_compatibility_flags :=
       BTreeSet.difference (compatibility_flags requested) (compatibility_flags existing) |}.

Definition pending_is_empty (p : PendingStructural) : bool :=
  bool_decide (pend_entrypoints p = []) && bool_decide (pend_producers p = [])
  && bool_decide (pend_consumers p = []) && bool_decide (pend_jobs p = [])
  && bool_decide (pend_bindings p = []) && bool_decide (pend_compatibility_flags p = []).

(** ** Network merging *)

(** The manifest's own domains in a request. *)
Definition manifest_domains_of (requested : PluginGrant) : list string :=
  if bool_decide (manifest_domains requested = []) then domains requested else manifest_domains requested.

(** [classified_operator_network], [_tcp] and [_cidrs]: the stored additions and denials, or, when
    both are empty, the stored set against the manifest. *)
Definition classified {A} `{EqDecision A} (added denied stored manifest : list A) : list A * list A :=
  if negb (bool_decide (added = [])) || negb (bool_decide (denied = [])) then (added, denied)
  else (BTreeSet.difference stored manifest, denied).

(** The manifest, extended by the additions, without the denials. *)
Definition merged {A} `{EqDecision A, Ord A} (manifest : list A) (ad : list A * list A) : list A :=
  fold_left (λ l d, BTreeSet.remove d l) ad.2 (BTreeSet.extend manifest ad.1).

Definition classified_operator_network (existing requested : PluginGrant) : list string * list string :=
  classified (operator_added_domains existing) (operator_denied_domains existing) (domains existing)
    (manifest_domains_of requested).
Definition merge_network_domains (existing requested : PluginGrant) : list string :=
  merged (manifest_domains_of requested) (classified_operator_network existing requested).

Definition classified_operator_tcp (existing requested : PluginGrant) : list TcpGrant * list TcpGrant :=
  classified (operator_added_tcp existing) (operator_denied_tcp existing) (tcp existing)
    (manifest_tcp requested).
Definition merge_operator_tcp (existing requested : PluginGrant) : list TcpGrant :=
  (classified_operator_tcp existing requested).1.
Definition merge_tcp (existing requested : PluginGrant) : list TcpGrant :=
  merged (manifest_tcp requested) (classified_operator_tcp existing requested).

Definition classified_operator_cidrs (existing requested : PluginGrant) : list string * list string :=
  classified (operator_added_cidrs existing) (operator_denied_cidrs existing) (address_cidrs existing)
    (manifest_cidrs requested).
Definition merge_cidrs (existing requested : PluginGrant) : list string :=
  merged (manifest_cidrs requested) (classified_operator_cidrs existing requested).

(** ** The effective grant *)

Definition or_empty (a b : string) : string := if str_is_empty a then b else a.

Section Host.
Context {H : HostCpu}.

Definition effective_grant (existing requested : PluginGrant) : PluginGrant :=
  let net := classified_operator_network existing requested in
  let cidrs := classified_operator_cidrs existing requested in
  {| schema_version := schema_version existing;
     plugin_key := or_empty (plugin_key existing) (plugin_key requested);
     plugin_id := or_empty (plugin_id existing) (plugin_id requested);
     entrypoints := BTreeSet.intersection (entrypoints existing) (entrypoints requested);
     producers := BTreeSet.intersection (producers existing) (producers requested);
     consumers := intersect_consumers (consumers existing) (consumers requested);
     jobs := BTreeSet.intersection (jobs existing) (jobs requested);
     network_mode := or_empty (network_mode existing) (network_mode requested);
     domains := merge_network_domains existing requested;
     manifest_domains := manifest_domains_of requested;
     operator_added_domains := net.1;
     operator_denied_domains := net.2;
     tcp := merge_tcp existing requested;
     manifest_tcp := manifest_tcp requested;
     operator_added_tcp := merge_operator_tcp existing requested;
     operator_denied_tcp := (classified_operator_tcp existing requested).2;
     address_cidrs := merge_cidrs existing requested;
     manifest_cidrs := manifest_cidrs requested;
     operator_added_cidrs := cidrs.1;
     operator_denied_cidrs := cidrs.2;
     allow_undeclared_public_redirects :=
       default (allow_undeclared_public_redirects requested)
         (operator_allow_undeclared_public_redirects existing);
     operator_allow_undeclared_public_redirects := operator_allow_undeclared_public_redirects existing;
     grant_bindings := BTreeSet.intersection (grant_bindings existing) (grant_bindings requested);
     compatibility_flags :=
       BTreeSet.intersection (compatibility_flags existing) (compatibility_flags requested);
     grant_cpu_ms := normalize_cpu_ms (grant_cpu_ms existing);
     grant_subrequests := normalize_subrequests (grant_subrequests existing);
     disk_mib := Some (effective_disk_mib (disk_mib existing));
     memory_mib := Some (effective_memory_mib (memory_mib existing));
     cpu_rate_percent := (λ v, effective_cpu_rate_percent (Some v)) <$> cpu_rate_percent existing;
     extra_processes := (λ v, effective_extra_processes (Some v)) <$> extra_processes existing;
     approved_at := approved_at existing |}.
End Host.

(** ** Approval of a grant draft *)

Definition database_binding_name (binding : string) : option string :=
  strip_prefix DATABASE_BINDING_PREFIX binding.

Definition granted_database_bindings (g : PluginGrant) : list string :=
  omap database_binding_name (grant_bindings g).

(** The host binding a name means, whatever its case. *)
Definition known_host_binding (binding : string) : option string :=
  List.find (eq_ignore_ascii_case binding) KNOWN_HOST_BINDINGS.

Definition check_binding (baseline : PluginGrant) (binding : string) : option string :=
  match database_binding_name binding with
  | Some name => first_error [
      complain (negb (is_valid_database_binding_name name))
        ("invalid database binding name `" +:+ name +:+ "` (expected [A-Z][A-Z0-9_]*)");
      complain (negb (BTreeSet.contains binding (grant_bindings baseline)))
        ("grant database binding `" +:+ binding +:+ "` is not declared by plugin.toml")]
  | None =>
      match known_host_binding binding with
      | None => Some ("unknown host binding `" +:+ binding +:+ "`")
      | Some known =>
          complain (negb (existsb (λ b, eq_ignore_ascii_case b known || text_eq b binding)
                            (grant_bindings baseline)))
            ("grant binding `" +:+ binding +:+ "` is not declared by plugin.toml (structural authority)")
      end
  end.

(** [approved.difference(baseline).next()]. *)
Definition undeclared (what tail : string) (approved baseline : list string) : option string :=
  match BTreeSet.difference approved baseline with
  | [] => None
  | extra :: _ => Some ("grant " +:+ what +:+ " `" +:+ extra +:+ "` is not declared by plugin.toml" +:+ tail)
  end.

Definition canonical_binding (b : string) : string :=
  match database_binding_name b with
  | Some _ => b
  | None => default (to_ascii_lowercase b) (known_host_binding b)
  end.

Section Approve.
Context {H : HostCpu} {I : Idna}.

Fixpoint normalize_domains (out raws : list string) : checked (list string) :=
  match raws with
  | [] => inr out
  | raw :: raws =>
      match normalize_domain_pattern raw with
      | None => inl ("invalid domain pattern `" +:+ raw +:+ "`")
      | Some n => normalize_domains (BTreeSet.insert n out) raws
      end
  end.

Definition approved_network_mode (approved baseline : PluginGrant) : string :=
  or_empty (network_mode approved) (network_mode baseline).

Definition check_approved (approved baseline : PluginGrant) : option string :=
  let mode := approved_network_mode approved baseline in
  first_error [
    complain (negb (str_is_empty (plugin_id approved)) && negb (text_eq (plugin_id approved) (plugin_id baseline)))
      ("grant plugin id `" +:+ plugin_id approved +:+ "` does not match `" +:+ plugin_id baseline +:+ "`");
    undeclared "entrypoint" "" (entrypoints approved) (entrypoints baseline);
    undeclared "event producer" "" (producers approved) (producers baseline);
    complain (negb (consumers_cover (consumers baseline) (consumers approved)))
      "grant event consumer is not declared by plugin.toml (structural authority)";
    undeclared "job trigger" " (structural authority)" (jobs approved) (jobs baseline);
    complain (negb (eq_ignore_ascii_case mode "deny") && negb (eq_ignore_ascii_case mode "outbound"))
      ("invalid network mode `" +:+ mode +:+ "` (expected deny or outbound)");
    for_all (check_binding baseline) (grant_bindings approved);
    undeclared "compatibility flag" " (structural authority)" (compatibility_flags approved)
      (compatibility_flags baseline)].

Definition or_else {A} (a b : option A) : option A := match a with Some _ => a | None => b end.

(** The grant that is stored, once the draft passed the checks and its domains normalized. *)
Definition approved_grant (approved baseline : PluginGrant) (doms : list string) (now : string)
    : PluginGrant :=
  {| schema_version := GRANT_SCHEMA_VERSION;
     plugin_key := plugin_key baseline;
     plugin_id := plugin_id baseline;
     entrypoints := entrypoints approved;
     producers := producers approved;
     consumers := consumers approved;
     jobs := jobs approved;
     network_mode := to_ascii_lowercase (approved_network_mode approved baseline);
     domains := doms;
     manifest_domains := domains baseline;
     operator_added_domains := BTreeSet.difference doms (domains baseline);
     operator_denied_domains := BTreeSet.difference (domains baseline) doms;
     tcp := tcp approved;
     manifest_tcp := manifest_tcp baseline;
     operator_added_tcp := BTreeSet.difference (tcp approved) (manifest_tcp baseline);
     operator_denied_tcp := BTreeSet.difference (manifest_tcp baseline) (tcp approved);
     address_cidrs := address_cidrs approved;
     manifest_cidrs := manifest_cidrs baseline;
     operator_added_cidrs := BTreeSet.difference (address_cidrs approved) (manifest_cidrs baseline);
     operator_denied_cidrs := BTreeSet.difference (manifest_cidrs baseline) (address_cidrs approved);
     allow_undeclared_public_redirects := allow_undeclared_public_redirects approved;
     operator_allow_undeclared_public_redirects :=
       if negb (Bool.eqb (allow_undeclared_public_redirects approved)
                  (allow_undeclared_public_redirects baseline))
       then Some (allow_undeclared_public_redirects approved)
       else operator_allow_undeclared_public_redirects approved;
     grant_bindings := BTreeSet.collect (map canonical_binding (grant_bindings approved));
     compatibility_flags :=
       BTreeSet.collect (List.filter (λ f, negb (str_is_empty f)) (map trim (compatibility_flags approved)));
     grant_cpu_ms := normalize_cpu_ms (or_else (grant_cpu_ms approved) (grant_cpu_ms baseline));
     grant_subrequests :=
       normalize_subrequests (or_else (grant_subrequests approved) (grant_subrequests baseline));
     disk_mib := Some (effective_disk_mib (or_else (disk_mib approved) (disk_mib baseline)));
     memory_mib := Some (effective_memory_mib (or_else (memory_mib approved) (memory_mib baseline)));
     cpu_rate_percent := (λ v, effective_cpu_rate_percent (Some v)) <$>
       or_else (cpu_rate_percent approved) (cpu_rate_percent baseline);
     extra_processes := (λ v, effective_extra_processes (Some v)) <$>
       or_else (extra_processes approved) (extra_processes baseline);
     approved_at := now |}.

Definition validate_approved_grant (approved baseline : PluginGrant) (now : string)
    : checked PluginGrant :=
  match check_approved approved baseline with
  | Some e => inl e
  | None =>
      match normalize_domains [] (domains approved) with
      | inl e => inl e
      | inr doms => inr (approved_grant approved baseline doms now)
      end
  end.
End Approve.

(** ** The request of a manifest *)

Section Request.
Context {H : HostCpu} {I : Idna} {Value : Type} {VT : ValueText Value}.

Definition canonical_event_filter (filter : option Value) : option string :=
  filter ≫= λ value, if value_is_null value then None else value_to_string value.

Definition GrantedEventConsumer_from_manifest (c : EventConsumer Value) : GrantedEventConsumer :=
  mk_GrantedEventConsumer (con_event_type c) (sort_dedup (con_schema_versions c))
    (con_supports_suspend c) (canonical_event_filter (con_filter c)).

Definition granted_consumers_from_manifest (m : PluginManifest Value) : list GrantedEventConsumer :=
  BTreeSet.collect (map GrantedEventConsumer_from_manifest (m_consumers m)).

Definition granted_jobs_from_manifest (m : PluginManifest Value) : list string :=
  BTreeSet.collect (m_jobs m).

Definition requested_bindings (m : PluginManifest Value) : list string :=
  let b := bindings m in
  BTreeSet.collect (
    (if b_config b then ["config"] else []) ++ (if b_secrets b then ["secrets"] else [])
    ++ (if b_plugin_kv b then ["plugin_kv"] else []) ++ (if b_work_fs b then ["work_fs"] else [])
    ++ (if b_oauth b then ["oauth"] else [])
    ++ map (λ name, DATABASE_BINDING_PREFIX +:+ name) (b_databases b)).

Definition requested_domains (m : PluginManifest Value) : list string :=
  BTreeSet.collect (match consent_domains_for m with
    | inr l => l
    | inl _ => omap normalize_domain_pattern (net_domains (m_network m))
    end).

Definition requested_tcp (m : PluginManifest Value) : list TcpGrant :=
  BTreeSet.collect (omap (λ t,
    (λ host, mk_TcpGrant host (sort_dedup (tcp_ports t))) <$> normalize_domain_pattern (tcp_host t))
    (net_tcp (m_network m))).

Definition requested_cidrs (m : PluginManifest Value) : list string :=
  BTreeSet.collect (omap (λ raw,
    match CidrGrant_parse raw with inr g => Some (show_cidr g) | inl _ => None end)
    (net_address_cidrs (m_network m))).

(** [consent_request]; [now] is the time of the call. *)
Definition consent_request (m : PluginManifest Value) (key now : string) : PluginGrant :=
  let workerd := bool_decide (m_runtime m = Workerd) in
  let limits := default (mk_WorkerdLimits None None) (w_limits <$> m_workerd m) in
  let net := m_network m in
  {| schema_version := GRANT_SCHEMA_VERSION;
     plugin_key := key;
     plugin_id := m_id m;
     entrypoints := BTreeSet.collect (map wire_name (m_entrypoints m));
     producers := BTreeSet.collect (producer_types m);
     consumers := granted_consumers_from_manifest m;
     jobs := granted_jobs_from_manifest m;
     network_mode := match net_mode net with Deny => "deny" | Outbound => "outbound" end;
     domains := requested_domains m;
     manifest_domains := requested_domains m;
     operator_added_domains := [];
     operator_denied_domains := [];
     tcp := requested_tcp m;
     manifest_tcp := requested_tcp m;
     operator_added_tcp := [];
     operator_denied_tcp := [];
     address_cidrs := requested_cidrs m;
     manifest_cidrs := requested_cidrs m;
     operator_added_cidrs := [];
     operator_denied_cidrs := [];
     allow_undeclared_public_redirects := net_allow_undeclared_public_redirects net;
     operator_allow_undeclared_public_redirects := None;
     grant_bindings := requested_bindings m;
     compatibility_flags :=
       default [] ((λ w, BTreeSet.collect (w_compatibility_flags w)) <$> m_workerd m);
     grant_cpu_ms := if workerd then Some (effective_cpu_ms limits) else None;
     grant_subrequests := if workerd then Some (effective_subrequests limits) else None;
     disk_mib := Some PLUGIN_STATE_BUDGET_MIB_DEFAULT;
     memory_mib := Some PLUGIN_JAIL_MEMORY_MIB_DEFAULT;
     cpu_rate_percent := if workerd then None else Some PLUGIN_JAIL_CPU_RATE_DEFAULT;
     extra_processes := if workerd then None else Some PLUGIN_JAIL_EXTRA_PROCESSES_DEFAULT;
     approved_at := now |}.

(** ** The guest's own description *)

Definition grant_has_binding (g : PluginGrant) (name : string) : bool :=
  existsb (λ b, eq_ignore_ascii_case b name) (grant_bindings g).

Definition require_binding (g : PluginGrant) (name : string) : option string :=
  complain (negb (grant_has_binding g name))
    ("plugin `" +:+ plugin_id g +:+ "` grant lacks binding `" +:+ name
     +:+ "`; re-approve with `bookclerk plugins approve " +:+ plugin_id g +:+ "`").

Definition names_binding (b : option NamedBinding) (dflt env_name : string) : bool :=
  match b with Some b => text_eq env_name (name_or b dflt) | None => false end.

Definition grant_binding_for_described (m : PluginManifest Value) (env_name : string) : option string :=
  if text_eq env_name CONFIG_BINDING then Some "config" else
  if names_binding (m_secrets m) DEFAULT_SECRETS_BINDING env_name then Some "secrets" else
  if names_binding (m_work_fs m) DEFAULT_WORK_FS_BINDING env_name then Some "work_fs" else
  if names_binding (m_oauth m) DEFAULT_OAUTH_BINDING env_name then Some "oauth" else
  if existsb (λ kv, text_eq env_name (name_or kv DEFAULT_KV_BINDING)) (m_kv_namespaces m)
  then Some "plugin_kv" else None.

Inductive PortalAuthMode : Type := Unspecified | Password | Oauth.
#[global] Instance PortalAuthMode_eq_dec : EqDecision PortalAuthMode.
Proof. solve_decision. Defined.

Section Described.
Context (m : PluginManifest Value) (g : PluginGrant).
Let reapprove : string := "; re-approve with `bookclerk plugins approve " +:+ m_id m +:+ "`".
Let plugin : string := "plugin `" +:+ m_id m +:+ "` ".

Definition check_entrypoint (e : Entrypoint) : option string :=
  first_error [
    complain (negb (bool_decide (e ∈ cap_entrypoints (capabilities m))))
      (plugin +:+ "describe() exports entrypoint `" +:+ wire_name e +:+ "` not declared in plugin.toml");
    complain (negb (BTreeSet.contains (wire_name e) (entrypoints g)))
      (plugin +:+ "grant lacks entrypoint `" +:+ wire_name e +:+ "`" +:+ reapprove)].

(** The manifest row of an event type, and whether a subscription stays within it. *)
Definition check_consumer (c : EventConsumerSpec) : option string :=
  let event := "`" +:+ spec_event_type c +:+ "`" in
  match List.find (λ d, text_eq (spec_event_type d) (spec_event_type c)) (cap_consumes (capabilities m)) with
  | None => Some (plugin +:+ "describe() consumes event " +:+ event +:+ " not declared in plugin.toml")
  | Some d => first_error [
      complain (existsb (λ v, negb (bool_decide (v ∈ spec_schema_versions d))) (spec_schema_versions c)
                || spec_supports_suspend c && negb (spec_supports_suspend d))
        (plugin +:+ "describe() widens event consumer " +:+ event +:+ " beyond plugin.toml");
      complain (negb (existsb (λ gc, text_eq (gc_event_type gc) (spec_event_type c)
                        && forallb (λ v, bool_decide (v ∈ gc_schema_versions gc)) (spec_schema_versions c)
                        && (negb (spec_supports_suspend c) || gc_supports_suspend gc)) (consumers g)))
        (plugin +:+ "grant lacks event consumer " +:+ event +:+ reapprove)]
  end.

Definition check_listed (claims lacks : string) (declared granted : list string) (x : string) : option string :=
  first_error [
    complain (negb (bool_decide (x ∈ declared)))
      (plugin +:+ "describe() " +:+ claims +:+ " `" +:+ x +:+ "` not declared in plugin.toml");
    complain (negb (BTreeSet.contains x granted))
      (plugin +:+ "grant lacks " +:+ lacks +:+ " `" +:+ x +:+ "`" +:+ reapprove)].

Definition check_database (name : string) : option string :=
  first_error [
    complain (negb (bool_decide (name ∈ cap_databases (capabilities m))))
      (plugin +:+ "describe() binds database `" +:+ name +:+ "` not declared in plugin.toml");
    require_binding g (DATABASE_BINDING_PREFIX +:+ name)].

Definition check_env_binding (name : string) : option string :=
  first_error [
    complain (negb (bool_decide (name ∈ cap_bindings (capabilities m))))
      (plugin +:+ "describe() expects binding `" +:+ name +:+ "` not declared in plugin.toml");
    grant_binding_for_described m name ≫= require_binding g].

Definition validate_described_capabilities (described : PluginCapabilities) (mode : PortalAuthMode)
    : option string :=
  first_error [
    for_all check_entrypoint (cap_entrypoints described);
    for_all check_consumer (cap_consumes described);
    for_all (check_listed "produces event" "event producer" (cap_produces (capabilities m)) (producers g))
      (cap_produces described);
    for_all (check_listed "runs job" "job trigger" (cap_jobs (capabilities m)) (jobs g)) (cap_jobs described);
    for_all check_database (cap_databases described);
    for_all check_env_binding (cap_bindings described);
    if bool_decide (mode = Oauth) then first_error [
      complain (negb (b_oauth (bindings m)))
        (plugin +:+ "describe() advertises OAuth without `[oauth]` in plugin.toml");
      require_binding g "oauth"]
    else None].
End Described.
End Request.

(** ** The grant store *)

(** [PluginGrantStore]: its grants. *)
Definition PluginGrantStore : Type := list PluginGrant.

Definition get_by_plugin_key (store : PluginGrantStore) (key : string) : option PluginGrant :=
  if str_is_empty key then None
  else List.find (λ g, negb (str_is_empty (plugin_key g)) && text_eq (plugin_key g) key) store.

Definition store_get (store : PluginGrantStore) (key : string) : option PluginGrant :=
  match get_by_plugin_key store key with
  | Some g => Some g
  | None =>
      match List.filter (λ g, text_eq (plugin_id g) key) store with
      | [one] => Some one
      | _ => None
      end
  end.

(** The row an incoming grant replaces. *)
Definition same_slot (grant g : PluginGrant) : bool :=
  if str_is_empty (plugin_key grant)
  then str_is_empty (plugin_key g) && text_eq (plugin_id g) (plugin_id grant)
  else text_eq (plugin_key g) (plugin_key grant).

(** The rows after [upsert]: the first match replaced, or the grant pushed. *)
Fixpoint upsert_rows (grant : PluginGrant) (store : PluginGrantStore) : PluginGrantStore :=
  match store with
  | [] => [grant]
  | g :: store => if same_slot grant g then grant :: store else g :: upsert_rows grant store
  end.

(** A platform request within the installer envelope. *)
Definition is_safe_platform_request (g : PluginGrant) : bool :=
  text_eq (network_mode g) "deny" && bool_decide (domains g = []) && bool_decide (tcp g = [])
  && bool_decide (address_cidrs g = []) && negb (allow_undeclared_public_redirects g)
  && bool_decide (compatibility_flags g = [])
  && forallb (λ b, text_eq b "config" || text_eq b "work_fs") (grant_bindings g).

(** ** Approval over HTTP: [build_approved_grant] of [bookclerkd/src/api.rs] *)

(** [PluginGrantOverride]; [ov_cpu_percent] is the CPU override after its floating-point
    conversion [cores_to_percent(effective_cpu_cores(..))]. *)
Record PluginGrantOverride : Type := mk_PluginGrantOverride {
  ov_network_mode : option string;
  ov_domains : option (list string);
  ov_tcp : option (list TcpGrant);
  ov_address_cidrs : option (list string);
  ov_allow_undeclared_public_redirects : option bool;
  ov_bindings : option (list string);
  ov_compatibility_flags : option (list string);
  ov_cpu_ms : option Z;
  ov_subrequests : option Z;
  ov_disk_mib : option Z;
  ov_memory_mib : option Z;
  ov_cpu_percent : option Z;
  ov_extra_processes : option Z;
}.

Definition vec_to_set (values : list string) : list string :=
  BTreeSet.collect (List.filter (λ v, negb (str_is_empty v)) (map trim values)).

(** The request with the operator's fields in place of its own. *)
Definition overridden (base : PluginGrant) (ov : PluginGrantOverride) : PluginGrant :=
  {| schema_version := schema_version base;
     plugin_key := plugin_key base;
     plugin_id := plugin_id base;
     entrypoints := entrypoints base;
     producers := producers base;
     consumers := consumers base;
     jobs := jobs base;
     network_mode := default (network_mode base) (ov_network_mode ov);
     domains := default (domains base) (vec_to_set <$> ov_domains ov);
     manifest_domains := manifest_domains base;
     operator_added_domains := operator_added_domains base;
     operator_denied_domains := operator_denied_domains base;
     tcp := default (tcp base) (BTreeSet.collect <$> ov_tcp ov);
     manifest_tcp := manifest_tcp base;
     operator_added_tcp := operator_added_tcp base;
     operator_denied_tcp := operator_denied_tcp base;
     address_cidrs := default (address_cidrs base) (vec_to_set <$> ov_address_cidrs ov);
     manifest_cidrs := manifest_cidrs base;
     operator_added_cidrs := operator_added_cidrs base;
     operator_denied_cidrs := operator_denied_cidrs base;
     allow_undeclared_public_redirects :=
       default (allow_undeclared_public_redirects base) (ov_allow_undeclared_public_redirects ov);
     operator_allow_undeclared_public_redirects :=
       or_else (ov_allow_undeclared_public_redirects ov) (operator_allow_undeclared_public_redirects base);
     grant_bindings := default (grant_bindings base) (vec_to_set <$> ov_bindings ov);
     compatibility_flags := default (compatibility_flags base) (vec_to_set <$> ov_compatibility_flags ov);
     grant_cpu_ms := or_else (ov_cpu_ms ov) (grant_cpu_ms base);
     grant_subrequests := or_else (ov_subrequests ov) (grant_subrequests base);
     disk_mib := or_else (ov_disk_mib ov) (disk_mib base);
     memory_mib := or_else (ov_memory_mib ov) (memory_mib base);
     cpu_rate_percent := or_else (Z.max 1 <$> ov_cpu_percent ov) (cpu_rate_percent base);
     extra_processes := or_else (ov_extra_processes ov) (extra_processes base);
     approved_at := approved_at base |}.

Definition build_approved_grant `{HostCpu, Idna} (baseline : PluginGrant)
    (grant_override : option PluginGrantOverride) (now : string) : checked PluginGrant :=
  match grant_override with
  | None => inr baseline
  | Some ov => validate_approved_grant (overridden baseline ov) baseline now
  end.
