(* ===== verification/ConsentSpec.v ===== *)
(** * What operator consent guarantees

    The effective grant never exceeds the stored one nor the package's request, denials outlive
    upgrades, every request is granted or pending, and a draft cannot invent a capability. *)

From stdpp Require Import base option list strings pretty sets.
From Stdlib Require Import ZArith Lia.
From S2P Require Import Prelude BTree Text Address EventModels EventOutbox Manifest Consent.

Local Open Scope Z_scope.

(** ** Orders and checks *)

#[global] Instance consumer_fields_inj : Inj (=) (=) consumer_fields.
Proof. intros [] []. unfold consumer_fields. simpl. by intros [= -> -> -> ->]. Qed.
#[global] Instance consumer_laws : OrdLaws GrantedEventConsumer.
Proof. apply ord_by_laws, _. Qed.
#[global] Instance tcp_fields_inj : Inj (=) (=) tcp_fields.
Proof. intros [] []. unfold tcp_fields. simpl. by intros [= -> ->]. Qed.
#[global] Instance tcp_laws : OrdLaws TcpGrant.
Proof. apply ord_by_laws, _. Qed.

Lemma first_error_None checks : first_error checks = None ↔ Forall (λ c, c = None) checks.
Proof.
  induction checks as [|[e|] checks IH]; simpl; [done|..].
  - split; [done|]. by intros [? _]%Forall_cons.
  - rewrite IH, Forall_cons. tauto.
Qed.

Lemma complain_None b e : complain b e = None ↔ b = false.
Proof. by destruct b. Qed.

Lemma for_all_None {A} (body : A → option string) l :
  for_all body l = None ↔ ∀ x, x ∈ l → body x = None.
Proof.
  unfold for_all. rewrite first_error_None, Forall_forall. split.
  - intros H x Hx. apply H. by apply list_elem_of_fmap_2.
  - intros H y (x & -> & Hx)%list_elem_of_fmap. auto.
Qed.

(** Unpacks a list of checks that all passed. *)
Ltac checks_passed H :=
  apply first_error_None in H; repeat (apply Forall_cons in H as [? H]); clear H;
  repeat match goal with
    | E : complain _ _ = None |- _ => apply complain_None in E
    | E : for_all _ _ = None |- _ => rewrite for_all_None in E
    end.

(** ** Consumers *)

Lemma covers_true got req :
  covers got req = true ↔ gc_event_type got = gc_event_type req
    ∧ gc_schema_versions req ⊆ gc_schema_versions got
    ∧ (gc_supports_suspend req = true → gc_supports_suspend got = true)
    ∧ gc_filter got = gc_filter req.
Proof.
  unfold covers. rewrite !andb_true_iff, text_eq_true, forallb_forall, bool_decide_eq_true.
  assert (Hv : (∀ v, In v (gc_schema_versions req) → bool_decide (v ∈ gc_schema_versions got) = true)
    ↔ gc_schema_versions req ⊆ gc_schema_versions got).
  { split; intros H v Hv.
    - apply (bool_decide_eq_true_1 _ (H v (proj1 (list_elem_of_In _ _) Hv))).
    - apply bool_decide_eq_true_2, H. by apply list_elem_of_In. }
  rewrite Hv. destruct (gc_supports_suspend req), (gc_supports_suspend got); simpl; naive_solver.
Qed.

(** An intersection stays within both sides. *)
Lemma intersect_Some got req c :
  intersect got req = Some c → covers got c = true ∧ covers req c = true
    ∧ gc_schema_versions c = List.filter (λ v, bool_decide (v ∈ gc_schema_versions got)) (gc_schema_versions req).
Proof.
  unfold intersect. destruct (_ || _) eqn:E; [done|]. destruct (_ && _); [done|]. intros [= <-].
  apply orb_false_iff in E as [E1%negb_false_iff%text_eq_true E2%negb_false_iff%bool_decide_eq_true].
  rewrite !covers_true. cbn [gc_event_type gc_schema_versions gc_supports_suspend gc_filter].
  split_and!; try done.
  - intros v [_ Hv]%elem_of_where. by apply bool_decide_eq_true in Hv.
  - by intros [? _]%andb_prop.
  - intros v [Hv _]%elem_of_where. done.
  - by intros [_ ?]%andb_prop.
Qed.

(** A covered request is granted as it is. *)
Lemma intersect_covered got req : covers got req = true → intersect got req = Some req.
Proof.
  rewrite covers_true. intros (Ht & Hv & Hs & Hf). unfold intersect.
  rewrite (proj2 (text_eq_true _ _) Ht), (bool_decide_eq_true_2 _ Hf). cbn [negb orb].
  assert (Hall : List.filter (λ v, bool_decide (v ∈ gc_schema_versions got)) (gc_schema_versions req)
    = gc_schema_versions req).
  { rewrite <-(where_all (gc_schema_versions req)) at 2. apply filter_ext_in.
    intros v Hin%list_elem_of_In. by apply bool_decide_eq_true_2, Hv. }
  rewrite Hall.
  assert (bool_decide (gc_schema_versions req = []) && negb (bool_decide (gc_schema_versions req = [])) = false)
    as -> by (by destruct (bool_decide _)).
  f_equal. destruct req as [t v su f]. cbn in *. subst. f_equal. destruct su, (gc_supports_suspend got); naive_solver.
Qed.

Lemma intersect_consumers_elem existing requested c :
  c ∈ intersect_consumers existing requested ↔
  ∃ req got, req ∈ requested ∧ List.find (same_subscription req) existing = Some got
    ∧ intersect got req = Some c.
Proof.
  unfold intersect_consumers. btree. rewrite list_elem_of_omap. split.
  - intros (req & Hreq & (got & Hg & Hc)%bind_Some). eauto.
  - intros (req & got & Hreq & Hg & Hc). exists req. split; [done|]. apply bind_Some. eauto.
Qed.

Definition subscription (c : GrantedEventConsumer) : string * option string := (gc_event_type c, gc_filter c).

Lemma same_subscription_true req got :
  same_subscription req got = true ↔ subscription got = subscription req.
Proof.
  unfold same_subscription, subscription. rewrite andb_true_iff, text_eq_true, bool_decide_eq_true.
  split; [by intros [-> ->]|by intros [= -> ->]].
Qed.

(** ** Network merging *)

Lemma elem_of_removals {A} `{EqDecision A, Ord A} (ds l : list A) x :
  x ∈ fold_left (λ l d, BTreeSet.remove d l) ds l ↔ x ∈ l ∧ x ∉ ds.
Proof.
  revert l. induction ds as [|d ds IH]; intros l; simpl; [set_solver|].
  rewrite IH, BTreeSet.elem_of_remove. set_solver.
Qed.

Lemma ordered_removals {A} `{EqDecision A, Ord A} (ds l : list A) :
  BTreeSet.ordered l → BTreeSet.ordered (fold_left (λ l d, BTreeSet.remove d l) ds l).
Proof.
  revert l. induction ds as [|d ds IH]; intros l Hl; [done|]. apply IH. by apply BTreeSet.ordered_remove.
Qed.

Lemma elem_of_merged {A} `{EqDecision A, Ord A} (m : list A) ad x :
  x ∈ merged m ad ↔ (x ∈ m ∨ x ∈ ad.1) ∧ x ∉ ad.2.
Proof. unfold merged. by rewrite elem_of_removals, BTreeSet.elem_of_extend. Qed.

(** What the operator added: the stored additions, or, when neither an addition nor a denial is
    stored, whatever the stored grant has beyond the manifest. *)
Definition additions {A} (added denied stored : list A) : list A :=
  match added, denied with [], [] => stored | _, _ => added end.

Lemma elem_of_merge {A} `{EqDecision A, Ord A} (manifest added denied stored : list A) x :
  x ∈ merged manifest (classified added denied stored manifest) ↔
  (x ∈ manifest ∨ x ∈ additions added denied stored) ∧ x ∉ denied.
Proof.
  rewrite elem_of_merged. unfold classified, additions.
  destruct added as [|a l], denied as [|d l']; cbn [bool_decide negb orb fst snd]; try done.
  repeat case_bool_decide; try done. cbn [negb orb fst snd]. rewrite BTreeSet.elem_of_difference.
  destruct (decide (x ∈ manifest)); tauto.
Qed.

Section Spec.
Context {H : HostCpu}.

Lemma one_core : 100 ≤ host_cpu_rate_max.
Proof. unfold host_cpu_rate_max, host_logical_cpus, u32_MAX. lia. Qed.

(** Within the caps of the host. *)
Definition within (lo hi : Z) (o : option Z) : Prop := match o with Some n => lo ≤ n ≤ hi | None => True end.

Definition budgets_capped (g : PluginGrant) : Prop :=
  within 1 MAX_CPU_MS (grant_cpu_ms g) ∧ within 1 MAX_SUBREQUESTS (grant_subrequests g)
  ∧ within 1 PLUGIN_STATE_BUDGET_MIB_MAX (disk_mib g) ∧ within 1 PLUGIN_JAIL_MEMORY_MIB_MAX (memory_mib g)
  ∧ within 1 host_cpu_rate_max (cpu_rate_percent g)
  ∧ within 0 PLUGIN_JAIL_EXTRA_PROCESSES_MAX (extra_processes g).

(** Budget fields are unsigned. *)
Definition unsigned (o : option Z) : Prop := match o with Some n => 0 ≤ n | None => True end.
Definition budgets_unsigned (g : PluginGrant) : Prop :=
  unsigned (grant_cpu_ms g) ∧ unsigned (grant_subrequests g) ∧ unsigned (extra_processes g).

Lemma clamp_range lo hi n : lo ≤ hi → lo ≤ clamp lo hi n ≤ hi.
Proof. unfold clamp. destruct (n <? lo) eqn:E, (hi <? n) eqn:E'; lia. Qed.

Lemma clamp_limit_range n dflt max : 0 ≤ n → 1 ≤ dflt ≤ max → 1 ≤ clamp_limit (Some n) dflt max ≤ max.
Proof. unfold clamp_limit. destruct (n =? 0) eqn:E; lia. Qed.

Lemma capped_of (o1 o2 o3 : option Z) (o4 o5 o6 : option Z) g :
  unsigned o1 → unsigned o2 → unsigned o6 →
  grant_cpu_ms g = normalize_cpu_ms o1 → grant_subrequests g = normalize_subrequests o2 →
  disk_mib g = Some (effective_disk_mib o3) → memory_mib g = Some (effective_memory_mib o4) →
  cpu_rate_percent g = ((λ v, effective_cpu_rate_percent (Some v)) <$> o5) →
  extra_processes g = ((λ v, effective_extra_processes (Some v)) <$> o6) → budgets_capped g.
Proof.
  intros H1 H2 H6 E1 E2 E3 E4 E5 E6. unfold budgets_capped. rewrite E1, E2, E3, E4, E5, E6.
  pose proof one_core.
  split_and!.
  - destruct o1; [|done]. by apply clamp_limit_range.
  - destruct o2; [|done]. by apply clamp_limit_range.
  - by apply clamp_range.
  - by apply clamp_range.
  - destruct o5; [|done]. apply clamp_range. lia.
  - destruct o6 as [n|]; [|done]. cbn. unfold effective_extra_processes, PLUGIN_JAIL_EXTRA_PROCESSES_MAX.
    cbn in *. lia.
Qed.

(** C9: The effective grant never exceeds consent: each structural set is the intersection of
    what the operator stored and what the package requests, every effective subscription is
    within a stored one and within a requested one, and every budget is within the host's caps. *)
Theorem effective_grant_never_exceeds_consent existing requested :
  budgets_unsigned existing →
  let eff := effective_grant existing requested in
  (∀ x, x ∈ entrypoints eff ↔ x ∈ entrypoints existing ∧ x ∈ entrypoints requested)
  ∧ (∀ x, x ∈ producers eff ↔ x ∈ producers existing ∧ x ∈ producers requested)
  ∧ (∀ x, x ∈ jobs eff ↔ x ∈ jobs existing ∧ x ∈ jobs requested)
  ∧ (∀ x, x ∈ grant_bindings eff ↔ x ∈ grant_bindings existing ∧ x ∈ grant_bindings requested)
  ∧ (∀ x, x ∈ compatibility_flags eff ↔
        x ∈ compatibility_flags existing ∧ x ∈ compatibility_flags requested)
  ∧ (∀ c, c ∈ consumers eff → ∃ got req, got ∈ consumers existing ∧ req ∈ consumers requested
        ∧ covers got c = true ∧ covers req c = true)
  ∧ budgets_capped eff.
Proof.
  intros (H1 & H2 & H3). cbv zeta. cbn [effective_grant entrypoints producers jobs grant_bindings compatibility_flags].
  split_and!; try (intros x; apply BTreeSet.elem_of_intersection).
  - intros c (req & got & Hreq & Hg & Hc)%intersect_consumers_elem. apply intersect_Some in Hc as (? & ? & _).
    apply find_where in Hg as [Hg _]. eauto 10.
  - by eapply (capped_of (grant_cpu_ms existing) (grant_subrequests existing)).
Qed.

(** Every network destination of the effective grant comes from the current manifest or from the
    operator and is not denied; in particular a denied destination stays denied whatever a later
    package requests. *)
Theorem effective_network_is_exact existing requested :
  let eff := effective_grant existing requested in
  (∀ d, d ∈ domains eff ↔
    (d ∈ manifest_domains_of requested
     ∨ d ∈ additions (operator_added_domains existing) (operator_denied_domains existing) (domains existing))
    ∧ d ∉ operator_denied_domains existing)
  ∧ (∀ t, t ∈ tcp eff ↔
    (t ∈ manifest_tcp requested
     ∨ t ∈ additions (operator_added_tcp existing) (operator_denied_tcp existing) (tcp existing))
    ∧ t ∉ operator_denied_tcp existing)
  ∧ (∀ c, c ∈ address_cidrs eff ↔
    (c ∈ manifest_cidrs requested
     ∨ c ∈ additions (operator_added_cidrs existing) (operator_denied_cidrs existing) (address_cidrs existing))
    ∧ c ∉ operator_denied_cidrs existing)
  ∧ operator_denied_domains eff = operator_denied_domains existing
  ∧ operator_denied_tcp eff = operator_denied_tcp existing
  ∧ operator_denied_cidrs eff = operator_denied_cidrs existing.
Proof.
  cbv zeta. cbn [effective_grant domains tcp address_cidrs operator_denied_domains operator_denied_tcp
    operator_denied_cidrs].
  assert (Hden : ∀ A `{EqDecision A} (a d s m : list A), (classified a d s m).2 = d).
  { intros. unfold classified. by destruct (_ || _). }
  split_and!; try apply Hden; intros; apply elem_of_merge.
Qed.
End Spec.

(** ** Pending requests *)

Section Pending.
Context {H : HostCpu}.

(** A structural request is granted or pending, never both; a requested subscription that a stored
    one covers is not pending and, when the stored grant has one row per subscription, is granted
    as requested. *)
Theorem requests_are_granted_or_pending existing requested :
  NoDup (map subscription (consumers existing)) →
  let eff := effective_grant existing requested in
  let pend := pending_structural existing requested in
  (∀ x, x ∈ entrypoints requested → x ∈ entrypoints eff ↔ x ∉ pend_entrypoints pend)
  ∧ (∀ x, x ∈ producers requested → x ∈ producers eff ↔ x ∉ pend_producers pend)
  ∧ (∀ x, x ∈ jobs requested → x ∈ jobs eff ↔ x ∉ pend_jobs pend)
  ∧ (∀ x, x ∈ grant_bindings requested → x ∈ grant_bindings eff ↔ x ∉ pend_bindings pend)
  ∧ (∀ x, x ∈ compatibility_flags requested →
        x ∈ compatibility_flags eff ↔ x ∉ pend_compatibility_flags pend)
  ∧ (∀ c, c ∈ consumers requested → c ∉ pend_consumers pend → c ∈ consumers eff)
  ∧ (pending_is_empty pend = true → ∀ c, c ∈ consumers requested → c ∈ consumers eff).
Proof.
  intros Hnd. cbv zeta.
  assert (Hset : ∀ (a b : list string) x, x ∈ b → x ∈ BTreeSet.intersection a b ↔ x ∉ BTreeSet.difference b a).
  { intros a b x Hx. btree. destruct (decide (x ∈ a)); tauto. }
  assert (Hcon : ∀ c, c ∈ consumers requested → c ∉ pend_consumers (pending_structural existing requested) →
    c ∈ consumers (effective_grant existing requested)).
  { intros c Hc Hp. cbn [pending_structural pend_consumers] in Hp. rewrite elem_of_where in Hp.
    destruct (existsb (λ got, covers got c) (consumers existing)) eqn:Ec; [|by destruct Hp].
    apply existsb_exists in Ec as (got & Hgot%list_elem_of_In & Hcov).
    apply intersect_consumers_elem. exists c, got. split_and!; [done| |by apply intersect_covered].
    assert (Hs : same_subscription c got = true).
    { apply same_subscription_true. apply covers_true in Hcov as (? & _ & _ & ?). unfold subscription. congruence. }
    destruct (List.find (same_subscription c) (consumers existing)) as [g'|] eqn:Ef.
    - apply find_where in Ef as [Hg' Hs']. f_equal. apply (NoDup_key subscription (consumers existing)); try done.
      apply same_subscription_true in Hs, Hs'. congruence.
    - by rewrite (find_where_none _ _ _ Ef Hgot) in Hs. }
  split_and!; try (intros x Hx; by apply Hset); [exact Hcon|].
  intros Hempty c Hc. apply Hcon; [done|]. unfold pending_is_empty in Hempty.
  rewrite !andb_true_iff, !bool_decide_eq_true in Hempty. destruct Hempty as [[[[_ Hn] _] _] _].
  rewrite Hn. set_solver.
Qed.

(** With two stored rows for one subscription the first decides: a request that the other row
    covers is reported as approved and yet not granted. *)
Theorem second_consumer_row_is_lost existing req first other :
  List.find (same_subscription req) existing = Some first → other ∈ existing → covers other req = true →
  gc_schema_versions req ≠ [] → (∀ v, v ∈ gc_schema_versions req → v ∉ gc_schema_versions first) →
  List.filter (λ req, negb (existsb (λ got, covers got req) existing)) [req] = []
  ∧ intersect_consumers existing [req] = [].
Proof.
  intros Hf Ho Hcov Hne Hv. split.
  - cbn [List.filter]. assert (existsb (λ got, covers got req) existing = true) as ->; [|done].
    apply existsb_exists. exists other. split; [by apply list_elem_of_In|done].
  - unfold intersect_consumers. simpl. rewrite Hf. simpl.
    assert (intersect first req = None) as ->; [|done].
    unfold intersect. destruct (_ || _); [done|].
    assert (List.filter (λ v, bool_decide (v ∈ gc_schema_versions first)) (gc_schema_versions req) = []) as ->.
    { apply where_none. intros v Hin. by apply bool_decide_eq_false_2, Hv. }
    by rewrite (bool_decide_eq_false_2 _ Hne).
Qed.
End Pending.

(** ** Approval *)

Lemma undeclared_None what tl approved baseline :
  undeclared what tl approved baseline = None ↔ approved ⊆ baseline.
Proof.
  unfold undeclared. split.
  - destruct (BTreeSet.difference approved baseline) as [|x l] eqn:E; [|done]. intros _ y Hy.
    destruct (decide (y ∈ baseline)) as [|Hn]; [done|].
    assert (y ∈ BTreeSet.difference approved baseline) by (by apply BTreeSet.elem_of_difference).
    rewrite E in *. set_solver.
  - intros Hs. destruct (BTreeSet.difference approved baseline) as [|x l] eqn:E; [done|].
    assert (Hx : x ∈ BTreeSet.difference approved baseline) by (rewrite E; left).
    apply BTreeSet.elem_of_difference in Hx as [Hx Hn]. by apply Hs in Hx.
Qed.

(** A binding the package declares: the same database, or the same host binding up to case. *)
Definition declares (baseline : list string) (b : string) : Prop :=
  ∃ b', b' ∈ baseline ∧ to_ascii_lowercase b' = to_ascii_lowercase b.

Lemma known_host_binding_Some b k :
  known_host_binding b = Some k → to_ascii_lowercase b = k ∧ to_ascii_lowercase k = k.
Proof.
  unfold known_host_binding. intros [Hk E]%find_where. apply eq_ignore_ascii_case_true in E.
  assert (Hl : to_ascii_lowercase k = k).
  { unfold KNOWN_HOST_BINDINGS in Hk. rewrite !elem_of_cons, elem_of_nil in Hk.
    destruct Hk as [->|[->|[->|[->|[->|[]]]]]]; done. }
  by rewrite E.
Qed.

Lemma check_binding_None baseline b :
  check_binding baseline b = None → declares (grant_bindings baseline) (canonical_binding b).
Proof.
  unfold check_binding, canonical_binding, declares. destruct (database_binding_name b) as [name|].
  - intros Hc. checks_passed Hc. exists b. split; [|done]. apply BTreeSet.contains_true.
    by apply negb_false_iff.
  - destruct (known_host_binding b) as [k|] eqn:Ek; [|done]. cbn [default].
    intros Hb%complain_None%negb_false_iff. apply existsb_exists in Hb as (b' & Hb'%list_elem_of_In & E).
    apply known_host_binding_Some in Ek as [Ebk Ekk]. exists b'. split; [done|].
    apply orb_true_iff in E as [E|E]; [by apply eq_ignore_ascii_case_true in E|].
    apply text_eq_true in E as ->. cbn. congruence.
Qed.

Lemma consumers_cover_true existing requested :
  consumers_cover existing requested = true ↔
  ∀ req, req ∈ requested → ∃ got, got ∈ existing ∧ covers got req = true.
Proof.
  unfold consumers_cover. rewrite forallb_forall. split; intros Hall req Hreq.
  - apply list_elem_of_In, Hall, existsb_exists in Hreq as (got & ?%list_elem_of_In & ?). eauto.
  - apply list_elem_of_In, Hall in Hreq as (got & ? & ?). apply existsb_exists. exists got.
    split; [by apply list_elem_of_In|done].
Qed.

Section Approval.
Context {H : HostCpu} {I : Idna}.

Lemma normalize_domains_spec raws out doms :
  BTreeSet.ordered out → normalize_domains out raws = inr doms →
  BTreeSet.ordered doms
  ∧ ∀ d, d ∈ doms ↔ d ∈ out ∨ ∃ raw, raw ∈ raws ∧ normalize_domain_pattern raw = Some d.
Proof.
  revert out. induction raws as [|raw raws IH]; intros out Ho; cbn [normalize_domains].
  { intros [= <-]. split; [done|]. intros d. set_solver. }
  destruct (normalize_domain_pattern raw) as [n|] eqn:En; [|done]. intros Hd.
  apply IH in Hd as [Hord Hd]; [|by apply BTreeSet.ordered_insert]. split; [done|]. intros d.
  rewrite Hd, BTreeSet.elem_of_insert. split.
  - intros [[->|?]|(r & Hr & E)]; [|by left|]; right; eexists; (split; [|done]); set_solver.
  - intros [?|(r & [->|Hr]%elem_of_cons & E)]; [by left; right| |right; eauto].
    left. left. congruence.
Qed.

(** C10: Approval cannot invent authority: the stored grant carries the package's identity,
    every structural capability of it is one the package declares (host bindings up to case,
    flags up to surrounding space), its network mode is a mode, its domains are the normal forms
    of the operator's, and its budgets are within the host's caps. *)
Theorem approval_cannot_invent_authority approved baseline now g :
  budgets_unsigned approved → budgets_unsigned baseline →
  validate_approved_grant approved baseline now = inr g →
  plugin_key g = plugin_key baseline ∧ plugin_id g = plugin_id baseline
  ∧ entrypoints g ⊆ entrypoints baseline ∧ producers g ⊆ producers baseline ∧ jobs g ⊆ jobs baseline
  ∧ (∀ c, c ∈ consumers g → ∃ d, d ∈ consumers baseline ∧ covers d c = true)
  ∧ (∀ b, b ∈ grant_bindings g → declares (grant_bindings baseline) b)
  ∧ (∀ f, f ∈ compatibility_flags g → f ≠ "" ∧ ∃ f', f' ∈ compatibility_flags baseline ∧ f = trim f')
  ∧ (network_mode g = "deny" ∨ network_mode g = "outbound")
  ∧ (∀ d, d ∈ domains g ↔ ∃ raw, raw ∈ domains approved ∧ normalize_domain_pattern raw = Some d)
  ∧ budgets_capped g.
Proof.
  intros (U1 & U2 & U3) (V1 & V2 & V3). unfold validate_approved_grant.
  destruct (check_approved approved baseline) eqn:Hc; [done|].
  destruct (normalize_domains [] (domains approved)) as [|doms] eqn:Hd; [done|]. intros [= <-].
  apply normalize_domains_spec in Hd as [_ Hd]; [|constructor].
  unfold check_approved in Hc. checks_passed Hc.
  repeat match goal with E : undeclared _ _ _ _ = None |- _ => apply undeclared_None in E end.
  cbn [approved_grant plugin_key plugin_id entrypoints producers jobs consumers grant_bindings
    compatibility_flags network_mode domains].
  split_and!; try done.
  - apply consumers_cover_true. by apply negb_false_iff.
  - intros b (a & -> & Ha)%BTreeSet.elem_of_collect%list_elem_of_fmap.
    apply check_binding_None. by match goal with E : ∀ x, x ∈ grant_bindings approved → _ |- _ => apply E end.
  - intros f [(f' & -> & Hf')%list_elem_of_fmap Hne]%BTreeSet.elem_of_collect%elem_of_where.
    split; [by apply negb_true_iff, text_eq_false in Hne|]. exists f'. split; [|done].
    by match goal with E : compatibility_flags approved ⊆ _ |- _ => apply E end.
  - match goal with E : negb _ && negb _ = false |- _ => apply andb_false_iff in E as [E|E] end;
      apply negb_false_iff, eq_ignore_ascii_case_true in H5; [left|right]; exact H5.
  - intros d. rewrite Hd. set_solver.
  - assert (Hor : ∀ a b, unsigned a → unsigned b → unsigned (or_else a b)) by by intros [] [].
    eapply (capped_of (or_else (grant_cpu_ms approved) (grant_cpu_ms baseline))
      (or_else (grant_subrequests approved) (grant_subrequests baseline)) _ _ _
      (or_else (extra_processes approved) (extra_processes baseline))); try reflexivity; by apply Hor.
Qed.
End Approval.
