(* ===== verification/ConsentUse.v ===== *)
(** * From approval to use

    What the operator approves over the API is what the plugin is spawned with; the grant store
    keeps provenances apart; a guest's [describe()] stays within its manifest and its grant. *)

From stdpp Require Import base option list strings pretty sets.
From Stdlib Require Import ZArith Lia.
From S2P Require Import Prelude BTree Text Address EventModels EventOutbox Manifest Consent ConsentSpec.

Local Open Scope Z_scope.

(** ** Approval to spawn *)

Lemma intersection_all {A} `{EqDecision A} (a b : list A) : a ⊆ b → BTreeSet.intersection a b = a.
Proof.
  intros Hs. unfold BTreeSet.intersection. rewrite <-(where_all a) at 2. apply filter_ext_in.
  intros x Hx%list_elem_of_In. by apply BTreeSet.contains_true, Hs.
Qed.

Lemma difference_none {A} `{EqDecision A} (a b : list A) : a ⊆ b → BTreeSet.difference a b = [].
Proof.
  intros Hs. apply where_none. intros x Hx. by apply negb_false_iff, BTreeSet.contains_true, Hs.
Qed.

Lemma collect_ordered {A} `{EqDecision A, Ord A, !OrdLaws A} (l : list A) :
  BTreeSet.ordered l → BTreeSet.collect l = l.
Proof. intros Hl. apply BTreeSet.ordered_ext; eauto with btree. intros x. by btree. Qed.

(** Additions and denials taken against the manifest give the approved set back. *)
Lemma classified_approved {A} `{EqDecision A} (stored manifest : list A) :
  let added := BTreeSet.difference stored manifest in
  let denied := BTreeSet.difference manifest stored in
  classified added denied stored manifest = (added, denied).
Proof. cbv zeta. unfold classified. by destruct (_ || _). Qed.

Lemma merged_approved {A} `{EqDecision A, Ord A, !OrdLaws A} (stored manifest : list A) :
  BTreeSet.ordered stored → BTreeSet.ordered manifest →
  merged manifest (BTreeSet.difference stored manifest, BTreeSet.difference manifest stored) = stored.
Proof.
  intros Hs Hm. apply BTreeSet.ordered_ext; [|done|].
  - apply ordered_removals. by apply BTreeSet.ordered_extend.
  - intros x. rewrite elem_of_merged. cbn [fst snd]. btree.
    destruct (decide (x ∈ manifest)), (decide (x ∈ stored)); tauto.
Qed.

Lemma clamp_idem lo hi n : lo ≤ hi → clamp lo hi (clamp lo hi n) = clamp lo hi n.
Proof. unfold clamp. intros ?. destruct (n <? lo) eqn:E1, (hi <? n) eqn:E2; repeat (case_match; try lia). Qed.

Lemma clamp_limit_idem n dflt max :
  0 ≤ n → 1 ≤ dflt ≤ max → clamp_limit (Some (clamp_limit (Some n) dflt max)) dflt max = clamp_limit (Some n) dflt max.
Proof. unfold clamp_limit. intros ??. repeat (case_match; try lia). Qed.

Lemma consumers_kept l :
  BTreeSet.ordered l → NoDup (map subscription l) → intersect_consumers l l = l.
Proof.
  intros Ho Hnd. apply BTreeSet.ordered_ext; [apply BTreeSet.ordered_collect|done|].
  assert (Hrefl : ∀ c, covers c c = true) by (intros c; by apply covers_true).
  assert (Hfind : ∀ c, c ∈ l → List.find (same_subscription c) l = Some c).
  { intros c Hc. destruct (List.find (same_subscription c) l) as [d|] eqn:Ef.
    - apply find_where in Ef as [Hd Hs%same_subscription_true]. f_equal.
      by apply (NoDup_key subscription l).
    - pose proof (find_where_none _ _ _ Ef Hc) as Hn. exfalso.
      by rewrite (proj2 (same_subscription_true c c) eq_refl) in Hn. }
  intros c. rewrite intersect_consumers_elem. split.
  - intros (req & got & Hreq & Hg & Hc). rewrite (Hfind req Hreq) in Hg. injection Hg as <-.
    rewrite (intersect_covered req req (Hrefl req)) in Hc. by injection Hc as <-.
  - intros Hc. exists c, c. split_and!; [done|by apply Hfind|by apply intersect_covered].
Qed.

Section Approval.
Context {H : HostCpu} {I : Idna} {Value : Type} {VT : ValueText Value}.

(** A stored grant that a request leaves as it is. *)
Record settled (g b : PluginGrant) : Prop := {
  st_sets : entrypoints g ⊆ entrypoints b ∧ producers g ⊆ producers b ∧ jobs g ⊆ jobs b
    ∧ grant_bindings g ⊆ grant_bindings b ∧ compatibility_flags g ⊆ compatibility_flags b;
  st_consumers : intersect_consumers (consumers g) (consumers b) = consumers g;
  st_identity : plugin_key g = plugin_key b ∧ plugin_id g = plugin_id b ∧ network_mode g ≠ "";
  st_domains : manifest_domains g = manifest_domains_of b
    ∧ operator_added_domains g = BTreeSet.difference (domains g) (manifest_domains g)
    ∧ operator_denied_domains g = BTreeSet.difference (manifest_domains g) (domains g)
    ∧ BTreeSet.ordered (domains g) ∧ BTreeSet.ordered (manifest_domains g);
  st_tcp : manifest_tcp g = manifest_tcp b
    ∧ operator_added_tcp g = BTreeSet.difference (tcp g) (manifest_tcp g)
    ∧ operator_denied_tcp g = BTreeSet.difference (manifest_tcp g) (tcp g)
    ∧ BTreeSet.ordered (tcp g) ∧ BTreeSet.ordered (manifest_tcp g);
  st_cidrs : manifest_cidrs g = manifest_cidrs b
    ∧ operator_added_cidrs g = BTreeSet.difference (address_cidrs g) (manifest_cidrs g)
    ∧ operator_denied_cidrs g = BTreeSet.difference (manifest_cidrs g) (address_cidrs g)
    ∧ BTreeSet.ordered (address_cidrs g) ∧ BTreeSet.ordered (manifest_cidrs g);
  st_redirects : default (allow_undeclared_public_redirects b)
      (operator_allow_undeclared_public_redirects g) = allow_undeclared_public_redirects g;
  st_workerd : normalize_cpu_ms (grant_cpu_ms g) = grant_cpu_ms g
    ∧ normalize_subrequests (grant_subrequests g) = grant_subrequests g;
  st_jail : Some (effective_disk_mib (disk_mib g)) = disk_mib g
    ∧ Some (effective_memory_mib (memory_mib g)) = memory_mib g
    ∧ ((λ v, effective_cpu_rate_percent (Some v)) <$> cpu_rate_percent g) = cpu_rate_percent g
    ∧ ((λ v, effective_extra_processes (Some v)) <$> extra_processes g) = extra_processes g;
}.

Lemma or_empty_same a : or_empty a a = a.
Proof. unfold or_empty. by destruct (str_is_empty a). Qed.

Lemma effective_settled g b : settled g b → effective_grant g b = g.
Proof.
  intros [(S1 & S2 & S3 & S4 & S5) Hc (Hk & Hi & Hn) (D1 & D2 & D3 & D4 & D5) (T1 & T2 & T3 & T4 & T5)
    (C1 & C2 & C3 & C4 & C5) Hr (W1 & W2) (J1 & J2 & J3 & J4)].
  unfold effective_grant, merge_network_domains, merge_tcp, merge_cidrs, merge_operator_tcp,
    classified_operator_network, classified_operator_tcp, classified_operator_cidrs.
  rewrite Hc, <-D1, <-T1, <-C1, D2, D3, T2, T3, C2, C3, !classified_approved.
  rewrite !merged_approved, !intersection_all, Hr, W1, W2, J1, J2, J3, J4, <-Hk, <-Hi, !or_empty_same by done.
  cbn [fst snd]. rewrite <-D2, <-D3, <-T2, <-T3, <-C2, <-C3.
  assert (or_empty (network_mode g) (network_mode b) = network_mode g) as ->; [|by destruct g].
  unfold or_empty. by destruct (network_mode g).
Qed.

Lemma normalize_cpu_ms_idem o : unsigned o → normalize_cpu_ms (normalize_cpu_ms o) = normalize_cpu_ms o.
Proof. destruct o as [n|]; [|done]. intros Hn. cbn. f_equal. by apply clamp_limit_idem. Qed.

Lemma normalize_subrequests_idem o :
  unsigned o → normalize_subrequests (normalize_subrequests o) = normalize_subrequests o.
Proof. destruct o as [n|]; [|done]. intros Hn. cbn. f_equal. by apply clamp_limit_idem. Qed.

Lemma jail_budgets_idem (d mem cpu ex : option Z) :
  Some (effective_disk_mib (Some (effective_disk_mib d))) = Some (effective_disk_mib d)
  ∧ Some (effective_memory_mib (Some (effective_memory_mib mem))) = Some (effective_memory_mib mem)
  ∧ (λ v, effective_cpu_rate_percent (Some v)) <$> ((λ v, effective_cpu_rate_percent (Some v)) <$> cpu)
    = (λ v, effective_cpu_rate_percent (Some v)) <$> cpu
  ∧ (λ v, effective_extra_processes (Some v)) <$> ((λ v, effective_extra_processes (Some v)) <$> ex)
    = (λ v, effective_extra_processes (Some v)) <$> ex.
Proof.
  pose proof one_core. split_and!.
  - f_equal. by apply clamp_idem.
  - f_equal. by apply clamp_idem.
  - destruct cpu; [|done]. cbn. f_equal. apply clamp_idem. lia.
  - destruct ex; [|done]. cbn. f_equal. unfold effective_extra_processes. cbn. lia.
Qed.

(** The host bindings and databases of a manifest are in canonical form. *)
Lemma requested_bindings_shape (m : PluginManifest Value) b :
  b ∈ requested_bindings m → b ∈ KNOWN_HOST_BINDINGS ∨ ∃ name, b = DATABASE_BINDING_PREFIX +:+ name.
Proof.
  unfold requested_bindings. btree. rewrite !elem_of_app. intros Hb.
  destruct Hb as [Hb|[Hb|[Hb|[Hb|[Hb|Hb]]]]];
    try (match type of Hb with _ ∈ (if ?c then _ else _) => destruct c end;
         [|by apply elem_of_nil in Hb]; apply list_elem_of_singleton in Hb as ->; left;
         unfold KNOWN_HOST_BINDINGS; set_solver).
  apply list_elem_of_fmap in Hb as (name & -> & _). right. by exists name.
Qed.

Lemma canonical_binding_requested (m : PluginManifest Value) key now b :
  check_binding (consent_request m key now) b = None → canonical_binding b ∈ requested_bindings m.
Proof.
  unfold check_binding, canonical_binding. destruct (database_binding_name b) as [name|] eqn:En.
  - intros Hc. checks_passed Hc. apply BTreeSet.contains_true. by apply negb_false_iff.
  - destruct (known_host_binding b) as [k|] eqn:Ek; [|done]. cbn [default].
    intros Hb%complain_None%negb_false_iff. apply existsb_exists in Hb as (b' & Hb'%list_elem_of_In & E).
    change (grant_bindings _) with (requested_bindings m) in Hb'.
    assert (Hl : to_ascii_lowercase b' = k).
    { apply known_host_binding_Some in Ek as [Ebk Ekk].
      apply orb_true_iff in E as [E%eq_ignore_ascii_case_true|E%text_eq_true]; by rewrite E. }
    apply find_where in Ek as [Hk _].
    destruct (requested_bindings_shape m b' Hb') as [Hkn|(name & ->)].
    + assert (to_ascii_lowercase b' = b') as Elow; [|by rewrite <-Hl, Elow].
      unfold KNOWN_HOST_BINDINGS in Hkn. rewrite !elem_of_cons, elem_of_nil in Hkn.
      destruct Hkn as [->|[->|[->|[->|[->|[]]]]]]; done.
    + exfalso. unfold KNOWN_HOST_BINDINGS in Hk. rewrite !elem_of_cons, elem_of_nil in Hk.
      cbn in Hl. destruct Hk as [->|[->|[->|[->|[->|[]]]]]]; discriminate Hl.
Qed.

(** Unsigned limits of a manifest and of an override. *)
Definition limits_unsigned (m : PluginManifest Value) : Prop :=
  match m_workerd m with Some w => unsigned (cpu_ms (w_limits w)) ∧ unsigned (subrequests (w_limits w)) | None => True end.
Definition override_unsigned (ov : PluginGrantOverride) : Prop :=
  unsigned (ov_cpu_ms ov) ∧ unsigned (ov_subrequests ov).
Definition flags_trimmed (m : PluginManifest Value) : Prop :=
  match m_workerd m with Some w => ∀ f, f ∈ w_compatibility_flags w → trim f = f | None => True end.

Lemma request_limits (m : PluginManifest Value) key now :
  limits_unsigned m →
  within 1 MAX_CPU_MS (grant_cpu_ms (consent_request m key now))
  ∧ within 1 MAX_SUBREQUESTS (grant_subrequests (consent_request m key now)).
Proof.
  unfold limits_unsigned. cbn [consent_request grant_cpu_ms grant_subrequests].
  destruct (bool_decide _); [|done]. destruct (m_workerd m) as [w|]; [|done].
  intros [H1 H2]. cbn [fmap option_fmap option_map default within].
  unfold effective_cpu_ms, effective_subrequests.
  destruct (cpu_ms _), (subrequests _); split; by (apply clamp_limit_range || done).
Qed.

Lemma normalize_in_range lo hi o f : within lo hi o → (∀ n, lo ≤ n ≤ hi → f n = n) → f <$> o = o.
Proof. destruct o; simpl; [|done]. intros ? ->; done. Qed.

Lemma request_settled (m : PluginManifest Value) key now :
  limits_unsigned m → NoDup (map subscription (granted_consumers_from_manifest m)) →
  settled (consent_request m key now) (consent_request m key now).
Proof.
  intros Hl Hnd. pose proof one_core.
  assert (Hm : manifest_domains_of (consent_request m key now) = requested_domains m).
  { unfold manifest_domains_of. by destruct (bool_decide _). }
  pose proof (request_limits m key now Hl) as [L1 L2]. split; rewrite ?Hm;
    cbn [consent_request entrypoints producers jobs consumers grant_bindings compatibility_flags plugin_key
      plugin_id network_mode domains manifest_domains operator_added_domains operator_denied_domains tcp
      manifest_tcp operator_added_tcp operator_denied_tcp address_cidrs manifest_cidrs operator_added_cidrs
      operator_denied_cidrs disk_mib memory_mib cpu_rate_percent extra_processes];
    rewrite ?difference_none by done.
  - done.
  - apply consumers_kept; [apply BTreeSet.ordered_collect|done].
  - split_and!; [done..|]. by destruct (net_mode _).
  - split_and!; try done; apply BTreeSet.ordered_collect.
  - split_and!; try done; apply BTreeSet.ordered_collect.
  - split_and!; try done; apply BTreeSet.ordered_collect.
  - done.
  - split; eapply normalize_in_range; try done; intros n Hn; cbn; unfold effective_cpu_ms, effective_subrequests,
      clamp_limit; cbn; destruct (n =? 0) eqn:?; lia.
  - split_and!; try done; destruct (bool_decide _); try done. cbn. f_equal.
    unfold effective_cpu_rate_percent, clamp, PLUGIN_JAIL_CPU_RATE_DEFAULT. cbn.
    destruct (_ <? 80) eqn:?; lia.
Qed.
Lemma trimmed_flags (m : PluginManifest Value) key now (approved : list string) :
  flags_trimmed m → approved ⊆ compatibility_flags (consent_request m key now) →
  BTreeSet.collect (List.filter (λ f, negb (str_is_empty f)) (map trim approved))
  ⊆ compatibility_flags (consent_request m key now).
Proof.
  unfold flags_trimmed. cbn [consent_request compatibility_flags].
  intros Ht Hs f [(f' & -> & Hf')%list_elem_of_fmap _]%BTreeSet.elem_of_collect%elem_of_where.
  pose proof (Hs f' Hf') as Hb. destruct (m_workerd m) as [w|]; [|by apply elem_of_nil in Hb].
  cbn in *. rewrite (Ht f'); [done|]. by apply BTreeSet.elem_of_collect.
Qed.

Lemma or_else_unsigned a b : unsigned a → unsigned b → unsigned (or_else a b).
Proof. by destruct a, b. Qed.

Lemma within_unsigned hi o : within 1 hi o → unsigned o.
Proof. destruct o; simpl; lia. Qed.

Lemma override_settled (m : PluginManifest Value) key t0 t1 ov g :
  limits_unsigned m → override_unsigned ov → flags_trimmed m →
  NoDup (map subscription (granted_consumers_from_manifest m)) →
  validate_approved_grant (overridden (consent_request m key t0) ov) (consent_request m key t0) t1 = inr g →
  settled g (consent_request m key t0).
Proof.
  intros Hl [U1 U2] Hf Hnd. unfold validate_approved_grant.
  destruct (check_approved _ _) eqn:Hc; [done|].
  destruct (normalize_domains [] _) as [|doms] eqn:Hd; [done|]. intros [= <-].
  apply normalize_domains_spec in Hd as [Ho _]; [|constructor].
  unfold check_approved in Hc. checks_passed Hc.
  repeat match goal with E : undeclared _ _ _ _ = None |- _ => apply undeclared_None in E end.
  pose proof (request_limits m key t0 Hl) as [L1%within_unsigned L2%within_unsigned].
  set (b := consent_request m key t0) in *.
  assert (Hm : manifest_domains_of b = domains b).
  { unfold manifest_domains_of. by destruct (bool_decide _). }
  split; rewrite ?Hm.
  - split_and!; try done; [|by apply trimmed_flags].
    intros x (a & -> & Ha)%BTreeSet.elem_of_collect%list_elem_of_fmap.
    apply (canonical_binding_requested m key t0). by match goal with E : ∀ x, x ∈ grant_bindings _ → _ |- _ => apply E end.
  - apply consumers_kept; [apply BTreeSet.ordered_collect|done].
  - split_and!; [done..|]. cbn [approved_grant network_mode].
    match goal with E : negb _ && negb _ = false |- _ => apply andb_false_iff in E as [E|E] end;
      apply negb_false_iff, eq_ignore_ascii_case_true in H5; by rewrite H5.
  - split_and!; try done. apply BTreeSet.ordered_collect.
  - split_and!; try done; [|apply BTreeSet.ordered_collect]. cbn. destruct (ov_tcp ov); apply BTreeSet.ordered_collect.
  - split_and!; try done; [|apply BTreeSet.ordered_collect]. cbn.
    destruct (ov_address_cidrs ov); apply BTreeSet.ordered_collect.
  - cbn. by destruct (ov_allow_undeclared_public_redirects ov) as [[]|], (net_allow_undeclared_public_redirects _).
  - split; [apply normalize_cpu_ms_idem|apply normalize_subrequests_idem]; repeat apply or_else_unsigned; done.
  - apply jail_budgets_idem.
Qed.

End Approval.

(** ** The store *)

Lemma get_by_plugin_key_upsert g store k :
  get_by_plugin_key (upsert_rows g store) k
  = (if negb (str_is_empty k) && text_eq k (plugin_key g) then Some g else get_by_plugin_key store k).
Proof.
  unfold get_by_plugin_key. destruct (str_is_empty k) eqn:Ek; [done|]. cbn [negb andb].
  assert (Hk : k ≠ "") by (by destruct k).
  set (p := λ g, negb (str_is_empty (plugin_key g)) && text_eq (plugin_key g) k).
  assert (Hp : ∀ g, p g = text_eq (plugin_key g) k).
  { intros r. unfold p. destruct (text_eq (plugin_key r) k) eqn:E; [|by rewrite andb_false_r].
    apply text_eq_true in E as ->. by rewrite Ek. }
  assert (Hg : p g = text_eq k (plugin_key g)) by (rewrite Hp; apply String.eqb_sym).
  induction store as [|r store IH]; cbn [upsert_rows List.find].
  { rewrite Hg. by destruct (text_eq k (plugin_key g)). }
  unfold same_slot at 1. destruct (str_is_empty (plugin_key g)) eqn:Eg.
  - assert (text_eq k (plugin_key g) = false) as Hne.
    { apply text_eq_false. intros ->. congruence. }
    destruct (str_is_empty (plugin_key r) && _) eqn:Es; cbn [List.find].
    + rewrite Hg, Hne. apply andb_prop in Es as [Er _]. unfold p at 2. by rewrite Er.
    + destruct (p r); [by rewrite Hne|exact IH].
  - destruct (text_eq (plugin_key r) (plugin_key g)) eqn:Es; cbn [List.find].
    + rewrite Hg. destruct (text_eq k (plugin_key g)) eqn:E; [done|].
      apply text_eq_true in Es. rewrite (Hp r), Es. unfold text_eq in *. by rewrite String.eqb_sym, E.
    + destruct (p r) eqn:Er; [|exact IH]. rewrite Hp in Er. apply text_eq_true in Er as <-. by rewrite Es.
Qed.

Lemma store_get_Some store k found :
  store_get store k = Some found →
  found ∈ store ∧ (plugin_key found = k ∧ k ≠ ""
    ∨ plugin_id found = k ∧ ∀ other, other ∈ store → plugin_id other = k → other = found).
Proof.
  unfold store_get. destruct (get_by_plugin_key store k) as [f|] eqn:Ef.
  - intros [= ->]. unfold get_by_plugin_key in Ef. destruct (str_is_empty k) eqn:Ek; [done|].
    apply find_where in Ef as [Hin [_ E%text_eq_true]%andb_prop]. split; [done|]. left. split; [done|].
    by intros ->.
  - destruct (List.filter _ store) as [|one [|]] eqn:El; try done. intros [= ->].
    assert (Hall : ∀ o, o ∈ store → plugin_id o = k → o = found).
    { intros o Ho E. assert (Hin : o ∈ [found]); [|by apply list_elem_of_singleton in Hin].
      rewrite <-El. apply elem_of_where. split; [done|]. by apply text_eq_true. }
    assert (Hf : found ∈ [found]) by left. rewrite <-El in Hf. apply elem_of_where in Hf as [? E%text_eq_true].
    auto.
Qed.

(** An upsert answers for its own key and for no other: a grant without a provenance key never
    touches a keyed lookup, and a keyed grant is what its key finds.  A lookup finds a row of that
    provenance, or the only row of that plugin id. *)
Theorem grant_store_keeps_provenances g store k :
  get_by_plugin_key (upsert_rows g store) k
    = (if negb (str_is_empty k) && text_eq k (plugin_key g) then Some g else get_by_plugin_key store k)
  ∧ (∀ found, store_get store k = Some found →
       found ∈ store ∧ (plugin_key found = k ∧ k ≠ ""
         ∨ plugin_id found = k ∧ ∀ other, other ∈ store → plugin_id other = k → other = found)).
Proof. split; [apply get_by_plugin_key_upsert|apply store_get_Some]. Qed.

(** ** The guest's description *)

Lemma elem_of_dedup_adjacent l v : v ∈ dedup_adjacent l ↔ v ∈ l.
Proof.
  induction l as [|x [|y l] IH]; [done..|]. change (dedup_adjacent (x :: y :: l)) with
    (if x =? y then dedup_adjacent (y :: l) else x :: dedup_adjacent (y :: l)).
  destruct (Z.eqb_spec x y) as [->|]; [rewrite IH; set_solver|]. rewrite !(elem_of_cons _ v x), IH. done.
Qed.

Lemma elem_of_sort_dedup l v : v ∈ sort_dedup l ↔ v ∈ l.
Proof. unfold sort_dedup. by rewrite elem_of_dedup_adjacent, elem_of_order_by. Qed.

Section Described.
Context {H : HostCpu} {I : Idna} {X : UrlCrate} {Value : Type} {VT : ValueText Value}.
Implicit Types (m : PluginManifest Value) (g : PluginGrant).

Lemma require_binding_None g name :
  require_binding g name = None ↔
  ∃ b, b ∈ grant_bindings g ∧ to_ascii_lowercase b = to_ascii_lowercase name.
Proof.
  unfold require_binding. rewrite complain_None, negb_false_iff. unfold grant_has_binding.
  rewrite existsb_exists. split.
  - intros (b & Hb%list_elem_of_In & E%eq_ignore_ascii_case_true). eauto.
  - intros (b & Hb & E). exists b. split; [by apply list_elem_of_In|by apply eq_ignore_ascii_case_true].
Qed.

Lemma decided (P : Prop) `{Decision P} : negb (bool_decide P) = false → P.
Proof. by intros ?%negb_false_iff%bool_decide_eq_true_1. Qed.

(** A subscription [c] of a guest within the rows of its manifest and of its grant. *)
Definition subscribed m g (c : EventConsumerSpec) : Prop :=
  (∃ d, d ∈ m_consumers m ∧ con_event_type d = spec_event_type c
     ∧ spec_schema_versions c ⊆ con_schema_versions d
     ∧ (spec_supports_suspend c = true → con_supports_suspend d = true))
  ∧ ∃ gc, gc ∈ consumers g ∧ gc_event_type gc = spec_event_type c
     ∧ spec_schema_versions c ⊆ gc_schema_versions gc
     ∧ (spec_supports_suspend c = true → gc_supports_suspend gc = true).

Lemma forallb_subset (l k : list Z) : forallb (λ v, bool_decide (v ∈ k)) l = true ↔ l ⊆ k.
Proof.
  rewrite forallb_forall. split; intros Hs v Hv.
  - apply list_elem_of_In, Hs in Hv. by apply bool_decide_eq_true in Hv.
  - apply bool_decide_eq_true, Hs. by apply list_elem_of_In.
Qed.

Lemma existsb_subset (l k : list Z) : existsb (λ v, negb (bool_decide (v ∈ k))) l = false ↔ l ⊆ k.
Proof.
  rewrite <-forallb_subset, <-not_true_iff_false, <-(not_false_iff_true (forallb _ _)), existsb_exists.
  rewrite <-not_true_iff_false, forallb_forall. split.
  - intros Hn Hf. apply Hf. intros v Hv. destruct (bool_decide (v ∈ k)) eqn:E; [done|].
    exfalso. apply Hn. exists v. by rewrite E.
  - intros Hn (v & Hv & E). apply Hn. intros Hf. by rewrite (Hf v Hv) in E.
Qed.

Lemma suspend_within (a b : bool) : a && negb b = false ↔ (a = true → b = true).
Proof. destruct a, b; naive_solver. Qed.

Lemma check_consumer_None m g c : check_consumer m g c = None → subscribed m g c.
Proof.
  unfold check_consumer. destruct (List.find _ _) as [d|] eqn:Ef; [|done].
  apply find_where in Ef as [(d' & -> & Hd')%list_elem_of_fmap E%text_eq_true]. intros Hc. checks_passed Hc.
  split.
  - exists d'. match goal with E : _ || _ = false |- _ => apply orb_false_iff in E as [E1 E2] end.
    apply existsb_subset in E1. by rewrite suspend_within in E2.
  - match goal with E : negb _ = false |- _ => apply negb_false_iff, existsb_exists in E as (gc & Hin & E') end.
    apply andb_prop in E' as [[E1%text_eq_true E2%forallb_subset]%andb_prop E3]. exists gc.
    split_and!; [by apply list_elem_of_In|done..|]. intros Hs. by rewrite Hs in E3.
Qed.

(** C20: A guest whose [describe()] is accepted claims nothing beyond its manifest and its
    grant: entrypoints, subscriptions, producers, jobs, databases and bindings are declared and
    granted, and OAuth is only advertised with an OAuth binding. *)
Theorem described_guest_stays_within m g described mode :
  validate_described_capabilities m g described mode = None →
  (∀ e, e ∈ cap_entrypoints described → e ∈ m_entrypoints m ∧ wire_name e ∈ entrypoints g)
  ∧ (∀ c, c ∈ cap_consumes described → subscribed m g c)
  ∧ (∀ t, t ∈ cap_produces described → t ∈ producer_types m ∧ t ∈ producers g)
  ∧ (∀ j, j ∈ cap_jobs described → j ∈ m_jobs m ∧ j ∈ jobs g)
  ∧ (∀ d, d ∈ cap_databases described → d ∈ m_databases m
       ∧ declares (grant_bindings g) (DATABASE_BINDING_PREFIX +:+ d))
  ∧ (∀ n, n ∈ cap_bindings described → n ∈ binding_names m
       ∧ ∀ b, grant_binding_for_described m n = Some b → declares (grant_bindings g) b)
  ∧ (mode = Oauth → is_Some (m_oauth m) ∧ declares (grant_bindings g) "oauth").
Proof.
  intros Hv. unfold validate_described_capabilities in Hv. checks_passed Hv.
  assert (Hlisted : ∀ a b declared granted x, check_listed m a b declared granted x = None →
    x ∈ declared ∧ x ∈ granted).
  { intros a b declared granted x Hc. unfold check_listed in Hc. checks_passed Hc.
    split; [by eapply decided|by eapply decided]. }
  split_and!.
  - intros e He. assert (Hc : check_entrypoint m g e = None) by auto. unfold check_entrypoint in Hc.
    checks_passed Hc.
    split; [by eapply decided|by eapply decided].
  - intros c Hc. apply check_consumer_None. auto.
  - eauto.
  - eauto.
  - intros d Hd. assert (Hc : check_database m g d = None) by auto. unfold check_database in Hc.
    checks_passed Hc. split; [by eapply decided|by apply require_binding_None].
  - intros n Hn. assert (Hc : check_env_binding m g n = None) by auto. unfold check_env_binding in Hc.
    checks_passed Hc. split; [by eapply decided|]. intros b Hb.
    rewrite Hb in *. by apply require_binding_None.
  - intros ->. match goal with E : (if bool_decide (Oauth = Oauth) then _ else _) = None |- _ =>
      rewrite (bool_decide_eq_true_2 _ eq_refl) in E; rename E into Hc end.
    checks_passed Hc. split; [|by apply require_binding_None].
    match goal with E : negb _ = false |- _ => by eapply decided in E end.
Qed.

(** ** Honest guests *)

Lemma checks_pass checks : (∀ c, c ∈ checks → c = None) → first_error checks = None.
Proof. intros Hc. by apply first_error_None, Forall_forall. Qed.

Lemma requested_binding_present m (flag : bool) name :
  flag = true → (name, flag) ∈ [("config", b_config (bindings m)); ("secrets", b_secrets (bindings m));
    ("plugin_kv", b_plugin_kv (bindings m)); ("work_fs", b_work_fs (bindings m)); ("oauth", b_oauth (bindings m))] →
  name ∈ requested_bindings m.
Proof.
  intros -> Hin. unfold requested_bindings. btree. rewrite !elem_of_app.
  rewrite !elem_of_cons, elem_of_nil in Hin.
  destruct Hin as [Hin|[Hin|[Hin|[Hin|[Hin|[]]]]]];
    pose proof (f_equal fst Hin) as Hn; pose proof (f_equal snd Hin) as Hb; cbn [fst snd] in Hn, Hb;
    rewrite Hn, <-Hb; set_solver.
Qed.

Lemma names_binding_Some b dflt n : names_binding b dflt n = true → is_Some b.
Proof. by destruct b. Qed.

Lemma described_binding_granted m n b :
  (n = CONFIG_BINDING → m_vars m = true) →
  grant_binding_for_described m n = Some b → b ∈ requested_bindings m.
Proof.
  intros Hcfg. unfold grant_binding_for_described. destruct (text_eq n CONFIG_BINDING) eqn:E0.
  { intros [= <-]. apply text_eq_true, Hcfg in E0. apply (requested_binding_present m _ _ E0). left. }
  destruct (names_binding (m_secrets m) _ n) eqn:E1.
  { intros [= <-]. apply names_binding_Some in E1.
    by apply (requested_binding_present m (b_secrets (bindings m))); [apply bool_decide_eq_true|set_solver]. }
  destruct (names_binding (m_work_fs m) _ n) eqn:E2.
  { intros [= <-]. apply names_binding_Some in E2.
    by apply (requested_binding_present m (b_work_fs (bindings m))); [apply bool_decide_eq_true|set_solver]. }
  destruct (names_binding (m_oauth m) _ n) eqn:E3.
  { intros [= <-]. apply names_binding_Some in E3.
    by apply (requested_binding_present m (b_oauth (bindings m))); [apply bool_decide_eq_true|set_solver]. }
  destruct (existsb _ _) eqn:E4; [|done]. intros [= <-].
  apply (requested_binding_present m (b_plugin_kv (bindings m))); [|set_solver].
  cbn. by destruct (m_kv_namespaces m).
Qed.

Lemma elem_of_pushed (ps : list EventProducer) names n :
  n ∈ fold_left (λ names p, if bool_decide (binding_name p ∈ names) then names
    else names ++ [binding_name p]) ps names ↔ n ∈ names ∨ ∃ p, p ∈ ps ∧ binding_name p = n.
Proof.
  revert names. induction ps as [|p ps IH]; intros names; simpl; [set_solver|].
  rewrite IH. case_bool_decide; set_solver.
Qed.

(** A valid manifest names no binding [CONFIG] but its variables. *)
Lemma valid_config_name m : validate m = None → CONFIG_BINDING ∈ binding_names m → m_vars m = true.
Proof.
  intros Hv Hin. unfold validate in Hv. checks_passed Hv.
  match goal with E : validate_bindings m = None |- _ => unfold validate_bindings in E; rename E into Hb end.
  checks_passed Hb.
  assert (Hnone : ∀ t, (t, CONFIG_BINDING) ∉ named_bindings m).
  { intros t Ht. match goal with E : ∀ x, x ∈ named_bindings m → _ |- _ => specialize (E _ Ht); rename E into Hc end.
    checks_passed Hc. by match goal with E : text_eq _ _ || _ = false |- _ => cbn in E end. }
  destruct (m_vars m) eqn:Ev; [done|]. exfalso.
  assert (Hin' : CONFIG_BINDING ∈ map snd (named_bindings m)); [|apply list_elem_of_fmap in Hin' as ([t n] & E & Hn)].
  - unfold binding_names in Hin. rewrite Ev in Hin. unfold named_bindings. rewrite !map_app, !map_map. cbn [snd].
    apply elem_of_pushed in Hin as [Hin|(p & Hp & E)].
    + rewrite !app_assoc. apply elem_of_app. left. rewrite <-!app_assoc.
      by destruct (m_secrets m), (m_work_fs m), (m_oauth m).
    + rewrite !elem_of_app. do 4 right. apply list_elem_of_fmap. by exists p.
  - apply (Hnone t). cbn in E. by rewrite E.
Qed.

Lemma honest_consumer m key now c :
  NoDup (map con_event_type (m_consumers m)) →
  c ∈ cap_consumes (capabilities m) → check_consumer m (consent_request m key now) c = None.
Proof.
  intros Hnd Hc. unfold check_consumer.
  destruct (List.find _ _) as [d|] eqn:Ef.
  2:{ pose proof (find_where_none _ _ _ Ef Hc) as Hn. cbv beta in Hn.
      by rewrite (proj2 (text_eq_true _ _) eq_refl) in Hn. }
  apply find_where in Ef as [Hd E%text_eq_true].
  apply list_elem_of_fmap in Hc as (k & -> & Hk). apply list_elem_of_fmap in Hd as (k' & -> & Hk').
  assert (k' = k) as -> by (by apply (NoDup_key con_event_type (m_consumers m))).
  cbn [spec_event_type spec_schema_versions spec_supports_suspend].
  apply checks_pass. intros x Hx. rewrite !elem_of_cons, elem_of_nil in Hx. destruct Hx as [->|[->|[]]].
  - apply complain_None, orb_false_iff. split; [by apply existsb_subset|by apply suspend_within].
  - apply complain_None, negb_false_iff, existsb_exists. exists (GrantedEventConsumer_from_manifest k). split.
    + apply list_elem_of_In, BTreeSet.elem_of_collect. by apply list_elem_of_fmap_2.
    + cbn. rewrite (proj2 (text_eq_true _ _) eq_refl), (proj2 (forallb_subset _ _)).
      * by destruct (con_supports_suspend k).
      * intros v Hv. by apply elem_of_sort_dedup.
Qed.

Lemma ordered_NoDup {A} `{EqDecision A, Ord A, !OrdLaws A} (l : list A) : BTreeSet.ordered l → NoDup l.
Proof.
  induction 1 as [|x l Hl IH Hx]; constructor; [|done]. intros Hin.
  pose proof (proj1 (Forall_forall _ _) Hx x Hin) as Hlt. cbv beta in Hlt. by rewrite ord_irrefl in Hlt.
Qed.

Lemma consumer_types_NoDup m :
  NoDup (map con_event_type (m_consumers m)) → NoDup (map subscription (granted_consumers_from_manifest m)).
Proof.
  intros Hnd. apply NoDup_fmap_2_strong; [|apply ordered_NoDup, BTreeSet.ordered_collect].
  intros x y (k & -> & Hk)%BTreeSet.elem_of_collect%list_elem_of_fmap
    (k' & -> & Hk')%BTreeSet.elem_of_collect%list_elem_of_fmap [= E _].
  f_equal. by apply (NoDup_key con_event_type (m_consumers m)).
Qed.

Lemma honest_listed m what lacks (l : list string) x :
  x ∈ l → check_listed m what lacks l (BTreeSet.collect l) x = None.
Proof.
  intros Hx. unfold check_listed, BTreeSet.contains.
  rewrite bool_decide_eq_true_2, bool_decide_eq_true_2 by (by rewrite ?BTreeSet.elem_of_collect). done.
Qed.

Lemma honest_binding m key now b :
  b ∈ requested_bindings m → require_binding (consent_request m key now) b = None.
Proof. intros Hb. apply require_binding_None. by exists b. Qed.

(** C21: A guest that describes what its manifest declares is accepted once the operator
    approved the request as it stands: with a valid manifest that subscribes each event type
    once, the spawn grant admits every declared capability. *)
Theorem honest_guest_is_admitted m key t0 t1 t2 g mode :
  validate m = None → NoDup (map con_event_type (m_consumers m)) → limits_unsigned m →
  (mode = Oauth → is_Some (m_oauth m)) →
  build_approved_grant (consent_request m key t0) None t1 = inr g →
  validate_described_capabilities m (effective_grant g (consent_request m key t2)) (capabilities m) mode = None.
Proof.
  intros Hv Hnd Hl Ho [= <-].
  change (effective_grant _ (consent_request m key t2))
    with (effective_grant (consent_request m key t0) (consent_request m key t0)).
  rewrite effective_settled; [|apply request_settled; [done|by apply consumer_types_NoDup]].
  unfold validate_described_capabilities. apply checks_pass. intros x Hx.
  rewrite !elem_of_cons, elem_of_nil in Hx. destruct Hx as [->|[->|[->|[->|[->|[->|[->|[]]]]]]]].
  - apply for_all_None. intros e He. unfold check_entrypoint, BTreeSet.contains.
    rewrite !bool_decide_eq_true_2; [done| |done].
    apply BTreeSet.elem_of_collect. by apply list_elem_of_fmap_2.
  - apply for_all_None. intros c Hc. by apply honest_consumer.
  - apply for_all_None. intros t Ht. by apply honest_listed.
  - apply for_all_None. intros j Hj. by apply honest_listed.
  - apply for_all_None. intros d Hd. unfold check_database. rewrite bool_decide_eq_true_2 by done.
    cbn [negb complain first_error]. rewrite honest_binding; [done|]. unfold requested_bindings. btree.
    rewrite !elem_of_app. do 5 right. by apply (list_elem_of_fmap_2 (λ name, DATABASE_BINDING_PREFIX +:+ name)).
  - apply for_all_None. intros n Hn. unfold check_env_binding. rewrite bool_decide_eq_true_2 by done.
    cbn [negb complain first_error]. destruct (grant_binding_for_described m n) as [b|] eqn:Eb; [|done].
    cbn [mbind option_bind]. rewrite honest_binding; [done|]. eapply described_binding_granted; [|done].
    intros ->. by apply valid_config_name.
  - case_bool_decide as Em; [|done]. specialize (Ho Em).
    rewrite honest_binding; [cbn; by rewrite bool_decide_eq_true_2|].
    by apply (requested_binding_present m (b_oauth (bindings m))); [apply bool_decide_eq_true|set_solver].
Qed.

Lemma find_of_map {A B} (f : A → B) p l : List.find p (map f l) = f <$> List.find (λ x, p (f x)) l.
Proof. induction l as [|x l IH]; [done|]. cbn. by destruct (p (f x)). Qed.

(** A manifest that spreads one event type over two rows is valid, and yet its guest is refused
    whatever was granted: only the first row of the type is compared. *)
Theorem split_consumer_rows_are_refused m g mode c1 c2 v :
  List.find (λ d, text_eq (con_event_type d) (con_event_type c2)) (m_consumers m) = Some c1 →
  c2 ∈ m_consumers m → v ∈ con_schema_versions c2 → v ∉ con_schema_versions c1 →
  validate_described_capabilities m g (capabilities m) mode ≠ None.
Proof.
  intros Hf Hin Hv Hn Hd. unfold validate_described_capabilities in Hd. checks_passed Hd.
  set (c := mk_EventConsumerSpec (con_event_type c2) (con_schema_versions c2) (con_supports_suspend c2)).
  assert (Hc : check_consumer m g c = None).
  { match goal with E : ∀ x, x ∈ cap_consumes _ → _ |- _ => apply E end.
    by apply (list_elem_of_fmap_2 (λ c, mk_EventConsumerSpec (con_event_type c) (con_schema_versions c)
      (con_supports_suspend c))). }
  unfold check_consumer, capabilities in Hc. cbn [cap_consumes] in Hc. rewrite find_of_map in Hc.
  cbn [spec_event_type c] in Hc. rewrite Hf in Hc. cbn [fmap option_fmap option_map] in Hc. checks_passed Hc.
  match goal with E : _ || _ = false |- _ => apply orb_false_iff in E as [E%existsb_subset _]; by apply Hn, (E v Hv) end.
Qed.
End Described.
