(* ===== verification/Egress.v ===== *)
(** * Egress policies: [bookclerk-plugin-manifest/src/egress.rs]

    The allowlist a guest's network requests are checked against, as a manifest states it
    ([try_from_manifest]) and as a grant states it ([egress_policy]): direct requests, redirect
    hops, raw TCP and resolved addresses. *)

From stdpp Require Import base option list strings pretty sets.
From Stdlib Require Import ZArith Lia.
From S2P Require Import Prelude BTree Text Address EventModels EventOutbox Manifest Consent ConsentSpec ConsentUse.

Local Open Scope Z_scope.

Record EgressPolicy : Type := mk_EgressPolicy {
  mode : NetworkMode;
  policy_domains : list string;
  max_redirects : Z;
  policy_subrequests : option Z;
  undeclared_public_redirects : bool;
  policy_tcp : list TcpGrant;
  policy_cidrs : list string;
}.

(** [EgressPolicy::deny]. *)
Definition deny : EgressPolicy := mk_EgressPolicy Deny [] DEFAULT_MAX_REDIRECTS None false [] [].

(** [Vec::sort] by the derived order. *)
Definition sort_tcp (l : list TcpGrant) : list TcpGrant := order_by (λ a b, negb (ord_lt b a)) l.

Section Policies.
Context {I : Idna}.

(** The loops of [try_from_network]. *)
Fixpoint tcp_grants (l : list TcpCapability) : checked (list TcpGrant) :=
  match l with
  | [] => inr []
  | t :: l =>
      match normalize_domain_pattern (tcp_host t) with
      | None => inl ("invalid TCP host `" +:+ tcp_host t +:+ "`")
      | Some host =>
          match tcp_grants l with
          | inl e => inl e
          | inr out => inr (mk_TcpGrant host (sort_dedup (tcp_ports t)) :: out)
          end
      end
  end.

Fixpoint cidr_texts (l : list string) : checked (list string) :=
  match l with
  | [] => inr []
  | raw :: l =>
      match CidrGrant_parse raw with
      | inl e => inl e
      | inr g =>
          match cidr_texts l with
          | inl e => inl e
          | inr out => inr (show_cidr g :: out)
          end
      end
  end.

Definition try_from_network (caps : NetworkCapabilities) : checked EgressPolicy :=
  match normalize_domain_list (net_domains caps) with
  | inl e => inl e
  | inr domains =>
      match tcp_grants (net_tcp caps) with
      | inl e => inl e
      | inr tcp =>
          match cidr_texts (net_address_cidrs caps) with
          | inl e => inl e
          | inr cidrs =>
              inr (mk_EgressPolicy (net_mode caps) domains DEFAULT_MAX_REDIRECTS None
                     (net_allow_undeclared_public_redirects caps) (sort_tcp tcp) cidrs)
          end
      end
  end.

Definition try_from_manifest {Value} (m : PluginManifest Value) : checked EgressPolicy :=
  match try_from_network (m_network m) with
  | inl e => inl e
  | inr p =>
      inr (mk_EgressPolicy (mode p)
             (with_python_runtime_hosts (manifest_needs_python m) (mode p) (policy_domains p))
             (max_redirects p)
             (match m_workerd m with
              | Some w => Some (effective_subrequests (w_limits w))
              | None => policy_subrequests p
              end)
             (undeclared_public_redirects p) (policy_tcp p) (policy_cidrs p))
  end.

(** [from_network] and [from_manifest] fail closed. *)
Definition or_deny (r : checked EgressPolicy) : EgressPolicy :=
  match r with inl _ => deny | inr p => p end.
Definition from_network (caps : NetworkCapabilities) : EgressPolicy := or_deny (try_from_network caps).
Definition from_manifest {Value} (m : PluginManifest Value) : EgressPolicy := or_deny (try_from_manifest m).

(** [PluginGrant::egress_policy]. *)
Definition egress_policy (g : PluginGrant) : EgressPolicy :=
  mk_EgressPolicy (if eq_ignore_ascii_case (network_mode g) "outbound" then Outbound else Deny)
    (domains g) DEFAULT_MAX_REDIRECTS (grant_subrequests g) (allow_undeclared_public_redirects g)
    (sort_tcp (tcp g)) (address_cidrs g).

(** ** Decisions *)

Definition cidr_grants (p : EgressPolicy) : list CidrGrant :=
  omap (λ s, match CidrGrant_parse s with inr g => Some g | inl _ => None end) (policy_cidrs p).

Definition allows_ip (p : EgressPolicy) (ip : IpAddr) : bool :=
  match mode p with Deny => false | Outbound => address_allowed ip (cidr_grants p) end.

Definition LOCALHOST_V4 : IpAddr := V4 2130706433.
Definition LOCALHOST_V6 : IpAddr := V6 1.

Definition hostname_address_ok (p : EgressPolicy) (host : string) : bool :=
  if eq_ignore_ascii_case host "localhost" || ends_with ".localhost" (to_ascii_lowercase host)
  then allows_ip p LOCALHOST_V4 || allows_ip p LOCALHOST_V6
  else true.

(** A literal address has to be allowed. *)
Definition literal_ok (p : EgressPolicy) (host : string) : bool :=
  match parse_ip host with Some ip => allows_ip p ip | None => true end.

Definition allows_initial (p : EgressPolicy) (host : string) : bool :=
  match mode p with
  | Deny => false
  | Outbound =>
      if is_restricted_hostname host && negb (hostname_address_ok p host) then false else
      match normalize_hostname host with
      | None => false
      | Some host =>
          if negb (literal_ok p host) then false
          else existsb (λ d, host_matches_normalized host d) (policy_domains p)
      end
  end.

Definition allows_tcp (p : EgressPolicy) (host : string) (port : Z) : bool :=
  match mode p with
  | Deny => false
  | Outbound =>
      if is_restricted_hostname host && negb (hostname_address_ok p host) then false else
      match normalize_hostname host with
      | None => false
      | Some host =>
          if negb (literal_ok p host) then false
          else existsb (λ g, host_matches_normalized host (tg_host g) && bool_decide (port ∈ tg_ports g))
                 (policy_tcp p)
      end
  end.

Definition allows_redirect (p : EgressPolicy) (host : string) (hop_index : Z) : bool :=
  match mode p with
  | Deny => false
  | Outbound =>
      if max_redirects p <=? hop_index then false else
      if match parse_ip host with
         | Some ip => negb (allows_ip p ip)
         | None => is_restricted_hostname host && negb (hostname_address_ok p host)
         end then false else
      if undeclared_public_redirects p then
        match parse_ip host with
        | Some ip => allows_ip p ip
        | None => negb (is_restricted_hostname host)
        end
      else
        match normalize_hostname host with
        | None => false
        | Some host => existsb (λ d, host_matches_normalized host d) (policy_domains p)
        end
  end.

(** ** What the decisions guarantee *)

(** An address the policy may reach: on the public Internet, or inside a granted block. *)
Definition reachable (p : EgressPolicy) (ip : IpAddr) : Prop :=
  mode p = Outbound ∧ (is_public_internet ip = true
    ∨ ∃ s g, s ∈ policy_cidrs p ∧ CidrGrant_parse s = inr g ∧ contains g ip = true).

Lemma allows_ip_true p ip : allows_ip p ip = true ↔ reachable p ip.
Proof.
  unfold allows_ip, reachable. destruct (mode p); [naive_solver|]. unfold address_allowed.
  rewrite orb_true_iff, existsb_exists. split.
  - intros [?|(g & Hg & E)]; (split; [done|]); [by left|right]. apply list_elem_of_In in Hg.
    apply list_elem_of_omap in Hg as (s & Hs & Eg). exists s, g.
    destruct (CidrGrant_parse s); [done|]. by injection Eg as <-.
  - intros [_ [?|(s & g & Hs & Eg & E)]]; [by left|right]. exists g. split; [|done].
    apply list_elem_of_In, list_elem_of_omap. exists s. by rewrite Eg.
Qed.

Lemma literal_ok_true p host :
  literal_ok p host = true ↔ ∀ ip, parse_ip host = Some ip → reachable p ip.
Proof.
  unfold literal_ok. destruct (parse_ip host) as [ip|]; [|naive_solver].
  rewrite allows_ip_true. naive_solver.
Qed.

Lemma allows_tcp_true p host port :
  allows_tcp p host port = true →
  mode p = Outbound ∧ ∃ h g, normalize_hostname host = Some h ∧ g ∈ policy_tcp p
    ∧ host_matches_normalized h (tg_host g) = true ∧ port ∈ tg_ports g
    ∧ ∀ ip, parse_ip h = Some ip → reachable p ip.
Proof.
  unfold allows_tcp. destruct (mode p) eqn:Em; [done|].
  destruct (_ && _); [done|]. destruct (normalize_hostname host) as [h|]; [|done].
  destruct (literal_ok p h) eqn:El; [|done]. cbn [negb].
  intros (g & Hg%list_elem_of_In & [E1 E2%bool_decide_eq_true]%andb_prop)%existsb_exists.
  split; [done|]. exists h, g. split_and!; try done. by apply literal_ok_true.
Qed.

(** Direct requests and connections go where the policy says: outbound mode, an allowlisted host
    (a TCP grant with that port for [connect]), and, for a literal address, the public Internet or
    a granted block. *)
Theorem policy_confines_requests p host port :
  (allows_initial p host = true →
     mode p = Outbound ∧ ∃ h d, normalize_hostname host = Some h ∧ d ∈ policy_domains p
       ∧ host_matches_normalized h d = true ∧ ∀ ip, parse_ip h = Some ip → reachable p ip)
  ∧ (allows_tcp p host port = true →
     mode p = Outbound ∧ ∃ h g, normalize_hostname host = Some h ∧ g ∈ policy_tcp p
       ∧ host_matches_normalized h (tg_host g) = true ∧ port ∈ tg_ports g
       ∧ ∀ ip, parse_ip h = Some ip → reachable p ip)
  ∧ (∀ hop, allows_redirect p host hop = true →
     mode p = Outbound ∧ hop < max_redirects p ∧ (∀ ip, parse_ip host = Some ip → reachable p ip)
     ∧ (undeclared_public_redirects p = false → ∃ h d, normalize_hostname host = Some h
          ∧ d ∈ policy_domains p ∧ host_matches_normalized h d = true)).
Proof.
  split_and!; [|apply allows_tcp_true|].
  - unfold allows_initial. destruct (mode p) eqn:Em; [done|].
    destruct (_ && _); [done|]. destruct (normalize_hostname host) as [h|]; [|done].
    destruct (literal_ok p h) eqn:El; [|done]. cbn [negb].
    intros (d & Hd%list_elem_of_In & E)%existsb_exists.
    split; [done|]. exists h, d. split_and!; try done. by apply literal_ok_true.
  - intros hop. unfold allows_redirect. destruct (mode p) eqn:Em; [done|].
    destruct (max_redirects p <=? hop) eqn:Eh; [done|]. apply Z.leb_gt in Eh.
    destruct (match parse_ip host with Some ip => _ | None => _ end) eqn:El; [done|].
    intros Hr. split_and!; try done.
    + intros ip Eip. rewrite Eip in El. by apply allows_ip_true, negb_false_iff.
    + intros Eu. rewrite Eu in Hr. destruct (normalize_hostname host) as [h|]; [|done].
      apply existsb_exists in Hr as (d & Hd%list_elem_of_In & E). eauto 10.
Qed.

(** ** Equivalent policies *)

Definition policy_equiv (p q : EgressPolicy) : Prop :=
  mode p = mode q ∧ max_redirects p = max_redirects q
  ∧ undeclared_public_redirects p = undeclared_public_redirects q
  ∧ (∀ d, d ∈ policy_domains p ↔ d ∈ policy_domains q) ∧ (∀ t, t ∈ policy_tcp p ↔ t ∈ policy_tcp q)
  ∧ ∀ c, c ∈ policy_cidrs p ↔ c ∈ policy_cidrs q.

#[global] Instance policy_equivalence : Equivalence policy_equiv.
Proof.
  split.
  - by intros p.
  - intros p q (? & ? & ? & Hd & Ht & Hc). split_and!; try done; intros x; symmetry; auto.
  - intros p q r (? & ? & ? & Hd & Ht & Hc) (? & ? & ? & Hd' & Ht' & Hc').
    split_and!; try congruence; intros x; etrans; eauto.
Qed.

Lemma existsb_same {A} (f : A → bool) l k : (∀ x, x ∈ l ↔ x ∈ k) → existsb f l = existsb f k.
Proof.
  intros Hlk. apply eq_true_iff_eq. rewrite !existsb_exists.
  by split; intros (x & Hx%list_elem_of_In & E); exists x; (split; [apply list_elem_of_In, Hlk|]).
Qed.

#[global] Instance allows_ip_proper : Proper (policy_equiv ==> eq ==> eq) allows_ip.
Proof.
  intros p q (Hm & _ & _ & _ & _ & Hc) ip _ <-. apply eq_true_iff_eq. rewrite !allows_ip_true.
  unfold reachable. rewrite Hm. by setoid_rewrite Hc.
Qed.

#[global] Instance hostname_address_ok_proper : Proper (policy_equiv ==> eq ==> eq) hostname_address_ok.
Proof. intros p q Hpq h _ <-. unfold hostname_address_ok. by rewrite !(allows_ip_proper p q Hpq _ _ eq_refl). Qed.

#[global] Instance literal_ok_proper : Proper (policy_equiv ==> eq ==> eq) literal_ok.
Proof. intros p q Hpq h _ <-. unfold literal_ok. destruct (parse_ip h); [by apply allows_ip_proper|done]. Qed.

#[global] Instance allows_initial_proper : Proper (policy_equiv ==> eq ==> eq) allows_initial.
Proof.
  intros p q Hpq h _ <-. unfold allows_initial. rewrite (hostname_address_ok_proper p q Hpq h h eq_refl).
  assert (Hl : ∀ x, literal_ok p x = literal_ok q x) by (intros x; by apply literal_ok_proper).
  destruct Hpq as (<- & _ & _ & Hd & _). destruct (mode p); [done|].
  destruct (_ && _); [done|]. destruct (normalize_hostname h) as [x|]; [|done].
  rewrite Hl. destruct (literal_ok q x); [|done]. by apply existsb_same.
Qed.

#[global] Instance allows_tcp_proper : Proper (policy_equiv ==> eq ==> eq ==> eq) allows_tcp.
Proof.
  intros p q Hpq h _ <- n _ <-. unfold allows_tcp. rewrite (hostname_address_ok_proper p q Hpq h h eq_refl).
  assert (Hl : ∀ x, literal_ok p x = literal_ok q x) by (intros x; by apply literal_ok_proper).
  destruct Hpq as (<- & _ & _ & _ & Ht & _). destruct (mode p); [done|].
  destruct (_ && _); [done|]. destruct (normalize_hostname h) as [x|]; [|done].
  rewrite Hl. destruct (literal_ok q x); [|done]. by apply existsb_same.
Qed.

#[global] Instance allows_redirect_proper : Proper (policy_equiv ==> eq ==> eq ==> eq) allows_redirect.
Proof.
  intros p q Hpq h _ <- n _ <-. unfold allows_redirect.
  rewrite (hostname_address_ok_proper p q Hpq h h eq_refl).
  assert (Hip : ∀ ip, allows_ip p ip = allows_ip q ip) by (intros ip; by rewrite Hpq).
  destruct Hpq as (<- & <- & <- & Hd & _). destruct (mode p); [done|].
  destruct (_ <=? _); [done|].
  destruct (parse_ip h); rewrite ?Hip; destruct (negb _), (undeclared_public_redirects p); try done;
    repeat (case_match; try done); by apply existsb_same.
Qed.

(** ** The policy of a grant and the policy of the manifest *)

Lemma tcp_grants_elem l out t :
  tcp_grants l = inr out →
  t ∈ out ↔ t ∈ omap (λ t, (λ host, mk_TcpGrant host (sort_dedup (tcp_ports t)))
    <$> normalize_domain_pattern (tcp_host t)) l.
Proof.
  revert out. induction l as [|c l IH]; intros out; cbn [tcp_grants]; [by intros [= <-]|].
  cbn [omap list_omap]. destruct (normalize_domain_pattern (tcp_host c)) as [h|]; [|done].
  destruct (tcp_grants l) as [|o]; [done|]. intros [= <-]. cbn [fmap option_fmap option_map].
  rewrite !elem_of_cons. by rewrite (IH o).
Qed.

Lemma cidr_texts_elem l out c :
  cidr_texts l = inr out →
  c ∈ out ↔ c ∈ omap (λ raw, match CidrGrant_parse raw with inr g => Some (show_cidr g) | inl _ => None end) l.
Proof.
  revert out. induction l as [|r l IH]; intros out; cbn [cidr_texts]; [by intros [= <-]|].
  cbn [omap list_omap]. destruct (CidrGrant_parse r) as [|g]; [done|].
  destruct (cidr_texts l) as [|o]; [done|]. intros [= <-]. rewrite !elem_of_cons. by rewrite (IH o).
Qed.

(** Consent changes nothing the author declared: the policy of a request approved as it stands
    decides every request, connection and redirect as the policy of the manifest. *)
Theorem consented_policy_is_the_manifest_policy `{HostCpu} {Value} {VT : ValueText Value}
    (m : PluginManifest Value) key now p :
  try_from_manifest m = inr p →
  let q := egress_policy (consent_request m key now) in
  (∀ host, allows_initial q host = allows_initial p host)
  ∧ (∀ host port, allows_tcp q host port = allows_tcp p host port)
  ∧ (∀ host hop, allows_redirect q host hop = allows_redirect p host hop)
  ∧ ∀ ip, allows_ip q ip = allows_ip p ip.
Proof.
  intros Hp q. assert (Hpq : policy_equiv q p); [|by split_and!; intros; rewrite Hpq].
  unfold try_from_manifest, try_from_network in Hp.
  destruct (normalize_domain_list _) as [|doms] eqn:Ed; [done|].
  destruct (tcp_grants _) as [|tg] eqn:Et; [done|]. destruct (cidr_texts _) as [|cs] eqn:Ec; [done|].
  injection Hp as <-. cbn [mode policy_domains max_redirects undeclared_public_redirects policy_tcp policy_cidrs].
  split_and!; cbn [q egress_policy mode policy_domains max_redirects undeclared_public_redirects policy_tcp
    policy_cidrs consent_request network_mode domains tcp address_cidrs].
  - by destruct (net_mode (m_network m)).
  - done.
  - done.
  - intros d. unfold requested_domains, consent_domains_for. rewrite Ed. by btree.
  - intros t. unfold sort_tcp. rewrite !elem_of_order_by. unfold requested_tcp. btree.
    by rewrite (tcp_grants_elem _ _ _ Et).
  - intros c. unfold requested_cidrs. btree. by rewrite (cidr_texts_elem _ _ _ Ec).
Qed.

(** ** Redirects read the host as it was written *)

(** A redirect to a loopback literal with a trailing dot passes under every policy with the
    undeclared-redirects flag, although the same literal without the dot needs a granted block. *)
Theorem dotted_literal_redirect_passes p hop :
  mode p = Outbound → undeclared_public_redirects p = true → hop < max_redirects p → policy_cidrs p = [] →
  allows_redirect p "127.0.0.1." hop = true ∧ allows_redirect p "127.0.0.1" hop = false.
Proof.
  intros Hm Hu Hh Hc. unfold allows_redirect. rewrite Hm, Hu, (proj2 (Z.leb_gt _ _) Hh).
  split; [done|]. change (parse_ip "127.0.0.1") with (Some LOCALHOST_V4). unfold allows_ip, cidr_grants.
  by rewrite Hm, Hc.
Qed.

(** [localhost] needs a granted loopback block; [localhost.] and the metadata host do not. *)
Theorem only_bare_localhost_is_checked p port g :
  mode p = Outbound → policy_cidrs p = [] → g ∈ policy_tcp p → port ∈ tg_ports g →
  (∀ host, host = "localhost." ∨ host = "metadata.google.internal" →
     normalize_hostname host = Some (tg_host g) → parse_ip (tg_host g) = None →
     strip_prefix "*." (tg_host g) = None → allows_tcp p host port = true)
  ∧ allows_tcp p "localhost" port = false.
Proof.
  intros Hm Hc Hg Hp. unfold allows_tcp. rewrite Hm. split.
  - intros host Hhost Hn Hip Hw. rewrite Hn. unfold literal_ok. rewrite Hip.
    assert (is_restricted_hostname host && negb (hostname_address_ok p host) = false) as ->.
    { destruct Hhost as [-> | ->]; done. }
    cbn [negb]. apply existsb_exists. exists g. split; [by apply list_elem_of_In|].
    apply andb_true_intro. split; [|by apply bool_decide_eq_true].
    unfold host_matches_normalized. rewrite Hw. by apply text_eq_true.
  - unfold hostname_address_ok, allows_ip, cidr_grants. rewrite Hm, Hc. done.
Qed.
End Policies.
