(* ===== verification/Authority.v ===== *)
(** * Live sessions under a grant: [bookclerk-plugin-host/src/authority.rs]

    Every running guest is a row of a process-wide table with the digest of the grant it was
    spawned under.  A grant that changes, in this process ([PluginGrantStore::upsert]) or in the
    grants file ([watch_grants_loop]), fences the rows that no longer match: their cancel flag is
    raised and their shutdown hook runs.  A spawn registers its row ([rpc_session.rs],
    [connect_spawned]) in the same critical section, the grant epoch, in which it re-read the file.
    [Host] is the file, the table and the flags; the epoch sections are [prog]s over it, and
    [epoch_step] interleaves the section that holds the lock with everything that does not take it. *)

From stdpp Require Import base option list strings pretty relations.
From Stdlib Require Import ZArith Lia.
From S2P Require Import Prelude Concurrency BTree Text Address EventModels EventOutbox Manifest Consent.

Local Open Scope Z_scope.

(** ** Revisions *)

(** [sha2::Sha256] on bytes. *)
Class Sha256 := sha256 : string → string.

(** [hex::encode]. *)
Fixpoint hex_encode (s : string) : string :=
  match s with
  | EmptyString => EmptyString
  | String c s =>
      let n := Z.of_N (code c) in
      String (hex_char (n / 16)) (String (hex_char (n mod 16)) (hex_encode s))
  end.

Definition newline : string := String (byte 10) "".

(** [for x in l { hasher.update(x); hasher.update(",") }]. *)
Definition terminated (sep : string) (l : list string) : string :=
  String.concat "" (map (λ x, x +:+ sep) l).

Definition consumer_text (c : GrantedEventConsumer) : string :=
  gc_event_type c +:+ "|" +:+ terminated "," (map pretty (gc_schema_versions c))
  +:+ (if gc_supports_suspend c then "s1|" else "s0|") +:+ default "" (gc_filter c).

(** [hash_tcp_grants]. *)
Definition tcp_text (t : TcpGrant) : string :=
  tg_host t +:+ ":" +:+ terminated "," (map pretty (tg_ports t)).

Definition optional_text (v : option Z) : string :=
  match v with Some n => pretty n | None => "unset" end.

Section Revisions.
Context {H : HostCpu} {D : Sha256}.

Definition budgets_text (g : PluginGrant) : string :=
  pretty (effective_disk_mib (disk_mib g)) +:+ "|mem|" +:+ pretty (effective_memory_mib (memory_mib g))
  +:+ "|cpu_ms|" +:+ optional_text (grant_cpu_ms g)
  +:+ "|subrequests|" +:+ optional_text (grant_subrequests g)
  +:+ "|cpu_rate|" +:+ pretty (effective_cpu_rate_percent (cpu_rate_percent g))
  +:+ "|extra_proc|" +:+ pretty (effective_extra_processes (extra_processes g)).

(** The lines [hash_grant] feeds to the digest. *)
Definition grant_lines (kind : string) (g : PluginGrant) : list string :=
  [kind; plugin_key g;
   "structural"; terminated "," (entrypoints g);
   "producers"; terminated "," (producers g);
   "consumers"; terminated ";" (map consumer_text (consumers g));
   "jobs"; terminated "," (jobs g);
   "bindings"; terminated "," (grant_bindings g);
   "flags"; terminated "," (compatibility_flags g);
   "network"; network_mode g;
   "domains"; terminated "," (domains g);
   "manifest_domains"; terminated "," (manifest_domains g);
   "operator_added"; terminated "," (operator_added_domains g);
   "operator_denied"; terminated "," (operator_denied_domains g);
   "tcp"; terminated ";" (map tcp_text (tcp g));
   "operator_added_tcp"; terminated ";" (map tcp_text (operator_added_tcp g));
   "operator_denied_tcp"; terminated ";" (map tcp_text (operator_denied_tcp g));
   "cidrs"; terminated "," (address_cidrs g);
   "operator_added_cidrs"; terminated "," (operator_added_cidrs g);
   "operator_denied_cidrs"; terminated "," (operator_denied_cidrs g);
   "redirects"; if allow_undeclared_public_redirects g then "1" else "0";
   "budgets"; budgets_text g].

Definition grant_text (kind : string) (g : PluginGrant) : string := join newline (grant_lines kind g).

Definition hash_grant (kind : string) (g : PluginGrant) : string := hex_encode (sha256 (grant_text kind g)).
Definition grant_revision (g : PluginGrant) : string := hash_grant "grant" g.
Definition authority_revision (g : PluginGrant) : string := hash_grant "authority" g.
End Revisions.

(** ** The process *)

Record LiveSession : Type := mk_LiveSession {
  ls_plugin_key : string;
  ls_grant_revision : string;
  ls_revision : string;
  ls_cancelled : nat;
  ls_shutdown : nat;
}.

(** [plugin-grants.json]. *)
Inductive grants_file : Type :=
| Missing
| Unreadable
| Bytes (text : string).

(** [raised] are the cancel flags that are set and [shutdowns] the hooks that ran, by handle;
    [last] is the watcher's fingerprint.  [written] lists what the file has held, in order. *)
Record Host : Type := mk_Host {
  file : grants_file;
  written : list grants_file;
  live : list LiveSession;
  raised : list nat;
  shutdowns : list nat;
  last : string;
}.

#[global] Instance grants_file_eq_dec : EqDecision grants_file.
Proof. solve_decision. Defined.

Definition host_eta (w : Host) : Host :=
  mk_Host (file w) (written w) (live w) (raised w) (shutdowns w) (last w).
#[global] Instance set_file : Setter file := ltac:(set_column host_eta file).
#[global] Instance set_written : Setter written := ltac:(set_column host_eta written).
#[global] Instance set_live : Setter live := ltac:(set_column host_eta live).
#[global] Instance set_raised : Setter raised := ltac:(set_column host_eta raised).
#[global] Instance set_shutdowns : Setter shutdowns := ltac:(set_column host_eta shutdowns).
#[global] Instance set_last : Setter last := ltac:(set_column host_eta last).

(** [is_fenced]. *)
Definition is_fenced (flag : nat) (w : Host) : bool := bool_decide (flag ∈ raised w).

(** A file replaced as a directory entry. *)
Definition replace_file (c : grants_file) (w : Host) : Host :=
  if bool_decide (c = file w) then w else w <| file := c |> <| written := written w ++ [c] |>.

Section Authority.
Context {H : HostCpu} {I : Idna} {Value : Type} {VT : ValueText Value}.
Context {D : Sha256} {J : SerdeJson PluginGrantStore}.

Definition fence_sessions (stale : LiveSession → bool) : prog Host unit :=
  let* hooks := exec (λ w,
    let hit := List.filter stale (live w) in
    (map ls_shutdown hit, w <| raised := raised w ++ map ls_cancelled hit |>)) in
  exec (λ w, ((), w <| shutdowns := shutdowns w ++ hooks |>)).

Definition fence_stale_sessions (key current_revision : string) : prog Host unit :=
  if str_is_empty key then Ret () else
  fence_sessions (λ s, text_eq (ls_plugin_key s) key
    && (str_is_empty current_revision || negb (text_eq (ls_revision s) current_revision))).

Definition fence_stale_grant_revisions (key current_grant_revision : string) : prog Host unit :=
  if str_is_empty key then Ret () else
  fence_sessions (λ s, text_eq (ls_plugin_key s) key
    && (str_is_empty current_grant_revision
        || negb (text_eq (ls_grant_revision s) current_grant_revision))).

Definition fence_plugin_key (key : string) : prog Host unit := fence_stale_sessions key "".

Definition register_session_revisions_on (key grant_rev revision : string) (shutdown cancelled : nat)
    : prog Host unit :=
  exec (λ w, ((), w <| live := live w ++ [mk_LiveSession key grant_rev revision cancelled shutdown] |>)).

Definition unregister_session (flag : nat) : prog Host unit :=
  exec (λ w, ((), w <| live := List.filter (λ s, negb (ls_cancelled s =? flag)%nat) (live w) |>)).

(** [PluginGrantStore::load] of a file. *)
Definition parse_file (c : grants_file) : checked PluginGrantStore :=
  match c with
  | Missing => inr []
  | Unreadable => inl "read"
  | Bytes text => match from_str text with Some store => inr store | None => inl (from_str_error text) end
  end.
Definition load_store : prog Host (checked PluginGrantStore) := query (λ w, parse_file (file w)).

(** [grants_fingerprint]. *)
Definition fingerprint (c : grants_file) : string :=
  match c with Bytes text => hex_encode (sha256 text) | _ => "" end.
Definition grants_fingerprint : prog Host string := query (λ w, fingerprint (file w)).

(** The revision a store gives a key. *)
Definition stored_revision (store : PluginGrantStore) (key : string) : string :=
  default "" (grant_revision <$> get_by_plugin_key store key).

Fixpoint fence_mismatched (store : PluginGrantStore) (snapshot : list (string * string)) : prog Host unit :=
  match snapshot with
  | [] => Ret ()
  | (key, session_grant_revision) :: snapshot =>
      let current := stored_revision store key in
      let* _ := if negb (text_eq current session_grant_revision)
                then fence_stale_grant_revisions key current else Ret () in
      fence_mismatched store snapshot
  end.

Definition apply_grant_store (store : PluginGrantStore) : prog Host unit :=
  let* snapshot := query (λ w, map (λ s, (ls_plugin_key s, ls_grant_revision s)) (live w)) in
  fence_mismatched store snapshot.

(** ** The epoch sections *)

Definition reconcile_grants_from_disk : prog Host unit :=
  let* r := load_store in
  match r with inr store => apply_grant_store store | inl _ => Ret () end.

Definition set_fingerprint (fp : string) : prog Host unit := exec (λ w, ((), w <| last := fp |>)).

(** [watch_grants_loop]: its start and one turn. *)
Definition watch_start : prog Host unit :=
  let* r := load_store in
  match r with
  | inr store =>
      let* _ := apply_grant_store store in
      let* fp := grants_fingerprint in
      set_fingerprint fp
  | inl _ => Ret ()
  end.

Definition watch_tick : prog Host unit :=
  let* next := grants_fingerprint in
  let* prior := query last in
  if text_eq next prior then Ret () else
  let* r := load_store in
  match r with
  | inr store => let* _ := apply_grant_store store in set_fingerprint next
  | inl _ => Ret ()
  end.

(** What a spawn reads of [DiscoveredPlugin]; [dp_platform]: a verified platform artifact under a
    platform key. *)
Record DiscoveredPlugin : Type := mk_DiscoveredPlugin {
  dp_manifest : PluginManifest Value;
  dp_key : string;
  dp_platform : bool;
}.

(** [PluginGrantStore::upsert] and [save] in this process. *)
Definition upsert_store (g : PluginGrant) (store : PluginGrantStore) : prog Host PluginGrantStore :=
  let* _ := if str_is_empty (plugin_key g) then Ret ()
            else fence_stale_grant_revisions (plugin_key g) (grant_revision g) in
  Ret (upsert_rows g store).

Definition save_store (store : PluginGrantStore) : prog Host (checked unit) :=
  match to_string store with
  | None => Ret (inl "serialize")
  | Some text => exec (λ w, (inr (), replace_file (Bytes text) w))
  end.

(** [now] stamps the request that is built. *)
Definition require_grant (p : DiscoveredPlugin) (now : string) : prog Host (checked PluginGrant) :=
  let* r := load_store in
  match r with
  | inl e => Ret (inl e)
  | inr store =>
      let requested := consent_request (dp_manifest p) (dp_key p) now in
      let alias := m_id (dp_manifest p) in
      match get_by_plugin_key store (dp_key p) with
      | Some existing =>
          if grant_covers existing requested then Ret (inr (effective_grant existing requested))
          else Ret (inl ("plugin `" +:+ alias
                 +:+ "` grant does not match this plugin; re-approve with `bookclerk plugins approve "
                 +:+ alias +:+ "`"))
      | None => Ret (inl ("plugin `" +:+ alias
                  +:+ "` has no permission grant; run `bookclerk plugins approve " +:+ alias +:+ "` first"))
      end
  end.

Definition ensure_platform_grant (p : DiscoveredPlugin) (now : string) : prog Host (checked PluginGrant) :=
  if negb (dp_platform p) then require_grant p now else
  let requested := consent_request (dp_manifest p) (dp_key p) now in
  let alias := m_id (dp_manifest p) in
  if negb (is_safe_platform_request requested)
  then Ret (inl ("platform plugin `" +:+ alias +:+ "` declares capabilities outside the installer envelope; "
              +:+ "run `bookclerk plugins approve " +:+ alias +:+ "`")) else
  let* r := load_store in
  match r with
  | inl e => Ret (inl e)
  | inr store =>
      let renew :=
        let* store := upsert_store requested store in
        let* saved := save_store store in
        match saved with inl e => Ret (inl e) | inr _ => Ret (inr requested) end in
      match get_by_plugin_key store (dp_key p) with
      | Some existing =>
          if grant_within_ceiling existing requested
          then Ret (inr (effective_grant existing requested)) else renew
      | None => renew
      end
  end.

Definition spawn_grant (p : DiscoveredPlugin) (now : string) : prog Host (checked PluginGrant) :=
  if dp_platform p then ensure_platform_grant p now else require_grant p now.

Definition FENCED_ERROR : string := "plugin session fenced: effective authority changed".

(** [grant_still_current]; [overlay] is [effective_spawn_grant], the destinations the host's own
    configuration implies. *)
Definition grant_still_current (overlay : PluginGrant → PluginGrant) (p : DiscoveredPlugin)
    (grant_rev authority_rev now : string) : prog Host (checked unit) :=
  let* r := spawn_grant p now in
  match r with
  | inl e => Ret (inl e)
  | inr persisted =>
      if negb (text_eq (grant_revision persisted) grant_rev)
         || negb (text_eq (authority_revision (overlay persisted)) authority_rev)
      then Ret (inl FENCED_ERROR) else Ret (inr ())
  end.

(** The section of [connect_spawned] that registers the session. *)
Definition register_section (overlay : PluginGrant → PluginGrant) (p : DiscoveredPlugin)
    (grant_rev authority_rev now : string) (shutdown cancel : nat) : prog Host unit :=
  let* r := grant_still_current overlay p grant_rev authority_rev now in
  match r with
  | inl _ => exec (λ w, ((), w <| raised := raised w ++ [cancel] |>))
  | inr _ => register_session_revisions_on (dp_key p) grant_rev authority_rev shutdown cancel
  end.

(** The first, unregistered check of [connect_spawned]. *)
Definition validate_section (overlay : PluginGrant → PluginGrant) (p : DiscoveredPlugin)
    (grant_rev authority_rev now : string) : prog Host unit :=
  let* _ := grant_still_current overlay p grant_rev authority_rev now in Ret ().

(** What runs under the epoch lock once the watcher has started; [connect_spawned] refuses an empty
    revision before it takes the lock. *)
Inductive section : prog Host unit → Prop :=
| section_tick : section watch_tick
| section_reconcile : section reconcile_grants_from_disk
| section_validate overlay p grant_rev authority_rev now :
    grant_rev ≠ "" → section (validate_section overlay p grant_rev authority_rev now)
| section_register overlay p grant_rev authority_rev now shutdown cancel :
    grant_rev ≠ "" → section (register_section overlay p grant_rev authority_rev now shutdown cancel).

(** What does not take the lock: another process replaces the file, an upsert or a change of the
    configuration fences, a session ends, a flag is raised, a hook runs. *)
Inductive outside : Host → Host → Prop :=
| outside_write c w : outside w (replace_file c w)
| outside_fence stale w :
    outside w (w <| raised := raised w ++ map ls_cancelled (List.filter stale (live w)) |>)
| outside_drop flag w :
    outside w (w <| raised := raised w ++ [flag] |>
                 <| live := List.filter (λ s, negb (ls_cancelled s =? flag)%nat) (live w) |>)
| outside_hook hook w : outside w (w <| shutdowns := shutdowns w ++ [hook] |>).

Definition epoch_step : option (prog Host unit) * Host → option (prog Host unit) * Host → Prop :=
  locked_step section outside.
End Authority.
Arguments DiscoveredPlugin : clear implicits.
