(* ===== verification/AuthoritySpec.v ===== *)
(** * What live sessions are worth

    Two grants have the same revision only when they carry the same authority, as long as their
    texts avoid the separators; once the watcher has caught up no session outlives the grant it
    runs under, whatever other processes write in between, as long as the file does not return to an
    earlier content; and where that stops holding. *)

From stdpp Require Import base option list strings pretty relations.
From Stdlib Require Import ZArith Lia.
From S2P Require Import Prelude Concurrency BTree Text Address EventModels EventOutbox Manifest Consent ConsentSpec ConsentUse Authority.

Local Open Scope Z_scope.

(** ** Texts without a separator *)

Definition lacks (n : N) (s : string) : Prop := contains_char n s = false.

Lemma lacks_cons n c s : lacks n (String c s) ↔ is_char n c = false ∧ lacks n s.
Proof. unfold lacks. cbn [contains_char]. apply orb_false_iff. Qed.

Lemma lacks_app n a b : lacks n (a +:+ b) ↔ lacks n a ∧ lacks n b.
Proof.
  induction a as [|c a IH]; [split; [done|by intros []]|].
  change (String c a +:+ b) with (String c (a +:+ b)). rewrite !lacks_cons, IH. tauto.
Qed.

Lemma is_char_byte n : (n < 256)%N → is_char n (byte n) = true.
Proof. intros Hn. unfold is_char, code, byte. apply N.eqb_eq. by apply Ascii.N_ascii_embedding. Qed.

(** Two texts cut at the first separator. *)
Lemma cut_inj n a b x y :
  (n < 256)%N → lacks n a → lacks n b →
  a +:+ String (byte n) x = b +:+ String (byte n) y → a = b ∧ x = y.
Proof.
  intros Hn. revert b. induction a as [|c a IH]; intros [|d b] Ha Hb Hab; cbn in Hab.
  - by injection Hab.
  - injection Hab as Hc _. apply lacks_cons in Hb as [Hb _]. rewrite <-Hc, is_char_byte in Hb by done. done.
  - injection Hab as Hc _. apply lacks_cons in Ha as [Ha _]. rewrite Hc, is_char_byte in Ha by done. done.
  - injection Hab as -> Hab. apply lacks_cons in Ha as [_ Ha], Hb as [_ Hb].
    destruct (IH b Ha Hb Hab) as [-> ->]. done.
Qed.

Lemma terminated_cons sep x l : terminated sep (x :: l) = x +:+ sep +:+ terminated sep l.
Proof.
  unfold terminated. cbn [map String.concat]. destruct l as [|y l]; cbn [map].
  - cbn [String.concat]. by rewrite !append_nil_r.
  - rewrite append_assoc. done.
Qed.

Lemma terminated_inj n l1 l2 :
  (n < 256)%N → Forall (lacks n) l1 → Forall (lacks n) l2 →
  terminated (String (byte n) "") l1 = terminated (String (byte n) "") l2 → l1 = l2.
Proof.
  intros Hn H1. revert l2. induction H1 as [|x l1 Hx H1 IH]; intros [|y l2] H2; rewrite ?terminated_cons.
  - done.
  - by destruct y.
  - by destruct x.
  - intros Heq. apply Forall_cons in H2 as [Hy H2].
    apply (cut_inj n x y (terminated _ l1) (terminated _ l2)) in Heq as [-> Heq]; [|done..].
    by rewrite (IH l2 H2 Heq).
Qed.

Lemma join_inj n l1 l2 :
  (n < 256)%N → length l1 = length l2 → Forall (lacks n) l1 → Forall (lacks n) l2 →
  join (String (byte n) "") l1 = join (String (byte n) "") l2 → l1 = l2.
Proof.
  intros Hn Hl H1. revert l2 Hl. induction H1 as [|x l1 Hx H1 IH]; intros [|y l2] Hl H2; try done.
  apply Forall_cons in H2 as [Hy H2]. injection Hl as Hl. destruct l1 as [|x' l1], l2 as [|y' l2]; try done.
  { cbn. by intros ->. }
  change (join ?s (?a :: ?b :: ?l)) with (a +:+ s +:+ join s (b :: l)).
  intros Heq. apply (cut_inj n x y (join _ (x' :: l1)) (join _ (y' :: l2))) in Heq as [-> Heq]; [|done..].
  by rewrite (IH _ Hl H2 Heq).
Qed.

Lemma terminated_lacks n sep l : lacks n sep → Forall (lacks n) l → lacks n (terminated sep l).
Proof.
  intros Hs. induction 1 as [|x l Hx Hl IH]; [done|]. rewrite terminated_cons, !lacks_app. done.
Qed.

(** Numbers are digits and a sign. *)
Lemma pretty_N_go_lacks n x s :
  (n < 48 ∨ 57 < n)%N → lacks n s → lacks n (pretty_N_go x s).
Proof.
  intros Hn. revert s. induction (N.lt_wf_0 x) as [x _ IH]; intros s Hs.
  destruct (decide (0 < x)%N) as [Hx|Hx].
  - rewrite pretty_N_go_step by done. apply IH; [apply N.div_lt; lia|].
    apply lacks_cons. split; [|done]. unfold is_char, code. apply N.eqb_neq.
    pose proof (N.mod_lt x 10). assert (Hm : (x `mod` 10 < 10)%N) by lia.
    assert (Hd : ∃ m, (x `mod` 10)%N = m ∧ (m < 10)%N) by eauto. destruct Hd as (m & -> & Hm').
    assert (m = 0 ∨ m = 1 ∨ m = 2 ∨ m = 3 ∨ m = 4 ∨ m = 5 ∨ m = 6 ∨ m = 7 ∨ m = 8 ∨ m = 9)%N
      by lia.
    destruct_or!; subst; vm_compute Ascii.N_of_ascii; lia.
  - replace x with 0%N by lia. by rewrite pretty_N_go_0.
Qed.

Lemma pretty_lacks n (z : Z) : (n < 48 ∨ 57 < n)%N → n ≠ 45%N → lacks n (pretty z).
Proof.
  intros Hn Hd.
  assert (Hc : ∀ c, code c ≠ n → lacks n (String c "")).
  { intros c Hc. apply lacks_cons. split; [|done]. apply N.eqb_neq. congruence. }
  destruct z as [|p|p].
  - apply Hc. vm_compute code. lia.
  - change (lacks n (pretty_N_go (N.pos p) "")). by apply pretty_N_go_lacks.
  - change (lacks n ("-" +:+ pretty_N_go (N.pos p) "")). apply lacks_app.
    split; [apply Hc; vm_compute code; lia|by apply pretty_N_go_lacks].
Qed.

Ltac lack := first [apply pretty_lacks; lia | vm_compute; reflexivity].

Lemma numbers_inj (l1 l2 : list Z) :
  terminated "," (map pretty l1) = terminated "," (map pretty l2) → l1 = l2.
Proof.
  intros Heq. apply (terminated_inj 44) in Heq; [|lia|apply Forall_fmap, Forall_true; intros; lack..].
  by apply (inj (fmap pretty)) in Heq.
Qed.

Lemma numbers_lack n (l : list Z) :
  (n < 44 ∨ 57 < n)%N → lacks n (terminated "," (map pretty l)).
Proof.
  intros Hn. apply terminated_lacks.
  - unfold lacks. cbn. rewrite orb_false_r. unfold is_char, code. cbn. apply N.eqb_neq. lia.
  - apply Forall_fmap, Forall_true. intros. apply pretty_lacks; lia.
Qed.

Lemma optional_text_inj a b : optional_text a = optional_text b → a = b.
Proof.
  assert (Hu : ∀ z : Z, pretty z ≠ "unset").
  { intros z Hz. assert (H : lacks 117 (pretty z)) by lack. by rewrite Hz in H. }
  destruct a as [a|], b as [b|]; cbn [optional_text]; [|by intros ?%Hu|by intros ?%eq_sym%Hu|done].
  intros ?%(inj pretty). by subst.
Qed.

(** ** Grants whose texts avoid the separators *)

Definition plain_text (s : string) : Prop := lacks 44 s ∧ lacks 10 s.
Definition plain_tcp (t : TcpGrant) : Prop := lacks 58 (tg_host t) ∧ lacks 59 (tg_host t) ∧ lacks 10 (tg_host t).
Definition plain_consumer (c : GrantedEventConsumer) : Prop :=
  lacks 124 (gc_event_type c) ∧ lacks 59 (gc_event_type c) ∧ lacks 10 (gc_event_type c)
  ∧ gc_filter c ≠ Some "" ∧ lacks 59 (default "" (gc_filter c)) ∧ lacks 10 (default "" (gc_filter c)).

Record plain_grant (g : PluginGrant) : Prop := {
  plain_key : lacks 10 (plugin_key g);
  plain_mode : lacks 10 (network_mode g);
  plain_entrypoints : Forall plain_text (entrypoints g);
  plain_producers : Forall plain_text (producers g);
  plain_jobs : Forall plain_text (jobs g);
  plain_bindings : Forall plain_text (grant_bindings g);
  plain_flags : Forall plain_text (compatibility_flags g);
  plain_domains : Forall plain_text (domains g);
  plain_manifest_domains : Forall plain_text (manifest_domains g);
  plain_added : Forall plain_text (operator_added_domains g);
  plain_denied : Forall plain_text (operator_denied_domains g);
  plain_cidrs : Forall plain_text (address_cidrs g);
  plain_added_cidrs : Forall plain_text (operator_added_cidrs g);
  plain_denied_cidrs : Forall plain_text (operator_denied_cidrs g);
  plain_consumers : Forall plain_consumer (consumers g);
  plain_tcps : Forall plain_tcp (tcp g);
  plain_added_tcp : Forall plain_tcp (operator_added_tcp g);
  plain_denied_tcp : Forall plain_tcp (operator_denied_tcp g);
}.

Lemma texts_inj l1 l2 :
  Forall plain_text l1 → Forall plain_text l2 → terminated "," l1 = terminated "," l2 → l1 = l2.
Proof. intros H1 H2. apply (terminated_inj 44); [lia|eapply Forall_impl; [done|by intros ? []]..]. Qed.

Lemma consumer_text_inj c1 c2 :
  plain_consumer c1 → plain_consumer c2 → consumer_text c1 = consumer_text c2 → c1 = c2.
Proof.
  intros (T1 & _ & _ & F1 & _) (T2 & _ & _ & F2 & _). unfold consumer_text. intros Heq.
  apply (cut_inj 124) in Heq as [Ht Heq]; [|lia|done..].
  assert (Hs : ∀ (b : bool) f, (if b then "s1|" else "s0|") +:+ f
                               = String (byte 115) ((if b then "1|" else "0|") +:+ f)) by by intros [].
  rewrite !Hs in Heq. apply (cut_inj 115) in Heq as [Hv Heq]; [|lia|apply numbers_lack; lia..].
  apply numbers_inj in Hv. destruct c1 as [t1 v1 s1 f1], c2 as [t2 v2 s2 f2]; cbn in *. subst.
  assert (Hf : ∀ f f', f ≠ Some "" → f' ≠ Some "" → default "" f = default "" f' → f = f')
    by (intros [[]|] [[]|]; cbn; congruence).
  destruct s1, s2; cbn in Heq; injection Heq as Heq; try done; f_equal; by apply Hf.
Qed.

Lemma tcp_text_inj t1 t2 : plain_tcp t1 → plain_tcp t2 → tcp_text t1 = tcp_text t2 → t1 = t2.
Proof.
  intros (H1 & _) (H2 & _) Heq. unfold tcp_text in Heq.
  apply (cut_inj 58) in Heq as [Hh Hp]; [|lia|done..]. apply numbers_inj in Hp.
  destruct t1, t2. cbn in *. by subst.
Qed.

(** ** Revisions *)

Lemma hex_char_inj a b : 0 ≤ a < 16 → 0 ≤ b < 16 → hex_char a = hex_char b → a = b.
Proof.
  assert (Hc : ∀ d, 0 ≤ d < 16 →
    Ascii.N_of_ascii (hex_char d) = Z.to_N (if d <? 10 then 48 + d else 87 + d)).
  { intros d Hd. apply Ascii.N_ascii_embedding. destruct (d <? 10); lia. }
  intros Ha Hb Heq%(f_equal Ascii.N_of_ascii). rewrite !Hc in Heq by done.
  destruct (a <? 10) eqn:Ea, (b <? 10) eqn:Eb; lia.
Qed.

#[global] Instance hex_encode_inj : Inj (=) (=) hex_encode.
Proof.
  intros s. induction s as [|c s IH]; intros [|d t]; cbn [hex_encode]; try done. intros Heq.
  assert (Hb : ∀ x, 0 ≤ Z.of_N (code x) < 256).
  { intros x. pose proof (Ascii.N_ascii_bounded x). unfold code. lia. }
  pose proof (Hb c). pose proof (Hb d). injection Heq as H1 H2 Heq.
  apply hex_char_inj in H1; [|split; [apply Z.div_pos|apply Z.div_lt_upper_bound]; lia..].
  apply hex_char_inj in H2; [|by apply Z.mod_pos_bound..].
  assert (Hcd : code c = code d).
  { apply N2Z.inj. rewrite (Z.div_mod (Z.of_N (code c)) 16), (Z.div_mod (Z.of_N (code d)) 16) by done.
    congruence. }
  apply IH in Heq as ->. f_equal. rewrite <-(Ascii.ascii_N_embedding c), <-(Ascii.ascii_N_embedding d).
  unfold code in Hcd. by rewrite Hcd.
Qed.

Section Digest.
Context {H : HostCpu} {D : Sha256}.

(** Everything a revision stands for. *)
Record same_authority (a b : PluginGrant) : Prop := {
  same_key : plugin_key a = plugin_key b;
  same_entrypoints : entrypoints a = entrypoints b;
  same_producers : producers a = producers b;
  same_consumers : consumers a = consumers b;
  same_jobs : jobs a = jobs b;
  same_bindings : grant_bindings a = grant_bindings b;
  same_flags : compatibility_flags a = compatibility_flags b;
  same_mode : network_mode a = network_mode b;
  same_domains : domains a = domains b;
  same_manifest_domains : manifest_domains a = manifest_domains b;
  same_added : operator_added_domains a = operator_added_domains b;
  same_denied : operator_denied_domains a = operator_denied_domains b;
  same_tcp : tcp a = tcp b;
  same_added_tcp : operator_added_tcp a = operator_added_tcp b;
  same_denied_tcp : operator_denied_tcp a = operator_denied_tcp b;
  same_cidrs : address_cidrs a = address_cidrs b;
  same_added_cidrs : operator_added_cidrs a = operator_added_cidrs b;
  same_denied_cidrs : operator_denied_cidrs a = operator_denied_cidrs b;
  same_redirects : allow_undeclared_public_redirects a = allow_undeclared_public_redirects b;
  same_disk : effective_disk_mib (disk_mib a) = effective_disk_mib (disk_mib b);
  same_memory : effective_memory_mib (memory_mib a) = effective_memory_mib (memory_mib b);
  same_cpu_ms : grant_cpu_ms a = grant_cpu_ms b;
  same_subrequests : grant_subrequests a = grant_subrequests b;
  same_cpu_rate : effective_cpu_rate_percent (cpu_rate_percent a)
                  = effective_cpu_rate_percent (cpu_rate_percent b);
  same_processes : effective_extra_processes (extra_processes a)
                   = effective_extra_processes (extra_processes b);
}.

(** A number or [unset], then a name between bars. *)
Lemma field_inj a b sep x y :
  lacks 124 a → lacks 124 b → a +:+ (String (byte 124) sep) +:+ x = b +:+ (String (byte 124) sep) +:+ y →
  a = b ∧ x = y.
Proof.
  intros Ha Hb Heq. change (a +:+ String (byte 124) (sep +:+ x) = b +:+ String (byte 124) (sep +:+ y)) in Heq.
  apply cut_inj in Heq as [-> Heq]; [|lia|done..]. split; [done|]. by apply (inj (String.append sep)).
Qed.

Lemma optional_text_lacks n v : (n < 48 ∨ 57 < n ∧ n < 97)%N ∨ (122 < n)%N → n ≠ 45%N → lacks n (optional_text v).
Proof.
  intros Hn Hd. destruct v as [z|]; [apply pretty_lacks; lia|].
  unfold lacks, optional_text. cbn [contains_char]. unfold is_char. rewrite !orb_false_iff.
  repeat split; apply N.eqb_neq; vm_compute code; lia.
Qed.

Lemma budgets_text_inj a b :
  budgets_text a = budgets_text b →
  effective_disk_mib (disk_mib a) = effective_disk_mib (disk_mib b)
  ∧ effective_memory_mib (memory_mib a) = effective_memory_mib (memory_mib b)
  ∧ grant_cpu_ms a = grant_cpu_ms b ∧ grant_subrequests a = grant_subrequests b
  ∧ effective_cpu_rate_percent (cpu_rate_percent a) = effective_cpu_rate_percent (cpu_rate_percent b)
  ∧ effective_extra_processes (extra_processes a) = effective_extra_processes (extra_processes b).
Proof.
  unfold budgets_text. intros Heq.
  apply (field_inj _ _ "mem|") in Heq as [H1 Heq]; [|apply pretty_lacks; lia..].
  apply (field_inj _ _ "cpu_ms|") in Heq as [H2 Heq]; [|apply pretty_lacks; lia..].
  apply (field_inj _ _ "subrequests|") in Heq as [H3 Heq]; [|apply optional_text_lacks; lia..].
  apply (field_inj _ _ "cpu_rate|") in Heq as [H4 Heq]; [|apply optional_text_lacks; lia..].
  apply (field_inj _ _ "extra_proc|") in Heq as [H5 H6]; [|apply pretty_lacks; lia..].
  apply (inj pretty) in H1, H2, H5, H6. apply optional_text_inj in H3, H4. done.
Qed.

Lemma texts_one_line l : Forall plain_text l → lacks 10 (terminated "," l).
Proof. intros Hl. apply terminated_lacks; [done|]. eapply Forall_impl; [done|]. by intros ? []. Qed.

Lemma consumers_lack n l :
  n = 10%N ∨ n = 59%N → Forall plain_consumer l → Forall (lacks n) (map consumer_text l).
Proof.
  intros Hn Hl. apply Forall_fmap. eapply Forall_impl; [exact Hl|].
  intros c (_ & T1 & T2 & _ & F1 & F2). unfold compose, consumer_text. rewrite !lacks_app.
  destruct Hn as [-> | ->]; (split_and!; [done|done|apply numbers_lack; lia|by destruct (gc_supports_suspend c)|done]).
Qed.

Lemma tcp_lack n l : n = 10%N ∨ n = 59%N → Forall plain_tcp l → Forall (lacks n) (map tcp_text l).
Proof.
  intros Hn Hl. apply Forall_fmap. eapply Forall_impl; [exact Hl|].
  intros t (_ & T1 & T2). unfold compose, tcp_text. rewrite !lacks_app.
  destruct Hn as [-> | ->]; (split_and!; [done|done|apply numbers_lack; lia]).
Qed.

Lemma consumers_inj l1 l2 :
  Forall plain_consumer l1 → Forall plain_consumer l2 →
  terminated ";" (map consumer_text l1) = terminated ";" (map consumer_text l2) → l1 = l2.
Proof.
  intros H1 H2 Heq. apply (terminated_inj 59) in Heq; [|lia|apply consumers_lack; auto..].
  revert l2 H2 Heq. induction H1 as [|c l1 Hc H1 IH]; intros [|d l2] H2 Heq; try done.
  apply Forall_cons in H2 as [Hd H2]. injection Heq as Hcd Heq. f_equal; [by apply consumer_text_inj|auto].
Qed.

Lemma tcps_inj l1 l2 :
  Forall plain_tcp l1 → Forall plain_tcp l2 →
  terminated ";" (map tcp_text l1) = terminated ";" (map tcp_text l2) → l1 = l2.
Proof.
  intros H1 H2 Heq. apply (terminated_inj 59) in Heq; [|lia|apply tcp_lack; auto..].
  revert l2 H2 Heq. induction H1 as [|c l1 Hc H1 IH]; intros [|d l2] H2 Heq; try done.
  apply Forall_cons in H2 as [Hd H2]. injection Heq as Hcd Heq. f_equal; [by apply tcp_text_inj|auto].
Qed.

Lemma budgets_one_line g : lacks 10 (budgets_text g).
Proof.
  unfold budgets_text. rewrite !lacks_app.
  split_and!; try done; first [apply pretty_lacks; lia|apply optional_text_lacks; lia].
Qed.

Lemma grant_lines_one_line kind g : lacks 10 kind → plain_grant g → Forall (lacks 10) (grant_lines kind g).
Proof.
  intros Hk []. unfold grant_lines.
  repeat (apply Forall_cons; split); try done;
    first [by apply texts_one_line | apply terminated_lacks; [done|] | apply budgets_one_line
          | by destruct (allow_undeclared_public_redirects g) | by apply Forall_nil];
    first [by apply consumers_lack; auto | by apply tcp_lack; auto].
Qed.

Lemma grant_lines_inj kind a b :
  plain_grant a → plain_grant b → grant_lines kind a = grant_lines kind b → same_authority a b.
Proof.
  intros [] [] Heq. unfold grant_lines in Heq. injection Heq. intros.
  assert (Hbudgets : budgets_text a = budgets_text b) by done.
  apply budgets_text_inj in Hbudgets as (? & ? & ? & ? & ? & ?).
  split; first [done | by apply texts_inj | by apply consumers_inj | by apply tcps_inj | idtac].
  by destruct (allow_undeclared_public_redirects a), (allow_undeclared_public_redirects b).
Qed.

Lemma grant_text_inj kind a b :
  lacks 10 kind → plain_grant a → plain_grant b → grant_text kind a = grant_text kind b → same_authority a b.
Proof.
  intros Hk Ha Hb Heq. eapply grant_lines_inj; [done..|].
  apply (join_inj 10); [lia|done|by apply grant_lines_one_line..|exact Heq].
Qed.

Lemma same_authority_text kind a b : same_authority a b → grant_text kind a = grant_text kind b.
Proof.
  intros []. unfold grant_text, grant_lines, budgets_text.
  by repeat match goal with Hx : _ a = _ b |- _ => rewrite Hx; clear Hx
                          | Hx : _ (_ a) = _ (_ b) |- _ => rewrite Hx; clear Hx end.
Qed.

End Digest.

(** ** Sessions and the file *)

Section Watching.
Context {H : HostCpu} {I : Idna} {Value : Type} {VT : ValueText Value}.
Context {D : Sha256} {J : SerdeJson PluginGrantStore} {JL : SerdeLaws PluginGrantStore}.

(** The file grants a session of [key] the revision [rev]: as stored, or as the effective grant
    of some version of the package. *)
Definition granted (c : grants_file) (key rev : string) : Prop :=
  ∃ store g, parse_file c = inr store ∧ get_by_plugin_key store key = Some g
    ∧ (rev = grant_revision g
       ∨ ∃ (m : PluginManifest Value) now, rev = grant_revision (effective_grant g (consent_request m key now))).

(** A session of a plugin with a provenance that may still act. *)
Definition held (w : Host) (s : LiveSession) : Prop :=
  s ∈ live w ∧ ls_plugin_key s ≠ "" ∧ is_fenced (ls_cancelled s) w = false.

(** The file never returned to an earlier content, and no two contents share a digest. *)
Definition distinct (w : Host) : Prop :=
  ∀ i j c d, written w !! i = Some c → written w !! j = Some d → fingerprint c = fingerprint d → i = j.

(** The watcher last saw the content at [i] of the history, and every held session is granted
    what it was spawned with by that content or a later one. *)
Definition coherent (w : Host) : Prop :=
  list.last (written w) = Some (file w)
  ∧ (∀ s, s ∈ live w → ls_grant_revision s ≠ "")
  ∧ (distinct w → ∃ i c, written w !! i = Some c ∧ fingerprint c = last w
       ∧ ∀ s, held w s → ∃ j d, (i ≤ j)%nat ∧ written w !! j = Some d
           ∧ granted d (ls_plugin_key s) (ls_grant_revision s)).

(** What a section sees of the others: no session is added and the watcher does not move. *)
Definition others (w w' : Host) : Prop :=
  written w `prefix_of` written w' ∧ last w' = last w
  ∧ (∀ s, s ∈ live w' → s ∈ live w) ∧ (∀ f, f ∈ raised w → f ∈ raised w').

#[local] Instance others_preorder : PreOrder others.
Proof.
  split; [by intros w|]. intros w1 w2 w3 (P1 & L1 & S1 & F1) (P2 & L2 & S2 & F2).
  split_and!; [by etrans|congruence|auto|auto].
Qed.

Lemma lookup_written w w' i c : others w w' → written w !! i = Some c → written w' !! i = Some c.
Proof. intros (Hp & _) Hi. by eapply prefix_lookup_Some. Qed.

Lemma distinct_before w w' : written w `prefix_of` written w' → distinct w' → distinct w.
Proof. intros Hp Hd i j c d Hi Hj. apply Hd; by eapply prefix_lookup_Some. Qed.

Lemma held_before w w' s : others w w' → held w' s → held w s.
Proof.
  intros (_ & _ & HS & HF) (Hs & Hk & Hf). split_and!; [auto|done|].
  apply bool_decide_eq_false_2. apply bool_decide_eq_false_1 in Hf. auto.
Qed.

(** A change that adds no session and keeps the file keeps coherence. *)
Lemma coherent_shrink w w' :
  coherent w → others w w' → written w' = written w → file w' = file w → coherent w'.
Proof.
  intros (Hl & Hr & Hd) Ho Hw Hf. pose proof Ho as (_ & HL & HS & _). split_and!.
  - by rewrite Hw, Hf.
  - auto.
  - intros Hd'. destruct Hd as (i & c & Hi & Hc & Hs); [unfold distinct in *; by rewrite <-Hw|].
    exists i, c. rewrite Hw, HL. split_and!; [done|done|]. intros s Hh. by apply Hs, (held_before w w').
Qed.

Lemma replace_file_written c w :
  list.last (written w) = Some (file w) → list.last (written (replace_file c w)) = Some (file (replace_file c w)).
Proof. intros Hl. unfold replace_file. case_bool_decide; [done|]. cbn. apply last_snoc. Qed.

Lemma replace_file_others c w : others w (replace_file c w).
Proof.
  unfold replace_file. case_bool_decide; [reflexivity|]. split_and!; cbn; [by eexists|done..].
Qed.

Lemma coherent_replace c w : coherent w → coherent (replace_file c w).
Proof.
  intros (Hl & Hr & Hd). pose proof (replace_file_others c w) as Ho. pose proof Ho as (Hp & HL & HS & _).
  split_and!; [by apply replace_file_written|auto|]. intros Hd'.
  destruct Hd as (i & x & Hi & Hx & Hs); [by eapply distinct_before|].
  exists i, x. rewrite HL. split_and!; [by eapply lookup_written|done|]. intros s Hh.
  destruct (Hs s) as (j & d & Hij & Hj & Hg); [by eapply held_before|].
  exists j, d. split_and!; [done|by eapply lookup_written|done].
Qed.

Lemma outside_others w w' : coherent w → outside w w' → others w w' ∧ coherent w'.
Proof.
  intros Hc Ho. destruct Ho as [c w|stale w|flag w|hook w].
  - split; [apply replace_file_others|by apply coherent_replace].
  - assert (Ho : others w (w <| raised := raised w ++ map ls_cancelled (List.filter stale (live w)) |>)).
    { split_and!; cbn; [done..|]. set_solver. }
    split; [done|]. by apply (coherent_shrink w).
  - assert (Ho : others w (w <| raised := raised w ++ [flag] |>
        <| live := List.filter (λ s, negb (ls_cancelled s =? flag)%nat) (live w) |>)).
    { split_and!; cbn; [done..| |set_solver].
      intros s Hs%list_elem_of_In%filter_In. apply list_elem_of_In, Hs. }
    split; [done|]. by apply (coherent_shrink w).
  - assert (Ho : others w (w <| shutdowns := shutdowns w ++ [hook] |>)) by done.
    split; [done|]. by apply (coherent_shrink w).
Qed.

Notation sectioned := (wp others (λ _ _, True) coherent).

Lemma current_index w : coherent w → written w !! pred (length (written w)) = Some (file w).
Proof. intros (Hl & _). by rewrite <-last_lookup. Qed.

Lemma sectioned_fence stale (Q : unit → Host → Prop) w :
  (∀ w', others w w' → coherent w' → (∀ s, s ∈ live w' → stale s = true → ls_cancelled s ∈ raised w') →
     Q () w') →
  sectioned (fence_sessions stale) Q w.
Proof.
  intros HQ. apply wp_bind, wp_exec. intros w1 H1 C1. cbn [fst snd].
  assert (O1 : others w1 (w1 <| raised := raised w1 ++ map ls_cancelled (List.filter stale (live w1)) |>)).
  { split_and!; cbn; [done..|set_solver]. }
  split_and!; [done|by apply (coherent_shrink w1)|]. apply wp_exec. intros w2 H2 C2. cbn [fst snd].
  assert (O2 : others w2 (w2 <| shutdowns := shutdowns w2 ++
    map ls_shutdown (List.filter stale (live w1)) |>)) by done.
  split_and!; [done|by apply (coherent_shrink w2)|]. apply HQ.
  - etrans; [exact H1|]. etrans; [exact O1|]. by etrans.
  - by apply (coherent_shrink w2).
  - intros s Hs Hst. cbn in *. destruct H2 as (_ & _ & HS & HF). apply HF. cbn.
    apply elem_of_app. right. apply list_elem_of_fmap. exists s. split; [done|].
    apply list_elem_of_In, filter_In. split; [|done]. by apply list_elem_of_In, HS.
Qed.

(** Every held session has its stored revision, or is still to be looked at. *)
Definition covered (store : PluginGrantStore) (pending : list (string * string)) (w : Host) : Prop :=
  ∀ s, held w s → stored_revision store (ls_plugin_key s) = ls_grant_revision s
                  ∨ (ls_plugin_key s, ls_grant_revision s) ∈ pending.

Lemma covered_later store pending w w' : others w w' → covered store pending w → covered store pending w'.
Proof. intros Ho Hc s Hs. by apply Hc, (held_before w w'). Qed.

Lemma sectioned_mismatched store pending (Q : unit → Host → Prop) w :
  coherent w → covered store pending w →
  (∀ w', others w w' → coherent w' → covered store [] w' → Q () w') →
  sectioned (fence_mismatched store pending) Q w.
Proof.
  revert w. induction pending as [|[key rev] pending IH]; intros w Hc Hcov HQ; cbn [fence_mismatched].
  { by apply HQ. }
  destruct (text_eq (stored_revision store key) rev) eqn:E; cbn [negb].
  { apply text_eq_true in E. cbn [bind]. apply IH; [done| |done]. intros s Hs.
    destruct (Hcov s Hs) as [|[Hh|]%elem_of_cons]; [by left| |by right]. injection Hh as -> ->. by left. }
  assert (Hne : stored_revision store key ≠ rev) by (intros E'; by rewrite <-text_eq_true, E in E').
  apply wp_bind. unfold fence_stale_grant_revisions. destruct (str_is_empty key) eqn:Ek.
  { apply text_eq_true in Ek as ->. cbn [wp]. apply IH; [done| |done]. intros s Hs.
    destruct (Hcov s Hs) as [|[Hh|]%elem_of_cons]; [by left| |by right].
    destruct Hs as (_ & Hk & _). by injection Hh as ?. }
  apply sectioned_fence. intros w1 H1 C1 Hst. apply IH; [done| |].
  - intros s Hs. destruct (covered_later _ _ _ _ H1 Hcov s Hs) as [|[Hh|]%elem_of_cons]; [by left| |by right].
    exfalso. injection Hh as Hk Hr. destruct Hs as (Hl & _ & Hf). apply bool_decide_eq_false_1 in Hf.
    apply Hf, Hst; [done|]. rewrite Hk, Hr. rewrite (proj2 (text_eq_true key key) eq_refl). cbn [andb].
    apply orb_true_iff. right. apply negb_true_iff. apply not_true_iff_false. rewrite text_eq_true. congruence.
  - intros w' H2. apply HQ. by etrans.
Qed.

Lemma sectioned_apply store (Q : unit → Host → Prop) w :
  (∀ w', others w w' → coherent w' → covered store [] w' → Q () w') →
  sectioned (apply_grant_store store) Q w.
Proof.
  intros HQ. apply wp_bind, wp_query; [done|]. intros w1 H1 C1. apply sectioned_mismatched; [done| |].
  - intros s (Hl & _). right. apply list_elem_of_fmap. by exists s.
  - intros w' H2. apply HQ. by etrans.
Qed.

(** A revision the store gives is a revision the file grants. *)
Lemma stored_granted c store w s :
  parse_file c = inr store → coherent w → held w s →
  stored_revision store (ls_plugin_key s) = ls_grant_revision s →
  granted c (ls_plugin_key s) (ls_grant_revision s).
Proof.
  intros Hp (_ & Hr & _) (Hl & _) Hs. unfold stored_revision in Hs. specialize (Hr s Hl).
  destruct (get_by_plugin_key store (ls_plugin_key s)) as [g|] eqn:Eg; cbn in Hs; [|congruence].
  exists store, g. split_and!; [done|done|by left].
Qed.

Lemma tick_safe w : coherent w → sectioned watch_tick (λ _ _, True) w.
Proof.
  intros _. apply wp_bind, wp_query; [done|]. intros w1 H1 C1. apply wp_bind, wp_query; [done|].
  intros w2 H2 C2. destruct (text_eq _ _); [done|]. apply wp_bind, wp_query; [done|]. intros w3 H3 C3.
  destruct (parse_file (file w3)) as [e|store] eqn:Ep; [done|]. apply wp_bind, sectioned_apply.
  intros w4 H4 C4 Hcov. apply wp_exec. intros w5 H5 C5. cbn [fst snd]. split_and!; [done| |done].
  pose proof C5 as (Hl & Hr & _). split_and!; [done|done|]. intros _.
  assert (H13 : others w1 w3) by by etrans.
  assert (H35 : others w3 w5) by by etrans.
  exists (pred (length (written w1))), (file w1). split_and!.
  - cbn. eapply lookup_written; [|by apply current_index]. by etrans.
  - done.
  - intros s Hs. exists (pred (length (written w3))), (file w3). split_and!.
    + destruct H13 as (Hp & _). apply prefix_length in Hp. lia.
    + cbn. eapply lookup_written; [exact H35|by apply current_index].
    + assert (Hs' : held w5 s) by exact Hs.
      apply (stored_granted _ store w5); [done|done|done|].
      destruct (covered_later _ _ _ _ H5 Hcov s Hs') as [|Hn]; [done|]. by apply elem_of_nil in Hn.
Qed.

Lemma reconcile_safe w : coherent w → sectioned reconcile_grants_from_disk (λ _ _, True) w.
Proof.
  intros _. apply wp_bind, wp_query; [done|]. intros w1 H1 C1.
  destruct (parse_file (file w1)); [done|]. by apply sectioned_apply.
Qed.

(** A content the file held no earlier than the one the watcher last saw. *)
Definition recent (j : nat) (d : grants_file) (w : Host) : Prop :=
  written w !! j = Some d
  ∧ (distinct w → ∃ i c, (i ≤ j)%nat ∧ written w !! i = Some c ∧ fingerprint c = last w).

Lemma recent_later j d w w' : others w w' → recent j d w → recent j d w'.
Proof.
  intros Ho [Hj Hr]. split; [by eapply lookup_written|]. intros Hd.
  destruct Hr as (i & c & Hij & Hi & Hc); [eapply distinct_before; [apply Ho|done]|].
  exists i, c. destruct Ho as (Hp & HL & _). rewrite HL. split_and!; [done|by eapply prefix_lookup_Some|done].
Qed.

Lemma current_recent w : coherent w → recent (pred (length (written w))) (file w) w.
Proof.
  intros Hc. split; [by apply current_index|]. intros Hd. destruct Hc as (_ & _ & Hx).
  destruct (Hx Hd) as (i & c & Hi & Hcl & _). exists i, c. split_and!; [|done|done].
  apply lookup_lt_Some in Hi. lia.
Qed.

(** A file that held [d] recently grants [key] the revision [rev]. *)
Definition recently_granted (key rev : string) (w : Host) : Prop :=
  key ≠ "" → ∃ j d, recent j d w ∧ granted d key rev.

Lemma recently_granted_later key rev w w' :
  others w w' → recently_granted key rev w → recently_granted key rev w'.
Proof. intros Ho Hr Hk. destruct (Hr Hk) as (j & d & Hj & Hg). exists j, d. split; [by eapply recent_later|done]. Qed.

Definition grants_spawn (p : DiscoveredPlugin Value) (r : checked PluginGrant) (w : Host) : Prop :=
  match r with inl _ => True | inr g => recently_granted (dp_key p) (grant_revision g) w end.

Lemma effective_granted (p : DiscoveredPlugin Value) now w store existing :
  coherent w → parse_file (file w) = inr store → get_by_plugin_key store (dp_key p) = Some existing →
  recently_granted (dp_key p)
    (grant_revision (effective_grant existing (consent_request (dp_manifest p) (dp_key p) now))) w.
Proof.
  intros Hc Hp Hg _. exists (pred (length (written w))), (file w). split; [by apply current_recent|].
  exists store, existing. split_and!; [done|done|right; by exists (dp_manifest p), now].
Qed.

Lemma require_grant_safe (p : DiscoveredPlugin Value) now w :
  sectioned (require_grant p now) (grants_spawn p) w.
Proof.
  apply wp_bind, wp_query; [done|]. intros w1 H1 C1. destruct (parse_file (file w1)) as [|store] eqn:Ep; [done|].
  cbv zeta.
  destruct (get_by_plugin_key store (dp_key p)) as [existing|] eqn:Eg; [|done].
  destruct (grant_covers _ _); [|done]. by eapply effective_granted.
Qed.

Lemma upserted_granted (p : DiscoveredPlugin Value) now store text w :
  coherent w → to_string (upsert_rows (consent_request (dp_manifest p) (dp_key p) now) store) = Some text →
  recently_granted (dp_key p) (grant_revision (consent_request (dp_manifest p) (dp_key p) now))
    (replace_file (Bytes text) w).
Proof.
  intros Hc Ht Hk. set (g := consent_request (dp_manifest p) (dp_key p) now) in *.
  pose proof (coherent_replace (Bytes text) w Hc) as Hc'.
  exists (pred (length (written (replace_file (Bytes text) w)))), (file (replace_file (Bytes text) w)).
  split; [by apply current_recent|].
  assert (Hf : file (replace_file (Bytes text) w) = Bytes text).
  { unfold replace_file. by case_bool_decide. }
  rewrite Hf. exists (upsert_rows g store), g. cbn [parse_file].
  destruct (serde_roundtrip (upsert_rows g store)) as (text' & Ht' & Hfs).
  rewrite Ht in Ht'. injection Ht' as <-. rewrite Hfs. split_and!; [done| |by left].
  rewrite get_by_plugin_key_upsert.
  change (plugin_key g) with (dp_key p). rewrite (proj2 (text_eq_true _ _) eq_refl).
  destruct (str_is_empty (dp_key p)) eqn:E; [by apply text_eq_true in E|done].
Qed.

Lemma renew_safe (p : DiscoveredPlugin Value) now store w :
  let requested := consent_request (dp_manifest p) (dp_key p) now in
  sectioned (let* store := upsert_store requested store in
             let* saved := save_store store in
             match saved with inl e => Ret (inl e) | inr _ => Ret (inr requested) end) (grants_spawn p) w.
Proof.
  intros requested.
  assert (Hsave : ∀ w, sectioned (let* saved := save_store (upsert_rows requested store) in
    match saved with inl e => Ret (inl e) | inr _ => Ret (inr requested) end) (grants_spawn p) w).
  { intros w1. unfold save_store. destruct (to_string _) as [text|] eqn:Et; [|done].
    apply wp_bind, wp_exec. intros w2 H2 C2. cbn [fst snd]. split_and!; [done|by apply coherent_replace|].
    by eapply upserted_granted. }
  apply wp_bind. unfold upsert_store. apply wp_bind. destruct (str_is_empty _).
  { apply Hsave. }
  unfold fence_stale_grant_revisions. destruct (str_is_empty _); [apply Hsave|].
  apply sectioned_fence. intros w1 H1 C1 _. apply Hsave.
Qed.

Lemma spawn_grant_safe (p : DiscoveredPlugin Value) now w : sectioned (spawn_grant p now) (grants_spawn p) w.
Proof.
  unfold spawn_grant, ensure_platform_grant. destruct (dp_platform p); cbn [negb]; [|apply require_grant_safe].
  destruct (is_safe_platform_request _); cbn [negb]; [|done].
  apply wp_bind, wp_query; [done|]. intros w1 H1 C1. destruct (parse_file (file w1)) as [|store] eqn:Ep; [done|].
  cbv zeta.
  destruct (get_by_plugin_key store (dp_key p)) as [existing|] eqn:Eg; [|apply renew_safe].
  destruct (grant_within_ceiling _ _); [by eapply effective_granted|apply renew_safe].
Qed.

Lemma still_current_safe overlay (p : DiscoveredPlugin Value) grant_rev authority_rev now w :
  sectioned (grant_still_current overlay p grant_rev authority_rev now)
    (λ r w', match r with inl _ => True | inr _ => recently_granted (dp_key p) grant_rev w' end) w.
Proof.
  apply wp_bind. eapply wp_mono; [|apply spawn_grant_safe]. intros [e|g] w1 Hg; [done|].
  destruct (text_eq (grant_revision g) grant_rev) eqn:E; cbn [negb orb]; [|done].
  destruct (negb _); [done|]. apply text_eq_true in E. by rewrite <-E.
Qed.

(** A session that is registered keeps coherence when its grant is recent. *)
Lemma coherent_register key grant_rev revision cancelled shutdown w :
  coherent w → grant_rev ≠ "" → recently_granted key grant_rev w →
  coherent (w <| live := live w ++ [mk_LiveSession key grant_rev revision cancelled shutdown] |>).
Proof.
  intros (Hl & Hr & Hd) Hne Hg. split_and!; [done| |].
  - intros s [Hs|Hs%list_elem_of_singleton]%elem_of_app; [auto|by subst s].
  - intros Hdis. destruct (Hd Hdis) as (i & c & Hi & Hc & Hs). exists i, c. split_and!; [done|done|].
    intros s (Hin & Hk & Hf). apply elem_of_app in Hin as [Hin|Hin%list_elem_of_singleton]; [by apply Hs|]. subst s.
    destruct (Hg Hk) as (j & d & [Hj Hrec] & Hgr). destruct (Hrec Hdis) as (i' & c' & Hij & Hi' & Hc').
    exists j, d. split_and!; [|done|done]. rewrite (Hdis i i' c c'); [done..|congruence].
Qed.

Lemma section_safe p w : section (Value := Value) p → coherent w → sectioned p (λ _ _, True) w.
Proof.
  intros Hp Hc. destruct Hp as [| |overlay p grant_rev authority_rev now Hne
    |overlay p grant_rev authority_rev now shutdown cancel Hne].
  - by apply tick_safe.
  - by apply reconcile_safe.
  - apply wp_bind. eapply wp_mono; [|apply still_current_safe]. done.
  - apply wp_bind. eapply wp_mono; [|apply still_current_safe]. intros [e|[]] w1 Hg; apply wp_exec;
      intros w2 H2 C2; cbn [fst snd]; (split_and!; [done| |done]).
    + apply (coherent_shrink w2); [done| |done|done]. split_and!; cbn; [done..|set_solver].
    + apply coherent_register; [done|done|by eapply recently_granted_later].
Qed.

(** C23: Revocation reaches every running session: from a moment at which the watcher had caught
    up, whatever spawns, ticks, in-process approvals, session ends and writes of the file by
    other processes follow and wherever they fall inside each other's sections, whenever the
    watcher's fingerprint is that of the file, each session that may still act runs under a
    revision the file grants its plugin. The file must not have returned to an earlier content. *)
Theorem no_session_outlives_its_grant w0 h w s :
  written w0 = [file w0] → last w0 = fingerprint (file w0) →
  (∀ s, s ∈ live w0 → ls_grant_revision s ≠ "") →
  (∀ s, held w0 s → granted (file w0) (ls_plugin_key s) (ls_grant_revision s)) →
  rtc (epoch_step (Value := Value)) (None, w0) (h, w) → distinct w → last w = fingerprint (file w) →
  held w s → granted (file w) (ls_plugin_key s) (ls_grant_revision s).
Proof.
  intros Hw0 Hl0 Hr0 Hs0 Hsteps Hd Hl Hs.
  assert (C0 : coherent w0).
  { split_and!; [by rewrite Hw0|done|]. intros _. exists 0%nat, (file w0). rewrite Hw0.
    split_and!; [done|done|]. intros s' Hs'. exists 0%nat, (file w0). auto. }
  assert (C : coherent w).
  { apply (locked_sound others (λ _ _, True) coherent (section (Value := Value)) outside (None, w0) (h, w));
      [| |exact C0|done|exact Hsteps].
    - intros p w1. apply section_safe.
    - intros. by apply outside_others. }
  pose proof (current_index w C) as Hcur. destruct C as (_ & _ & Hx).
  destruct (Hx Hd) as (i & c & Hi & Hc & Hall). destruct (Hall s Hs) as (j & d & Hij & Hj & Hg).
  assert (i = pred (length (written w))) as -> by (eapply Hd; [done..|congruence]).
  assert (j = pred (length (written w))) as -> by (apply lookup_lt_Some in Hj; lia). congruence.
Qed.

(** ** What a tick does *)

(** The store no longer gives the session its revision. *)
Definition stale (store : PluginGrantStore) (s : LiveSession) : Prop :=
  ls_plugin_key s ≠ "" ∧ stored_revision store (ls_plugin_key s) ≠ ls_grant_revision s.

(** [w'] is [w] after some stale sessions, all those of [who], were fenced. *)
Record fenced_in (store : PluginGrantStore) (who : LiveSession → Prop) (w w' : Host) : Prop := {
  fi_file : file w' = file w;
  fi_written : written w' = written w;
  fi_live : live w' = live w;
  fi_last : last w' = last w;
  fi_hit s : s ∈ live w → stale store s → who s →
    ls_cancelled s ∈ raised w' ∧ ls_shutdown s ∈ shutdowns w';
  fi_kept f : f ∈ raised w → f ∈ raised w';
  fi_hooks f : f ∈ shutdowns w → f ∈ shutdowns w';
  fi_only f : f ∈ raised w' → f ∈ raised w ∨ ∃ s, s ∈ live w ∧ stale store s ∧ ls_cancelled s = f;
}.

Lemma run_fence_stale store key w :
  (∀ s, s ∈ live w → ls_grant_revision s ≠ "") →
  fenced_in store (λ s, ls_plugin_key s = key) w
    (run (fence_stale_grant_revisions key (stored_revision store key)) w).2.
Proof.
  intros Hr. unfold fence_stale_grant_revisions. destruct (str_is_empty key) eqn:Ek.
  { apply text_eq_true in Ek as ->. split; try done; [|auto]. by intros s _ [Hk _] ?. }
  assert (Hne : key ≠ "") by (intros ->; done).
  set (hit s := text_eq (ls_plugin_key s) key && _).
  assert (Hhit : ∀ s, s ∈ live w → hit s = true ↔ ls_plugin_key s = key ∧ stale store s).
  { intros s Hs. unfold hit, stale. rewrite andb_true_iff, text_eq_true, orb_true_iff, negb_true_iff.
    specialize (Hr s Hs). unfold str_is_empty. rewrite <-not_true_iff_false, !text_eq_true.
    split; [intros [-> [Hx|Hx]]; split_and!; congruence|intros [-> [_ Hx]]; split; [done|right; congruence]]. }
  split; cbn; try done.
  - intros s Hs Hst Hk. assert (Hf : s ∈ List.filter hit (live w)).
    { apply list_elem_of_In, filter_In. split; [by apply list_elem_of_In|]. by apply Hhit. }
    split; apply elem_of_app; right; apply list_elem_of_fmap; by exists s.
  - set_solver.
  - set_solver.
  - intros f [Hf|(s & -> & Hs)%list_elem_of_fmap]%elem_of_app; [by left|right].
    apply list_elem_of_In, filter_In in Hs as [Hs%list_elem_of_In Hh]. exists s.
    split_and!; [done|by apply Hhit|done].
Qed.

Lemma run_fence_mismatched store pending w :
  (∀ s, s ∈ live w → ls_grant_revision s ≠ "") →
  fenced_in store (λ s, (ls_plugin_key s, ls_grant_revision s) ∈ pending) w
    (run (fence_mismatched store pending) w).2.
Proof.
  revert w. induction pending as [|[key rev] pending IH]; intros w Hr; cbn [fence_mismatched].
  { split; try done; [|auto]. intros s _ _ Hn. by apply elem_of_nil in Hn. }
  rewrite run_bind. set (w1 := (run (if negb (text_eq (stored_revision store key) rev) then _ else _) w).2).
  assert (H1 : fenced_in store (λ s, (ls_plugin_key s, ls_grant_revision s) = (key, rev)) w w1).
  { unfold w1. destruct (text_eq (stored_revision store key) rev) eqn:E; cbn [negb].
    - apply text_eq_true in E. split; try done; [|auto]. intros s _ [_ Hst] Hx. congruence.
    - destruct (run_fence_stale store key w Hr). split; try done. intros s Hs Hst Hx. apply fi_hit0; [done..|].
      congruence. }
  destruct H1. destruct (IH w1) as []; [by rewrite fi_live0|].
  split; [congruence..| | | |]; rewrite ?fi_live0 in *.
  - intros s Hs Hst [Hx|Hx]%elem_of_cons; [|by apply fi_hit1].
    destruct (fi_hit0 s Hs Hst Hx). auto.
  - auto.
  - auto.
  - intros f Hf. destruct (fi_only1 f Hf) as [Hf1|]; [|by right]. by apply fi_only0.
Qed.

Lemma run_apply store w :
  (∀ s, s ∈ live w → ls_grant_revision s ≠ "") →
  fenced_in store (λ s, s ∈ live w) w (run (apply_grant_store store) w).2.
Proof.
  intros Hr. unfold apply_grant_store. rewrite run_bind. cbn [run query fst snd].
  destruct (run_fence_mismatched store (map (λ s, (ls_plugin_key s, ls_grant_revision s)) (live w)) w Hr).
  split; try done. intros s Hs Hst _. apply fi_hit0; [done..|]. apply list_elem_of_fmap. by exists s.
Qed.

(** C24: One tick that finds the file changed and readable catches up: it raises the flag and
    runs the hook of every session whose stored revision is another one or gone, raises no other
    flag, and leaves the watcher at the fingerprint of the file. *)
Theorem tick_fences_exactly_the_stale w store :
  (∀ s, s ∈ live w → ls_grant_revision s ≠ "") → parse_file (file w) = inr store →
  last w ≠ fingerprint (file w) →
  let w' := (run watch_tick w).2 in
  last w' = fingerprint (file w') ∧ file w' = file w ∧ live w' = live w
  ∧ (∀ s, s ∈ live w → stale store s →
       is_fenced (ls_cancelled s) w' = true ∧ ls_shutdown s ∈ shutdowns w')
  ∧ ∀ f, f ∈ raised w' → f ∈ raised w ∨ ∃ s, s ∈ live w ∧ stale store s ∧ ls_cancelled s = f.
Proof.
  intros Hr Hp Hl. unfold watch_tick. rewrite !run_bind. cbn [run query grants_fingerprint fst snd].
  destruct (text_eq (fingerprint (file w)) (last w)) eqn:E; [apply text_eq_true in E; congruence|].
  rewrite run_bind. cbn [run load_store query fst snd]. rewrite Hp, run_bind.
  pose proof (run_apply store w Hr) as Ha. revert Ha. generalize (run (apply_grant_store store) w).
  intros [[] w1] []. cbn in *. rewrite fi_file0, fi_live0. split_and!; [done..| |done].
  intros s Hs Hst. destruct (fi_hit0 s Hs Hst Hs). split; [by apply bool_decide_eq_true_2|done].
Qed.

(** ** Sections run alone *)

Lemma run_section p w : section (Value := Value) p → rtc (epoch_step (Value := Value)) (None, w) (None, (run p w).2).
Proof.
  intros Hp. eapply rtc_l; [by apply locked_enter|]. clear Hp.
  revert w. induction p as [[]|X f k IH]; intros w; cbn [run].
  - apply rtc_once, locked_leave.
  - eapply rtc_l; [apply locked_access|]. apply IH.
Qed.

(** A spawn whose grant the file covers registers its session. *)
Lemma run_register overlay (p : DiscoveredPlugin Value) store g now shutdown cancel w :
  dp_platform p = false → parse_file (file w) = inr store → get_by_plugin_key store (dp_key p) = Some g →
  let requested := consent_request (dp_manifest p) (dp_key p) now in
  grant_covers g requested = true →
  let eff := effective_grant g requested in
  let s := mk_LiveSession (dp_key p) (grant_revision eff) (authority_revision (overlay eff)) cancel shutdown in
  (run (register_section overlay p (grant_revision eff) (authority_revision (overlay eff)) now shutdown cancel) w).2
  = w <| live := live w ++ [s] |>.
Proof.
  intros Hpl Hp Hg requested Hcov eff s. unfold register_section, grant_still_current, spawn_grant, require_grant.
  rewrite Hpl, !run_bind. cbn [run load_store query fst snd]. rewrite Hp. cbv zeta. rewrite Hg.
  fold requested. rewrite Hcov. cbn [run fst snd]. fold eff.
  rewrite !(proj2 (text_eq_true _ _) eq_refl). done.
Qed.

Lemma stored_revision_some store key g :
  get_by_plugin_key store key = Some g → stored_revision store key = grant_revision g.
Proof. intros Hg. unfold stored_revision. by rewrite Hg. Qed.

Lemma run_reconcile_disk store w :
  parse_file (file w) = inr store →
  (run reconcile_grants_from_disk w).2 = (run (apply_grant_store store) w).2.
Proof. intros Hp. unfold reconcile_grants_from_disk. rewrite run_bind. cbn [run load_store query fst snd]. by rewrite Hp. Qed.


(** A session spawned under the package the operator approved is left alone: neither its own
    registration nor any later look at a file that still holds the approved grant raises its flag,
    as long as no other session shares it. *)
Theorem approved_session_is_kept overlay (p : DiscoveredPlugin Value) ov t0 t1 now g store shutdown cancel w :
  limits_unsigned (dp_manifest p) → flags_trimmed (dp_manifest p) →
  match ov with Some ov => override_unsigned ov | None => True end →
  NoDup (map subscription (granted_consumers_from_manifest (dp_manifest p))) →
  build_approved_grant (consent_request (dp_manifest p) (dp_key p) t0) ov t1 = inr g →
  dp_platform p = false → parse_file (file w) = inr store → get_by_plugin_key store (dp_key p) = Some g →
  grant_covers g (consent_request (dp_manifest p) (dp_key p) now) = true →
  (∀ s, s ∈ live w → ls_grant_revision s ≠ "" ∧ ls_cancelled s ≠ cancel) →
  cancel ∉ raised w → grant_revision g ≠ "" →
  let w1 := (run (register_section overlay p (grant_revision g) (authority_revision (overlay g)) now
                    shutdown cancel) w).2 in
  (∃ s, s ∈ live w1 ∧ ls_cancelled s = cancel)
  ∧ is_fenced cancel (run reconcile_grants_from_disk w1).2 = false.
Proof.
  intros Hl Hft Hu Hnd Hb Hpl Hp Hg Hcov Hlive Hc Hne w1.
  assert (Heff : effective_grant g (consent_request (dp_manifest p) (dp_key p) now) = g).
  { change (effective_grant g (consent_request (dp_manifest p) (dp_key p) t0) = g).
    apply effective_settled. destruct ov as [ov|]; [by eapply override_settled|].
    injection Hb as <-. by apply request_settled. }
  assert (E1 := run_register overlay p store g now shutdown cancel w Hpl Hp Hg Hcov).
  cbv zeta in E1. rewrite Heff in E1.
  change (w1 = w <| live := live w ++ [mk_LiveSession (dp_key p) (grant_revision g)
    (authority_revision (overlay g)) cancel shutdown] |>) in E1.
  set (s := mk_LiveSession (dp_key p) (grant_revision g) (authority_revision (overlay g)) cancel shutdown) in *.
  assert (Hin : ∀ x, x ∈ live w1 → x ∈ live w ∨ x = s).
  { rewrite E1. cbn. by intros x [Hx|Hx%list_elem_of_singleton]%elem_of_app; [left|right]. }
  split.
  { exists s. split; [|done]. rewrite E1. cbn. apply elem_of_app. right. by apply list_elem_of_singleton. }
  rewrite (run_reconcile_disk store) by (by rewrite E1).
  assert (Hr1 : ∀ x, x ∈ live w1 → ls_grant_revision x ≠ "").
  { intros x Hx. destruct (Hin x Hx) as [Hw| ->]; [by apply Hlive|done]. }
  destruct (run_apply store w1 Hr1) as [_ _ _ _ _ _ _ Honly].
  apply bool_decide_eq_false_2. intros Hf. destruct (Honly cancel Hf) as [Hw|(x & Hx & [_ Hst] & Hxc)].
  - by rewrite E1 in Hw.
  - destruct (Hin x Hx) as [Hw| ->]; [by destruct (Hlive x Hw)|].
    apply Hst. cbn. by apply stored_revision_some.
Qed.

(** The fingerprint cannot see a file that comes back: after a grant was stored, a guest spawned and
    the former file restored between two ticks, the guest runs without a grant and no tick changes
    that. *)
Theorem restored_file_goes_unnoticed (p : DiscoveredPlugin Value) b before store g now cancel w :
  dp_platform p = false → dp_key p ≠ "" → last w = fingerprint (file w) →
  parse_file (file w) = inr before → get_by_plugin_key before (dp_key p) = None →
  parse_file (Bytes b) = inr store → get_by_plugin_key store (dp_key p) = Some g →
  grant_covers g (consent_request (dp_manifest p) (dp_key p) now) = true →
  grant_revision (effective_grant g (consent_request (dp_manifest p) (dp_key p) now)) ≠ "" →
  cancel ∉ raised w →
  ∃ w', rtc (epoch_step (Value := Value)) (None, w) (None, w') ∧ file w' = file w
    ∧ (∃ s, held w' s ∧ ls_plugin_key s = dp_key p ∧ ∀ rev, ¬ granted (file w') (dp_key p) rev)
    ∧ (run watch_tick w').2 = w'.
Proof.
  intros Hpl Hk Hl Hb Hbn Hp Hg Hcov Hne Hc. set (c := file w).
  assert (Hcb : Bytes b ≠ c) by (intros E; unfold c in E; rewrite <-E in Hb; congruence).
  set (w1 := replace_file (Bytes b) w).
  assert (F1 : file w1 = Bytes b) by (unfold w1, replace_file; by case_bool_decide).
  assert (E1 := run_register (λ g, g) p store g now 0%nat cancel w1 Hpl).
  rewrite F1 in E1. specialize (E1 Hp Hg Hcov). cbv zeta in E1.
  set (eff := effective_grant g _) in *.
  set (s := mk_LiveSession (dp_key p) (grant_revision eff) (authority_revision eff) cancel 0%nat) in *.
  set (w2 := w1 <| live := live w1 ++ [s] |>) in *.
  assert (R1 : raised w1 = raised w) by (unfold w1, replace_file; by case_bool_decide).
  assert (L1 : last w1 = last w) by (unfold w1, replace_file; by case_bool_decide).
  exists (replace_file c w2).
  assert (E2 : replace_file c w2 = w2 <| file := c |> <| written := written w2 ++ [c] |>).
  { unfold replace_file. case_bool_decide as Ec; [|done]. cbn in Ec. congruence. }
  split_and!.
  - eapply rtc_l; [apply locked_outside, (outside_write (Bytes b))|]. fold w1.
    etrans; [apply (run_section _ w1 (section_register (λ g, g) p (grant_revision eff)
      (authority_revision eff) now 0%nat cancel Hne))|].
    rewrite E1. apply rtc_once, locked_outside, outside_write.
  - by rewrite E2.
  - exists s. rewrite E2. split_and!; [split_and!| |]; [|done| |done|].
    + cbn. apply elem_of_app. right. by apply list_elem_of_singleton.
    + apply bool_decide_eq_false_2. cbn. by rewrite R1.
    + intros rev (store' & g' & Hp' & Hg' & _). cbn in Hp'. unfold c in Hp'. congruence.
  - rewrite E2. unfold watch_tick. rewrite !run_bind. cbn [run query grants_fingerprint fst snd].
    cbn [file last set_field set_file set_written set_live]. cbn. rewrite L1, Hl.
    by rewrite (proj2 (text_eq_true _ _) eq_refl).
Qed.
End Watching.
