(* ===== verification/ProxyModel.v ===== *)
(** * The socket proxy: [bookclerk-workerd/src/socket_proxy.rs]

    A native guest has no sockets of its own: it speaks HTTP CONNECT over an inherited link, and the
    host dials for it.  [handle_client] is one CONNECT session as an interactive program: every
    read, write, lookup and dial is an operation the outside world answers, raced against the
    session's cancel flag ([Select]); [Load] reads the flag.  [step] runs a session while another
    thread may set the flag at any moment. *)

From stdpp Require Import base option list strings pretty relations.
From Stdlib Require Import ZArith Lia.
From S2P Require Import Prelude BTree Text Address EventModels EventOutbox Manifest Consent Egress.

Local Open Scope Z_scope.

(** ** Text *)

Definition between (lo hi : N) (c : Ascii.ascii) : bool := char_in lo hi c.
Definition continuation (c : Ascii.ascii) : bool := between 128 191 c.
Definition REPLACEMENT : string := String (byte 239) (String (byte 191) (String (byte 189) "")).

(** Whether [a] starts a character whose second byte may be [b]: of three, of four bytes. *)
Definition second_of_3 (a b : Ascii.ascii) : bool :=
  is_char 224 a && between 160 191 b || between 225 236 a && continuation b
  || is_char 237 a && between 128 159 b || between 238 239 a && continuation b.
Definition second_of_4 (a b : Ascii.ascii) : bool :=
  is_char 240 a && between 144 191 b || between 241 243 a && continuation b
  || is_char 244 a && between 128 143 b.

(** [String::from_utf8_lossy]: each maximal broken prefix of a character becomes U+FFFD. *)
Fixpoint from_utf8_lossy (s : string) : string :=
  match s with
  | EmptyString => EmptyString
  | String a s1 =>
      if (code a <? 128)%N then String a (from_utf8_lossy s1) else
      match s1 with
      | EmptyString => REPLACEMENT
      | String b s2 =>
          if between 194 223 a then
            if continuation b then String a (String b (from_utf8_lossy s2))
            else REPLACEMENT +:+ from_utf8_lossy s1
          else if second_of_3 a b then
            match s2 with
            | EmptyString => REPLACEMENT
            | String c s3 =>
                if continuation c then String a (String b (String c (from_utf8_lossy s3)))
                else REPLACEMENT +:+ from_utf8_lossy s2
            end
          else if second_of_4 a b then
            match s2 with
            | EmptyString => REPLACEMENT
            | String c s3 =>
                if continuation c then
                  match s3 with
                  | EmptyString => REPLACEMENT
                  | String d s4 =>
                      if continuation d
                      then String a (String b (String c (String d (from_utf8_lossy s4))))
                      else REPLACEMENT +:+ from_utf8_lossy s3
                  end
                else REPLACEMENT +:+ from_utf8_lossy s2
            end
          else REPLACEMENT +:+ from_utf8_lossy s1
      end
  end.

(** [str::split_whitespace]; [cur] is the word being read, reversed, and [skip] bytes of a
    white-space character remain to be dropped. *)
Definition word (cur : string) : list string := if str_is_empty cur then [] else [rev_string "" cur].
Fixpoint split_whitespace_go (skip : nat) (cur s : string) : list string :=
  match s with
  | EmptyString => word cur
  | String c s' =>
      match skip with
      | S n => split_whitespace_go n cur s'
      | O => match white_space s with
             | Some (S n) => word cur ++ split_whitespace_go n "" s'
             | _ => split_whitespace_go 0 (String c cur) s'
             end
      end
  end.
Definition split_whitespace (s : string) : list string := split_whitespace_go 0 "" s.

(** [str::split_once] on a text, [str::rsplit_once] on a character. *)
Fixpoint split_once_str (sep cur s : string) : option (string * string) :=
  match strip_prefix sep s with
  | Some rest => Some (rev_string "" cur, rest)
  | None => match s with EmptyString => None | String c s => split_once_str sep (String c cur) s end
  end.
Fixpoint rsplit_once (n : N) (s : string) : option (string * string) :=
  match s with
  | EmptyString => None
  | String c s' =>
      match rsplit_once n s' with
      | Some (a, b) => Some (String c a, b)
      | None => if is_char n c then Some (EmptyString, s') else None
      end
  end.

(** [str::parse::<u16>]. *)
Definition parse_u16 (s : string) : option Z :=
  let s := default s (strip_prefix "+" s) in
  let r := read_digits 10 s in
  let value := fold_left (λ acc d, acc * 10 + d) r.1 0 in
  if str_is_empty r.2 && negb (bool_decide (r.1 = [])) && (value <=? 65535) then Some value else None.

Definition parse_authority (target : string) : checked (string * Z) :=
  match strip_prefix "[" target with
  | Some rest =>
      match split_once_str "]:" "" rest with
      | None => inl ("invalid IPv6 CONNECT target `" +:+ target +:+ "`")
      | Some (host, port_part) =>
          match parse_u16 port_part with
          | None => inl ("invalid port `" +:+ port_part +:+ "`")
          | Some port => inr (host, port)
          end
      end
  | None =>
      match rsplit_once 58 target with
      | None => inl ("invalid CONNECT target `" +:+ target +:+ "`")
      | Some (host, port_part) =>
          match parse_u16 port_part with
          | None => inl ("invalid port `" +:+ port_part +:+ "`")
          | Some port => inr (host, port)
          end
      end
  end.

Definition parse_connect (request : string) : checked (string * Z) :=
  let parts := split_whitespace request in
  let method := default "" (parts !! 0%nat) in
  let target := default "" (parts !! 1%nat) in
  if negb (eq_ignore_ascii_case method "CONNECT")
  then inl ("expected CONNECT, got " +:+ request) else parse_authority target.

(** ** Sessions *)

Record SocketAddr : Type := mk_SocketAddr { addr_ip : IpAddr; addr_port : Z }.
#[global] Instance SocketAddr_eq_dec : EqDecision SocketAddr.
Proof. solve_decision. Defined.

(** Where bytes are written: the response to the guest before the relay, and the two ends of it. *)
Inductive target : Type := Response | Upstream | Client.
#[global] Instance target_eq_dec : EqDecision target.
Proof. solve_decision. Defined.

Inductive op : Type :=
| ReadChunk
| Lookup (host : string) (port : Z)
| Delay
| Connect (dest : SocketAddr)
| Write (t : target) (bytes : string)
| Flush
| Relay
| Shutdown (t : target).

(** What a read of the handshake brings: a non-empty chunk, the end, an error, or the handshake's
    deadline. *)
Inductive chunk : Type :=
| Chunk (first : Ascii.ascii) (rest : string)
| ChunkEof
| ChunkError (e : string)
| Elapsed.

(** The branch of the relay's [select!] that is ready, and what it read. *)
Inductive relayed : Type :=
| FromClient (r : string + string)
| FromUpstream (r : string + string).

Definition answer (o : op) : Type :=
  match o with
  | ReadChunk => chunk
  | Lookup _ _ => string + list SocketAddr
  | Delay => unit
  | Connect _ | Write _ _ | Flush | Shutdown _ => string + unit
  | Relay => relayed
  end.

Inductive io (A : Type) : Type :=
| Return (a : A)
| Load (k : bool → io A)
| Select (o : op) (k : option (answer o) → io A)
| Await (o : op) (k : answer o → io A).
Arguments Return {A} a.
Arguments Load {A} k.
Arguments Select {A} o k.
Arguments Await {A} o k.

Fixpoint io_bind {A B} (p : io A) (f : A → io B) : io B :=
  match p with
  | Return a => f a
  | Load k => Load (λ b, io_bind (k b) f)
  | Select o k => Select o (λ a, io_bind (k a) f)
  | Await o k => Await o (λ a, io_bind (k a) f)
  end.

(** A handshake that completes, fails or runs out of time. *)
Inductive outcome (A : Type) : Type :=
| Done (a : A)
| Fails (e : string)
| TimedOut.
Arguments Done {A} a.
Arguments Fails {A} e.
Arguments TimedOut {A}.

Definition MAX_CONNECT_TASKS : nat := 16.
Definition MAX_REQUEST_LINE : nat := 2048.
Definition MAX_HEADER_BYTES : nat := 8192.
Definition MAX_HEADER_COUNT : nat := 32.
Definition FENCED : string := "session fenced".
Definition crlf : string := String (byte 13) (String (byte 10) "").
Definition http (status headers body : string) : string :=
  "HTTP/1.1 " +:+ status +:+ crlf +:+ headers +:+ crlf +:+ body.
Definition closing : string := "content-length: 0" +:+ crlf +:+ "connection: close" +:+ crlf.
Definition plain : string := "content-type: text/plain" +:+ crlf +:+ "connection: close" +:+ crlf.
Definition FORBIDDEN_FENCED : string := http "403 Forbidden" closing "".
Definition BAD_REQUEST : string := http "400 Bad Request" closing "".
Definition HANDSHAKE_TIMEOUT_BODY : string := http "408 Request Timeout" closing "".
Definition TCP_DENIED : string :=
  http "403 Forbidden" plain "tcp connect is not in capabilities.network.tcp".
Definition ADDRESS_DENIED : string :=
  http "403 Forbidden" plain "resolved address is outside the granted address space".
Definition BAD_GATEWAY : string := http "502 Bad Gateway" plain "could not dial an allowed address".
Definition ESTABLISHED : string := http "200 Connection Established" "" "".
Definition TEST_CHANNEL_IDENT_HOST : string := "bookclerk-test-channel".
Definition TEST_CHANNEL_IDENT_PORT : Z := 1.

(** One byte through the [BufReader], whose unread bytes are [buf]: a buffered byte is ready at once,
    so only the flag is read first. *)
Definition read_byte {A} (buf : string) (k : outcome (Ascii.ascii * string) → io A) : io A :=
  match buf with
  | String c buf => Load (λ fenced, if fenced then k (Fails FENCED) else k (Done (c, buf)))
  | EmptyString =>
      Select ReadChunk (λ a,
        match a with
        | None => k (Fails FENCED)
        | Some (Chunk c buf) => k (Done (c, buf))
        | Some ChunkEof => k (Fails "CONNECT handshake closed")
        | Some (ChunkError e) => k (Fails e)
        | Some Elapsed => k TimedOut
        end)
  end.

(** [read_bounded_line]: [out] holds the bytes read, [more] of them may follow. *)
Fixpoint read_bounded_line (max more : nat) (out buf : string) : io (outcome (string * string)) :=
  match more with
  | O => Return (Fails ("CONNECT line exceeds " +:+ pretty max +:+ " bytes"))
  | S more =>
      read_byte buf (λ r,
        match r with
        | Fails e => Return (Fails e)
        | TimedOut => Return TimedOut
        | Done (c, buf) =>
            let out := out +:+ String c "" in
            if is_char 10 c then Return (Done (out, buf)) else read_bounded_line max more out buf
        end)
  end.

Definition read_line (buf : string) : io (outcome (string * string)) :=
  read_bounded_line MAX_REQUEST_LINE MAX_REQUEST_LINE "" buf.

(** [u8::is_ascii_whitespace]. *)
Definition is_ascii_whitespace (c : Ascii.ascii) : bool :=
  is_char 9 c || is_char 10 c || is_char 12 c || is_char 13 c || is_char 32 c.

(** The loop over the header lines.  A count above [MAX_HEADER_COUNT] ends it, so it turns at most
    [MAX_HEADER_COUNT + 1] times: [more] is what is left of them. *)
Fixpoint read_headers (more header_bytes header_count : nat) (buf : string) : io (outcome string) :=
  let over := Fails "CONNECT headers exceed the admission cap" in
  match more with
  | O => Return over
  | S more =>
      io_bind (read_line buf) (λ r,
        match r with
        | Fails e => Return (Fails e)
        | TimedOut => Return TimedOut
        | Done (header, buf) =>
            if all_indexed (λ _ c, is_ascii_whitespace c) 0 header then Return (Done buf) else
            let header_count := S header_count in
            let header_bytes := (header_bytes + String.length header)%nat in
            if (MAX_HEADER_COUNT <? header_count)%nat || (MAX_HEADER_BYTES <? header_bytes)%nat
            then Return over else read_headers more header_bytes header_count buf
        end)
  end.

Definition read_connect_headers : io (outcome (string * Z * string)) :=
  io_bind (read_line "") (λ r,
    match r with
    | Fails e => Return (Fails e)
    | TimedOut => Return TimedOut
    | Done (line, buf) =>
        match parse_connect (trim_end (from_utf8_lossy line)) with
        | inl e => Return (Fails e)
        | inr (host, port) =>
            io_bind (read_headers (S MAX_HEADER_COUNT) 0 0 buf) (λ r,
              match r with
              | Fails e => Return (Fails e)
              | TimedOut => Return TimedOut
              | Done buf => Return (Done (host, port, buf))
              end)
        end
    end).

(** [write_fenced] and [shutdown_fenced]. *)
Definition fenced_op (o : op) (unit_answer : answer o → checked unit) : io (checked unit) :=
  Select o (λ a, match a with None => Return (inl FENCED) | Some a => Return (unit_answer a) end).
Definition write_fenced (t : target) (bytes : string) : io (checked unit) :=
  fenced_op (Write t bytes) (λ r, r).
Definition shutdown_fenced (t : target) : io (checked unit) := fenced_op (Shutdown t) (λ r, r).

(** [?] on a unit result, and a result that is ignored before an error. *)
Definition and_then (p : io (checked unit)) (q : io (checked unit)) : io (checked unit) :=
  io_bind p (λ r, match r with inl e => Return (inl e) | inr _ => q end).
Definition then_bail (p : io (checked unit)) (e : string) : io (checked unit) :=
  io_bind p (λ _, Return (inl e)).
Definition try_bail (p : io (checked unit)) (e : string) : io (checked unit) :=
  and_then p (Return (inl e)).

(** [fence.load]. *)
Definition if_fenced {A} (stop go : io A) : io A := Load (λ fenced, if fenced then stop else go).

(** [splice], for [fuel] turns of its loop. *)
Fixpoint splice (fuel : nat) : io (checked unit) :=
  match fuel with
  | O => Return (inl "relay cut")
  | S fuel =>
      if_fenced (Return (inl FENCED))
        (Select Relay (λ a,
           match a with
           | None => Return (inl FENCED)
           | Some (FromClient (inl e)) | Some (FromUpstream (inl e)) => Return (inl e)
           | Some (FromClient (inr EmptyString)) =>
               io_bind (shutdown_fenced Upstream) (λ _, Return (inr ()))
           | Some (FromClient (inr bytes)) => and_then (write_fenced Upstream bytes) (splice fuel)
           | Some (FromUpstream (inr EmptyString)) =>
               io_bind (shutdown_fenced Client) (λ _, Return (inr ()))
           | Some (FromUpstream (inr bytes)) => and_then (write_fenced Client bytes) (splice fuel)
           end))
  end.

(** The dial loop: an established connection, or the last error. *)
Inductive dialled : Type :=
| Established
| NoUpstream (last_err : option string)
| DialFenced.

Fixpoint dial (last_err : option string) (addrs : list SocketAddr) : io dialled :=
  match addrs with
  | [] => Return (NoUpstream last_err)
  | dest :: addrs =>
      if_fenced (Return DialFenced)
        (Select (Connect dest) (λ a,
           match a with
           | None => dial (Some FENCED) addrs
           | Some (inl e) => dial (Some e) addrs
           | Some (inr _) => if_fenced (Return DialFenced) (Return Established)
           end))
  end.

Definition is_ipv6 (a : SocketAddr) : bool := negb (is_ipv4 (addr_ip a)).
(** [sort_by_key(is_ipv6)]. *)
Definition ipv4_first (addrs : list SocketAddr) : list SocketAddr :=
  order_by (λ a b, implb (is_ipv6 a) (is_ipv6 b)) addrs.

Section Session.
Context {I : Idna} (policy : EgressPolicy) (channel_tag : option string) (test_dial_delay : bool) (turns : nat).

(** From the dial on. *)
Definition dial_and_relay (host : string) (port : Z) (addrs : list SocketAddr) : io (checked unit) :=
  io_bind (dial None addrs) (λ d,
    match d with
    | DialFenced => Return (inl FENCED)
    | NoUpstream last_err =>
        then_bail (write_fenced Response BAD_GATEWAY)
          ("dial " +:+ host +:+ ":" +:+ pretty port +:+ ": " +:+ default "no addresses" last_err)
    | Established =>
        and_then (write_fenced Response ESTABLISHED)
          (and_then (fenced_op Flush (λ r, r)) (splice turns))
    end).

(** From the lookup on. *)
Definition resolve_and_dial (host : string) (port : Z) : io (checked unit) :=
  Select (Lookup host port) (λ a,
    match a with
    | None => Return (inl FENCED)
    | Some (inl e) => Return (inl ("resolve " +:+ host +:+ ": " +:+ e))
    | Some (inr looked_up) =>
        let addrs := List.filter (λ addr, allows_ip policy (addr_ip addr)) looked_up in
        if bool_decide (addrs = [])
        then try_bail (write_fenced Response ADDRESS_DENIED)
               ("no allowed address for " +:+ host +:+ ":" +:+ pretty port)
        else
        let stop := then_bail (write_fenced Response FORBIDDEN_FENCED) FENCED in
        let go := if_fenced stop (dial_and_relay host port (ipv4_first addrs)) in
        if test_dial_delay
        then Select Delay (λ a, match a with None => stop | Some _ => go end)
        else go
    end).

(** The answer to the reserved host of a tagged test session. *)
Definition answer_channel_tag (tag : string) : io (checked unit) :=
  and_then (write_fenced Response
      (http "200 Connection Established"
         ("content-length: " +:+ pretty (String.length tag) +:+ crlf +:+ "connection: close" +:+ crlf) ""))
    (and_then (write_fenced Response tag) (Await (Shutdown Response) (λ _, Return (inr ())))).

Definition connect_session (host : string) (port : Z) : io (checked unit) :=
  if_fenced (then_bail (write_fenced Response FORBIDDEN_FENCED) FENCED)
    (match channel_tag with
     | Some tag =>
         if eq_ignore_ascii_case host TEST_CHANNEL_IDENT_HOST && (port =? TEST_CHANNEL_IDENT_PORT)
         then answer_channel_tag tag
         else if negb (allows_tcp policy host port)
         then try_bail (write_fenced Response TCP_DENIED)
                ("tcp grant denied for " +:+ host +:+ ":" +:+ pretty port)
         else resolve_and_dial host port
     | None =>
         if negb (allows_tcp policy host port)
         then try_bail (write_fenced Response TCP_DENIED)
                ("tcp grant denied for " +:+ host +:+ ":" +:+ pretty port)
         else resolve_and_dial host port
     end).

Definition handle_client : io (checked unit) :=
  if_fenced (Return (inl FENCED))
    (io_bind read_connect_headers (λ r,
       match r with
       | Fails err => then_bail (write_fenced Response BAD_REQUEST) err
       | TimedOut =>
           then_bail (write_fenced Response HANDSHAKE_TIMEOUT_BODY) "CONNECT handshake timed out"
       | Done (host, port, _) => connect_session host port
       end)).
End Session.

(** ** Running a session *)

(** What the outside sees. *)
Inductive event : Type :=
| Cancelled
| Began (o : op)
| Ended (o : op) (a : answer o)
| Dropped (o : op).

Inductive activity (A : Type) : Type :=
| Running (p : io A)
| Racing (o : op) (k : option (answer o) → io A)
| Waiting (o : op) (k : answer o → io A).
Arguments Running {A} p.
Arguments Racing {A} o k.
Arguments Waiting {A} o k.

Record session (A : Type) : Type := mk_session { act : activity A; fence : bool; log : list event }.
Arguments mk_session {A} act fence log.
Arguments act {A} s.
Arguments fence {A} s.
Arguments log {A} s.

(** A biased [select!] polls the flag before its operation starts; while the operation is under
    way the flag may end it.  The flag is only ever set. *)
Inductive step {A} : session A → session A → Prop :=
| step_cancel c f h : step (mk_session c f h) (mk_session c true (h ++ [Cancelled]))
| step_load k f h : step (mk_session (Running (Load k)) f h) (mk_session (Running (k f)) f h)
| step_stopped o k h :
    step (mk_session (Running (Select o k)) true h) (mk_session (Running (k None)) true h)
| step_begin o k h :
    step (mk_session (Running (Select o k)) false h) (mk_session (Racing o k) false (h ++ [Began o]))
| step_end o k f h a :
    step (mk_session (Racing o k) f h) (mk_session (Running (k (Some a))) f (h ++ [Ended o a]))
| step_drop o k h :
    step (mk_session (Racing o k) true h) (mk_session (Running (k None)) true (h ++ [Dropped o]))
| step_await o k f h :
    step (mk_session (Running (Await o k)) f h) (mk_session (Waiting o k) f (h ++ [Began o]))
| step_awaited o k f h a :
    step (mk_session (Waiting o k) f h) (mk_session (Running (k a)) f (h ++ [Ended o a])).

(** The sessions a program can be in. *)
Definition reaches {A} (p : io A) (s : session A) : Prop :=
  ∃ f, rtc step (mk_session (Running p) f []) s.
