(* ===== verification/ProxySpec.v ===== *)
(** * What the socket proxy guarantees

    Whatever the guest, the resolver, the network and the moment of a revocation: the proxy dials
    only granted addresses for granted destinations, relays bytes unchanged, starts nothing once the
    session is fenced, and reads a bounded handshake. *)

From stdpp Require Import base option list strings pretty relations.
From Stdlib Require Import ZArith Lia.
From S2P Require Import Prelude BTree Text Address EventModels EventOutbox Manifest Consent Egress ProxyModel.

Local Open Scope nat_scope.

(** ** Reading a log *)

Definition not_cancel (e : event) : bool := match e with Cancelled => false | _ => true end.
(** The log without the cancellations. *)
Definition own (h : list event) : list event := List.filter not_cancel h.

Fixpoint bytes_of (f : event → string) (h : list event) : string :=
  match h with [] => "" | e :: h => f e +:+ bytes_of f h end.

(** The bytes of a completed write to [t], of a relay read, and a handshake read. *)
Definition wrote (t : target) (e : event) : string :=
  match e with
  | Ended o a =>
      match o return answer o → string with
      | Write t' s => λ a, match a with inr _ => if decide (t' = t) then s else "" | inl _ => "" end
      | _ => λ _, ""
      end a
  | _ => ""
  end.
Definition read_client (e : event) : string :=
  match e with
  | Ended o a =>
      match o return answer o → string with
      | Relay => λ a, match a with FromClient (inr s) => s | _ => "" end
      | _ => λ _, ""
      end a
  | _ => ""
  end.
Definition read_upstream (e : event) : string :=
  match e with
  | Ended o a =>
      match o return answer o → string with
      | Relay => λ a, match a with FromUpstream (inr s) => s | _ => "" end
      | _ => λ _, ""
      end a
  | _ => ""
  end.
Definition is_read (e : event) : bool := match e with Began ReadChunk => true | _ => false end.
Definition reads (h : list event) : nat := length (List.filter is_read h).

Lemma bytes_of_app f h h' : bytes_of f (h ++ h') = bytes_of f h +:+ bytes_of f h'.
Proof. induction h as [|e h IH]; [done|]. cbn. rewrite IH. by rewrite append_assoc. Qed.

Lemma reads_app h h' : reads (h ++ h') = reads h + reads h'.
Proof. unfold reads. by rewrite List.filter_app, length_app. Qed.

(** ** Programs whose every operation meets a demand *)

Section Demands.
Context (P : list event → op → Prop).

(** Every operation of [p] meets [P] after the log it starts from, and [Q] holds at the end. *)
Fixpoint meets {A} (p : io A) (h : list event) (Q : list event → A → Prop) : Prop :=
  match p with
  | Return a => Q h a
  | Load k => ∀ b, meets (k b) h Q
  | Select o k =>
      P h o ∧ meets (k None) h Q ∧ meets (k None) (h ++ [Began o; Dropped o]) Q
      ∧ ∀ a, meets (k (Some a)) (h ++ [Began o; Ended o a]) Q
  | Await o k => P h o ∧ ∀ a, meets (k a) (h ++ [Began o; Ended o a]) Q
  end.

Lemma meets_mono {A} (p : io A) h (Q Q' : list event → A → Prop) :
  (∀ h a, Q h a → Q' h a) → meets p h Q → meets p h Q'.
Proof.
  intros HQ. revert h. induction p as [a|k IH|o k IH|o k IH]; intros h; cbn [meets]; [apply HQ|eauto| |].
  - intros (? & ? & ? & ?). eauto 10.
  - intros (? & ?). eauto.
Qed.

Lemma meets_bind {A B} (p : io A) (f : A → io B) h (Q : list event → B → Prop) :
  meets (io_bind p f) h Q ↔ meets p h (λ h a, meets (f a) h Q).
Proof.
  revert h. induction p as [a|k IH|o k IH|o k IH]; intros h; cbn [meets io_bind]; [done|..].
  - by setoid_rewrite IH.
  - by setoid_rewrite IH.
  - by setoid_rewrite IH.
Qed.

(** The demand holds of every operation a session begins. *)
Definition met (h : list event) : Prop :=
  ∀ h1 o h2, h = h1 ++ Began o :: h2 → P (own h1) o.

Definition act_meets {A} (s : session A) : Prop :=
  match act s with
  | Running p => meets p (own (log s)) (λ _ _, True)
  | Racing o k => ∃ h, own (log s) = h ++ [Began o]
      ∧ meets (k None) (h ++ [Began o; Dropped o]) (λ _ _, True)
      ∧ ∀ a, meets (k (Some a)) (h ++ [Began o; Ended o a]) (λ _ _, True)
  | Waiting o k => ∃ h, own (log s) = h ++ [Began o] ∧ ∀ a, meets (k a) (h ++ [Began o; Ended o a]) (λ _ _, True)
  end.

Lemma own_app h h' : own (h ++ h') = own h ++ own h'.
Proof. apply List.filter_app. Qed.

Lemma app_last_cons {X} (h h1 h2 : list X) e x :
  h ++ [e] = h1 ++ x :: h2 → (h2 = [] ∧ h = h1 ∧ e = x) ∨ ∃ h3, h2 = h3 ++ [e] ∧ h = h1 ++ x :: h3.
Proof.
  induction h2 as [|y h3 _] using rev_ind; intros E.
  - apply app_inj_tail in E as [-> ->]. by left.
  - rewrite app_comm_cons, app_assoc in E. apply app_inj_tail in E as [-> ->]. right. eauto.
Qed.

Lemma met_snoc h e : met h → (∀ o, e = Began o → P (own h) o) → met (h ++ [e]).
Proof.
  intros Hm He h1 o h2 [(-> & -> & ->)|(h3 & -> & ->)]%app_last_cons; [by apply He|by eapply Hm].
Qed.

Lemma step_meets {A} (s s' : session A) :
  step s s' → met (log s) ∧ act_meets s → met (log s') ∧ act_meets s'.
Proof.
  intros Hs [Hm Ha].
  destruct Hs as [c f h|k f h|o k h|o k h|o k f h a|o k h|o k f h|o k f h a];
    unfold act_meets in *; cbn [act log fence] in *; rewrite ?own_app; cbn [own List.filter not_cancel];
    rewrite ?app_nil_r.
  - split; [|done]. by apply met_snoc.
  - split; [done|]. apply Ha.
  - split; [done|]. apply Ha.
  - destruct Ha as (HP & _ & ? & ?). split; [|eauto]. apply met_snoc; [done|]. by intros ? [= <-].
  - destruct Ha as (h' & E & _ & ?). split; [by apply met_snoc|]. rewrite E, <-app_assoc. auto.
  - destruct Ha as (h' & E & ? & _). split; [by apply met_snoc|]. rewrite E, <-app_assoc. auto.
  - destruct Ha as (HP & ?). split; [|eauto]. apply met_snoc; [done|]. by intros ? [= <-].
  - destruct Ha as (h' & E & ?). split; [by apply met_snoc|]. rewrite E, <-app_assoc. auto.
Qed.

Lemma reaches_met {A} (p : io A) s : meets p [] (λ _ _, True) → reaches p s → met (log s).
Proof.
  intros Hp (f & Hr).
  assert (Hs : met [] ∧ act_meets (mk_session (Running p) f [])).
  { split; [|done]. intros [|] ? ? E; discriminate E. }
  change [] with (log (mk_session (Running p) f [])) in Hs at 1.
  revert Hs. generalize (mk_session (Running p) f []) Hr. clear. intros s0 Hr.
  induction Hr as [|x y z Hxy _ IH]; [by intros [? _]|]. intros Hs. apply IH. by eapply step_meets.
Qed.
End Demands.

(** ** A CONNECT session *)

(** Bytes of one handshake: a request line, capped headers, and the line that ends them. *)
Definition HANDSHAKE_READS : nat := MAX_REQUEST_LINE + MAX_HEADER_BYTES + MAX_REQUEST_LINE.

Section Session.
Context {I : Idna} (policy : EgressPolicy) (channel_tag : option string) (test_dial_delay : bool).

(** What every operation of a session has to meet after the log [h]. *)
Definition demand (h : list event) (o : op) : Prop :=
  match o with
  | ReadChunk => reads h < HANDSHAKE_READS
  | Lookup host port => allows_tcp policy host port = true
  | Connect a => allows_ip policy (addr_ip a) = true
      ∧ ∃ host port addrs, Ended (Lookup host port) (inr addrs) ∈ h ∧ a ∈ addrs
        ∧ allows_tcp policy host port = true
  | Relay => ∃ a, Ended (Connect a) (inr ()) ∈ h
  | Write Upstream s => bytes_of (wrote Upstream) h +:+ s = bytes_of read_client h
  | Write Client s => bytes_of (wrote Client) h +:+ s = bytes_of read_upstream h
  | _ => True
  end.

(** Both directions are even: what was read was written. *)
Definition even (h : list event) : Prop :=
  bytes_of (wrote Upstream) h = bytes_of read_client h ∧ bytes_of (wrote Client) h = bytes_of read_upstream h.

Lemma even_app h h' : even h → even h' → even (h ++ h').
Proof. intros [E1 E2] [E3 E4]. unfold even. by rewrite !bytes_of_app, E1, E2, E3, E4. Qed.

Lemma wrote_Response h s a : even h → even (h ++ [Began (Write Response s); Ended (Write Response s) a]).
Proof. intros Hh. apply even_app; [done|]. by destruct a. Qed.

(** A response or a shutdown leaves the relay as it is. *)
Lemma meets_fenced_op o ua h (Q : list event → checked unit → Prop) :
  demand h o → Q h (inl FENCED) → Q (h ++ [Began o; Dropped o]) (inl FENCED) →
  (∀ a, Q (h ++ [Began o; Ended o a]) (ua a)) → meets demand (fenced_op o ua) h Q.
Proof. intros HP H1 H2 H3. cbn. auto. Qed.

Lemma meets_try (p q : io (checked unit)) h :
  meets demand p h (λ h r, match r with inl _ => True | inr _ => meets demand q h (λ _ _, True) end) →
  meets demand (and_then p q) h (λ _ _, True).
Proof. unfold and_then. rewrite meets_bind. apply meets_mono. by intros h' [|[]]. Qed.

Lemma meets_bail p e h : meets demand p h (λ _ _, True) → meets demand (then_bail p e) h (λ _ _, True).
Proof. unfold then_bail. rewrite meets_bind. by apply meets_mono. Qed.

Lemma meets_respond s h : meets demand (write_fenced Response s) h (λ _ _, True).
Proof. by apply meets_fenced_op. Qed.

Lemma meets_shutdown t h : meets demand (shutdown_fenced t) h (λ _ _, True).
Proof. by apply meets_fenced_op. Qed.

Lemma splice_meets turns h a :
  even h → Ended (Connect a) (inr ()) ∈ h → meets demand (splice turns) h (λ _ _, True).
Proof.
  revert h. induction turns as [|turns IH]; intros h He Hc; [done|]. cbn [splice].
  assert (Hin : ∀ l, Ended (Connect a) (inr ()) ∈ h ++ l) by (intros l; apply elem_of_app; by left).
  intros []; [done|]. cbn [meets]. split_and!; try done; [by exists a|].
  intros [[e|[|c s]]|[e|[|c s]]]; try done.
  - apply meets_try, meets_fenced_op; try done.
    + cbn [demand]. rewrite !bytes_of_app, (proj1 He). cbn. by rewrite !append_nil_r.
    + intros [|[]]; [done|]. cbv beta iota. rewrite <-app_assoc. apply IH; [|done]. apply even_app; [done|].
      split; cbn; [|done]. by rewrite !append_nil_r.
  - apply meets_try, meets_fenced_op; try done.
    + cbn [demand]. rewrite !bytes_of_app, (proj2 He). cbn. by rewrite !append_nil_r.
    + intros [|[]]; [done|]. cbv beta iota. rewrite <-app_assoc. apply IH; [|done]. apply even_app; [done|].
      split; cbn; [done|]. by rewrite !append_nil_r.
Qed.

Lemma dial_meets turns host port l looked_up h last :
  even h → Ended (Lookup host port) (inr looked_up) ∈ h → allows_tcp policy host port = true →
  (∀ a, a ∈ l → a ∈ looked_up ∧ allows_ip policy (addr_ip a) = true) →
  meets demand (dial last l) h (λ h d, match d with
    | Established => meets demand (splice turns) h (λ _ _, True) ∧ even h ∧ ∃ a, Ended (Connect a) (inr ()) ∈ h
    | _ => True end).
Proof.
  intros He Hl Ht. revert h last He Hl. induction l as [|a l IH]; intros h last He Hl Ha; [done|]. cbn [dial].
  assert (Hrest : ∀ a, a ∈ l → a ∈ looked_up ∧ allows_ip policy (addr_ip a) = true) by set_solver.
  destruct (Ha a) as [Ha1 Ha2]; [left|].
  intros []; [done|]. cbn [meets]. split_and!.
  - split; [done|]. eauto 10.
  - by apply IH.
  - apply IH; [by apply even_app| |done]. apply elem_of_app. by left.
  - intros [e|[]].
    + apply IH; [by apply even_app| |done]. apply elem_of_app. by left.
    + intros []; [done|]. cbn [meets].
      assert (He' : even (h ++ [Began (Connect a); Ended (Connect a) (inr ())])) by (by apply even_app).
      assert (Hc : Ended (Connect a) (inr ()) ∈ h ++ [Began (Connect a); Ended (Connect a) (inr ())]) by set_solver.
      split_and!; [by eapply splice_meets|done|by exists a].
Qed.

Lemma dial_and_relay_meets turns host port l looked_up h :
  even h → Ended (Lookup host port) (inr looked_up) ∈ h → allows_tcp policy host port = true →
  (∀ a, a ∈ l → a ∈ looked_up ∧ allows_ip policy (addr_ip a) = true) →
  meets demand (dial_and_relay turns host port l) h (λ _ _, True).
Proof.
  intros He Hl Ht Ha. unfold dial_and_relay. rewrite meets_bind.
  eapply meets_mono; [|by eapply (dial_meets turns host port l looked_up)].
  intros h' [|e|]; cbn [meets]; [|intros _; apply meets_bail, meets_respond|done].
  intros (_ & He' & a & Hc).
  apply meets_try, meets_fenced_op; try done. intros [|[]]; [done|].
  apply meets_try, meets_fenced_op; try done. intros [|[]]; [done|].
  apply (splice_meets turns _ a).
  - repeat apply even_app; done.
  - rewrite !elem_of_app. auto.
Qed.

Lemma resolve_and_dial_meets turns host port h :
  even h → allows_tcp policy host port = true →
  meets demand (resolve_and_dial policy test_dial_delay turns host port) h (λ _ _, True).
Proof.
  intros He Ht. unfold resolve_and_dial. cbn [meets]. split_and!; try done.
  intros [e|looked_up]; [done|]. cbv zeta. case_bool_decide.
  { apply meets_try, meets_fenced_op; try done. by intros [|[]]. }
  set (o := Lookup host port). set (h' := h ++ _).
  assert (Hgo : ∀ k, even k → meets demand (if_fenced (then_bail (write_fenced Response FORBIDDEN_FENCED) FENCED)
    (dial_and_relay turns host port (ipv4_first (List.filter (λ addr, allows_ip policy (addr_ip addr)) looked_up))))
    (h' ++ k) (λ _ _, True)).
  { intros k Hk. intros []; [apply meets_bail, meets_respond|].
    apply (dial_and_relay_meets turns host port _ looked_up); try done.
    - repeat apply even_app; done.
    - unfold h'. rewrite !elem_of_app. left. right. right. left.
    - intros a Ha%elem_of_order_by%elem_of_where. tauto. }
  destruct test_dial_delay.
  - cbn [meets]. split_and!; [done|apply meets_bail, meets_respond..|].
    intros []. by apply Hgo.
  - rewrite <-(app_nil_r h'). by apply Hgo.
Qed.

(** ** The handshake *)

(** A line: at most one read per byte, and at most [more] bytes. *)
Lemma read_bounded_line_meets max more out buf h :
  even h → reads h + more ≤ HANDSHAKE_READS →
  meets demand (read_bounded_line max more out buf) h (λ h' r, even h' ∧
    match r with
    | Done (line, _) => reads h' + String.length out ≤ reads h + String.length line
        ∧ String.length line ≤ String.length out + more
    | _ => True
    end).
Proof.
  revert out buf h. induction more as [|more IH]; intros out buf h He Hr; [done|].
  cbn [read_bounded_line].
  assert (Hstep : ∀ c buf' h', even h' → reads h' ≤ S (reads h) →
    meets demand (if is_char 10 c then Return (Done (out +:+ String c "", buf'))
                  else read_bounded_line max more (out +:+ String c "") buf') h'
      (λ h' r, even h' ∧ match r with
        | Done (line, _) => reads h' + String.length out ≤ reads h + String.length line
            ∧ String.length line ≤ String.length out + S more
        | _ => True end)).
  { intros c buf' h' He' Hr'. destruct (is_char 10 c).
    - cbn [meets]. split; [done|]. rewrite append_length. cbn [String.length]. lia.
    - eapply meets_mono; [|apply IH; [done|lia]]. intros h2 r [? Hq]. split; [done|].
      destruct r as [[line ?]| |]; try done. rewrite append_length in Hq. cbn [String.length] in Hq. lia. }
  unfold read_byte. destruct buf as [|c buf].
  - cbn [meets demand]. split_and!; [lia|done..|by apply even_app| |].
    { done. }
    intros [c buf'| |e|]; cbn [meets]; try (split; [by apply even_app|done]).
    apply Hstep; [by apply even_app|]. rewrite reads_app. cbn. lia.
  - intros []; [done|]. apply Hstep; [done|lia].
Qed.

Lemma read_headers_meets more bytes count buf h :
  even h → reads h + (MAX_HEADER_BYTES - bytes) + MAX_REQUEST_LINE ≤ HANDSHAKE_READS →
  bytes ≤ MAX_HEADER_BYTES → meets demand (read_headers more bytes count buf) h (λ h' _, even h').
Proof.
  revert bytes count buf h. induction more as [|more IH]; intros bytes count buf h He Hr Hb; [done|].
  cbn [read_headers]. rewrite meets_bind.
  eapply meets_mono; [|apply read_bounded_line_meets; [done|lia]].
  intros h' [[header buf']| |] [He' Hq]; try done.
  destruct (all_indexed _ _ _); [done|]. destruct (_ || _) eqn:Eo; [done|].
  apply orb_false_iff in Eo as [_ Eo%Nat.ltb_ge]. cbn [String.length] in Hq. apply IH; [done|lia|done].
Qed.

Lemma read_connect_headers_meets :
  meets demand read_connect_headers [] (λ h _, even h).
Proof.
  unfold read_connect_headers. rewrite meets_bind.
  eapply meets_mono; [|apply read_bounded_line_meets; [done|]].
  2:{ unfold HANDSHAKE_READS. cbn [reads List.filter length]. lia. }
  intros h [[line buf]| |] [He Hq]; try done. destruct (parse_connect _) as [|[host port]]; [done|].
  rewrite meets_bind. eapply meets_mono; [|apply read_headers_meets; [done| |lia]].
  - by intros h' [| |] ?.
  - change (reads []) with 0 in Hq. unfold HANDSHAKE_READS. cbn [String.length] in Hq. lia.
Qed.

Lemma handle_client_meets turns :
  meets demand (handle_client policy channel_tag test_dial_delay turns) [] (λ _ _, True).
Proof.
  unfold handle_client. intros []; [done|]. rewrite meets_bind.
  eapply meets_mono; [|apply read_connect_headers_meets].
  intros h [[[host port] buf]|e|] He; [|apply meets_bail, meets_respond..].
  unfold connect_session. intros []; [apply meets_bail, meets_respond|].
  assert (Hgo : meets demand (if negb (allows_tcp policy host port)
    then try_bail (write_fenced Response TCP_DENIED) ("tcp grant denied for " +:+ host +:+ ":" +:+ pretty port)
    else resolve_and_dial policy test_dial_delay turns host port) h (λ _ _, True)).
  { destruct (allows_tcp policy host port) eqn:Et; [by apply resolve_and_dial_meets|].
    apply meets_try, meets_fenced_op; try done. by intros [|[]]. }
  destruct channel_tag as [tag|]; [|done]. destruct (_ && _); [|done].
  apply meets_try, meets_fenced_op; try done. intros [|[]]; [done|].
  apply meets_try, meets_fenced_op; try done. by intros [|[]].
Qed.
End Session.

(** ** What a session does *)

Section Guarantees.
Context {I : Idna} (policy : EgressPolicy) (test_dial_delay : bool) (turns : nat).

Lemma session_meets channel_tag s :
  reaches (handle_client policy channel_tag test_dial_delay turns) s → met (demand policy) (log s).
Proof. apply reaches_met, handle_client_meets. Qed.

(** C14: The proxy dials only for the grant: every address it dials came from the lookup of a
    host whose grant names that port, and is on the public Internet or inside a granted block;
    nothing else is looked up either. *)
Theorem proxy_dials_only_grants channel_tag s h1 h2 :
  reaches (handle_client policy channel_tag test_dial_delay turns) s →
  (∀ a, log s = h1 ++ Began (Connect a) :: h2 →
     reachable policy (addr_ip a)
     ∧ ∃ host port addrs, Ended (Lookup host port) (inr addrs) ∈ h1 ∧ a ∈ addrs
       ∧ ∃ name g, normalize_hostname host = Some name ∧ g ∈ policy_tcp policy
         ∧ host_matches_normalized name (tg_host g) = true ∧ port ∈ tg_ports g)
  ∧ (∀ host port, log s = h1 ++ Began (Lookup host port) :: h2 →
     ∃ name g, normalize_hostname host = Some name ∧ g ∈ policy_tcp policy
       ∧ host_matches_normalized name (tg_host g) = true ∧ port ∈ tg_ports g).
Proof.
  intros Hs%session_meets.
  assert (Hgrant : ∀ host port, allows_tcp policy host port = true → ∃ name g,
    normalize_hostname host = Some name ∧ g ∈ policy_tcp policy
    ∧ host_matches_normalized name (tg_host g) = true ∧ port ∈ tg_ports g).
  { intros host port (_ & h & g & ? & ? & ? & ? & _)%allows_tcp_true. eauto 10. }
  split.
  - intros a E. apply Hs in E as (Ha%allows_ip_true & host & port & addrs & Hin & Hl & Ht). split; [done|].
    exists host, port, addrs. split_and!; [|done|by apply Hgrant]. by apply elem_of_where in Hin as [? _].
  - intros host port E. by apply Hs, Hgrant in E.
Qed.

Lemma met_reads h : met (demand policy) h → reads h ≤ HANDSHAKE_READS.
Proof.
  induction h as [|e h IH] using rev_ind; intros Hm; [unfold HANDSHAKE_READS; cbn [reads List.filter length]; lia|].
  assert (Hh : met (demand policy) h).
  { intros h1 o h2 ->. apply (Hm h1 o (h2 ++ [e])). by rewrite <-app_assoc. }
  rewrite reads_app. destruct (is_read e) eqn:Ee.
  - destruct e as [|[]| |]; try done. pose proof (Hm h ReadChunk [] eq_refl) as Hlt. cbn [demand] in Hlt.
    assert (Ho : reads (own h) = reads h); [|change (reads [Began ReadChunk]) with 1; lia].
    clear. induction h as [|e h IH]; [done|]. change (own (e :: h)) with (own ([e] ++ h)).
    change (e :: h) with ([e] ++ h). rewrite own_app, !reads_app, IH. by destruct e.
  - assert (reads [e] = 0) as -> by (unfold reads; cbn [List.filter]; by rewrite Ee).
    rewrite Nat.add_0_r. auto.
Qed.

(** C39: The handshake is bounded: whatever the guest sends, it costs at most a line, the header
    cap and one more line of reads. *)
Theorem handshake_is_bounded channel_tag s :
  reaches (handle_client policy channel_tag test_dial_delay turns) s →
  reads (log s) ≤ MAX_REQUEST_LINE + MAX_HEADER_BYTES + MAX_REQUEST_LINE.
Proof. intros Hs%session_meets. by apply met_reads. Qed.

(** ** The relay *)

Definition upto (a b : string) : Prop := ∃ rest, a +:+ rest = b.

(** What was written is a prefix of what was read; a write under way completes it. *)
Definition relaying {A} (s : session A) : Prop :=
  let h := own (log s) in
  upto (bytes_of (wrote Upstream) h) (bytes_of read_client h)
  ∧ upto (bytes_of (wrote Client) h) (bytes_of read_upstream h)
  ∧ match act s with
    | Racing (Write Upstream b) _ | Waiting (Write Upstream b) _ =>
        bytes_of (wrote Upstream) h +:+ b = bytes_of read_client h
    | Racing (Write Client b) _ | Waiting (Write Client b) _ =>
        bytes_of (wrote Client) h +:+ b = bytes_of read_upstream h
    | _ => True
    end.

Lemma upto_read a b c : upto a b → upto a (b +:+ c).
Proof. intros (rest & <-). exists (rest +:+ c). by rewrite append_assoc. Qed.

Lemma own_snoc h e : own (h ++ [e]) = if not_cancel e then own h ++ [e] else own h.
Proof. rewrite own_app. cbn. destruct (not_cancel e); [done|]. by rewrite app_nil_r. Qed.

Lemma relaying_ended {A} (s : session A) o (a : answer o) (p : io A) f :
  relaying s → (∃ k, act s = Racing o k) ∨ (∃ k, act s = Waiting o k) →
  relaying (mk_session (Running p) f (log s ++ [Ended o a])).
Proof.
  intros (Hu & Hc & Hw) Ha. unfold relaying. cbn [act log]. rewrite own_snoc. cbn [not_cancel].
  rewrite !bytes_of_app. cbn [bytes_of]. rewrite !append_nil_r.
  destruct o as [| | | |t b| | |]; cbn [wrote read_client read_upstream]; rewrite ?append_nil_r; try done.
  - destruct a as [e|[]]; [by rewrite !append_nil_r|].
    destruct t; cbn [decide target_eq_dec]; rewrite ?append_nil_r; try done.
    + assert (bytes_of (wrote Upstream) (own (log s)) +:+ b = bytes_of read_client (own (log s))) as E.
      { by destruct Ha as [[k Ea]|[k Ea]]; rewrite Ea in Hw. }
      split_and!; try done; cbn; rewrite ?append_nil_r; try done. exists "". by rewrite append_nil_r.
    + assert (bytes_of (wrote Client) (own (log s)) +:+ b = bytes_of read_upstream (own (log s))) as E.
      { by destruct Ha as [[k Ea]|[k Ea]]; rewrite Ea in Hw. }
      split_and!; try done; cbn; rewrite ?append_nil_r; try done. exists "". by rewrite append_nil_r.
  - destruct a as [[e|b]|[e|b]]; rewrite ?append_nil_r; split_and!; try done; by apply upto_read.
Qed.

Lemma relaying_began {A} (s : session A) o (c : activity A) f :
  relaying s → demand policy (own (log s)) o → (∃ k, c = Racing o k) ∨ (∃ k, c = Waiting o k) →
  relaying (mk_session c f (log s ++ [Began o])).
Proof.
  intros (Hu & Hc & _) Hd Ho. unfold relaying. cbn [act log]. rewrite own_snoc. cbn [not_cancel].
  rewrite !bytes_of_app. cbn [bytes_of wrote read_client read_upstream]. rewrite !append_nil_r.
  split_and!; try done. destruct Ho as [[k ->]|[k ->]]; by destruct o as [| | | |[]| | |].
Qed.

Lemma relaying_step {A} (s s' : session A) :
  step s s' → met (demand policy) (log s') → relaying s → relaying s'.
Proof.
  intros Hs Hm Hr. pose proof Hr as (Hu & Hc & Hw).
  destruct Hs as [c f h|k f h|o k h|o k h|o k f h a|o k h|o k f h|o k f h a].
  - unfold relaying. cbn [act log]. rewrite own_snoc. exact Hr.
  - exact (conj Hu (conj Hc Logic.I)).
  - exact (conj Hu (conj Hc Logic.I)).
  - apply (relaying_began (mk_session (Running (Select o k)) false h)); [done|by apply (Hm h o [])|left; by exists k].
  - apply (relaying_ended (mk_session (Racing o k) f h) o a (k (Some a)) f Hr). left. by exists k.
  - unfold relaying. cbn [act log]. rewrite own_snoc. cbn [not_cancel].
    rewrite !bytes_of_app. cbn [bytes_of wrote read_client read_upstream]. rewrite !append_nil_r. by split_and!.
  - apply (relaying_began (mk_session (Running (Await o k)) f h)); [done|by apply (Hm h o [])|right; by exists k].
  - apply (relaying_ended (mk_session (Waiting o k) f h) o a (k a) f Hr). right. by exists k.
Qed.

Lemma bytes_of_own f h : f Cancelled = "" → bytes_of f (own h) = bytes_of f h.
Proof.
  intros Hf. induction h as [|e h IH]; [done|]. change (own (e :: h)) with (own ([e] ++ h)).
  change (e :: h) with ([e] ++ h). rewrite own_app, !bytes_of_app, IH. destruct e; cbn; rewrite ?Hf; done.
Qed.

(** C16: The relay changes nothing: at every moment the upstream has received a prefix of what
    was read from the guest since the dial, and the guest a prefix of what was read from the
    upstream. *)
Theorem relay_is_faithful channel_tag s :
  reaches (handle_client policy channel_tag test_dial_delay turns) s →
  upto (bytes_of (wrote Upstream) (log s)) (bytes_of read_client (log s))
  ∧ upto (bytes_of (wrote Client) (log s)) (bytes_of read_upstream (log s)).
Proof.
  intros (f & Hr).
  assert (Hrel : relaying s).
  { set (s0 := mk_session _ f []) in Hr.
    assert (H0 : relaying s0) by (split_and!; [by exists ""..|done]).
    assert (Ha : met (demand policy) (log s0) ∧ act_meets (demand policy) s0).
    { split; [by intros [|] ? ? E|]. apply handle_client_meets. }
    clearbody s0. induction Hr as [|x y z Hxy _ IH]; [done|].
    pose proof (step_meets _ _ _ Hxy Ha) as [Hm Hy]. apply IH; [|done]. by eapply relaying_step. }
  destruct Hrel as (Hu & Hc & _). by rewrite !bytes_of_own in Hu, Hc.
Qed.

(** ** Revocation *)

(** Programs that race every operation against the flag. *)
Fixpoint raced {A} (p : io A) : Prop :=
  match p with
  | Return _ => True
  | Load k => ∀ b, raced (k b)
  | Select _ k => ∀ a, raced (k a)
  | Await _ _ => False
  end.

Lemma raced_bind {A B} (p : io A) (f : A → io B) : raced p → (∀ a, raced (f a)) → raced (io_bind p f).
Proof. intros Hp Hf. induction p; cbn in *; auto. Qed.

Lemma raced_line max more out buf : raced (read_bounded_line max more out buf).
Proof.
  revert out buf. induction more as [|more IH]; intros out buf; [done|]. cbn [read_bounded_line].
  unfold read_byte. destruct buf as [|c buf].
  - intros [[c buf| |e|]|]; cbn; try done. destruct (is_char 10 c); [done|apply IH].
  - intros []; cbn; [done|]. destruct (is_char 10 c); [done|apply IH].
Qed.

Lemma raced_headers more bytes count buf : raced (read_headers more bytes count buf).
Proof.
  revert bytes count buf. induction more as [|more IH]; intros bytes count buf; [done|].
  apply raced_bind; [apply raced_line|]. intros [[header b]| |]; try done.
  destruct (all_indexed _ _ _); [done|]. cbv zeta. destruct ((_ <? _) || _); [done|apply IH].
Qed.

Lemma raced_splice n : raced (splice n).
Proof.
  induction n as [|n IH]; [done|]. intros []; [done|]. intros [[[e|[|c s]]|[e|[|c s]]]|]; try done; intros [[]|]; done.
Qed.

Lemma raced_dial last l : raced (dial last l).
Proof.
  revert last. induction l as [|a l IH]; intros last; [done|]. intros []; [done|].
  intros [[e|[]]|]; [apply IH|by intros []|apply IH].
Qed.

Lemma raced_session : raced (handle_client policy None test_dial_delay turns).
Proof.
  intros []; [done|]. apply raced_bind.
  { apply raced_bind; [apply raced_line|]. intros [[line buf]| |]; try done.
    destruct (parse_connect _) as [|[host port]]; [done|].
    apply raced_bind; [apply raced_headers|by intros [| |]]. }
  intros [[[host port] buf]|e|]; try by intros [[]|].
  intros []; [by intros [[]|]|]. destruct (allows_tcp policy host port); cbn [negb]; [|by intros [[]|]].
  intros [[e|l]|]; [done| |done]. cbv zeta. case_bool_decide; [by intros [[]|]|].
  assert (Hgo : raced (if_fenced (then_bail (write_fenced Response FORBIDDEN_FENCED) FENCED)
    (dial_and_relay turns host port (ipv4_first (List.filter (λ addr, allows_ip policy (addr_ip addr)) l))))).
  { intros []; [by intros [[]|]|]. apply raced_bind; [apply raced_dial|].
    intros [|e|]; [|by intros [[]|]|done]. intros [[]|]; [done| |done]. intros [[]|]; [done|apply raced_splice|done]. }
  destruct test_dial_delay; [|done]. intros [[]|]; [done|by intros [[]|]].
Qed.

(** Nothing begins under a set flag. *)
Definition fence_inv {A} (f0 : bool) (s : session A) : Prop :=
  match act s with Running p => raced p | Racing _ k => ∀ a, raced (k a) | Waiting _ _ => False end
  ∧ (f0 = true ∨ Cancelled ∈ log s → fence s = true)
  ∧ (f0 = true → ∀ o, Began o ∉ log s)
  ∧ ∀ h1 h2, log s = h1 ++ Cancelled :: h2 → ∀ o, Began o ∉ h2.

Lemma quiet_snoc h e (f : bool) :
  (Cancelled ∈ h → f = true) → (∀ o, e = Began o → f = false) →
  (∀ h1 h2, h = h1 ++ Cancelled :: h2 → ∀ o, Began o ∉ h2) →
  ∀ h1 h2, h ++ [e] = h1 ++ Cancelled :: h2 → ∀ o, Began o ∉ h2.
Proof.
  intros Hf He Hh h1 h2 [(-> & -> & ->)|(h3 & -> & ->)]%app_last_cons o; [set_solver|].
  intros [Ho|Ho%list_elem_of_singleton]%elem_of_app; [by eapply Hh|].
  rewrite <-Ho in He. specialize (He o eq_refl). subst f. discriminate Hf. set_solver.
Qed.

Lemma fence_inv_step {A} f0 (s s' : session A) : step s s' → fence_inv f0 s → fence_inv f0 s'.
Proof.
  intros Hs (Hr & Hf & H0 & Hq).
  destruct Hs as [c f h|k f h|o k h|o k h|o k f h a|o k h|o k f h|o k f h a]; unfold fence_inv in *;
    cbn [act log fence] in *; try done.
  - split_and!; [done|done| |].
    + intros E o [?|Hc%list_elem_of_singleton]%elem_of_app; [by eapply H0|done].
    + eapply (quiet_snoc h Cancelled f); [intros ?; apply Hf; by right|done|done].
  - assert (f0 = false) as -> by (destruct f0; [|done]; discriminate Hf; auto).
    split_and!; [done| |done|].
    + intros [?|[?|Hc%list_elem_of_singleton]%elem_of_app]; [done|auto|done].
    + eapply (quiet_snoc h _ false); auto.
  - split_and!; [done| | |].
    + intros [?|[?|Hc%list_elem_of_singleton]%elem_of_app]; [auto..|done].
    + intros E o' [?|Hc%list_elem_of_singleton]%elem_of_app; [by eapply H0|done].
    + eapply (quiet_snoc h _ f); [intros ?; apply Hf; by right|done|done].
  - split_and!; [done|done| |].
    + intros E o' [?|Hc%list_elem_of_singleton]%elem_of_app; [by eapply H0|done].
    + eapply (quiet_snoc h _ true); [intros ?; apply Hf; by right|done|done].
Qed.

End Guarantees.
