(* ===== verification/EventWorker.v ===== *)
(** * The event worker

    [bookclerkd/src/event_worker.rs] over the outbox: the catalog heartbeat of a node, the
    dispatcher's tick, and a delivery worker (reclaim, claim with bounded replay, run the
    integration beside a heartbeat task, record its result).  Loaded integrations, plugin discovery,
    the grant store on disk and the configuration are parameters. *)

From stdpp Require Import base option list strings gmap pretty relations.
From Stdlib Require Import ZArith Lia.
From S2P Require Import Prelude BTree Schema Store Concurrency Worker JobModels JobWorker EventModels EventOutbox EventPlans EventReads EventInvariant EventSafety EventClaim EventPlanSafety EventPool Text Manifest Consent.

Local Open Scope Z_scope.

Definition LEASE_SECS : Z := 60.
Definition RECONCILE_BACKSTOP_TICKS : Z := 12.
Definition WAKE_PENDING_PAGE : Z := 32.

(** [EventResult] of the plugin ABI. *)
Inductive EventResult : Type :=
| Ack
| Retry (retry_at_unix_ms : Z) (reason : string)
| Reject (reason : string)
| DeadLetter (reason : string)
| Suspended (checkpoint_json : string) (checkpoint_schema_version wake_at_unix_ms : Z)
    (wake_on_event_type wake_on_filter_json : string).

(** [DomainEvent] of the plugin ABI. *)
Record DomainEvent : Type := mk_DomainEvent {
  de_event_id : string;
  de_event_type : string;
  de_schema_version : Z;
  de_occurred_at_unix_ms : Z;
  de_account_id : string;
  de_source : string;
  de_correlation_id : string;
  de_causation_id : string;
  de_deduplication_key : string;
  de_delivery_attempt : Z;
  de_payload : string;
  de_checkpoint_json : string;
  de_checkpoint_schema_version : Z;
  de_invocation_sequence : Z;
  de_resume_pending : bool;
}.

(** [u32::try_from] and [u64::try_from] of an [i64]. *)
Definition u32_from_i64 (n : Z) : option Z := if (0 <=? n) && (n <=? u32_MAX) then Some n else None.
Definition u64_from_i64 (n : Z) : option Z := if 0 <=? n then Some n else None.

Definition domain_event_for_delivery (event : DomainEventRecord) (delivery : EventDeliveryRecord)
    : DomainEvent :=
  {| de_event_id := ev_id event;
     de_event_type := ev_event_type event;
     de_schema_version := default 1 (u32_from_i64 (ev_schema_version event));
     de_occurred_at_unix_ms := default 0 (u64_from_i64 (timestamp_millis (ev_occurred_at event)));
     de_account_id := ev_account_id event;
     de_source := ev_source event;
     de_correlation_id := ev_correlation_id event;
     de_causation_id := ev_causation_id event;
     de_deduplication_key := dl_idempotency_key delivery;
     de_delivery_attempt := default 1 (u32_from_i64 (Z.max (dl_attempt_count delivery) 1));
     de_payload := ev_payload event;
     de_checkpoint_json := default "" (dl_checkpoint_json delivery);
     de_checkpoint_schema_version := default 0 (u32_from_i64 (dl_checkpoint_schema_version delivery));
     de_invocation_sequence := default 0 (u32_from_i64 (dl_invocation_sequence delivery));
     de_resume_pending := match dl_checkpoint_json delivery with Some _ => true | None => false end |}.

Definition durable_plugin_identity (plugin_key alias : string) : string :=
  let key := trim plugin_key in
  if str_is_empty key then alias else key.

Definition should_skip_catalog_reconcile (fingerprint last_catalog_fp : string)
    (last_reconcile_empty : bool) (ticks_since_reconcile : Z) : bool :=
  text_eq fingerprint last_catalog_fp && last_reconcile_empty
  && (ticks_since_reconcile <? RECONCILE_BACKSTOP_TICKS).

(** [parts.sort(); parts.join("|")]. *)
Definition sort_join (parts : list string) : string := join "|" (order_by text_le parts).

Section EventWorker.
Context {C : Chrono} {U : Uuid} {Value : Type} {JV : SerdeValue Value}.
Context {JS : SerdeJson (list (EventCatalogSubscription Value))}.
Context {JG : SerdeJson (list (EventWakeGrant Value))}.
Context {H : HostCpu} {I : Idna} {VT : ValueText Value}.
(** [Utc.timestamp_millis_opt]: milliseconds to an instant, when chrono can represent it. *)
Context (timestamp_millis_opt : Z → option Z).

Record EventSubscription : Type := mk_EventSubscription {
  es_event_type : string;
  es_schema_versions : list Z;
  es_supports_suspend : bool;
  es_resource_class : string;
  es_filter : option Value;
}.

(** The part of [dyn Integration] the worker calls. *)
Record Integration : Type := mk_Integration {
  i_id : string;
  i_plugin_key : string;
  i_event_subscriptions : list EventSubscription;
  i_deliver : DomainEvent → AtomicBool → prog WorkerState (anyhow EventResult);
}.

(** ** Catalog rows *)

Definition class_or_network (resource_class : string) : string :=
  if str_is_empty (trim resource_class) then "network" else resource_class.

Definition catalog_from_runtime (subs : list EventSubscription) : list (EventCatalogSubscription Value) :=
  map (λ s, mk_EventCatalogSubscription (es_event_type s) (es_schema_versions s) (es_supports_suspend s)
              (class_or_network (es_resource_class s)) (es_filter s)) subs.

Definition catalog_from_manifest (m : PluginManifest Value) : list (EventCatalogSubscription Value) :=
  map (λ s, mk_EventCatalogSubscription (con_event_type s) (con_schema_versions s) (con_supports_suspend s)
              (class_or_network (con_resource_class s))
              (con_filter s ≫= λ v, if value_is_null v then None else Some v)) (m_consumers m).

(** The row a granted consumer admits, if it does. *)
Definition admitted_row (s : EventCatalogSubscription Value) (c : GrantedEventConsumer)
    : option (EventCatalogSubscription Value) :=
  if negb (text_eq (gc_event_type c) (cs_event_type s)) then None else
  if negb (forallb (λ v, bool_decide (v ∈ gc_schema_versions c)) (cs_schema_versions s)) then None else
  if negb (bool_decide (gc_filter c = canonical_event_filter (cs_filter s))) then None else
  Some (mk_EventCatalogSubscription (cs_event_type s) (cs_schema_versions s)
          (cs_supports_suspend s && gc_supports_suspend c) (cs_resource_class s) (cs_filter s)).

(** [find_map]. *)
Fixpoint find_map {A B} (f : A → option B) (l : list A) : option B :=
  match l with
  | [] => None
  | x :: l => match f x with Some b => Some b | None => find_map f l end
  end.

Definition filter_catalog_by_granted_consumers (catalog : list (EventCatalogSubscription Value))
    (admitted : list GrantedEventConsumer) : list (EventCatalogSubscription Value) :=
  omap (λ s, find_map (admitted_row s) admitted) catalog.

(** [now] stamps the request that is compared; it is not part of the result. *)
Definition granted_catalog_subscriptions (m : PluginManifest Value) (key now : string)
    (stored : option PluginGrant) : list (EventCatalogSubscription Value) :=
  let requested := consent_request m key now in
  let admitted := match stored with
                  | Some g => consumers (effective_grant g requested)
                  | None => []
                  end in
  filter_catalog_by_granted_consumers (catalog_from_manifest m) admitted.

(** [upsert_event_subscriber_catalog]: [discovered] is what discovery returned, [load_grants] what
    each read of the grant store returns, [is_enabled] the configuration. *)
Section Catalog.
Context (node_id : string) (is_enabled : string → bool) (load_grants : option PluginGrantStore)
  (integrations : list Integration).

Fixpoint catalog_discovered (catalogued : list string) (plugins : list (PluginManifest Value * string))
    : prog WorkerState (list string) :=
  match plugins with
  | [] => Ret catalogued
  | (m, key) :: plugins =>
      if negb (consumes_events m) then catalog_discovered catalogued plugins else
      let grant := load_grants ≫= λ store, get_by_plugin_key store key in
      let* now := lift now_str in
      let subs := granted_catalog_subscriptions m key now grant in
      let* _ := call (upsert_event_subscriber node_id key subs (is_enabled (m_id m))) in
      catalog_discovered (key :: catalogued) plugins
  end.

Fixpoint catalog_loaded (catalogued : list string) (l : list Integration) : prog WorkerState unit :=
  match l with
  | [] => Ret ()
  | i :: l =>
      let plugin_id := durable_plugin_identity (i_plugin_key i) (i_id i) in
      if bool_decide (plugin_id ∈ catalogued) then catalog_loaded catalogued l else
      let* _ := call (upsert_event_subscriber node_id plugin_id
                        (catalog_from_runtime (i_event_subscriptions i)) true) in
      catalog_loaded catalogued l
  end.

Definition upsert_event_subscriber_catalog (discovered : option (list (PluginManifest Value * string)))
    : prog WorkerState unit :=
  let* catalogued := match discovered with
                     | Some plugins => catalog_discovered [] plugins
                     | None => Ret []
                     end in
  catalog_loaded catalogued integrations.
End Catalog.

(** ** Dispatcher *)

Definition catalog_fingerprint (catalog : list (EventSubscriberCatalogRecord Value)) : string :=
  sort_join (map (λ row, cr_plugin_id row +:+ ":" +:+ (if cr_enabled row then "true" else "false")
    +:+ ":" +:+ default "[]" (to_string (cr_subscriptions row))) catalog).

(** The dispatch loop; [more] is what is left of [WAKE_PENDING_PAGE], and the result tells whether
    the page was used up. *)
Fixpoint dispatch_page (more : nat) (catalog : list (EventSubscriberCatalogRecord Value))
    : prog WorkerState (result bool) :=
  match more with
  | O => Ret (Ok true)
  | S more =>
      let? event := call next_undispatched_event in
      match event with
      | None => Ret (Ok false)
      | Some event =>
          let? _ := call (dispatch_event_deliveries (ev_id event) (catalog_subscribers_for_event catalog event)) in
          dispatch_page more catalog
      end
  end.

(** [dispatch_pending]: fingerprint, emptiness of the reconcile, whether it ran, and whether to go
    on at once.  [max_binds] is the backend's. *)
Definition dispatch_pending (max_binds retention_days : Z) (last_catalog_fp : string)
    (last_reconcile_empty : bool) (ticks_since_reconcile : Z)
    : prog WorkerState (result (string * bool * bool * bool)) :=
  let? catalog := call list_live_event_subscribers in
  let fingerprint := catalog_fingerprint catalog in
  let? dispatch_more := dispatch_page (Z.to_nat WAKE_PENDING_PAGE) catalog in
  let? wakes := call (process_pending_wakes WAKE_PENDING_PAGE LEASE_SECS max_binds) in
  let* now := lift Utc_now in
  let created_after := now - days (default 7 (i64_try_from (Z.max retention_days 1))) in
  let skip := should_skip_catalog_reconcile fingerprint last_catalog_fp last_reconcile_empty
                ticks_since_reconcile in
  let? n := if skip then Ret (Ok 0) else call (reconcile_catalog_deliveries created_after) in
  Ret (Ok (fingerprint, if skip then last_reconcile_empty else n =? 0, negb skip,
           dispatch_more || wake_still_pending wakes)).

(** ** Deliveries *)

Definition registry_matches (integrations : list Integration) (id : string) : list Integration :=
  let needle := trim id in
  if str_is_empty needle then [] else
  let by_key := List.filter (λ i, text_eq (i_plugin_key i) needle) integrations in
  match by_key with
  | [] => List.filter (λ i, eq_ignore_ascii_case (i_id i) (to_ascii_lowercase needle)) integrations
  | _ => by_key
  end.

(** [IntegrationRegistry::get]. *)
Definition registry_get (integrations : list Integration) (id : string) : option Integration :=
  match registry_matches integrations id with [i] => Some i | _ => None end.

Definition loaded_plugin_ids (integrations : list Integration) : list string :=
  concat (map (λ i,
    let key := durable_plugin_identity (i_plugin_key i) (i_id i) in
    key :: (if negb (text_eq (i_id i) key)
               && (length (List.filter (λ o, eq_ignore_ascii_case (i_id o) (i_id i)) integrations) =? 1)%nat
            then [i_id i] else [])) integrations).

Definition claim_delivery (owner : string) (plugin_ids : list string) (max_in_flight : Z) (node_id : string)
    : prog WorkerState (option (result (option EventDeliveryRecord))) :=
  if bool_decide (plugin_ids = []) then Ret (Some (Ok None)) else
  let* now := Instant_now in
  replay_until replay_fuel
    (call (claim_next_event_delivery owner LEASE_SECS plugin_ids (Z.max max_in_flight 1) node_id))
    (now + CLAIM_REPLAY_BUDGET) CLAIM_REPLAY_DELAY.

Definition suspend_allowed (subs : list EventSubscription) (event_type : string) (schema_version : Z) : bool :=
  existsb (λ s, text_eq (es_event_type s) event_type && es_supports_suspend s
                && existsb (λ v, v =? schema_version) (es_schema_versions s)) subs.

Definition unix_ms_to_utc (ms : Z) : option Z := i64_try_from ms ≫= timestamp_millis_opt.

Definition far_future_wake (now : Z) : Z := default (now + days 36500) (parse_from_rfc3339 EVENT_WAKE_FAR_FUTURE).

(** The fenced call that records a handler's result, at [now]. *)
Definition outcome_call (integration : Integration) (event : DomainEventRecord) (now : Z) (r : EventResult)
    : fenced_call :=
  match r with
  | Ack => FAck
  | Retry at_ms reason => FRetry (default (now + seconds 5) (unix_ms_to_utc at_ms)) reason
  | Reject reason => FReject reason
  | DeadLetter reason => FDeadLetter reason
  | Suspended checkpoint version wake_at_unix_ms wake_type wake_filter =>
      if negb (suspend_allowed (i_event_subscriptions integration) (ev_event_type event) (ev_schema_version event))
      then FReject "suspend not advertised for this event type" else
      match wake_grants_from_subscriptions (catalog_from_runtime (i_event_subscriptions integration))
              wake_type wake_filter with
      | inl reason => FReject reason
      | inr grants =>
          let grants_json := match grants with [] => "" | _ => default "" (to_string grants) end in
          let wake := if negb (str_is_empty (trim wake_type)) && (wake_at_unix_ms =? 0)
                      then far_future_wake now
                      else default (now + seconds 30) (unix_ms_to_utc wake_at_unix_ms) in
          FSuspend checkpoint version wake wake_type wake_filter grants_json
      end
  end.

(** The heartbeat task, for [fuel] ticks. *)
Fixpoint delivery_heartbeat (fuel : nat) (f : EventDeliveryFence) (cancel operator_cancel : AtomicBool)
    (confirmed_until : Z) : prog WorkerState unit :=
  match fuel with
  | O => Ret ()
  | S fuel =>
      let* requested := call (event_delivery_cancel_requested (delivery_id f)) in
      match requested with
      | Ok true => let* _ := store_true operator_cancel in store_true cancel
      | _ =>
          let* beat := call (heartbeat_event_delivery f LEASE_SECS) in
          let* now := Instant_now in
          match apply_heartbeat_tick (classify_heartbeat beat) now confirmed_until (seconds LEASE_SECS) with
          | Continue next => delivery_heartbeat fuel f cancel operator_cancel next
          | StopFenceLost => store_true cancel
          end
      end
  end.

(** A fenced call whose result is only logged. *)
Definition settle (f : EventDeliveryFence) (c : fenced_call) : prog WorkerState unit :=
  let* _ := call (exec_fenced f c) in Ret ().

(** [run_delivery] from the handler's result on; [elapsed_ms] is the handler's time. *)
Definition finish_delivery (f : EventDeliveryFence) (integration : Integration) (event : DomainEventRecord)
    (cancel operator_cancel : AtomicBool) (elapsed_ms : Z) (r : anyhow EventResult) : prog WorkerState unit :=
  let* _ := call (record_event_handler_latency elapsed_ms) in
  let* by_operator := load operator_cancel in
  if by_operator then settle f (FReject "cancelled by operator") else
  let* lost := load cancel in
  if lost then Ret () else
  match r with
  | inl err => settle f (FFail err)
  | inr result =>
      let* now := lift Utc_now in
      settle f (outcome_call integration event now result)
  end.

Definition run_delivery (integrations : list Integration) (delivery : EventDeliveryRecord)
    : prog WorkerState unit :=
  let f := delivery_fence delivery in
  let restore_resume := match dl_checkpoint_json delivery with Some _ => true | None => false end in
  let* event := call (get_domain_event (dl_event_id delivery)) in
  match event with
  | Ok (Some event) =>
      match registry_get integrations (dl_plugin_id delivery) with
      | None => settle f (FRelease restore_resume)
      | Some integration =>
          let local_subs := catalog_from_runtime (i_event_subscriptions integration) in
          if negb (existsb (λ s, subscription_matches_event s event) local_subs)
          then settle f (FRelease restore_resume) else
          let* cancel := AtomicBool_new in
          let* operator_cancel := AtomicBool_new in
          let* started := Instant_now in
          let* r := i_deliver integration (domain_event_for_delivery event delivery) cancel in
          let* ended := Instant_now in
          let elapsed_ms := default 0 (i64_try_from ((ended - started) / 1000000)) in
          finish_delivery f integration event cancel operator_cancel elapsed_ms r
      end
  | _ => settle f (FDeadLetter "parent event missing")
  end.

(** One turn of the loop of [spawn_delivery_worker]. *)
Definition delivery_turn (integrations : list Integration) (owner : string) (max_in_flight : Z) (node_id : string)
    : prog WorkerState unit :=
  let* _ := call reclaim_expired_event_deliveries in
  let* claimed := claim_delivery owner (loaded_plugin_ids integrations) (Z.max max_in_flight 1) node_id in
  match claimed with
  | Some (Ok (Some delivery)) => run_delivery integrations delivery
  | Some (Err _) => sleep (seconds 2)
  | _ => Ret ()
  end.

(** One pass of the loop of [spawn_dispatcher] after the catalog heartbeat: its cache afterwards. *)
Definition dispatcher_turn (max_binds retention_days : Z) (cache : string * bool * Z)
    : prog WorkerState (string * bool * Z * bool) :=
  let '(fp, empty, ticks) := cache in
  let* r := dispatch_pending max_binds retention_days fp empty ticks in
  match r with
  | Ok (fp', empty', reconciled, more) =>
      Ret (fp', empty', if reconciled then 0 else u32_saturating_add ticks 1, more)
  | Err _ => Ret (fp, false, ticks, false)
  end.
End EventWorker.

Arguments EventSubscription : clear implicits.
Arguments Integration : clear implicits.
