(* ===== verification/EventWorkerSpec.v ===== *)
(** * What the event worker guarantees

    Workers keep the outbox among any other processes; a worker that lost its delivery writes
    nothing on it; the result of a handler is recorded by exactly one fenced change; catalog rows
    are consented. *)

From stdpp Require Import base option list strings gmap pretty relations.
From Stdlib Require Import ZArith Lia.
From S2P Require Import Prelude BTree Schema Store Concurrency Worker JobModels JobWorker EventModels EventOutbox EventPlans EventReads EventInvariant EventSafety EventClaim EventPlanSafety EventPool EventSpec Text Manifest Consent ConsentSpec EventWorker.

Local Open Scope Z_scope.

(** ** The worker among the others *)

Section Safety.
Context {C : Chrono} {U : Uuid} {Q : InFlightCap} {Value : Type} {JV : SerdeValue Value}.
Context {JS : SerdeJson (list (EventCatalogSubscription Value))}.
Context {JG : SerdeJson (list (EventWakeGrant Value))}.
Context {JI : SerdeJson (list string)} {JD : JulianDay}.
Context {H : HostCpu} {I : Idna} {VT : ValueText Value}.
Context `{!UuidLaws U}.
Context (timestamp_millis_opt : Z → option Z) (retain : bool).

Local Abbreviation rely := (wrely (outbox_evolves retain)).
Local Abbreviation inv := (winv outbox_wf).
Implicit Types (integrations : list (Integration Value)).

(** Handlers act on the outbox through calls that keep it well formed. *)
Definition handlers_safe integrations : Prop :=
  ∀ i d c, i ∈ integrations → safe rely inv (i_deliver i d c).

Lemma safe_ignored {A} (p : prog Db A) :
  safe (outbox_evolves retain) outbox_wf (ignoring p) → safe (outbox_evolves retain) outbox_wf p.
Proof. intros Hp s. pose proof (Hp s) as Hw. apply wp_bind_inv in Hw. by eapply wp_mono; [|exact Hw]. Qed.

(** A library call of the worker that is a call of the outbox. *)
Lemma safe_outbox_call {A} (p : prog Db (result A)) (c : event_call Value) :
  exec_event_call c = ignoring p → event_admissible retain c → safe rely inv (call p).
Proof.
  intros Hc Ha. apply safe_library_call; [apply _|]. apply safe_ignored. rewrite <-Hc. by apply safe_event_call.
Qed.

Lemma safe_settle f c : safe rely inv (settle f c).
Proof.
  unfold settle. apply safe_bind; [by apply safe_library_call, safe_fenced; apply _|]. intros _. apply safe_ret.
Qed.

Lemma safe_delivery_heartbeat fuel f cancel operator_cancel confirmed :
  safe rely inv (delivery_heartbeat fuel f cancel operator_cancel confirmed).
Proof.
  revert confirmed. induction fuel as [|fuel IH]; intros confirmed; [apply safe_ret|]. cbn [delivery_heartbeat].
  apply safe_bind; [by eapply (safe_outbox_call _ (ECancelRequested (delivery_id f)))|]. intros requested.
  assert (Hbeat : safe rely inv (let* beat := call (heartbeat_event_delivery f LEASE_SECS) in
    let* now := Instant_now in
    match apply_heartbeat_tick (classify_heartbeat beat) now confirmed (seconds LEASE_SECS) with
    | Continue next => delivery_heartbeat fuel f cancel operator_cancel next
    | StopFenceLost => store_true cancel
    end)).
  { apply safe_bind; [by eapply (safe_outbox_call _ (EFenced f (FHeartbeat LEASE_SECS)))|]. intros beat.
    apply safe_bind; [apply safe_query, _|]. intros now.
    destruct (apply_heartbeat_tick _ _ _ _); [apply IH|apply safe_store_true, _]. }
  destruct requested as [[]|]; [|exact Hbeat..].
  apply safe_bind; [apply safe_store_true, _|]. intros _. apply safe_store_true, _.
Qed.

Lemma safe_finish_delivery f i event cancel operator_cancel ms r :
  safe rely inv (finish_delivery timestamp_millis_opt f i event cancel operator_cancel ms r).
Proof.
  unfold finish_delivery. apply safe_bind; [by eapply (safe_outbox_call _ (EHandlerLatency ms))|]. intros _.
  apply safe_bind; [apply safe_load, _|]. intros []; [apply safe_settle|].
  apply safe_bind; [apply safe_load, _|]. intros []; [apply safe_ret|]. destruct r; [apply safe_settle|].
  apply safe_bind; [|intros now; apply safe_settle]. apply safe_lift. apply safe_query, _.
Qed.

Lemma registry_matches_elem integrations id i : i ∈ registry_matches integrations id → i ∈ integrations.
Proof.
  unfold registry_matches. destruct (str_is_empty _); [by intros ?%elem_of_nil|].
  destruct (List.filter (λ i, text_eq (i_plugin_key i) (trim id)) integrations) as [|a l] eqn:E.
  - by intros [? _]%elem_of_where.
  - rewrite <-E. by intros [? _]%elem_of_where.
Qed.

Lemma registry_get_elem integrations id i : registry_get integrations id = Some i → i ∈ integrations.
Proof.
  unfold registry_get. intros Hg. apply (registry_matches_elem integrations id).
  destruct (registry_matches integrations id) as [|x [|]]; try done. injection Hg as ->. left.
Qed.

Lemma safe_run_delivery integrations delivery :
  handlers_safe integrations → safe rely inv (run_delivery timestamp_millis_opt integrations delivery).
Proof.
  intros Hh. unfold run_delivery. apply safe_bind; [by eapply (safe_outbox_call _ (EGetEvent (dl_event_id delivery)))|].
  intros [[event|]|]; [|apply safe_settle..].
  destruct (registry_get integrations (dl_plugin_id delivery)) as [i|] eqn:Ei; [|apply safe_settle].
  destruct (negb _); [apply safe_settle|].
  apply safe_bind; [apply safe_AtomicBool_new, _|]. intros cancel.
  apply safe_bind; [apply safe_AtomicBool_new, _|]. intros operator_cancel.
  apply safe_bind; [apply safe_query, _|]. intros started.
  apply safe_bind; [by apply Hh; eapply registry_get_elem|]. intros r.
  apply safe_bind; [apply safe_query, _|]. intros ended. apply safe_finish_delivery.
Qed.

Lemma safe_replay_of {A} fuel (claim : prog WorkerState (result A)) deadline delay :
  0 ≤ delay → safe rely inv claim → safe rely inv (replay_until fuel claim deadline delay).
Proof.
  intros Hd Hc. induction fuel as [|fuel IH]; [apply safe_ret|]. cbn [replay_until].
  apply safe_bind; [done|]. intros [a|[]]; try apply safe_ret.
  apply safe_bind; [apply safe_query, _|]. intros now. destruct (_ <=? _); [apply safe_ret|].
  apply safe_bind; [by apply safe_sleep; [apply _|]|done].
Qed.

Lemma safe_delivery_turn integrations owner max_in_flight node_id :
  handlers_safe integrations → Z.max max_in_flight 1 ≤ in_flight_cap →
  safe rely inv (delivery_turn timestamp_millis_opt integrations owner max_in_flight node_id).
Proof.
  intros Hh Hmax. unfold delivery_turn. apply safe_bind; [by eapply (safe_outbox_call _ EReclaim)|]. intros _.
  apply safe_bind.
  { unfold claim_delivery. case_bool_decide; [apply safe_ret|]. apply safe_bind; [apply safe_query, _|]. intros now.
    apply safe_replay_of; [done|]. eapply (safe_outbox_call _ (EClaim owner LEASE_SECS _ _ node_id)); [done|].
    cbn. lia. }
  intros [[[delivery|]|]|]; try apply safe_ret; [by apply safe_run_delivery|by apply safe_sleep; [apply _|]].
Qed.

Lemma safe_try_call {A B} (p : prog WorkerState (result A)) (k : A → prog WorkerState (result B)) :
  safe rely inv p → (∀ a, safe rely inv (k a)) → safe rely inv (try_bind p k).
Proof. apply safe_try_bind. Qed.

Lemma safe_dispatch_page more catalog : safe rely inv (dispatch_page more catalog).
Proof.
  induction more as [|more IH]; [apply safe_ret|]. cbn [dispatch_page].
  apply safe_try_call; [by eapply (safe_outbox_call _ ENextUndispatched)|]. intros [event|]; [|apply safe_ret].
  apply safe_try_call; [by eapply (safe_outbox_call _ (EDispatch _ _))|done].
Qed.

Lemma safe_dispatcher_turn max_binds retention_days cache :
  safe rely inv (dispatcher_turn max_binds retention_days cache).
Proof.
  destruct cache as [[fp empty] ticks]. unfold dispatcher_turn. apply safe_bind.
  2:{ intros [[[[fp' empty'] reconciled] more]|]; apply safe_ret. }
  unfold dispatch_pending.
  apply safe_try_call; [by eapply (safe_outbox_call _ (EListLive EVENT_SUBSCRIBER_HEARTBEAT_TTL_SECS))|].
  intros catalog. apply safe_try_call; [apply safe_dispatch_page|]. intros dispatch_more.
  apply safe_try_call; [by eapply (safe_outbox_call _ (EProcessWakes _ _ _))|]. intros wakes.
  apply safe_bind; [apply safe_lift, safe_query, _|]. intros now.
  apply safe_try_call; [|intros n; apply safe_ret].
  destruct (should_skip_catalog_reconcile _ _ _ _); [apply safe_ret|].
  by eapply (safe_outbox_call _ (EReconcile _)).
Qed.

Lemma safe_catalog node_id is_enabled load_grants integrations discovered :
  safe rely inv (upsert_event_subscriber_catalog node_id is_enabled load_grants integrations discovered).
Proof.
  assert (Hd : ∀ plugins done, safe rely inv (catalog_discovered node_id is_enabled load_grants done plugins)).
  { induction plugins as [|[m key] plugins IH]; intros seen; [apply safe_ret|]. cbn [catalog_discovered].
    destruct (negb _); [apply IH|]. apply safe_bind.
    { apply safe_lift. apply safe_bind; [apply safe_query, _|]. intros now. apply safe_ret. }
    intros now. apply safe_bind; [by eapply (safe_outbox_call _ (EUpsert _ _ _ _))|]. intros _. apply IH. }
  assert (Hl : ∀ l done, safe rely inv (catalog_loaded node_id done l)).
  { induction l as [|i l IH]; intros seen; [apply safe_ret|]. cbn [catalog_loaded].
    case_bool_decide; [apply IH|]. apply safe_bind; [by eapply (safe_outbox_call _ (EUpsert _ _ _ _))|].
    intros _. apply IH. }
  unfold upsert_event_subscriber_catalog. apply safe_bind; [|intros seen; apply Hl].
  destruct discovered; [apply Hd|apply safe_ret].
Qed.

(** A thread of the process: a turn of a delivery worker or of the dispatcher, a heartbeat task, a
    catalog heartbeat, or any other outbox call. *)
Inductive event_thread : prog WorkerState unit → Prop :=
| TDelivery integrations owner max_in_flight node_id :
    handlers_safe integrations → Z.max max_in_flight 1 ≤ in_flight_cap →
    event_thread (delivery_turn timestamp_millis_opt integrations owner max_in_flight node_id)
| TDeliveryBeat fuel f cancel operator_cancel confirmed :
    event_thread (delivery_heartbeat fuel f cancel operator_cancel confirmed)
| TDispatcher max_binds retention_days cache :
    event_thread (let* _ := dispatcher_turn max_binds retention_days cache in Ret ())
| TCatalog node_id is_enabled load_grants integrations discovered :
    event_thread (upsert_event_subscriber_catalog node_id is_enabled load_grants integrations discovered)
| TOutbox c : event_admissible retain c → event_thread (lift (exec_event_call c)).

(** Other processes evolve the outbox, and may lose or delay any call. *)
Definition other_outbox_processes (w w' : WorkerState) : Prop := rely w w' ∧ inv w'.

End Safety.

(** ** A worker that lost its delivery *)

Section Late.
Context {C : Chrono} {U : Uuid} {Q : InFlightCap} {Value : Type} {JV : SerdeValue Value}.
Context {JS : SerdeJson (list (EventCatalogSubscription Value))}.
Context {JG : SerdeJson (list (EventWakeGrant Value))}.
Context {JI : SerdeJson (list string)} {JD : JulianDay}.
Context {H : HostCpu} {I : Idna} {VT : ValueText Value}.
Context `{!UuidLaws U}.
Context (timestamp_millis_opt : Z → option Z).

Local Abbreviation rely := (wrely (outbox_evolves true)).
Local Abbreviation inv := (winv outbox_wf).

(** No envelope and no delivery changes; the counters may. *)
Definition rows_kept (s s' : Db) : Prop :=
  event_deliveries_t s' = event_deliveries_t s ∧ domain_events_t s' = domain_events_t s.
Definition wrows_kept (w w' : WorkerState) : Prop := rows_kept (db w) (db w').

#[local] Instance rows_kept_refl : Reflexive rows_kept.
Proof. by intros s. Qed.

Lemma wp_and {S A} (R G1 G2 : S → S → Prop) (J : S → Prop) (p : prog S A) Q1 Q2 s :
  wp R G1 J p Q1 s → wp R G2 J p Q2 s → wp R G2 J p (λ a s, Q1 a s ∧ Q2 a s) s.
Proof.
  revert s. induction p as [a|X f k IH]; intros s; simpl; [done|].
  intros H1 H2 s' HR HI. destruct (H1 s' HR HI) as (_ & _ & K1). destruct (H2 s' HR HI) as (HG & HI' & K2). eauto.
Qed.

Lemma untouched_exec {X} (f : Db → X * Db) (P : X → Db → Prop) s :
  (∀ s, outbox_untouched s (f s).2) → (∀ x s', P x s') →
  wp (outbox_evolves true) rows_kept outbox_wf (exec f) P s.
Proof.
  intros Hf HP. apply wp_exec. intros s' _ Hwf. pose proof (Hf s') as (He & Hd & Hu).
  split_and!; [by split| |auto]. by eapply (outbox_untouched_ok true).
Qed.

Lemma latency_keeps_rows ms s :
  wp (outbox_evolves true) rows_kept outbox_wf (record_event_handler_latency ms) (λ _ _, True) s.
Proof.
  unfold record_event_handler_latency, bump_event_stats. apply wp_try_bind.
  assert (Hupd : ∀ f s, wp (outbox_evolves true) rows_kept outbox_wf (let* _ := exec (λ s,
      let r := update_rows (λ r, event_outbox_stats.id r =? EVENT_OUTBOX_STATS_ID) f (event_outbox_stats_t s) in
      (r.1, s <| event_outbox_stats_t := r.2 |>)) in Ret (Ok ())) (λ _ _, True) s).
  { intros f s0. apply wp_bind, untouched_exec; [by intros s1|done]. }
  unfold ensure_event_outbox_stats, event_outbox_stats_find. apply wp_bind, wp_query; [apply _|].
  intros s1 _ _. destruct (List.find _ _); [apply Hupd|].
  apply wp_bind, untouched_exec; [intros s2; simpl; by destruct (existsb _ _)|]. intros _ s2.
  apply wp_bind, wp_query; [apply _|]. intros s3 _ _. destruct (List.find _ _); [apply Hupd|done].
Qed.

(** A call keeps in a worker what its store program keeps. *)
Lemma call_keeps_rows {A} (p : prog Db (result A)) w :
  (∀ s, wp (outbox_evolves true) rows_kept outbox_wf p (λ _ _, True) s) →
  wp rely wrows_kept inv (call p) (λ _ _, True) w.
Proof.
  intros Hp. unfold call. apply wp_bind, wp_exec. intros w1 _ HI. cbn [fst snd].
  split_and!; [done|done|].
  assert (Hl : ∀ w2, wp rely wrows_kept inv (lift p) (λ _ _, True) w2).
  { intros w2. eapply wp_guarantee; [|eapply wp_mono; [|apply (wp_lift (outbox_evolves true) outbox_wf rows_kept p (λ _ _, True)), Hp]].
    - by intros ? ? [? _].
    - done. }
  destruct (default None (head (link w1))) as [[e|e]|]; [done| |apply Hl].
  apply wp_bind. eapply wp_mono; [|apply Hl]. done.
Qed.

Lemma settle_revoked f c w :
  delivery_revoked f (db w) → wp rely wrows_kept inv (settle f c) (λ _ _, True) w.
Proof.
  intros Hrev. unfold settle. apply wp_bind. eapply wp_guarantee.
  2:{ eapply wp_mono; [|apply (call_writes_nothing (outbox_evolves true) outbox_wf (exec_fenced f c) (λ _, True))];
        [done| |done].
      intros w' (Hev & _). eapply wp_mono; [|apply (revoked_fenced_call c f)]; [done|].
      by eapply delivery_revoked_stable. }
  intros a b (Hdb & _). unfold wrows_kept. by rewrite Hdb.
Qed.

(** A worker whose delivery was revoked while its handler ran leaves every envelope and every
    delivery as it is: whatever the handler's result, the flags, the link and the other
    processes do, only the latency counter may change. *)
Theorem late_delivery_writes_nothing f i event cancel operator_cancel ms r w :
  delivery_revoked f (db w) →
  wp rely wrows_kept inv (finish_delivery timestamp_millis_opt f i event cancel operator_cancel ms r)
    (λ _ _, True) w.
Proof.
  intros Hrev. unfold finish_delivery. apply wp_bind.
  eapply wp_mono; [|apply (wp_and rely rely wrows_kept inv _ (λ _ w', rely w w'));
    [|apply call_keeps_rows; intros s; apply latency_keeps_rows]].
  2:{ eapply wp_mono; [|apply (wp_history rely inv _ (λ _ _, True) w); [reflexivity|]].
      - by intros ? ? [_ ?].
      - by eapply (safe_outbox_call true _ (EHandlerLatency ms)). }
  intros _ w1 [H1 _]. assert (Hst : ∀ w', rely w w' → delivery_revoked f (db w')).
  { intros w' (Hev & _). by eapply delivery_revoked_stable. }
  apply wp_bind, wp_query; [by intros ?|]. intros w2 H2 _. assert (rely w w2) as H12 by by etrans.
  destruct (is_set operator_cancel w2); [by apply settle_revoked, Hst|].
  apply wp_bind, wp_query; [by intros ?|]. intros w3 H3 _. assert (rely w w3) as H13 by by etrans.
  destruct (is_set cancel w3); [done|]. destruct r as [err|result]; [by apply settle_revoked, Hst|].
  apply wp_bind. cbn [lift Utc_now query]. intros w4 H4 HI4. cbn [fst snd].
  assert (E4 : w4 <| db := db w4 |> = w4) by by destruct w4. rewrite E4.
  split_and!; [done|done|]. apply settle_revoked, Hst. by etrans.
Qed.
End Late.

(** ** What a handler's result leaves *)

Section Recorded.
Context {C : Chrono} {U : Uuid} {Q : InFlightCap} {Value : Type} {JV : SerdeValue Value}.
Context {JS : SerdeJson (list (EventCatalogSubscription Value))}.
Context {JG : SerdeJson (list (EventWakeGrant Value))}.
Context (timestamp_millis_opt : Z → option Z).

(** The row of the lease holder after a fenced call at [now]. *)
Definition fenced_row (now : Z) (c : fenced_call) (m : event_deliveries.Model) : event_deliveries.Model :=
  let now_s := to_rfc3339 now in
  let dead reason := finalized_row STATE_DEAD_LETTER (Some "dead_letter") (Some reason) now_s m in
  let spent := event_deliveries.max_attempts m <=? event_deliveries.attempt_count m in
  match c with
  | FRelease restore_resume => released_row restore_resume now_s m
  | FHeartbeat lease_secs =>
      m <| event_deliveries.lease_expires_at :=
             Some (to_rfc3339 (now + seconds (default 60 (i64_try_from lease_secs)))) |>
        <| event_deliveries.updated_at := now_s |>
  | FAck => finalized_row STATE_ACKED (Some "ack") None now_s m
  | FReject reason => finalized_row STATE_REJECTED (Some "reject") (Some reason) now_s m
  | FDeadLetter reason => dead reason
  | FRetry run_after reason =>
      if spent then dead ("retry exhausted after " +:+ pretty (event_deliveries.attempt_count m)
                          +:+ " attempts: " +:+ reason)
      else retried_row (to_rfc3339 run_after) reason now_s m
  | FSuspend cp version wake_at wt wf wg =>
      match check_suspend cp (trim wt) (trim wf) with
      | Err _ => m
      | Ok _ =>
          suspended_delivery_row
            (if negb (str_is_empty (trim wt)) && (timestamp_millis wake_at <=? 0)
             then EVENT_WAKE_FAR_FUTURE else to_rfc3339 wake_at)
            cp version (event_deliveries.invocation_sequence m) (trim wt) (trim wf) wg now_s m
      end
  | FFail reason =>
      if spent then dead reason
      else retried_row (to_rfc3339 (job_backoff_run_after (event_deliveries.attempt_count m) now)) reason now_s m
  end.

(** The lease holder's row is replaced, and nothing else of the outbox. *)
Definition replaces (s s' : Db) (m m' : event_deliveries.Model) : Prop :=
  event_deliveries_t s' = set_by event_deliveries.id (event_deliveries.id m) m' (event_deliveries_t s)
  ∧ domain_events_t s' = domain_events_t s.

Lemma settles_replaces s m m' r : settles s m m' r → replaces s r.2 m m'.
Proof. by intros (t & ->). Qed.

Lemma set_by_same m t :
  NoDup (map event_deliveries.id t) → m ∈ t → set_by event_deliveries.id (event_deliveries.id m) m t = t.
Proof.
  intros Hnd Hm. unfold set_by. rewrite <-(map_id t) at 2. apply map_ext_in. intros r Hr%list_elem_of_In.
  destruct (text_eq (event_deliveries.id r) (event_deliveries.id m)) eqn:E; [|done].
  apply text_eq_true in E. by apply (NoDup_key event_deliveries.id t).
Qed.

Lemma replaces_same s m : outbox_wf s → m ∈ event_deliveries_t s → replaces s s m m.
Proof. intros Hwf Hm. split; [|done]. by rewrite set_by_same by (done || apply Hwf). Qed.

Lemma run_fenced_call s f m c :
  outbox_wf s → m ∈ event_deliveries_t s → delivery_fence_matches f m = true →
  replaces s (run (exec_fenced f c) s).2 m (fenced_row (clock s) c m).
Proof.
  intros Hwf Hm Hf.
  assert (Hupd : ∀ upd, replaces s (run (let* n := event_deliveries_update (delivery_fence_matches f) upd in
    Ret (Ok (n =? 1)%nat) : prog Db (result bool)) s).2 m (upd m)).
  { intros upd. rewrite run_bind, (run_fenced_delivery s f m) by done. done. }
  destruct c; cbn [exec_fenced fenced_row];
    unfold release_unexecuted_event_delivery, heartbeat_event_delivery, ack_event_delivery, reject_event_delivery,
      finalize_delivery; try (rewrite run_bind; apply Hupd).
  - by apply settles_replaces, run_dead_letter.
  - pose proof (run_retry s f m run_after reason Hwf Hm Hf) as Hr%settles_replaces. by destruct (_ <=? _).
  - unfold suspend_event_delivery. destruct (check_suspend _ _ _); [|by apply replaces_same].
    destruct (run_find_delivery s f m Hwf Hm Hf) as [Hfind Hfen].
    rewrite run_bind. cbn [run Utc_now query fst snd]. rewrite run_bind, Hfind. cbn [fst snd].
    rewrite Hfen. cbn [negb]. apply settles_replaces. by apply run_update_bump.
  - destruct (run_find_delivery s f m Hwf Hm Hf) as [Hfind Hfen].
    unfold fail_event_delivery. rewrite run_bind, Hfind. cbn [fst snd]. rewrite Hfen. cbn [negb].
    destruct (_ <=? _) eqn:E; [by apply settles_replaces, run_dead_letter|].
    rewrite run_bind. cbn [run Utc_now query fst snd].
    pose proof (run_retry s f m (job_backoff_run_after (event_deliveries.attempt_count m) (clock s))
      reason Hwf Hm Hf) as Hr%settles_replaces. by rewrite E in Hr.
Qed.

(** The row after the handler returned [r]. *)
Definition recorded_delivery (w : WorkerState) (i : Integration Value) (event : DomainEventRecord)
    (cancel operator_cancel : AtomicBool) (r : anyhow EventResult) (m : event_deliveries.Model)
    : event_deliveries.Model :=
  let now := clock (db w) in
  if is_set operator_cancel w then fenced_row now (FReject "cancelled by operator") m
  else if is_set cancel w then m
  else match r with
       | inl err => fenced_row now (FFail err) m
       | inr result => fenced_row now (outcome_call timestamp_millis_opt i event now result) m
       end.

Lemma run_settle f c w : link w = [] → db (run (settle f c) w).2 = (run (exec_fenced f c) (db w)).2.
Proof. intros Hl. unfold settle. rewrite run_bind, run_call by done. done. Qed.

End Recorded.

(** ** Catalog rows *)

Section CatalogRows.
Context {C : Chrono} {U : Uuid} {Value : Type} {JV : SerdeValue Value}.
Context {H : HostCpu} {I : Idna} {VT : ValueText Value}.

Lemma find_map_Some {A B} (f : A → option B) l b : find_map f l = Some b → ∃ x, x ∈ l ∧ f x = Some b.
Proof.
  induction l as [|x l IH]; [done|]. cbn [find_map]. destruct (f x) eqn:E.
  - intros [= ->]. exists x. split; [left|done].
  - intros (y & Hy & ?)%IH. exists y. split; [by right|done].
Qed.

(** A row [s] lies within the subscription [c]: its type, its filter, no other version, and
    suspension only when [c] allows it. *)
Definition within_consumer (c : GrantedEventConsumer) (s : EventCatalogSubscription Value) : Prop :=
  gc_event_type c = cs_event_type s ∧ cs_schema_versions s ⊆ gc_schema_versions c
  ∧ gc_filter c = canonical_event_filter (cs_filter s)
  ∧ (cs_supports_suspend s = true → gc_supports_suspend c = true).

End CatalogRows.
