(* ===== verification/Instances.v ===== *)
(** * Concrete instances of the third-party interfaces

    The witnesses of the theorems evaluate at these instances.  They are not the crates' own
    formats, only functions with the properties the [Laws] classes state: instants as nine
    big-endian bytes, JSON texts as bit strings of an injective encoding, UUIDs as numerals. *)

From stdpp Require Import base option list strings countable pretty gmap.
From Stdlib Require Import ZArith Lia.
From S2P Require Import Prelude Schema Store JobModels JobQueue JobInvariant JobPlans EventModels EventMatch EventOutbox EventInvariant.

Local Open Scope Z_scope.

(** ** Instants *)

Module Clock.
(** The [k] low bytes of [z], most significant first. *)
Fixpoint enc (k : nat) (z : Z) : string :=
  match k with
  | O => ""
  | S k => String (byte (Z.to_N (z / 256 ^ Z.of_nat k mod 256))) (enc k z)
  end.

Fixpoint dec (s : string) (acc : Z) : Z :=
  match s with
  | "" => acc
  | String c s => dec s (acc * 256 + Z.of_N (Ascii.N_of_ascii c))
  end%string.

Lemma byte_val z : 0 ≤ z → Z.of_N (Ascii.N_of_ascii (byte (Z.to_N (z mod 256)))) = z mod 256.
Proof.
  intros Hz. pose proof (Z.mod_pos_bound z 256). unfold byte.
  rewrite Ascii.N_ascii_embedding by lia. lia.
Qed.

Lemma mod_step k z : 0 ≤ z →
  z mod 256 ^ Z.of_nat (S k) = (z / 256 ^ Z.of_nat k mod 256) * 256 ^ Z.of_nat k + z mod 256 ^ Z.of_nat k.
Proof.
  intros Hz. rewrite Nat2Z.inj_succ, Z.pow_succ_r by lia.
  rewrite (Z.mul_comm 256), Z.rem_mul_r by lia. lia.
Qed.

Lemma dec_enc k z acc : 0 ≤ z →
  dec (enc k z) acc = acc * 256 ^ Z.of_nat k + z mod 256 ^ Z.of_nat k.
Proof.
  intros Hz. revert acc. induction k as [|k IH]; intros acc.
  - simpl. rewrite Z.mod_1_r. lia.
  - cbn [enc dec]. rewrite byte_val by (apply Z.div_pos; lia). rewrite IH, mod_step by done.
    rewrite Nat2Z.inj_succ, Z.pow_succ_r by lia. lia.
Qed.

Lemma enc_le k a b : 0 ≤ a → 0 ≤ b →
  text_le (enc k a) (enc k b) = (a mod 256 ^ Z.of_nat k <=? b mod 256 ^ Z.of_nat k).
Proof.
  intros Ha Hb. induction k as [|k IH].
  - simpl. by rewrite !Z.mod_1_r.
  - apply eq_true_iff_eq. cbn [enc]. rewrite text_le_cons, IH, Z.leb_le, !mod_step by done.
    assert (Hp : 0 < 256 ^ Z.of_nat k) by lia.
    pose proof (Z.mod_pos_bound a _ Hp). pose proof (Z.mod_pos_bound b _ Hp).
    pose proof (byte_val (a / 256 ^ Z.of_nat k)) as Va. pose proof (byte_val (b / 256 ^ Z.of_nat k)) as Vb.
    specialize (Va ltac:(apply Z.div_pos; lia)). specialize (Vb ltac:(apply Z.div_pos; lia)).
    set (x := a / 256 ^ Z.of_nat k mod 256) in *. set (y := b / 256 ^ Z.of_nat k mod 256) in *.
    rewrite Z.leb_le. split.
    + intros [Hlt|[E Hle]].
      * assert (x < y) by lia. nia.
      * assert (x = y) by (rewrite <-Va, <-Vb, E; done). nia.
    + intros Hle. destruct (Z.lt_trichotomy x y) as [Hlt|[E|Hgt]]; [left; lia| |nia].
      right. split; [by rewrite E|]. nia.
Qed.

Definition epoch : Z := 62167219200 * 1000000000.

#[global] Instance chrono : Chrono := {
  to_rfc3339 t := enc 9 (t + epoch);
  parse_from_rfc3339 s :=
    if (String.length s =? 9)%nat then Some (dec s 0 - epoch) else None;
}.

Lemma enc_length k z : String.length (enc k z) = k.
Proof. induction k; simpl; by f_equal. Qed.

#[global] Instance chrono_laws : ChronoLaws chrono.
Proof.
  split.
  - intros t [Hlo Hhi]. unfold to_rfc3339, parse_from_rfc3339, chrono, epoch. rewrite enc_length.
    cbn [Nat.eqb]. rewrite dec_enc by lia. rewrite Z.mod_small; [f_equal; lia|]. simpl. lia.
  - intros a b [Ha Ha'] [Hb Hb']. unfold to_rfc3339, chrono, epoch.
    rewrite enc_le by lia. rewrite !Z.mod_small by (simpl; lia). lia.
Qed.
End Clock.

(** ** UUIDs *)

Module Ids.
#[global] Instance uuid : Uuid := { new_v4 n := pretty n }.
#[global] Instance uuid_laws : UuidLaws uuid.
Proof. split. intros a b H. by apply (inj pretty) in H. Qed.
End Ids.

(** ** JSON envelopes *)

Module Json.
Fixpoint bits (p : positive) : string :=
  match p with
  | xH => ""
  | xO p => String (byte 48) (bits p)
  | xI p => String (byte 49) (bits p)
  end.

Fixpoint unbits (s : string) : positive :=
  match s with
  | EmptyString => xH
  | String c s => if Ascii.eqb c (byte 48) then xO (unbits s) else xI (unbits s)
  end.

Lemma unbits_bits p : unbits (bits p) = p.
Proof. induction p; simpl; by f_equal. Qed.

(** The fields, one number each. *)
Definition fields (p : JobPayload) : list positive :=
  [encode (v p); encode (account p); encode (title p);
   encode (match trigger p with Api => true | Scheduler => false end);
   encode (integration_id p); encode (force p); encode (plugin_id p); encode (source_key p);
   encode (dest_key p); encode ((λ c, (schema_version c, json c)) <$> checkpoint p);
   encode (invocation_sequence p); encode (resume_pending p)].

Definition of_fields (l : list positive) : option JobPayload :=
  match l with
  | [a; b; c; d; e; f; g; h; i; j; k; m] =>
      v ← decode a; account ← decode b; title ← decode c; tr ← decode d; int ← decode e;
      force ← decode f; plugin ← decode g; src ← decode h; dst ← decode i; cp ← decode j;
      inv ← decode k; res ← decode m;
      Some (mk_JobPayload v account title (if (tr : bool) then Api else Scheduler) int force plugin
              src dst ((λ c : Z * string, mk_JobCheckpoint c.1 c.2) <$> cp) inv res)
  | _ => None
  end.

Lemma of_fields_fields p : of_fields (fields p) = Some p.
Proof.
  unfold of_fields, fields. rewrite !decode_encode. simpl. f_equal.
  destruct p as [? ? ? [] ? ? ? ? ? [[]|] ? ?]; done.
Qed.

#[global] Instance serde : SerdeJson JobPayload := {
  to_string p := Some (bits (encode (fields p)));
  from_str s := l ← decode (unbits s); of_fields l;
  from_str_error _ := "expected value";
}.

#[global] Instance serde_laws : SerdeLaws JobPayload.
Proof.
  split. intros p. eexists. split; [reflexivity|]. unfold from_str, serde.
  rewrite unbits_bits, decode_encode. apply of_fields_fields.
Qed.

(** The SQL view of the same texts. *)
#[global] Instance plan_json_view : PlanJson := {
  json_valid t := match from_str t with Some _ => true | None => false end;
  json_extract_v t := (λ p, pretty (v p)) <$> from_str t;
  value_get_str t key :=
    p ← from_str t;
    if text_eq key "account" then account p
    else if text_eq key "title" then title p
    else if text_eq key "integration_id" then integration_id p
    else None;
  value_get_bool t key := force <$> from_str t;
}.

#[global] Instance plan_json_laws : PlanJsonLaws plan_json_view.
Proof.
  split. intros p j [= <-].
  assert (from_str (bits (encode (fields p))) = Some p) as E.
  { unfold from_str, serde. rewrite unbits_bits, decode_encode. apply of_fields_fields. }
  unfold json_valid, json_extract_v, value_get_str, value_get_bool, plan_json_view. rewrite E. done.
Qed.
End Json.

(** ** A scratch quota of one gibibyte *)
#[global] Instance one_gib : ScratchQuota := 1073741824.

(** ** JSON values, wake grants and catalogs *)

Module EventJson.
(** Values as trees: [GenNode 1] is an object, its members are pairs of a key and a value. *)
Definition Value : Type := gen_tree string.

Definition member (v : Value) : option (string * Value) :=
  match v with GenNode 0 [GenLeaf k; v] => Some (k, v) | _ => None end.
Definition of_member (kv : string * Value) : Value := GenNode 0 [GenLeaf kv.1; kv.2].

#[global] Instance value : SerdeValue Value := {
  as_object v := match v with GenNode 1 l => Some (list_to_map (omap member l)) | _ => None end;
  Object m := GenNode 1 (map of_member (map_to_list m));
  value_from_str s := decode (Json.unbits s);
}.

Lemma omap_member l : omap member (map of_member l) = l.
Proof. induction l as [|[k v] l IH]; simpl; [done|]. by f_equal. Qed.

#[global] Instance value_laws : SerdeValueLaws Value.
Proof.
  split. intros m. unfold as_object, Object, value. by rewrite omap_member, list_to_map_to_list.
Qed.

#[global] Instance grant_eq_dec : EqDecision (EventWakeGrant Value).
Proof. solve_decision. Defined.
#[global] Instance grant_countable : Countable (EventWakeGrant Value).
Proof.
  apply (inj_countable' (λ g, (grant_schema_versions g, grant_filter g))
    (λ p, mk_EventWakeGrant p.1 p.2)). by intros [].
Defined.

#[global] Instance subscription_eq_dec : EqDecision (EventCatalogSubscription Value).
Proof. solve_decision. Defined.
#[global] Instance subscription_countable : Countable (EventCatalogSubscription Value).
Proof.
  apply (inj_countable' (λ c, (cs_event_type c, cs_schema_versions c, cs_supports_suspend c,
                               cs_resource_class c, cs_filter c))
    (λ '(a, b, c, d, e), mk_EventCatalogSubscription a b c d e)). by intros [].
Defined.

(** A list as a [j] and the bits of its code; [[]] is the empty list. *)
Definition list_text {A} `{Countable A} (l : list A) : string := String (byte 106) (Json.bits (encode l)).
Definition of_list_text {A} `{Countable A} (s : string) : option (list A) :=
  if text_eq s "[]" then Some [] else
  match s with String c s => decode (Json.unbits s) | EmptyString => None end.

#[global] Instance list_json {A} `{Countable A} : SerdeJson (list A) := {
  to_string l := Some (list_text l);
  from_str := of_list_text;
  from_str_error _ := "expected value";
}.

#[global] Instance list_json_laws {A} `{Countable A} : SerdeLaws (list A).
Proof.
  split. intros l. eexists. split; [reflexivity|]. unfold from_str, list_json, of_list_text, list_text.
  change (text_eq _ "[]") with false. cbn. by rewrite Json.unbits_bits, decode_encode.
Qed.

(** Printable ASCII has no white space to trim. *)
Definition printable (a : Ascii.ascii) : bool :=
  ((33 <=? Ascii.N_of_ascii a) && (Ascii.N_of_ascii a <=? 127))%N.

Lemma white_space_printable a s : printable a = true → white_space (String a s) = None.
Proof.
  unfold printable. intros [Hlo Hhi]%andb_prop. apply N.leb_le in Hlo, Hhi. unfold white_space.
  assert (Hne : ∀ k, (127 < k)%N → (Ascii.N_of_ascii a =? k)%N = false).
  { intros k Hk. apply N.eqb_neq. lia. }
  assert ((Ascii.N_of_ascii a <=? 13)%N = false) as -> by (apply N.leb_gt; lia).
  assert ((Ascii.N_of_ascii a =? 32)%N = false) as -> by (apply N.eqb_neq; lia).
  rewrite andb_false_r. cbn [orb]. rewrite !Hne by lia. by destruct s as [|b [|c s]].
Qed.

Fixpoint all_printable (s : string) : bool :=
  match s with EmptyString => true | String c s => printable c && all_printable s end.

Lemma trim_printable s : all_printable s = true → trim s = s.
Proof.
  intros Hs. unfold trim.
  assert (H : ∀ t, all_printable t = true → trim_start t = t).
  { intros [|c t]; [done|]. intros [Hc _]%andb_prop. unfold trim_start. cbn [trim_start_go].
    by rewrite white_space_printable. }
  rewrite H by done. induction s as [|c s IH]; [done|]. cbn [trim_end]. rewrite H by done.
  cbn. f_equal. apply IH. by apply andb_prop in Hs as [_ ?].
Qed.

Lemma bits_printable p : all_printable (Json.bits p) = true.
Proof. induction p; simpl; done. Qed.

#[global] Instance list_json_compact {A} `{Countable A} : CompactJson A.
Proof.
  split; [|done]. intros l s [= <-]. split; [|done]. apply trim_printable.
  unfold list_text. cbn [all_printable]. by rewrite bits_printable.
Qed.
End EventJson.

(** ** Two deliveries of a plugin in flight *)
#[global] Instance two_in_flight : InFlightCap := 2.
