(* ===== verification/JobWitnesses.v ===== *)
(** * The queue's theorems at concrete stores

    A store is driven by real calls from the empty one; each lemma applies one theorem there and
    discharges its hypotheses by evaluation. *)

From stdpp Require Import base option list strings gmap pretty relations.
From Stdlib Require Import ZArith Lia.
From S2P Require Import Prelude Schema Store Concurrency JobModels JobQueue JobInvariant JobSafety JobTxn JobPool JobSpec JobPlans Instances.

Local Open Scope Z_scope.

(** ** A run *)

Definition start : Db := mk_Db [] [] 0 [] [] [] [] ∅ 1700000000000000000 0%nat.
Definition after (c : job_call) (s : Db) : Db := (run (exec_call c) s).2.
Definition at_clock (t : Z) (s : Db) : Db := s <| clock := t |>.
Definition later (n : Z) (s : Db) : Db := at_clock (clock s + seconds n) s.

Definition scan_spec : EnqueueJobSpec := mk_EnqueueJobSpec Scan JobPayload_default 0 3 10 None.
Definition sync_spec : EnqueueJobSpec := mk_EnqueueJobSpec ListenSync JobPayload_default 5 1 10 None.

(** A scan is admitted, claimed by [node-a], and completed. *)
Definition queued : Db := after (CEnqueue scan_spec) start.
Definition leased : Db := after (CClaim Network "node-a" 60) queued.
Definition fence_a : JobFence := mk_JobFence "scan-0" "node-a" 1.
Definition finished : Db := after (CComplete fence_a None) leased.
Definition two_jobs : Db := after (CEnqueue sync_spec) finished.
Definition flagged : Db := after (CCancel "scan-0") leased.

(** The first row. *)
Definition row_of (s : Db) : jobs.Model :=
  default (new_job_row scan_spec "" "" "" "" "") (head (jobs_t s)).

Lemma start_wf : wf start.
Proof.
  constructor; simpl; try apply NoDup_nil; try done; try (by intros ? ?%not_elem_of_nil).
  by intros ? ? ?%not_elem_of_nil.
Qed.

Lemma after_ok c s : admissible c → wf s → wf (after c s) ∧ evolves s (after c s).
Proof.
  intros Hc Hwf. destruct (wp_run evolves evolves wf (exec_call c) (λ _ _, True) s Hwf)
    as (? & ? & _); [|done]. by apply safe_call.
Qed.

Lemma later_wf n s : wf s → wf (later n s).
Proof. intros Hwf. apply (untouched_ok s); [done|by split_and!]. Qed.

Ltac run_wf :=
  repeat match goal with
  | |- wf start => exact start_wf
  | |- wf (later _ _) => apply later_wf
  | |- wf (after _ _) => apply after_ok; [by vm_compute|]
  | |- wf ?s => unfold s
  end.

Lemma live_b f s : live f s ↔ existsb (fence_matches f) (jobs_t s) = true.
Proof.
  rewrite existsb_exists. unfold live. split; intros (m & Hm & ?); exists m; split; try done;
    by apply list_elem_of_In.
Qed.

Ltac is_live := apply live_b; vm_compute; reflexivity.
Ltac not_live := rewrite live_b; vm_compute; discriminate.
Ltac evaluates := vm_compute; reflexivity.
Ltac in_range := unfold representable; split; vm_compute; [discriminate|reflexivity].
Ltac first_row := apply (list_elem_of_lookup_2 _ 0); vm_compute; reflexivity.

(** ** Reachability *)

(** Spawn one call and run its one access. *)
Lemma one_access c s X (f : Db → X * Db) k :
  admissible c → exec_call c = Atom f k → rtc queue_step ([], s) ([k (f s).1], (f s).2).
Proof.
  intros Hc Hp. apply (rtc_l _ _ ([Atom f k], s)); [apply (step_spawn _ _ []); by exists c|].
  apply rtc_once. by apply (step_access _ _ [Atom f k] s 0 X f k).
Qed.

Lemma jobs_reachable_witness :
  rtc queue_step ([], start) ([Ret (run (exec_call (CEnqueue scan_spec)) start).1], queued)
  ∧ wf queued ∧ evolves start queued.
Proof.
  assert (Hsteps : rtc queue_step ([], start)
    ([Ret (run (exec_call (CEnqueue scan_spec)) start).1], queued)).
  { by refine (one_access (CEnqueue scan_spec) start _ _ _ _ eq_refl). }
  split; [exact Hsteps|].
  apply (jobs_reachable start [Ret (run (exec_call (CEnqueue scan_spec)) start).1] queued);
    [by vm_compute|run_wf|exact Hsteps].
Defined.

Lemma revoked_fence_cannot_write_witness :
  revoked fence_a finished
  ∧ writes_nothing (exec_call (CHeartbeat fence_a 60 None)) (λ o, o = OBool (Ok false)) finished.
Proof.
  assert (Hrev : revoked fence_a finished).
  { apply (live_revoked fence_a leased); [run_wf|is_live| |not_live].
    apply after_ok; [done|run_wf]. }
  split; [exact Hrev|]. by apply (revoked_fence_cannot_write _ fence_a).
Defined.

Lemma fence_lost_forever_witness :
  live fence_a leased ∧ ¬ live fence_a finished ∧ ¬ live fence_a two_jobs.
Proof.
  split_and!; [is_live|not_live|].
  apply (fence_lost_forever fence_a leased finished); [run_wf|is_live| |not_live|].
  - apply after_ok; [done|run_wf].
  - apply after_ok; [by vm_compute|run_wf].
Defined.

Lemma generation_has_one_owner_witness :
  live fence_a leased ∧ live fence_a flagged ∧ owner fence_a = owner fence_a.
Proof.
  split_and!; [is_live..|].
  apply (generation_has_one_owner fence_a fence_a leased flagged); [run_wf|is_live| |is_live|done..].
  apply after_ok; [done|run_wf].
Defined.

Lemma terminal_rows_are_final_witness :
  terminal (row_of finished) ∧ row_of two_jobs = row_of finished.
Proof.
  assert (Ht : terminal (row_of finished)) by (apply terminal_intro; left; evaluates).
  split; [exact Ht|].
  apply (terminal_rows_are_final finished two_jobs (row_of finished) (row_of two_jobs));
    [run_wf| |first_row|exact Ht|first_row|evaluates].
  apply after_ok; [by vm_compute|run_wf].
Defined.

Lemma cancellation_sticks_witness :
  jobs.cancel_requested (row_of (after (CHeartbeat fence_a 60 None) flagged)) ≠ 0.
Proof.
  apply (cancellation_sticks flagged (after (CHeartbeat fence_a 60 None) flagged) (row_of flagged)
    (row_of (after (CHeartbeat fence_a 60 None) flagged)));
    [run_wf| |first_row|by vm_compute|first_row|evaluates].
  apply after_ok; [done|run_wf].
Defined.

(** ** Transactions *)

Lemma enqueue_job_spec_witness :
  enqueue_effect start scan_spec (Ok (Created "scan-0")) (jobs_t queued).
Proof.
  assert (E : (run (enqueue_job scan_spec) start).1 = Ok (Created "scan-0")) by evaluates.
  rewrite <-E. apply (enqueue_job_spec start scan_spec); [run_wf|by vm_compute].
Defined.

Lemma admission_respects_the_cap_witness :
  active_count (run (enqueue_job sync_spec) queued).2 ≤ Z.max (active_count queued) (Z.max 10 0).
Proof. apply (admission_respects_the_cap queued sync_spec); [run_wf|by vm_compute]. Defined.

Lemma claim_next_job_spec_witness :
  ∃ o, (run (claim_next_job Network "node-a" 60) queued).1 = Ok o
    ∧ claim_effect queued (run (claim_next_job Network "node-a" 60) queued).2 Network "node-a"
        (claim_expires queued 60) (to_rfc3339 (clock queued)) o.
Proof. apply (claim_next_job_spec queued Network "node-a" 60). run_wf. Defined.

Lemma claim_is_fenced_and_within_budget_witness :
  ∃ job, (run (claim_next_job Network "node-a" 60) queued).1 = Ok (Some job)
    ∧ 1 ≤ rec_attempt_count job ≤ rec_max_attempts job.
Proof.
  eexists. split; [evaluates|].
  apply (claim_is_fenced_and_within_budget queued Network "node-a" 60); [run_wf|evaluates].
Defined.

Lemma reserve_job_temp_path_spec_witness :
  reserve_granted leased (run (reserve_job_temp_path "scan-0" "/tmp/part" 100 1000) leased).2
    "scan-0" "/tmp/part" 100 1000.
Proof.
  assert (E : (run (reserve_job_temp_path "scan-0" "/tmp/part" 100 1000) leased).1 = Ok ()) by evaluates.
  pose proof (reserve_job_temp_path_spec leased "scan-0" "/tmp/part" 100 1000) as H.
  cbv zeta in H. rewrite E in H. apply H; [run_wf|by vm_compute..].
Defined.

(** ** The lease holder *)

Lemma fail_job_spec_witness :
  ∃ m', run (fail_job fence_a "network" "timeout") leased =
      (Ok true, leased <| jobs_t := set_row "scan-0" m' (jobs_t leased) |>)
    ∧ failure_of (clock leased) (row_of leased) m'.
Proof.
  destruct (fail_job_spec leased fence_a "network" "timeout" (row_of leased))
    as (m' & Hrun & _ & _ & _ & _ & Hf); [run_wf|first_row|evaluates|].
  exists m'. by split.
Defined.

Definition note : JobCheckpoint := mk_JobCheckpoint 1 "page 3".

Lemma suspend_then_resume_witness :
  ∃ m1, run (suspend_job fence_a note 1700000300000000000) leased =
      (Ok true, leased <| jobs_t := set_row "scan-0" m1 (jobs_t leased) |>)
    ∧ pending m1.
Proof.
  destruct (suspend_then_resume leased fence_a note 1700000300000000000 (row_of leased)
    JobPayload_default) as (m1 & Hrun & Hp & _);
    [run_wf|first_row|evaluates|evaluates|by vm_compute|].
  exists m1. by split.
Defined.

(** A row whose kind this build does not know. *)
Definition bogus : Db :=
  queued <| jobs_t := (update_rows (λ _, true) (λ m, m <| jobs.kind := "bogus" |>) (jobs_t queued)).2 |>.

Lemma only_row s x : jobs_t s = [row_of s] → x ∈ jobs_t s → x = row_of s.
Proof. intros E. rewrite E. apply list_elem_of_singleton. Qed.

Lemma bogus_wf : wf bogus.
Proof.
  apply update_ok; [run_wf|]. intros m Hm _ Hok.
  rewrite (only_row queued m ltac:(evaluates) Hm) in *.
  assert (Hp : pending (row_of queued)) by evaluates.
  destruct (ok_pending _ Hok Hp) as (? & ? & ? & ?). split.
  - apply row_le_leave; auto with store. by apply (pending_excl (row_of queued)).
  - destruct Hok. by apply row_ok_as_pending.
Qed.

Lemma unreadable_job_fails_closed_witness :
  ∃ job m', run (get_job "scan-0") bogus =
      (Ok (Some job), bogus <| jobs_t := set_row "scan-0" m' (jobs_t bogus) |>)
    ∧ rec_state job = Failed.
Proof.
  destruct (unreadable_job_fails_closed bogus (row_of bogus) "unknown job kind `bogus`")
    as (job & m' & Hrun & Hs & _); [apply bogus_wf|first_row|evaluates|evaluates|].
  exists job, m'. by split.
Defined.

(** ** Maintenance *)

Definition expired : Db := later 120 leased.

Lemma reclaim_is_one_pass_witness :
  run reclaim_expired_leases expired =
  (Ok 1, expired <| jobs_t := map (reclaim_row (clock expired)) (jobs_t expired) |>).
Proof.
  assert (E : Z.of_nat (length (List.filter (lease_over (clock expired)) (jobs_t expired))) = 1)
    by evaluates.
  rewrite <-E. apply (reclaim_is_one_pass expired); [run_wf|in_range|].
  intros m Hm _ e He. rewrite (only_row expired m ltac:(evaluates) Hm) in He.
  exists 1700000060000000000. split; [in_range|]. vm_compute in He |- *. congruence.
Defined.

Lemma reclaim_never_takes_a_live_lease_witness :
  lease_over (clock leased) (row_of leased) = false.
Proof.
  apply (proj2 (reclaim_never_takes_a_live_lease (clock leased) [] leased)
    (row_of leased) 1700000060000000000); [in_range|in_range|evaluates|evaluates].
Defined.

Definition old : Db := later 864000 finished.

Lemma prune_removes_exactly_the_outlived_witness :
  row_of old ∉ jobs_t (run (prune_terminal_jobs 7) old).2.
Proof.
  intros Hin. apply (prune_removes_exactly_the_outlived old 7) in Hin as [_ Hno].
  - apply Hno. split; [apply terminal_intro; left; evaluates|].
    exists 1700000000000000000. split_and!; [evaluates|in_range|by vm_compute].
  - run_wf.
  - by vm_compute.
  - in_range.
  - intros m e Hm He. rewrite (only_row old m ltac:(evaluates) Hm) in He.
    exists 1700000000000000000. split; [in_range|]. vm_compute in He |- *. congruence.
Defined.

Lemma cancel_settles_the_job_witness :
  (∀ m, m ∈ jobs_t (run (request_job_cancel "scan-0") leased).2 → jobs.id m ≠ "scan-0")
  ∨ settled "scan-0" (run (request_job_cancel "scan-0") leased).2.
Proof. apply (proj2 (cancel_settles_the_job "scan-0" leased)). run_wf. Defined.

(** ** The SQL plans *)

Lemma plan_enqueue_is_enqueue_witness :
  (run (rpc_enqueue_job scan_spec) start).1 = (run (enqueue_job scan_spec) start).1
  ∧ jobs_t (run (rpc_enqueue_job scan_spec) start).2 = jobs_t (run (enqueue_job scan_spec) start).2.
Proof.
  apply (plan_enqueue_is_enqueue start scan_spec); [run_wf|by vm_compute|evaluates|done|done|].
  by intros m ?%not_elem_of_nil.
Defined.

Lemma plan_claim_takes_the_best_witness :
  claim_order (row_of queued) (row_of queued) = true.
Proof.
  apply (plan_claim_takes_the_best Network "node-a" 60 queued (row_of queued) (row_of queued));
    [evaluates|first_row|evaluates].
Defined.

(** A job of one attempt, claimed, suspended, and due again. *)
Definition sync_leased : Db := after (CClaim Network "node-a" 60) (after (CEnqueue sync_spec) start).
Definition parked : Db :=
  later 400 (after (CSuspend (mk_JobFence "listen_sync-0" "node-a" 1) note 1700000300000000000) sync_leased).

Lemma plan_claim_spends_an_attempt_on_resume_witness :
  ∃ m', m' ∈ jobs_t (run (rpc_claim_next_job Network "node-b" 60) parked).2
    ∧ jobs.max_attempts m' < jobs.attempt_count m'.
Proof.
  destruct (plan_claim_spends_an_attempt_on_resume Network "node-b" 60 parked (row_of parked))
    as (_ & m' & Hm' & _ & _ & _ & Hover); [run_wf|evaluates|evaluates|by vm_compute|].
  exists m'. split; [exact Hm'|]. apply Hover. evaluates.
Defined.

Definition copy_spec : EnqueueJobSpec := mk_EnqueueJobSpec PluginCopy JobPayload_default 0 3 10 None.
Definition copy_queued : Db := after (CEnqueue copy_spec) start.

Lemma plan_claim_fails_plugin_copy_witness :
  readable (row_of copy_queued) = true
  ∧ ∃ m', m' ∈ jobs_t (run (rpc_claim_next_job Network "node-a" 60) copy_queued).2
      ∧ jobs.state m' = "failed".
Proof.
  split; [evaluates|].
  destruct (plan_claim_fails_plugin_copy Network "node-a" 60 copy_queued (row_of copy_queued))
    as (m' & Hm' & _ & Hs & _); [first_row|evaluates|evaluates|].
  by exists m'.
Defined.

(** A cancelled run that suspended instead of stopping. *)
Definition stranded : Db := later 400 (after (CSuspend fence_a note 1700000300000000000) flagged).

Lemma plan_claim_strands_cancelled_rows_witness :
  row_of stranded ∈ jobs_t (run (rpc_claim_next_job Network "node-b" 60) stranded).2
  ∧ terminal (row_of (run (claim_next_job Network "node-b" 60) stranded).2).
Proof.
  split; [|apply terminal_intro; right; right; evaluates].
  apply (plan_claim_strands_cancelled_rows Network "node-b" 60 stranded (row_of stranded));
    [run_wf|first_row|evaluates|by vm_compute|evaluates].
Defined.

(** The same store admitted through the plan. *)
Definition copy_planned : Db := later 5 (run (rpc_enqueue_job copy_spec) start).2.
Definition other_copy : EnqueueJobSpec :=
  mk_EnqueueJobSpec PluginCopy (JobPayload_default <| title := Some "other" |>) 0 3 10 None.

Lemma copy_planned_wf : wf copy_planned.
Proof.
  apply later_wf. eapply (append_ok start _ PluginCopy (row_of (run (rpc_enqueue_job copy_spec) start).2));
    [run_wf|evaluates| | |evaluates..].
  - apply row_ok_as_pending; try evaluates; try (by vm_compute). left. by vm_compute.
  - by intros r ?%not_elem_of_nil.
Qed.

Lemma plan_enqueue_coalesces_plugin_copies_witness :
  (run (rpc_enqueue_job other_copy) copy_planned).1 = Ok (Duplicate (jobs.id (row_of copy_planned))).
Proof.
  apply (plan_enqueue_coalesces_plugin_copies copy_planned other_copy (row_of copy_planned));
    [apply copy_planned_wf|done|first_row|evaluates|evaluates|by vm_compute].
Defined.
