(* ===== verification/EventWitnesses.v ===== *)
(** * The outbox's theorems at concrete stores

    One event is published, fanned out to two plugins, claimed, acknowledged or suspended, and
    woken by a second event; each lemma applies one theorem on the way. *)

From stdpp Require Import base option list strings countable gmap pretty relations.
From Stdlib Require Import ZArith Lia.
From S2P Require Import Prelude Schema Store Concurrency JobModels EventModels EventMatch EventOutbox EventPlans EventReads EventInvariant EventSafety EventClaim EventPool EventSpec EventWake EventPublish EventPlanSpec EventDispatch EventReconcile Instances JobWitnesses.

Local Open Scope Z_scope.

#[local] Instance no_latency : JulianDay := λ _ _, 0.

Local Abbreviation call := (event_call EventJson.Value).

(** ** A run *)

Definition after_event (c : call) (s : Db) : Db := (run (exec_event_call c) s).2.

Definition added : PublishDomainEventSpec :=
  mk_PublishDomainEventSpec "" "book_added" 1 "acct" "library" "" "" "book-1" "" "shelf".
Definition ready : PublishDomainEventSpec :=
  mk_PublishDomainEventSpec "" "book_ready" 1 "acct" "library" "" "" "book-1" "" "".

Definition two_plugins : list EventSubscriber :=
  [EventSubscriber_plugin "p1"; EventSubscriber_plugin "p2"].

Definition announced : Db := after_event (EPublish added) start.
Definition fanned_out : Db := after_event (EDispatch "0" two_plugins) announced.
Definition handling : Db := after_event (EClaim "node-a" 60 ["p1"] 2 "") fanned_out.
Definition fence_p1 : EventDeliveryFence := mk_EventDeliveryFence "0:p1" "node-a" 1.
Definition acked : Db := after_event (EFenced fence_p1 FAck) handling.
Definition acked_then_claimed : Db := after_event (EClaim "node-b" 60 ["p2"] 2 "") acked.
Definition parked : Db := after_event (EFenced fence_p1 (FSuspend "{}" 1 0 "book_ready" "" "")) handling.
Definition ready_announced : Db := after_event (EPublish ready) parked.

(** The rows. *)
Definition delivery_of (s : Db) : event_deliveries.Model :=
  default (new_delivery_row (new_event_row added "") "" "" "") (head (event_deliveries_t s)).
Definition event_at (i : nat) (s : Db) : domain_events.Model :=
  default (new_event_row added "") (domain_events_t s !! i).

Lemma start_outbox_wf : outbox_wf start.
Proof.
  constructor; simpl; try apply NoDup_nil; try done; by intros ? ?%not_elem_of_nil.
Qed.

Lemma after_event_ok c s : event_admissible true c → outbox_wf s →
  outbox_wf (after_event c s) ∧ outbox_evolves true s (after_event c s).
Proof.
  intros Hc Hwf. destruct (wp_run (outbox_evolves true) (outbox_evolves true) outbox_wf
    (exec_event_call c) (λ _ _, True) s Hwf) as (? & ? & _); [|done]. by apply safe_event_call.
Qed.

Ltac outbox_run_wf :=
  repeat match goal with
  | |- outbox_wf start => exact start_outbox_wf
  | |- outbox_wf (after_event _ _) => apply after_event_ok; [done|]
  | |- outbox_wf ?s => unfold s
  end.
Ltac outbox_evolved := apply after_event_ok; [done|outbox_run_wf].

(** ** Interleavings *)

(** A thread of the pool runs to its end while the others wait. *)
Lemma thread_runs {S A} (spawnable : prog S A → Prop) env ts p (s : S) :
  rtc (step spawnable env) (ts ++ [p], s) (ts ++ [Ret (run p s).1], (run p s).2).
Proof.
  revert s. induction p as [a|X f k IH]; intros s; [apply rtc_refl|]. cbn [run].
  apply (rtc_l _ _ (ts ++ [k (f s).1], (f s).2)); [|apply IH].
  pose proof (step_access spawnable env (ts ++ [Atom f k]) s (length ts) X f k) as H.
  rewrite insert_app_r_alt, Nat.sub_diag in H by done. apply H.
  rewrite lookup_app_r by done. by rewrite Nat.sub_diag.
Qed.

Local Abbreviation pool_step := (outbox_step_pool (Value := EventJson.Value) true).

(** The publisher, then the dispatcher. *)
Definition done_thread : prog Db unit := Ret ().

Lemma call_in_pool ts c s :
  event_admissible true c → rtc pool_step (ts, s) (ts ++ [done_thread], after_event c s).
Proof.
  intros Hc. apply (rtc_l _ _ (ts ++ [exec_event_call c], s)); [apply step_spawn; by exists c|].
  pose proof (thread_runs (λ p, ∃ c : call, event_admissible true c ∧ p = exec_event_call c)
    outbox_untouched ts (exec_event_call c) s) as H. unfold after_event, done_thread.
  by destruct (run (exec_event_call c) s) as [[] s'].
Qed.


Lemma delivery_live_b f s :
  delivery_live f s ↔ existsb (delivery_fence_matches f) (event_deliveries_t s) = true.
Proof.
  rewrite existsb_exists. unfold delivery_live. split; intros (m & Hm & ?); exists m; split; try done;
    by apply list_elem_of_In.
Qed.

Ltac delivery_is_live := apply delivery_live_b; vm_compute; reflexivity.
Ltac delivery_not_live := rewrite delivery_live_b; vm_compute; discriminate.

Lemma revoked_delivery_fence_cannot_write_witness :
  delivery_revoked fence_p1 acked
  ∧ outbox_writes_nothing (exec_fenced fence_p1 (FFail "late")) (λ r, r = Ok false) acked.
Proof.
  assert (Hrev : delivery_revoked fence_p1 acked).
  { apply (delivery_live_revoked fence_p1 handling); [outbox_run_wf|delivery_is_live|outbox_evolved|].
    delivery_not_live. }
  split; [exact Hrev|]. exact (revoked_delivery_fence_cannot_write (FFail "late") fence_p1 acked Hrev).
Defined.

Lemma delivery_fence_lost_forever_witness :
  delivery_live fence_p1 handling ∧ ¬ delivery_live fence_p1 acked_then_claimed.
Proof.
  split; [delivery_is_live|].
  apply (delivery_fence_lost_forever fence_p1 handling acked acked_then_claimed);
    [outbox_run_wf|outbox_run_wf|delivery_is_live|outbox_evolved|delivery_not_live|outbox_evolved].
Defined.

Lemma settled_deliveries_are_final_witness :
  delivery_settled (delivery_of acked) ∧ delivery_of acked_then_claimed = delivery_of acked.
Proof.
  assert (Hs : delivery_settled (delivery_of acked)) by (left; evaluates).
  split; [exact Hs|].
  apply (settled_deliveries_are_final acked acked_then_claimed (delivery_of acked)
    (delivery_of acked_then_claimed)); [outbox_run_wf|outbox_evolved|first_row|exact Hs|first_row|evaluates].
Defined.

(** ** Operations *)

Lemma published_once_witness :
  ∃ d, run (publish_domain_event added) acked = (Ok (EventDuplicate "0"), acked <| uuids_drawn := d |>).
Proof.
  apply (published_once added added start announced acked (EventCreated "0"));
    [outbox_run_wf|evaluates| |by split_and!|evaluates].
  transitivity fanned_out; [outbox_evolved|]. transitivity handling; outbox_evolved.
Defined.

Lemma all_keyed (t : list event_deliveries.Model) :
  forallb (λ d, text_eq (event_deliveries.id d)
                  (event_deliveries.event_id d +:+ ":" +:+ event_deliveries.plugin_id d)
                && text_eq (event_deliveries.idempotency_key d) (event_deliveries.id d)
                && colon_free (event_deliveries.event_id d)) t = true →
  ∀ d, d ∈ t → well_keyed d.
Proof.
  intros H d Hd%list_elem_of_In. rewrite forallb_forall in H. specialize (H d Hd).
  apply andb_prop in H as [[H1 H2]%andb_prop H3]. by split_and!; [apply text_eq_true..|].
Qed.


Lemma claim_is_one_scan_witness :
  option_map event_deliveries.id (List.find (claimable_delivery (tidied_outbox fanned_out) "" 2)
    (delivery_queue (tidied_outbox fanned_out) (to_rfc3339 (clock fanned_out)) ["p1"])) = Some "0:p1"
  ∧ domain_events_t (run (claim_next_event_delivery "node-a" 60 ["p1"] 2 "") fanned_out).2
    = domain_events_t fanned_out.
Proof.
  split; [evaluates|].
  apply (claim_is_one_scan "node-a" 60 ["p1"] 2 "" fanned_out); [outbox_run_wf|discriminate].
Defined.

Definition claimed_p1 : EventDeliveryRecord := map_delivery (clock handling) (delivery_of handling).

Lemma claimed_delivery_is_next_witness :
  ∃ m m', m ∈ event_deliveries_t fanned_out ∧ m' ∈ event_deliveries_t handling
    ∧ delivery_fence_matches (delivery_fence claimed_p1) m' = true
    ∧ event_deliveries.lease_generation m' = event_deliveries.lease_generation m + 1.
Proof.
  destruct (claimed_delivery_is_next "node-a" 60 ["p1"] 2 "" fanned_out claimed_p1 handling)
    as (m & m' & Hm & Hm' & _ & _ & _ & _ & Hg & _ & Hf & _);
    [outbox_run_wf|by vm_compute|discriminate|evaluates|]. by exists m, m'.
Defined.

Lemma fail_event_delivery_spec_witness :
  settles handling (delivery_of handling)
    (retried_row (to_rfc3339 (job_backoff_run_after 1 (clock handling))) "boom"
       (to_rfc3339 (clock handling)) (delivery_of handling))
    (run (fail_event_delivery fence_p1 "boom") handling).
Proof.
  apply (fail_event_delivery_spec handling fence_p1 (delivery_of handling) "boom");
    [outbox_run_wf|first_row|evaluates].
Defined.

Lemma suspended_delivery_resumes_witness :
  check_suspend "{}" (trim "book_ready") (trim "") = Ok ()
  ∧ ∃ asleep, settles handling (delivery_of handling) asleep
        (run (suspend_event_delivery fence_p1 "{}" 1 0 "book_ready" "" "") handling)
      ∧ delivery_pending asleep ∧ event_deliveries.run_after asleep = EVENT_WAKE_FAR_FUTURE.
Proof.
  split; [evaluates|].
  destruct (suspended_delivery_resumes handling fence_p1 (delivery_of handling) "{}" 1 0 "book_ready" ""
    "" "node-a" "" "") as (asleep & H1 & H2 & _ & H3 & _);
    [outbox_run_wf|first_row|evaluates|evaluates|]. exists asleep. by split_and!.
Defined.

(** ** Wakes *)

Definition wanted : EventCatalogSubscription EventJson.Value :=
  EventCatalogSubscription_new "book_ready" [1].

Lemma wake_grants_are_exact_witness :
  wake_grants_from_subscriptions [wanted] "book_ready" "" = inr [mk_EventWakeGrant [1] None]
  ∧ wakes [wanted] "book_ready" "" 1 "".
Proof.
  split; [evaluates|].
  pose proof (wake_grants_are_exact [wanted] "book_ready" "" "" 1 "") as H.
  change (wake_grants_from_subscriptions [wanted] "book_ready" "")
    with (inr (A := string) [mk_EventWakeGrant (Value := EventJson.Value) [1] None]) in H.
  refine (proj1 (H _ _ _ eq_refl) _); [|discriminate|evaluates].
  intros sub ->%list_elem_of_singleton. by eexists.
Defined.

Definition ready_event : domain_events.Model := event_at 1 ready_announced.

Lemma wake_pass_terminates_witness :
  map event_deliveries.id (sleepers_left ready_announced ready_event) = ["0:p1"]
  ∧ ∃ acc drawn, run (for_each (repeat ready_event 1) (0, false)
        (wake_candidate (to_rfc3339 (clock ready_announced)) "" 100)) ready_announced
      = (Ok acc, woken_pass ready_announced ready_event drawn).
Proof.
  split; [evaluates|].
  apply (wake_pass_terminates (to_rfc3339 (clock ready_announced)) "" 100 1 ready_event ready_announced);
    [outbox_run_wf| |evaluates..].
  apply (list_elem_of_lookup_2 _ 1); evaluates.
Defined.

Lemma lost_wake_lease_changes_nothing_witness :
  wake_lease_lost ready_announced "1" "node-z"
  ∧ ∃ k, run (wake_one_claimed_page ready_event "node-z" 100) ready_announced = (Ok k, ready_announced).
Proof.
  assert (Hl : wake_lease_lost ready_announced "1" "node-z") by evaluates.
  split; [exact Hl|].
  apply (lost_wake_lease_changes_nothing ready_event "node-z" 100 ready_announced);
    [outbox_run_wf|exact Hl].
Defined.

(** ** Retention *)

Definition month_later : Db := later 2678400 acked.

Lemma later_outbox_wf n s : outbox_wf s → outbox_wf (later n s).
Proof. intros []. by constructor. Qed.

Lemma event_retention_keeps_live_work_witness :
  map event_deliveries.id (List.filter (λ m, negb (outlived_delivery
      (to_rfc3339 (clock month_later - days 7)) (to_rfc3339 (clock month_later - days 30)) m))
    (event_deliveries_t month_later)) = ["0:p2"]
  ∧ ∀ m, m ∈ event_deliveries_t month_later → delivery_pending m ∨ delivery_running m →
      m ∈ event_deliveries_t (run (prune_event_deliveries 7 30) month_later).2.
Proof.
  split; [evaluates|].
  apply (event_retention_keeps_live_work month_later 7 30). apply later_outbox_wf. outbox_run_wf.
Defined.

(** ** Behind a database plugin *)

Lemma fanned_out_portable : portable fanned_out 60.
Proof.
  constructor; [in_range|by vm_compute|in_range|].
  assert (H : ∀ m, m ∈ event_deliveries_t fanned_out →
    (event_deliveries.resume_pending m =? 0) && negb (is_null (parse_from_rfc3339 (event_deliveries.run_after m)))
    && negb (is_null (parse_from_rfc3339 (event_deliveries.created_at m))) = true).
  { intros m Hm%list_elem_of_In. revert m Hm. apply forallb_forall. evaluates. }
  intros m Hm _. specialize (H m Hm). apply andb_prop in H as [[H1 H2]%andb_prop H3].
  constructor; [left; by apply Z.eqb_eq| |].
  - destruct (parse_from_rfc3339 (event_deliveries.run_after m)); [by eexists|done].
  - destruct (parse_from_rfc3339 (event_deliveries.created_at m)); [by eexists|done].
Qed.

Lemma host_claim_is_local_claim_witness :
  (run (claim_next_event_delivery_host_cas "node-a" 60 ["p1"] 2 "") fanned_out).1 = Ok (Some claimed_p1)
  ∧ event_deliveries_t (run (claim_next_event_delivery_host_cas "node-a" 60 ["p1"] 2 "") fanned_out).2
    = event_deliveries_t (run (claim_next_event_delivery "node-a" 60 ["p1"] 2 "") fanned_out).2.
Proof.
  split; [evaluates|].
  apply (host_claim_is_local_claim "node-a" 60 ["p1"] 2 "" fanned_out);
    [outbox_run_wf|discriminate|by vm_compute|exact fanned_out_portable].
Defined.

Lemma atomic_publish_is_publish_witness :
  (run (publish_domain_event_atomic ready) parked).1 = (run (publish_domain_event ready) parked).1
  ∧ domain_events_t (run (publish_domain_event_atomic ready) parked).2
    = domain_events_t (run (publish_domain_event ready) parked).2.
Proof.
  apply (atomic_publish_is_publish ready parked).
  intros e He%list_elem_of_In. apply text_eq_false. revert e He.
  assert (H : forallb (λ e, negb (text_eq (domain_events.id e) (prepared_id parked ready)))
    (domain_events_t parked) = true) by evaluates.
  intros e He. rewrite forallb_forall in H. apply negb_true_iff. by apply H.
Defined.

Lemma plain_plugin p : trim p = p → plain (EventSubscriber_plugin p).
Proof. by split. Qed.

Lemma two_plugins_dispatchable : dispatchable announced "0" (event_at 0 announced) two_plugins.
Proof.
  assert (Hnil : event_deliveries_t announced = []) by evaluates.
  constructor; [by rewrite Hnil; intros d ?%not_elem_of_nil|evaluates|evaluates| |
    |by rewrite Hnil; intros d ?%not_elem_of_nil].
  - intros sub [->|[->|[]%not_elem_of_nil]%elem_of_cons]%elem_of_cons; by apply plain_plugin.
  - by apply NoDup_ListNoDup; repeat constructor; simpl; intuition discriminate.
Qed.

Lemma paged_dispatch_is_dispatch_witness :
  (run (dispatch_event_deliveries_atomic 1 "0" two_plugins) announced).1 = Ok 2
  ∧ event_deliveries_t (run (dispatch_event_deliveries_atomic 1 "0" two_plugins) announced).2
    = event_deliveries_t fanned_out.
Proof.
  destruct (paged_dispatch_is_dispatch 1 "0" two_plugins announced (event_at 0 announced))
    as (H1 & H2 & _); [exact two_plugins_dispatchable|evaluates|].
  rewrite H1, H2. split; evaluates.
Defined.

(** One page of one plugin went out; another process, a minute later and with other subscribers,
    sends the rest. *)
Lemma interrupted_dispatch_finishes_witness :
  let stopped := (run (let? all := load_or_init_dispatch_snapshot "0" two_plugins in
      first_pages "0" (take 1 (chunks (Z.to_nat (Z.max 1 1)) all))) announced).2 in
  delivered_plugins "0" (event_deliveries_t stopped) = ["p1"]
  ∧ delivered_plugins "0" (event_deliveries_t
      (run (dispatch_event_deliveries_atomic 5 "0" [EventSubscriber_plugin "p9"])
         (stopped <| clock := clock announced + seconds 60 |>)).2) = ["p1"; "p2"].
Proof.
  intros stopped. split; [evaluates|].
  destruct (interrupted_dispatch_finishes 1 5 1 "0" two_plugins [EventSubscriber_plugin "p9"] announced
    (event_at 0 announced) (clock announced + seconds 60)) as [H _];
    [exact two_plugins_dispatchable|evaluates|evaluates|evaluates| |by vm_compute|].
  - assert (event_deliveries_t announced = []) as -> by evaluates. by intros d ?%not_elem_of_nil.
  - unfold stopped. rewrite H. evaluates.
Defined.

(** ** Late joiners *)

Definition heard : EventCatalogSubscription EventJson.Value := EventCatalogSubscription_new "book_added" [1].
Definition joined_late : Db := after_event (EUpsert "node-c" "p3" [heard] true) fanned_out.

Lemma late_tables (s : Db) :
  forallb (λ d, text_eq (event_deliveries.id d)
                  (event_deliveries.event_id d +:+ ":" +:+ event_deliveries.plugin_id d)
                && text_eq (event_deliveries.idempotency_key d) (event_deliveries.id d)
                && colon_free (event_deliveries.event_id d)) (event_deliveries_t s) = true →
  forallb (λ e, colon_free (domain_events.id e) && negb (text_eq (domain_events.id e) "")
                && text_eq (to_rfc3339 (parse_dt (clock s) (domain_events.created_at e)))
                     (domain_events.created_at e)) (domain_events_t s) = true →
  NoDup (map domain_events.id (domain_events_t s)) → late_wf s.
Proof.
  intros Hd He Hnd. rewrite forallb_forall in He.
  constructor; [by apply all_keyed|done|..]; intros e Hin; apply list_elem_of_In, He in Hin;
    apply andb_prop in Hin as [[H1 H2]%andb_prop H3]; [done| |by apply text_eq_true].
  apply text_eq_false. by apply negb_true_iff.
Qed.

Lemma reconcile_adds_exactly_the_missing_witness :
  map event_deliveries.id (late_deliveries joined_late (to_rfc3339 0) (live_catalog joined_late)) = ["0:p3"]
  ∧ (run (reconcile_catalog_deliveries 0) joined_late).1 = Ok 1.
Proof.
  split; [evaluates|].
  destruct (reconcile_adds_exactly_the_missing 0 joined_late) as [H _].
  - apply late_tables; [evaluates..|]. apply NoDup_ListNoDup. repeat constructor. simpl. tauto.
  - rewrite H. evaluates.
Defined.

(** The same fan-out through the plugin, a minute ago. *)
Definition frozen_out : Db :=
  later 60 (run (dispatch_event_deliveries_atomic 1 "0" two_plugins) announced).2.

Lemma frozen_out_dispatchable :
  dispatchable frozen_out "0" (event_at 0 frozen_out) (map EventSubscriber_plugin ["p1"; "p2"]).
Proof.
  constructor; [apply all_keyed; evaluates|evaluates|evaluates| | |].
  - intros sub [->|[->|[]%not_elem_of_nil]%elem_of_cons]%elem_of_cons; by apply plain_plugin.
  - by apply NoDup_ListNoDup; repeat constructor; simpl; intuition discriminate.
  - assert (H : forallb (λ d, negb (text_eq (event_deliveries.created_at d) (to_rfc3339 (clock frozen_out))))
      (event_deliveries_t frozen_out) = true) by evaluates.
    intros d Hd%list_elem_of_In _ Hc. rewrite forallb_forall in H. specialize (H d Hd).
    rewrite Hc, text_eq_refl in H. done.
Qed.

Lemma frozen_dispatch_drops_late_joiners_witness :
  (run (dispatch_event_deliveries_atomic 1 "0" [EventSubscriber_plugin "p3"]) frozen_out).1 = Ok 0
  ∧ (run (dispatch_event_deliveries "0" [EventSubscriber_plugin "p3"]) frozen_out).1 = Ok 1.
Proof.
  destruct (frozen_dispatch_drops_late_joiners 1 frozen_out (event_at 0 frozen_out) ["p1"; "p2"] "p3")
    as (H1 & _ & H3).
  - apply late_tables; [evaluates..|]. apply NoDup_ListNoDup. repeat constructor. simpl. tauto.
  - exact frozen_out_dispatchable.
  - evaluates.
  - evaluates.
  - evaluates.
  - assert (delivered_plugins (domain_events.id (event_at 0 frozen_out)) (event_deliveries_t frozen_out)
      = ["p1"; "p2"]) as -> by evaluates. done.
  - evaluates.
  - rewrite <-is_in_true. vm_compute. discriminate.
  - change (domain_events.id (event_at 0 frozen_out)) with "0" in *. rewrite H3. by split.
Defined.
