(* ===== verification/WorkerWitnesses.v ===== *)
(** * The workers' theorems at concrete processes

    A worker process over the stores of [JobWitnesses] and [EventWitnesses]: a turn that claims,
    runs and completes a job, one that claims and acknowledges a delivery, and the late ends of
    both. *)

From stdpp Require Import base option list strings countable gmap pretty relations.
From Stdlib Require Import ZArith Lia.
From S2P Require Import Prelude Schema Store Concurrency Worker JobModels JobQueue JobInvariant JobSafety JobTxn JobPool JobSpec JobWorker EventModels EventMatch EventOutbox EventPlans EventReads EventInvariant EventSafety EventClaim EventPool EventSpec Manifest Consent EventWorker EventWorkerSpec Instances JobWitnesses EventWitnesses.

Local Open Scope Z_scope.

(** A process that has just started, on a link that works. *)
Definition process (s : Db) : WorkerState := mk_WorkerState s [] 0 [].

(** ** The job worker *)

Definition quick_handler (cmd : JobCommand) (ctx : JobExecCtx) : prog WorkerState (anyhow string) :=
  Ret (inr "scanned").
Definition no_scan (id : string) : prog Db (result unit) := Ret (Ok ()).
Definition no_scan_page : prog Db (result unit) := Ret (Ok ()).

Definition one_turn : prog WorkerState unit := worker_turn quick_handler no_scan no_scan_page "node-a" 60 7.
Definition after_turn : WorkerState := (run one_turn (process queued)).2.

Lemma quick_env : worker_env quick_handler no_scan no_scan_page.
Proof. split; intros; apply safe_ret. Qed.


Lemma claim_replay_is_bounded_witness :
  wp (wrely evolves) (wrely evolves) (winv wf) (claim_with_replay "node-a" 60) (λ r _, r ≠ None) (process queued).
Proof. apply (claim_replay_is_bounded "node-a" 60 (process queued)). Defined.

Definition ctx_a : JobExecCtx := mk_JobExecCtx fence_a 0%nat 1 "" None None 1.

Lemma late_worker_writes_nothing_witness :
  revoked fence_a finished
  ∧ wp (wrely evolves) wkeep (winv wf) (finish_job no_scan fence_a ctx_a (inr "scanned")) (λ _ _, True)
      (process finished).
Proof.
  assert (Hrev : revoked fence_a finished).
  { apply (live_revoked fence_a leased); [run_wf|is_live| |not_live]. apply after_ok; [done|run_wf]. }
  split; [exact Hrev|]. exact (late_worker_writes_nothing no_scan fence_a ctx_a (inr "scanned") (process finished) Hrev).
Defined.


(** ** The event worker *)

#[local] Instance no_days : JulianDay := λ _ _, 0.
#[local] Instance four_cores : HostCpu := Some 4.
#[local] Instance ascii_idna : Idna := λ s, Some s.
#[local] Instance value_text : ValueText EventJson.Value :=
  { value_is_null v := bool_decide (v = GenNode 2 []); value_to_string v := Some (Json.bits (encode v)) }.

(** Milliseconds within the years RFC 3339 writes. *)
Definition millis (ms : Z) : option Z :=
  if (0 <=? ms) && (ms <? 253402300800000) then Some (ms * 1000000) else None.

(** A loaded guest that acknowledges every event. *)
Definition acker : Integration EventJson.Value :=
  mk_Integration "p1" "p1" [mk_EventSubscription "book_added" [1] false "" None] (λ _ _, Ret (inr Ack)).

Definition one_delivery : prog WorkerState unit := delivery_turn millis [acker] "node-a" 2 "".
Definition after_delivery : WorkerState := (run one_delivery (process fanned_out)).2.


Definition added_record : DomainEventRecord := map_event (clock handling) (event_at 0 handling).

Lemma late_delivery_writes_nothing_witness :
  delivery_revoked fence_p1 acked
  ∧ wp (wrely (outbox_evolves true)) wrows_kept (winv outbox_wf)
      (finish_delivery millis fence_p1 acker added_record 0%nat 1%nat 5 (inr Ack)) (λ _ _, True) (process acked).
Proof.
  assert (Hrev : delivery_revoked fence_p1 acked).
  { apply (delivery_live_revoked fence_p1 handling); [outbox_run_wf|delivery_is_live|outbox_evolved|].
    delivery_not_live. }
  split; [exact Hrev|].
  exact (late_delivery_writes_nothing millis fence_p1 acker added_record 0%nat 1%nat 5 (inr Ack) (process acked) Hrev).
Defined.

Definition acked_row : event_deliveries.Model :=
  recorded_delivery millis (process handling) acker added_record 0%nat 1%nat (inr Ack) (delivery_of handling).

