(* ===== verification/ConsentWitnesses.v ===== *)
(** * The authority theorems at a concrete package

    A native guest with one storefront, a subscription, a job, a database and two network grants;
    an operator who narrows it; a proxy session that dials for it. *)

From stdpp Require Import base option list strings countable gmap pretty relations.
From Stdlib Require Import ZArith Lia.
From S2P Require Import Prelude BTree Text Address EventModels EventOutbox Manifest Consent ConsentSpec ConsentUse Egress ProxyModel ProxySpec EventWorker EventWorkerSpec Instances JobWitnesses.

Local Open Scope Z_scope.

#[local] Instance four_cores : HostCpu := Some 4.
#[local] Instance lower_idna : Idna := λ s, Some (to_ascii_lowercase s).
#[local] Instance no_urls : UrlCrate := λ _, None.
#[local] Instance tree_text : ValueText EventJson.Value :=
  { value_is_null v := bool_decide (v = GenNode 2 []); value_to_string v := Some (Json.bits (encode v)) }.

(** ** Addresses *)

Definition ten_net : IpAddr := V4 168427521.

Lemma public_internet_is_the_complement_witness :
  is_public_internet ten_net = false
  ∧ is_public_internet ten_net
    = negb (existsb (λ g, contains g ten_net) (omap parsed_block special_blocks)).
Proof. split; [evaluates|]. apply (public_internet_is_the_complement ten_net). by vm_compute. Defined.


(** ** A package and its operator *)

Definition network_caps : NetworkCapabilities :=
  mk_NetworkCapabilities Outbound [] [mk_TcpCapability "db.example.com" [5432]] false ["10.0.0.0/8"].

Definition book_consumer : EventConsumer EventJson.Value :=
  mk_EventConsumer "book_added" [1; 2] true "" None.

Definition demo : PluginManifest EventJson.Value :=
  mk_PluginManifest 3 "demo" None Native (Some "demo") [Storefront] None [] ["sync_books"] [book_consumer] []
    ["MAIN"] true (Some "") [] None None network_caps false [].

Definition request : PluginGrant := consent_request demo "local/demo" "t0".

(** The operator drops the secrets and the database, and adds the loopback block. *)
Definition narrowing : PluginGrantOverride :=
  mk_PluginGrantOverride None None None (Some ["127.0.0.0/8"]) None (Some ["Config"]) None None None
    (Some 99999) None None None.

Definition narrowed : PluginGrant :=
  match build_approved_grant request (Some narrowing) "t1" with inr g => g | inl _ => request end.

Lemma narrowed_ok : build_approved_grant request (Some narrowing) "t1" = inr narrowed.
Proof. evaluates. Qed.

Lemma demo_once : NoDup (map subscription (granted_consumers_from_manifest demo)).
Proof. vm_compute. repeat constructor; set_solver. Qed.

Lemma effective_grant_never_exceeds_consent_witness :
  "config" ∈ grant_bindings (effective_grant narrowed request)
  ∧ budgets_capped (effective_grant narrowed request).
Proof.
  destruct (effective_grant_never_exceeds_consent narrowed request) as (_ & _ & _ & Hb & _ & _ & Hc);
    [by vm_compute|].
  split; [|exact Hc]. apply Hb. vm_compute. set_solver.
Defined.

Lemma second_consumer_row_is_lost_witness :
  let first := mk_GrantedEventConsumer "book_added" [1] false None in
  let other := mk_GrantedEventConsumer "book_added" [2] false None in
  intersect_consumers [first; other] [other] = [].
Proof.
  intros first other.
  apply (second_consumer_row_is_lost [first; other] other first other);
    [done|set_solver|done|done|by intros v ->%list_elem_of_singleton ?%list_elem_of_singleton].
Defined.

Lemma approval_cannot_invent_authority_witness :
  entrypoints narrowed ⊆ entrypoints request ∧ budgets_capped narrowed.
Proof.
  destruct (approval_cannot_invent_authority (overridden request narrowing) request "t1" narrowed)
    as (_ & _ & He & _ & _ & _ & _ & _ & _ & _ & Hb); [by vm_compute..|exact narrowed_ok|].
  by split.
Defined.


Lemma honest_guest_is_admitted_witness :
  validate_described_capabilities demo (effective_grant request (consent_request demo "local/demo" "t2"))
    (capabilities demo) Password = None.
Proof.
  apply (honest_guest_is_admitted demo "local/demo" "t0" "t1" "t2" request Password);
    [evaluates| |done|done|done].
  vm_compute. repeat constructor; set_solver.
Defined.

Lemma described_guest_stays_within_witness :
  validate_described_capabilities demo request (capabilities demo) Password = None
  ∧ ∀ j, j ∈ cap_jobs (capabilities demo) → j ∈ jobs request.
Proof.
  assert (Hd : validate_described_capabilities demo request (capabilities demo) Password = None) by evaluates.
  split; [exact Hd|]. intros j Hj.
  apply (described_guest_stays_within demo request (capabilities demo) Password Hd). exact Hj.
Defined.

(** A manifest that spreads [book_added] over two rows. *)
Definition split_demo : PluginManifest EventJson.Value :=
  mk_PluginManifest 3 "demo" None Native (Some "demo") [Storefront] None [] []
    [mk_EventConsumer "book_added" [1] false "" None; mk_EventConsumer "book_added" [2] false "" None] []
    [] false None [] None None network_caps false [].

Lemma split_consumer_rows_are_refused_witness :
  validate split_demo = None
  ∧ validate_described_capabilities split_demo (consent_request split_demo "local/demo" "t0")
      (capabilities split_demo) Password ≠ None.
Proof.
  split; [evaluates|].
  apply (split_consumer_rows_are_refused split_demo (consent_request split_demo "local/demo" "t0") Password
    (mk_EventConsumer "book_added" [1] false "" None) (mk_EventConsumer "book_added" [2] false "" None) 2);
    [evaluates|right; left|left|]. cbn. intros E%list_elem_of_singleton. lia.
Defined.


(** ** Egress *)

Definition demo_policy : EgressPolicy := from_manifest demo.

Lemma consented_policy_is_the_manifest_policy_witness :
  allows_tcp (egress_policy request) "DB.example.com" 5432 = true
  ∧ ∀ host port, allows_tcp (egress_policy request) host port = allows_tcp demo_policy host port.
Proof.
  split; [evaluates|].
  apply (consented_policy_is_the_manifest_policy demo "local/demo" "t0" demo_policy). evaluates.
Defined.

Definition roaming : EgressPolicy := mk_EgressPolicy Outbound ["api.example.com"] 10 None true [] [].

Lemma dotted_literal_redirect_passes_witness :
  allows_redirect roaming "127.0.0.1." 0 = true ∧ allows_redirect roaming "127.0.0.1" 0 = false.
Proof. apply (dotted_literal_redirect_passes roaming 0); done. Defined.

(** ** A proxy session *)

(** A scheduler's choice: go on, cancel, or let the operation under way end. *)
Inductive move : Type :=
| Go
| Cancel
| Reply (o : op) (a : answer o)
| Interrupt.

#[local] Instance op_eq_dec : EqDecision op.
Proof. solve_decision. Defined.

Definition play1 {A} (s : session A) (m : move) : option (session A) :=
  match m, act s with
  | Cancel, c => Some (mk_session c true (log s ++ [Cancelled]))
  | Go, Running (Load k) => Some (mk_session (Running (k (fence s))) (fence s) (log s))
  | Go, Running (Select o k) =>
      Some (if fence s then mk_session (Running (k None)) true (log s)
            else mk_session (Racing o k) false (log s ++ [Began o]))
  | Go, Running (Await o k) => Some (mk_session (Waiting o k) (fence s) (log s ++ [Began o]))
  | Reply o a, Racing o' k =>
      match decide (o = o') with
      | left E => Some (mk_session (Running (k (Some (eq_rect o answer a o' E)))) (fence s)
                          (log s ++ [Ended o' (eq_rect o answer a o' E)]))
      | right _ => None
      end
  | Interrupt, Racing o k =>
      if fence s then Some (mk_session (Running (k None)) true (log s ++ [Dropped o])) else None
  | _, _ => None
  end.

Fixpoint play {A} (s : session A) (ms : list move) : option (session A) :=
  match ms with
  | [] => Some s
  | m :: ms => match play1 s m with Some s => play s ms | None => None end
  end.

Lemma play1_step {A} (s s' : session A) m : play1 s m = Some s' → step s s'.
Proof.
  destruct s as [c f h], m; cbn; destruct c as [[]| |]; try done; try (intros [= <-]; constructor).
  - destruct f; intros [= <-]; constructor.
  - destruct (decide _); [|done]. intros [= <-]. constructor.
  - destruct f; [|done]. intros [= <-]. constructor.
Qed.

Lemma play_steps {A} (s s' : session A) ms : play s ms = Some s' → rtc step s s'.
Proof.
  revert s. induction ms as [|m ms IH]; intros s; cbn [play]; [intros [= <-]; apply rtc_refl|].
  destruct (play1 s m) as [s1|] eqn:E; [|done]. intros Hp. eapply rtc_l; [by eapply play1_step|by apply IH].
Qed.

Definition chunk_of (s : string) : chunk :=
  match s with String c s => Chunk c s | EmptyString => ChunkEof end.

Definition connect_request : string := "CONNECT db.example.com:5432 HTTP/1.1" +:+ crlf +:+ crlf.

Definition proxied : io (checked unit) := handle_client demo_policy None false 3.

(** The guest connects; the lookup returns a public, a metadata and a granted address. *)
Definition inside : SocketAddr := mk_SocketAddr (V4 167772161) 5432.
Definition metadata : SocketAddr := mk_SocketAddr (V4 2852039166) 5432.

Definition dialling : list move :=
  [Go; Go; Reply ReadChunk (chunk_of connect_request)] ++ repeat Go 41
  ++ [Reply (Lookup "db.example.com" 5432) (inr [metadata; inside]); Go; Go; Go].

Definition before_dial : list event :=
  [Began ReadChunk; Ended ReadChunk (chunk_of connect_request);
   Began (Lookup "db.example.com" 5432); Ended (Lookup "db.example.com" 5432) (inr [metadata; inside])].

Definition opening : session (checked unit) := mk_session (Running proxied) false [].

Lemma plays_to ms l :
  log <$> play opening ms = Some l → ∃ s, rtc step opening s ∧ log s = l.
Proof.
  intros (s & E & Hs)%fmap_Some. exists s. split; [by eapply play_steps|done].
Qed.

(** Only the granted address is dialled; the metadata address was filtered out. *)
Lemma proxy_dials_only_grants_witness :
  ∃ s, reaches proxied s ∧ log s = before_dial ++ [Began (Connect inside)]
    ∧ reachable demo_policy (addr_ip inside).
Proof.
  destruct (plays_to dialling (before_dial ++ [Began (Connect inside)])) as (s & Hr & Hl); [evaluates|].
  assert (Hs : reaches proxied s) by by exists false.
  exists s. split_and!; [exact Hs|exact Hl|].
  apply (proj1 (proxy_dials_only_grants demo_policy false 3 None s before_dial [] Hs) inside Hl).
Defined.

Lemma handshake_is_bounded_witness :
  ∃ s, reaches proxied s ∧ reads (log s) = 1%nat
    ∧ (reads (log s) ≤ MAX_REQUEST_LINE + MAX_HEADER_BYTES + MAX_REQUEST_LINE)%nat.
Proof.
  destruct (plays_to dialling (before_dial ++ [Began (Connect inside)])) as (s & Hr & Hl); [evaluates|].
  assert (Hs : reaches proxied s) by by exists false.
  exists s. split_and!; [exact Hs|by rewrite Hl|]. exact (handshake_is_bounded demo_policy false 3 None s Hs).
Defined.

(** The dial succeeds and the guest's first bytes are relayed. *)
Definition relaying_moves : list move :=
  dialling ++ [Reply (Connect inside) (inr ()); Go; Go; Reply (Write Response ESTABLISHED) (inr ());
    Go; Reply Flush (inr ()); Go; Go; Reply Relay (FromClient (inr "hello")); Go;
    Reply (Write Upstream "hello") (inr ())].

Definition relayed_log : list event :=
  before_dial ++ [Began (Connect inside); Ended (Connect inside) (inr ());
    Began (Write Response ESTABLISHED); Ended (Write Response ESTABLISHED) (inr ());
    Began Flush; Ended Flush (inr ()); Began Relay; Ended Relay (FromClient (inr "hello"));
    Began (Write Upstream "hello"); Ended (Write Upstream "hello") (inr ())].

Lemma relay_is_faithful_witness :
  bytes_of (wrote Upstream) relayed_log = "hello"
  ∧ upto (bytes_of (wrote Upstream) relayed_log) (bytes_of read_client relayed_log).
Proof.
  split; [evaluates|].
  destruct (plays_to relaying_moves relayed_log) as (s & Hr & <-); [evaluates|].
  assert (Hs : reaches proxied s) by by exists false.
  apply (relay_is_faithful demo_policy false 3 None s Hs).
Defined.

