(* ===== verification/AuthorityWitnesses.v ===== *)
(** * The session theorems at a concrete package

    The package and the operator of [ConsentWitnesses]; the grants file is the code of the store, and
    the digest of a text the text itself. *)

From stdpp Require Import base option list strings countable gmap pretty relations.
From Stdlib Require Import ZArith Lia.
From S2P Require Import Prelude Concurrency BTree Text Address EventModels EventOutbox Manifest Consent ConsentSpec ConsentUse Authority AuthoritySpec Instances JobWitnesses ConsentWitnesses.

Local Open Scope Z_scope.

#[local] Existing Instances four_cores lower_idna tree_text.
#[local] Instance whole_text : Sha256 := λ s, s.

(** ** A code of grants *)

#[local] Instance TcpGrant_countable : Countable TcpGrant.
Proof. apply (inj_countable' (λ t, (tg_host t, tg_ports t)) (λ x, mk_TcpGrant x.1 x.2)). by intros []. Defined.

#[local] Instance consumer_countable : Countable GrantedEventConsumer.
Proof.
  apply (inj_countable' (λ c, (gc_event_type c, gc_schema_versions c, gc_supports_suspend c, gc_filter c))
    (λ x, mk_GrantedEventConsumer x.1.1.1 x.1.1.2 x.1.2 x.2)). by intros [].
Defined.

(** A value as a text, a list of values as a list of texts. *)
Definition text {A} `{Countable A} (a : A) : string := Json.bits (encode a).
Definition untext {A} `{Countable A} (s : string) : option A := decode (Json.unbits s).
Definition one {A} `{Countable A} (a : A) : list string := [text a].
Definition unone {A} `{Countable A} (l : list string) : option A := head l ≫= untext.

Lemma unone_one {A} `{Countable A} (a : A) : unone (one a) = Some a.
Proof. unfold unone, one, untext, text. cbn. by rewrite Json.unbits_bits, decode_encode. Qed.

Definition grant_code (g : PluginGrant) : list (list string) :=
  [one (schema_version g); one (plugin_key g); one (plugin_id g); one (entrypoints g); one (producers g);
   one (consumers g); one (jobs g); one (network_mode g); one (domains g); one (manifest_domains g);
   one (operator_added_domains g); one (operator_denied_domains g); one (tcp g); one (manifest_tcp g);
   one (operator_added_tcp g); one (operator_denied_tcp g); one (address_cidrs g); one (manifest_cidrs g);
   one (operator_added_cidrs g); one (operator_denied_cidrs g); one (allow_undeclared_public_redirects g);
   one (operator_allow_undeclared_public_redirects g); one (grant_bindings g); one (compatibility_flags g);
   one (grant_cpu_ms g); one (grant_subrequests g); one (disk_mib g); one (memory_mib g);
   one (cpu_rate_percent g); one (extra_processes g); one (approved_at g)].

Definition grant_decode (l : list (list string)) : option PluginGrant :=
  match l with
  | [a1; a2; a3; a4; a5; a6; a7; a8; a9; a10; a11; a12; a13; a14; a15; a16; a17; a18; a19; a20; a21; a22; a23;
     a24; a25; a26; a27; a28; a29; a30; a31] =>
      x1 ← unone a1; x2 ← unone a2; x3 ← unone a3; x4 ← unone a4; x5 ← unone a5; x6 ← unone a6; x7 ← unone a7;
      x8 ← unone a8; x9 ← unone a9; x10 ← unone a10; x11 ← unone a11; x12 ← unone a12; x13 ← unone a13;
      x14 ← unone a14; x15 ← unone a15; x16 ← unone a16; x17 ← unone a17; x18 ← unone a18; x19 ← unone a19;
      x20 ← unone a20; x21 ← unone a21; x22 ← unone a22; x23 ← unone a23; x24 ← unone a24; x25 ← unone a25;
      x26 ← unone a26; x27 ← unone a27; x28 ← unone a28; x29 ← unone a29; x30 ← unone a30; x31 ← unone a31;
      Some (mk_PluginGrant x1 x2 x3 x4 x5 x6 x7 x8 x9 x10 x11 x12 x13 x14 x15 x16 x17 x18 x19 x20 x21 x22 x23
              x24 x25 x26 x27 x28 x29 x30 x31)
  | _ => None
  end.

Lemma grant_decode_code g : grant_decode (grant_code g) = Some g.
Proof. unfold grant_decode, grant_code. rewrite !unone_one. cbn [mbind option_bind]. by destruct g. Qed.

#[local] Instance store_json : SerdeJson PluginGrantStore := {
  to_string store := Some (text (map grant_code store));
  from_str s := l ← untext s; mapM grant_decode l;
  from_str_error _ := "not a grant store";
}.

#[local] Instance store_json_laws : SerdeLaws PluginGrantStore.
Proof.
  split. intros store. exists (text (map grant_code store)). split; [done|].
  unfold from_str, store_json, untext, text. rewrite Json.unbits_bits, decode_encode. cbn.
  induction store as [|g store IH]; [done|]. cbn [map mapM]. rewrite grant_decode_code. cbn. by rewrite IH.
Qed.

Definition saved (l : PluginGrantStore) : string := text (map grant_code l).

Lemma parse_saved l : parse_file (Bytes (saved l)) = inr l.
Proof.
  destruct (serde_roundtrip l) as (s & Hs & Hl). injection Hs as <-. unfold parse_file, saved. by rewrite Hl.
Qed.

(** Texts too long to print are compared by evaluation. *)
Ltac decided := match goal with |- ?P => apply (bool_decide_eq_true_1 P); vm_compute; reflexivity end.

(** ** Revisions *)

Definition approved_later : PluginGrant := consent_request demo "local/demo" "t9".

Ltac plain := repeat constructor; vm_compute; (reflexivity || discriminate).

Lemma request_plain : plain_grant request.
Proof. split; plain. Qed.

Lemma later_plain : plain_grant approved_later.
Proof. split; plain. Qed.


(** ** A session, the file and the watcher *)

Definition stored : string := saved [request].
Definition guest : DiscoveredPlugin EventJson.Value := mk_DiscoveredPlugin demo "local/demo" false.
Definition no_overlay : PluginGrant → PluginGrant := λ g, g.

(** No file and no session; then the operator approves, the guest is spawned and the watcher looks. *)
Definition fresh : Host := mk_Host Missing [Missing] [] [] [] "".
Definition approved_host : Host := replace_file (Bytes stored) fresh.
Definition registration : prog Host unit :=
  register_section no_overlay guest (grant_revision request) (authority_revision request) "t2" 7 3.
Definition spawned : Host := (run registration approved_host).2.
Definition watched : Host := (run watch_tick spawned).2.
Definition session_row : LiveSession :=
  mk_LiveSession "local/demo" (grant_revision request) (authority_revision request) 3 7.

Lemma distinct_two w a b : written w = [a; b] → fingerprint a ≠ fingerprint b → distinct w.
Proof.
  intros Hw Hn i j c d. rewrite Hw. destruct i as [|[|i]], j as [|[|j]]; cbn; try done; congruence.
Qed.

Lemma no_session_outlives_its_grant_witness :
  rtc (epoch_step (Value := EventJson.Value)) (None, fresh) (None, watched)
  ∧ held watched session_row
  ∧ granted (Value := EventJson.Value) (file watched) (ls_plugin_key session_row)
      (ls_grant_revision session_row).
Proof.
  assert (Hsteps : rtc (epoch_step (Value := EventJson.Value)) (None, fresh) (None, watched)).
  { apply (rtc_l _ _ (None, approved_host)).
    { exact (locked_outside _ _ None _ _ (outside_write (Bytes stored) fresh)). }
    transitivity (@None (prog Host unit), spawned).
    { apply (run_section registration approved_host). apply section_register. vm_compute. discriminate. }
    exact (run_section watch_tick spawned section_tick). }
  assert (Hh : held watched session_row).
  { split_and!; [apply (list_elem_of_lookup_2 _ 0); evaluates|by vm_compute|evaluates]. }
  assert (Hr0 : ∀ s, s ∈ live fresh → ls_grant_revision s ≠ "") by (intros s Hs; by apply elem_of_nil in Hs).
  assert (Hs0 : ∀ s, held fresh s →
    granted (Value := EventJson.Value) (file fresh) (ls_plugin_key s) (ls_grant_revision s))
    by (intros s (Hs & _); by apply elem_of_nil in Hs).
  assert (Hd : distinct watched).
  { apply (distinct_two watched Missing (Bytes stored)); [decided|].
    apply (bool_decide_eq_false_1 (fingerprint Missing = fingerprint (Bytes stored))). evaluates. }
  assert (Hl : last watched = fingerprint (file watched)) by decided.
  split; [exact Hsteps|]. split; [exact Hh|].
  exact (no_session_outlives_its_grant fresh None watched session_row eq_refl eq_refl Hr0 Hs0 Hsteps Hd Hl Hh).
Defined.

(** The operator narrows the grant while the guest runs. *)
Definition narrowed_file : Host := replace_file (Bytes (saved [narrowed])) watched.

Lemma tick_fences_exactly_the_stale_witness :
  is_fenced 3 narrowed_file = false
  ∧ is_fenced (ls_cancelled session_row) (run watch_tick narrowed_file).2 = true.
Proof.
  assert (Hl : live narrowed_file = [session_row]) by evaluates.
  assert (Hr : ∀ s, s ∈ live narrowed_file → ls_grant_revision s ≠ "").
  { rewrite Hl. intros s Hs%list_elem_of_singleton. subst s. vm_compute. discriminate. }
  assert (Hf : file narrowed_file = Bytes (saved [narrowed])) by decided.
  assert (Hp : parse_file (file narrowed_file) = inr [narrowed]) by (rewrite Hf; apply parse_saved).
  assert (Hn : last narrowed_file ≠ fingerprint (file narrowed_file)).
  { apply (bool_decide_eq_false_1 (last narrowed_file = fingerprint (file narrowed_file))). evaluates. }
  destruct (tick_fences_exactly_the_stale narrowed_file [narrowed] Hr Hp Hn) as (_ & _ & _ & Hs & _).
  assert (Hk : ls_plugin_key session_row ≠ "") by (vm_compute; discriminate).
  assert (Hst : stored_revision [narrowed] (ls_plugin_key session_row) ≠ ls_grant_revision session_row)
    by (vm_compute; discriminate).
  assert (Hin : session_row ∈ live narrowed_file) by (rewrite Hl; by left).
  split; [evaluates|]. exact (proj1 (Hs session_row Hin (conj Hk Hst))).
Defined.

(** The package declares another destination, and nobody touches the file. *)
Definition updated : PluginManifest EventJson.Value :=
  mk_PluginManifest 3 "demo" None Native (Some "demo") [Storefront] None [] ["sync_books"] [book_consumer] []
    ["MAIN"] true (Some "") [] None None
    (mk_NetworkCapabilities Outbound [] [mk_TcpCapability "db.example.com" [5432];
       mk_TcpCapability "cache.example.com" [6379]] false ["10.0.0.0/8"]) false [].
Definition updated_guest : DiscoveredPlugin EventJson.Value := mk_DiscoveredPlugin updated "local/demo" false.

Definition updated_grant : PluginGrant :=
  effective_grant request (consent_request (dp_manifest updated_guest) (dp_key updated_guest) "t3").
Definition respawned : Host :=
  (run (register_section no_overlay updated_guest (grant_revision updated_grant)
          (authority_revision (no_overlay updated_grant)) "t3" 7 3) approved_host).2.

Lemma approved_file : parse_file (file approved_host) = inr [request].
Proof. apply (parse_saved [request]). Qed.

Lemma approved_empty s : s ∈ live approved_host → ls_grant_revision s ≠ "".
Proof. intros Hs. by apply elem_of_nil in Hs. Qed.


Lemma approved_session_is_kept_witness :
  is_fenced 3 (run reconcile_grants_from_disk spawned).2 = false.
Proof.
  assert (Hl : limits_unsigned (dp_manifest guest)) by by vm_compute.
  assert (Hft : flags_trimmed (dp_manifest guest)) by by vm_compute.
  assert (Hb : build_approved_grant (consent_request (dp_manifest guest) (dp_key guest) "t0") None "t0"
    = inr request) by done.
  assert (Hg : get_by_plugin_key [request] (dp_key guest) = Some request) by evaluates.
  assert (Hc : grant_covers request (consent_request (dp_manifest guest) (dp_key guest) "t2") = true) by evaluates.
  assert (Hne : grant_revision request ≠ "") by (vm_compute; discriminate).
  assert (Hs : ∀ s, s ∈ live approved_host → ls_grant_revision s ≠ "" ∧ ls_cancelled s ≠ 3%nat)
    by (intros s Hs; by apply elem_of_nil in Hs).
  exact (proj2 (approved_session_is_kept no_overlay guest None "t0" "t0" "t2" request [request] 7 3 approved_host
    Hl Hft Logic.I demo_once Hb eq_refl approved_file Hg Hc Hs (not_elem_of_nil 3%nat) Hne)).
Defined.

Lemma restored_file_goes_unnoticed_witness :
  ∃ w', rtc (epoch_step (Value := EventJson.Value)) (None, fresh) (None, w') ∧ file w' = file fresh
    ∧ ∃ s, held w' s.
Proof.
  assert (Hg : get_by_plugin_key [request] (dp_key guest) = Some request) by evaluates.
  assert (Hc : grant_covers request (consent_request (dp_manifest guest) (dp_key guest) "t2") = true) by evaluates.
  assert (Hne : grant_revision (effective_grant request
    (consent_request (dp_manifest guest) (dp_key guest) "t2")) ≠ "") by (vm_compute; discriminate).
  destruct (restored_file_goes_unnoticed guest stored [] [request] request "t2" 3 fresh eq_refl ltac:(done)
    eq_refl eq_refl eq_refl (parse_saved [request]) Hg Hc Hne (not_elem_of_nil 3%nat))
    as (w' & Hs & Hf & (s & Hh & _) & _).
  exists w'. split; [exact Hs|]. split; [exact Hf|]. by exists s.
Defined.
