(* ===== verification/Mp4Bytes.v ===== *)
(** * Bytes of an MP4 file

    What the media crates use of the language: bytes, big-endian integers, indexing and slices with
    their panics, and the result of a function that may fail, panic or not return within its fuel. *)

From stdpp Require Import base option list numbers strings pretty.
From Stdlib Require Import ZArith Lia.
From Stdlib Require Strings.Byte Init.Byte.
From S2P Require Import Prelude.

Local Open Scope Z_scope.

Notation u8 := Init.Byte.byte.
Notation bytes := (list Init.Byte.byte).

#[global] Instance u8_eq_dec : EqDecision u8 := Byte.byte_eq_dec.

Definition u8_val (b : u8) : Z := Z.of_N (Byte.to_N b).
Definition u8_of (v : Z) : u8 := default Byte.x00 (Byte.of_N (Z.to_N (v mod 256))).

(** [b"moov"]. *)
Definition lit (s : string) : bytes := String.list_byte_of_string s.

Definition len (l : bytes) : Z := Z.of_nat (length l).

(** [from_be_bytes] and [to_be_bytes]; the latter of [v as uN]. *)
Definition from_be (l : bytes) : Z := fold_left (λ v b, v * 256 + u8_val b) l 0.
Fixpoint to_be (n : nat) (v : Z) : bytes :=
  match n with O => [] | S n => to_be n (v / 256) ++ [u8_of v] end.

Notation be32 := (to_be 4).
Notation be64 := (to_be 8).

Definition U32_MAX : Z := 2 ^ 32 - 1.
Definition U64_MAX : Z := 2 ^ 64 - 1.
Definition I64_MAX : Z := 2 ^ 63 - 1.
(** [+] on [u64] in a release build. *)
Definition u64_add (a b : Z) : Z := (a + b) mod 2 ^ 64.
Definition u64_saturating_add (a b : Z) : Z := Z.min U64_MAX (a + b).
Definition u64_saturating_sub (a b : Z) : Z := Z.max 0 (a - b).
Definition u64_saturating_mul (a b : Z) : Z := Z.min U64_MAX (a * b).
Definition u64_checked_add (a b : Z) : option Z := if a + b <=? U64_MAX then Some (a + b) else None.
(** [i64::try_from] of a [u64] or a [usize], [u64::try_from] of an [i64], [u32::try_from]. *)
Definition i64_of (v : Z) : option Z := if v <=? I64_MAX then Some v else None.
Definition i64_checked_add (a b : Z) : option Z :=
  if bool_decide (- 2 ^ 63 ≤ a + b ≤ I64_MAX) then Some (a + b) else None.
Definition u64_of (v : Z) : option Z := if 0 <=? v then Some v else None.
Definition u32_of (v : Z) : option Z := if v <=? U32_MAX then Some v else None.

(** ** Results *)

(** [bookclerk-mp4/src/error.rs]. *)
Inductive Mp4Error : Type :=
| Container (detail : string)
| Transform (detail : string)
| NoRoom (needed available : Z)
| Io.

(** A call returns, fails, panics, or is still running when its fuel is spent. *)
Inductive outcome (A : Type) : Type :=
| Done (a : A)
| Err (e : Mp4Error)
| Panic
| Spin.
Arguments Done {A}. Arguments Err {A}. Arguments Panic {A}. Arguments Spin {A}.

Definition and_then {A B} (m : outcome A) (k : A → outcome B) : outcome B :=
  match m with Done a => k a | Err e => Err e | Panic => Panic | Spin => Spin end.

Declare Scope mp4_scope.
Delimit Scope mp4_scope with mp4.
Notation "'let!' x ':=' m 'in' k" := (and_then m (λ x, k))
  (at level 200, x pattern, m at level 100, k at level 200) : mp4_scope.
Open Scope mp4_scope.

Definition ok_or {A} (o : option A) (e : Mp4Error) : outcome A :=
  match o with Some a => Done a | None => Err e end.
Definition map_err {A} (f : Mp4Error → Mp4Error) (m : outcome A) : outcome A :=
  match m with Err e => Err (f e) | m => m end.
Definition guard_err (refuse : bool) (e : Mp4Error) : outcome unit := if refuse then Err e else Done ().

(** Neither a panic nor a run that goes on. *)
Definition returns {A} (m : outcome A) : Prop := match m with Done _ | Err _ => True | _ => False end.

(** ** Slices *)

Definition slice (l : bytes) (a b : Z) : bytes := take (Z.to_nat (b - a)) (drop (Z.to_nat a) l).

(** [l[a..b]]. *)
Definition index (l : bytes) (a b : Z) : outcome bytes :=
  if (0 <=? a) && (a <=? b) && (b <=? len l) then Done (slice l a b) else Panic.

(** [l[i]]. *)
Definition byte_at (l : bytes) (i : Z) : outcome Z :=
  let! s := index l i (i + 1) in Done (from_be s).

(** [l[a..a + new.len()].copy_from_slice(new)]. *)
Definition overwrite (l : bytes) (a : Z) (new : bytes) : bytes :=
  take (Z.to_nat a) l ++ new ++ drop (Z.to_nat (a + len new)) l.
Definition store_at (l : bytes) (a : Z) (new : bytes) : outcome bytes :=
  if (0 <=? a) && (a + len new <=? len l) then Done (overwrite l a new) else Panic.

Definition be32_at (l : bytes) (a : Z) : outcome Z := let! s := index l a (a + 4) in Done (from_be s).
Definition be64_at (l : bytes) (a : Z) : outcome Z := let! s := index l a (a + 8) in Done (from_be s).

(** [vec.resize(n, 0)]. *)
Definition resize (l : bytes) (n : Z) : bytes :=
  take (Z.to_nat n) l ++ replicate (Z.to_nat n - length l) Byte.x00.

(** ** Integers and their bytes *)

Lemma len_app l k : len (l ++ k) = len l + len k.
Proof. unfold len. rewrite length_app. lia. Qed.
Lemma len_nonneg l : 0 ≤ len l.
Proof. unfold len. lia. Qed.
Lemma len_nil : len [] = 0.
Proof. done. Qed.
Lemma len_cons b l : len (b :: l) = 1 + len l.
Proof. unfold len. cbn. lia. Qed.

Lemma u8_val_range b : 0 ≤ u8_val b < 256.
Proof. unfold u8_val. pose proof (Byte.to_N_bounded b). lia. Qed.

Lemma u8_val_of v : u8_val (u8_of v) = v mod 256.
Proof.
  unfold u8_of, u8_val. pose proof (Z.mod_pos_bound v 256).
  destruct (Byte.of_N _) as [b|] eqn:E; cbn.
  - apply Byte.to_of_N in E. rewrite E. lia.
  - apply Byte.of_N_None_iff in E. lia.
Qed.

Lemma u8_of_val b : u8_of (u8_val b) = b.
Proof.
  unfold u8_of, u8_val. pose proof (Byte.to_N_bounded b).
  rewrite Z.mod_small by lia. rewrite N2Z.id, Byte.of_to_N. done.
Qed.

Lemma u8_of_mod v w : v mod 256 = w mod 256 → u8_of v = u8_of w.
Proof. unfold u8_of. by intros ->. Qed.

Lemma length_to_be n v : length (to_be n v) = n.
Proof. revert v. induction n as [|n IH]; intros v; cbn; [done|]. rewrite length_app, IH. cbn. lia. Qed.
Lemma len_to_be n v : len (to_be n v) = Z.of_nat n.
Proof. unfold len. by rewrite length_to_be. Qed.

Lemma from_be_snoc l b : from_be (l ++ [b]) = from_be l * 256 + u8_val b.
Proof. unfold from_be. by rewrite fold_left_app. Qed.

Lemma from_be_range l : 0 ≤ from_be l < 256 ^ len l.
Proof.
  induction l as [|b l IH] using rev_ind; [by split|].
  rewrite from_be_snoc, len_app. change (len [b]) with 1. rewrite Z.pow_add_r by (pose proof (len_nonneg l); lia).
  change (256 ^ 1) with 256. pose proof (u8_val_range b). lia.
Qed.

Lemma from_to_be n v : from_be (to_be n v) = v mod 256 ^ Z.of_nat n.
Proof.
  revert v. induction n as [|n IH]; intros v; cbn [to_be]; [by rewrite Z.mod_1_r|].
  rewrite from_be_snoc, IH, u8_val_of. rewrite Nat2Z.inj_succ, Z.pow_succ_r by lia.
  rewrite Z.rem_mul_r by lia. lia.
Qed.

Lemma from_to_be_small n v : 0 ≤ v < 256 ^ Z.of_nat n → from_be (to_be n v) = v.
Proof. intros. rewrite from_to_be. by apply Z.mod_small. Qed.

Lemma to_from_be l n : length l = n → to_be n (from_be l) = l.
Proof.
  intros <-. induction l as [|b l IH] using rev_ind; [done|].
  rewrite length_app, Nat.add_comm. cbn [to_be length Nat.add]. rewrite from_be_snoc. pose proof (u8_val_range b).
  rewrite Z.div_add_l, (Z.div_small (u8_val b)), Z.add_0_r, IH by lia. f_equal. f_equal.
  rewrite <-(u8_of_val b) at 2. apply u8_of_mod. by rewrite Z.add_comm, Z.mod_add.
Qed.

Lemma to_be_mod n v w : v mod 256 ^ Z.of_nat n = w mod 256 ^ Z.of_nat n → to_be n v = to_be n w.
Proof.
  intros E. rewrite <-(to_from_be (to_be n v) n), <-(to_from_be (to_be n w) n) by apply length_to_be.
  by rewrite !from_to_be, E.
Qed.

(** ** Parts of a buffer *)

Lemma take_len (a c : bytes) : take (Z.to_nat (len a)) (a ++ c) = a.
Proof. unfold len. by rewrite Nat2Z.id, take_app_length. Qed.
Lemma drop_len (a c : bytes) : drop (Z.to_nat (len a)) (a ++ c) = c.
Proof. unfold len. by rewrite Nat2Z.id, drop_app_length. Qed.

Lemma slice_mid a l c : slice (a ++ l ++ c) (len a) (len a + len l) = l.
Proof. unfold slice. rewrite drop_len. replace (len a + len l - len a) with (len l) by lia. apply take_len. Qed.

Lemma len_slice l a b : 0 ≤ a ≤ b → b ≤ len l → len (slice l a b) = b - a.
Proof. unfold slice, len. intros. rewrite length_take, length_drop. lia. Qed.

Lemma overwrite_mid a l c new : len new = len l → overwrite (a ++ l ++ c) (len a) new = a ++ new ++ c.
Proof. intros E. unfold overwrite. rewrite take_len, E, <-len_app. do 2 f_equal. rewrite (assoc_L _). apply drop_len. Qed.

(** [buf] has [l] at [pos]. *)
Definition holds (buf : bytes) (pos : Z) (l : bytes) : Prop := ∃ a c, buf = a ++ l ++ c ∧ len a = pos.

Lemma holds_bounds buf pos l : holds buf pos l → 0 ≤ pos ∧ pos + len l ≤ len buf.
Proof. intros (a & c & -> & <-). rewrite !len_app. pose proof (len_nonneg a). pose proof (len_nonneg c). lia. Qed.

Lemma holds_split buf pos l k : holds buf pos (l ++ k) ↔ holds buf pos l ∧ holds buf (pos + len l) k.
Proof.
  split.
  - intros (a & c & -> & <-). split.
    + exists a, (k ++ c). by rewrite (assoc_L (++) l).
    + exists (a ++ l), c. rewrite len_app. by rewrite <-!(assoc_L (++)).
  - intros [(a & c & -> & <-) (a' & c' & E & El)].
    rewrite (assoc_L (++)) in E. apply app_inj_1 in E as [<- ->].
    + exists a, c'. by rewrite <-!(assoc_L (++)).
    + rewrite <-len_app in El. unfold len in El. lia.
Qed.

Lemma holds_app buf pos l k : holds buf pos (l ++ k) → holds buf pos l ∧ holds buf (pos + len l) k.
Proof. apply holds_split. Qed.

Lemma holds_whole buf : holds buf 0 buf.
Proof. exists [], []. by rewrite app_nil_r. Qed.

Lemma holds_slice buf pos l : holds buf pos l → slice buf pos (pos + len l) = l.
Proof. intros (a & c & -> & <-). apply slice_mid. Qed.

Lemma holds_index buf pos l e : holds buf pos l → e = pos + len l → index buf pos e = Done l.
Proof.
  intros H ->. pose proof (holds_bounds _ _ _ H). pose proof (len_nonneg l). unfold index.
  rewrite (holds_slice _ _ _ H). by rewrite !(proj2 (Z.leb_le _ _)) by lia.
Qed.

Lemma holds_be32 buf pos v : holds buf pos (be32 v) → be32_at buf pos = Done (v mod 2 ^ 32).
Proof. intros H. unfold be32_at. rewrite (holds_index _ _ _ _ H) by (rewrite len_to_be; lia). cbn [and_then]. by rewrite from_to_be. Qed.
Lemma holds_be64 buf pos v : holds buf pos (be64 v) → be64_at buf pos = Done (v mod 2 ^ 64).
Proof. intros H. unfold be64_at. rewrite (holds_index _ _ _ _ H) by (rewrite len_to_be; lia). cbn [and_then]. by rewrite from_to_be. Qed.

Lemma index_holds buf a b l : index buf a b = Done l → holds buf a l ∧ len l = b - a.
Proof.
  unfold index. destruct (0 <=? a) eqn:E1; [|done]. destruct (a <=? b) eqn:E2; [|done].
  destruct (b <=? len buf) eqn:E3; [|done]. cbn. intros [= <-].
  apply Z.leb_le in E1, E2, E3. rewrite len_slice by lia. split; [|done].
  exists (take (Z.to_nat a) buf), (drop (Z.to_nat (b - a)) (drop (Z.to_nat a) buf)). unfold slice.
  rewrite take_drop, take_drop. split; [done|]. unfold len in *. rewrite length_take. lia.
Qed.

Lemma index_total buf a b : 0 ≤ a ≤ b → b ≤ len buf → index buf a b = Done (slice buf a b).
Proof. intros. unfold index. by rewrite !(proj2 (Z.leb_le _ _)) by lia. Qed.

Lemma be32_total buf a : 0 ≤ a → a + 4 ≤ len buf → ∃ v, be32_at buf a = Done v ∧ 0 ≤ v < 2 ^ 32.
Proof.
  intros. unfold be32_at. rewrite index_total by lia. cbn. eexists. split; [done|].
  pose proof (from_be_range (slice buf a (a + 4))) as Hr. rewrite len_slice in Hr by lia.
  by replace (a + 4 - a) with 4 in Hr by lia.
Qed.
Lemma be64_total buf a : 0 ≤ a → a + 8 ≤ len buf → ∃ v, be64_at buf a = Done v ∧ 0 ≤ v < 2 ^ 64.
Proof.
  intros. unfold be64_at. rewrite index_total by lia. cbn. eexists. split; [done|].
  pose proof (from_be_range (slice buf a (a + 8))) as Hr. rewrite len_slice in Hr by lia.
  by replace (a + 8 - a) with 8 in Hr by lia.
Qed.

Lemma len_overwrite l a new : 0 ≤ a → a + len new ≤ len l → len (overwrite l a new) = len l.
Proof. unfold overwrite, len. intros. rewrite !length_app, length_take, length_drop. lia. Qed.

Lemma store_total l a new : 0 ≤ a → a + len new ≤ len l → store_at l a new = Done (overwrite l a new).
Proof. intros. unfold store_at. by rewrite !(proj2 (Z.leb_le _ _)) by lia. Qed.

Lemma and_then_returns {A B} (m : outcome A) (k : A → outcome B) :
  returns m → (∀ a, m = Done a → returns (k a)) → returns (and_then m k).
Proof. destruct m; cbn; auto. Qed.

Lemma and_then_Done {A B} (m : outcome A) (k : A → outcome B) b :
  and_then m k = Done b → ∃ a, m = Done a ∧ k a = Done b.
Proof. destruct m; cbn; naive_solver. Qed.

Lemma Done_inj {A} (x y : A) : Done x = Done y → x = y.
Proof. congruence. Qed.
