(* ===== verification/Mp4Edit.v ===== *)
(** * A [moov] in memory: [bookclerk-mp4/src/edit.rs] and [patch.rs]

    Finding boxes in a buffer, replacing one and correcting the sizes around it, the slack at the end
    of a [moov], and moving its chunk offsets.  A buffer shorter than [isize::MAX] and sizes below
    [2^32] keep every [usize] sum in range, so positions are integers.  Each loop takes fuel;
    [Spin] is a loop that has spent it. *)

From stdpp Require Import base option list numbers strings pretty.
From Stdlib Require Import ZArith Lia.
From S2P Require Import Prelude Mp4Bytes.

Local Open Scope Z_scope.

(** The head of every walk: the size and type of the box at [pos], if one lies before [end_]. *)
Definition child_at (buf : bytes) (pos end_ : Z) : outcome (option (Z * bytes)) :=
  if end_ <? pos + 8 then Done None else
  let! size := be32_at buf pos in
  if (size <? 8) || (end_ <? pos + size) then Done None else
  let! kind := index buf (pos + 4) (pos + 8) in
  Done (Some (size, kind)).

(** The positions walked grow by 8 bytes at least. *)
Definition walk_fuel (buf : bytes) : nat := S (S (length buf)).

(** ** [edit.rs] *)

Definition CONTAINERS : list bytes := map lit ["moov"; "trak"; "mdia"; "minf"; "stbl"; "udta"].

Definition children_start (kind : bytes) (box_start : Z) : option Z :=
  if bool_decide (kind ∈ map lit ["moov"; "trak"; "mdia"; "minf"; "stbl"; "udta"; "sinf"; "schi"])
  then Some (box_start + 8)
  else if bool_decide (kind = lit "meta") then Some (box_start + 12)
  else if bool_decide (kind = lit "stsd") then Some (box_start + 16)
  else if bool_decide (kind ∈ map lit ["enca"; "mp4a"; "aavd"]) then Some (box_start + 36)
  else None.

(** The inner loop of [find_box_range]: the box, or the stack with the ranges that were pushed. *)
Fixpoint scan_range (fuel : nat) (buf fourcc : bytes) (pos end_ : Z) (stack : list (Z * Z))
    : outcome ((Z * Z) + list (Z * Z)) :=
  match fuel with
  | O => Spin
  | S fuel =>
      let! child := child_at buf pos end_ in
      match child with
      | None => Done (inr stack)
      | Some (size, kind) =>
          let content_start := pos + 8 in
          let box_end := pos + size in
          if bool_decide (kind = fourcc) then Done (inl (pos, box_end)) else
          let stack :=
            if bool_decide (kind ∈ CONTAINERS) then (content_start, box_end) :: stack
            else if bool_decide (kind = lit "meta") then (content_start + 4, box_end) :: stack
            else stack in
          scan_range fuel buf fourcc box_end end_ stack
      end
  end.

Fixpoint scan_stack (fuel : nat) (buf fourcc : bytes) (stack : list (Z * Z)) : outcome (option (Z * Z)) :=
  match fuel with
  | O => Spin
  | S fuel =>
      match stack with
      | [] => Done None
      | (start, end_) :: stack =>
          let! r := scan_range (walk_fuel buf) buf fourcc start end_ stack in
          match r with inl range => Done (Some range) | inr stack => scan_stack fuel buf fourcc stack end
      end
  end.

Definition find_box_range (buf fourcc : bytes) : outcome (option (Z * Z)) :=
  scan_stack (walk_fuel buf) buf fourcc [(0, len buf)].

Fixpoint find_sibling (fuel : nat) (buf : bytes) (pos end_ : Z) (fourcc : bytes) : outcome (option (Z * Z)) :=
  match fuel with
  | O => Spin
  | S fuel =>
      if Z.min end_ (len buf) <? pos + 8 then Done None else
      let! size := be32_at buf pos in
      if (size <? 8) || (end_ <? pos + size) then Done None else
      let! kind := index buf (pos + 4) (pos + 8) in
      let box_end := pos + size in
      if bool_decide (kind = fourcc) then Done (Some (pos, box_end))
      else find_sibling fuel buf box_end end_ fourcc
  end.

Definition find_child_in_range (buf : bytes) (start end_ : Z) (fourcc : bytes) : outcome (option (Z * Z)) :=
  find_sibling (walk_fuel buf) buf start end_ fourcc.

Definition find_direct_child (buf : bytes) (parent_start parent_end : Z) (fourcc : bytes)
    : outcome (option (Z * Z)) :=
  if len buf <? parent_start + 8 then Err (Container "parent box header truncated") else
  let! kind := index buf (parent_start + 4) (parent_start + 8) in
  let pos := if bool_decide (kind = lit "meta") then parent_start + 8 + 4 else parent_start + 8 in
  find_child_in_range buf pos parent_end fourcc.

(** The inner loop of [ancestor_size_offsets]: the sibling around [at_], and where its children are. *)
Fixpoint enclosing (fuel : nat) (buf : bytes) (at_ child_pos end_ : Z)
    : outcome (option ((Z * Z) * option (Z * Z))) :=
  match fuel with
  | O => Spin
  | S fuel =>
      let! child := child_at buf child_pos end_ in
      match child with
      | None => Done None
      | Some (size, kind) =>
          let box_end := child_pos + size in
          if (child_pos <? at_) && (at_ <? box_end)
          then Done (Some ((child_pos, size), (λ content, (content, box_end)) <$> children_start kind child_pos))
          else enclosing fuel buf at_ box_end end_
      end
  end.

Fixpoint ancestors_from (fuel : nat) (buf : bytes) (at_ pos end_ : Z) (out : list (Z * Z))
    : outcome (list (Z * Z)) :=
  match fuel with
  | O => Spin
  | S fuel =>
      let! found := enclosing (walk_fuel buf) buf at_ pos end_ in
      match found with
      | None => Done out
      | Some (entry, None) => Done (out ++ [entry])
      | Some (entry, Some (content, box_end)) => ancestors_from fuel buf at_ content box_end (out ++ [entry])
      end
  end.

Definition ancestor_size_offsets (buf : bytes) (at_ : Z) : outcome (list (Z * Z)) :=
  ancestors_from (walk_fuel buf) buf at_ 0 (len buf) [].

Definition resize_ancestor (delta : Z) (out : bytes) (entry : Z * Z) : bytes :=
  let '(offset, old_size) := entry in
  if offset + 4 <=? len out then overwrite out offset (be32 (old_size + delta)) else out.

Definition splice_replace (buf : bytes) (start end_ : Z) (replacement : bytes) : outcome bytes :=
  if (end_ <? start) || (len buf <? end_)
  then Err (Container ("splice range " +:+ pretty start +:+ ".." +:+ pretty end_
              +:+ " outside buffer of " +:+ pretty (len buf))) else
  let delta := len replacement - (end_ - start) in
  let! ancestors := if delta =? 0 then Done [] else ancestor_size_offsets buf start in
  let! head := index buf 0 start in
  let! tail := index buf end_ (len buf) in
  Done (fold_left (resize_ancestor delta) ancestors (head ++ replacement ++ tail)).

(** ** [patch.rs]: the slack of a [moov] and its chunk offsets *)

Definition FREE_BOX_LEN : Z := 8.
Definition RESERVED_MOOV_SLACK : Z := Z.shiftl 1 20.

Fixpoint last_child (fuel : nat) (buf : bytes) (pos : Z) (last : option (Z * bytes))
    : outcome (option (Z * bytes)) :=
  match fuel with
  | O => Spin
  | S fuel =>
      let! child := child_at buf pos (len buf) in
      match child with
      | None => Done last
      | Some (size, kind) => last_child fuel buf (pos + size) (Some (pos, kind))
      end
  end.

Definition last_child_range (buf : bytes) : outcome (option (Z * bytes)) :=
  if len buf <? 8 then Err (Container "moov shorter than a box header") else
  last_child (walk_fuel buf) buf 8 None.

Definition set_box_len (buf : bytes) : outcome bytes :=
  let! n := ok_or (u32_of (len buf)) (Container "moov does not fit a 32-bit box size") in
  if len buf <? 4 then Err (Container "moov shorter than a box header") else
  Done (overwrite buf 0 (be32 n)).

(** The buffer after the call, and the answer. *)
Definition strip_trailing_free (moov : bytes) : outcome (bytes * bool) :=
  let! last := last_child_range moov in
  match last with
  | None => Done (moov, false)
  | Some (start, kind) =>
      if bool_decide (kind ≠ lit "free") && bool_decide (kind ≠ lit "skip") then Done (moov, false) else
      let! moov := set_box_len (take (Z.to_nat start) moov) in
      Done (moov, true)
  end.

Definition pad_moov_to (moov : bytes) (total : Z) : outcome bytes :=
  if len moov =? total then Done moov else
  if U32_MAX <? total then Err (NoRoom (len moov) total) else
  let gap := total - len moov in
  if gap <? FREE_BOX_LEN then Err (NoRoom (len moov) total) else
  set_box_len (resize (moov ++ be32 gap ++ lit "free") total).

Definition OFFSET_ANCESTORS : list bytes := map lit ["moov"; "trak"; "mdia"; "minf"; "stbl"].

Fixpoint collect_chunk_offset_boxes (fuel : nat) (buf : bytes) (pos end_ : Z) (out : list (Z * Z * bool))
    : outcome (list (Z * Z * bool)) :=
  match fuel with
  | O => Spin
  | S fuel =>
      let! child := child_at buf pos end_ in
      match child with
      | None => Done out
      | Some (size, kind) =>
          let! out :=
            if bool_decide (kind = lit "stco") then Done (out ++ [(pos, pos + size, false)])
            else if bool_decide (kind = lit "co64") then Done (out ++ [(pos, pos + size, true)])
            else if bool_decide (kind ∈ OFFSET_ANCESTORS)
            then collect_chunk_offset_boxes fuel buf (pos + 8) (pos + size) out
            else Done out in
          collect_chunk_offset_boxes fuel buf (pos + size) end_ out
      end
  end.

(** [i64::try_from(old)…and_then…u64::try_from]. *)
Definition moved_offset (old delta : Z) : option Z :=
  old ← i64_of old; new ← i64_checked_add old delta; u64_of new.

Fixpoint shift_entries (fuel : nat) (moov : bytes) (pos end_ : Z) (wide : bool) (above delta : Z)
    : outcome bytes :=
  match fuel with
  | O => Spin
  | S fuel =>
      let stride := if wide then 8 else 4 in
      if end_ <? pos + stride then Done moov else
      let! old := if wide then be64_at moov pos else be32_at moov pos in
      if old <=? above then shift_entries fuel moov (pos + stride) end_ wide above delta else
      let! new := ok_or (moved_offset old delta)
        (Container ("chunk offset " +:+ pretty old +:+ " moved out of range by " +:+ pretty delta)) in
      let! moov :=
        if wide then store_at moov pos (be64 new) else
        let! narrow := ok_or (u32_of new) (Container "chunk offset outgrew stco; the file needs co64") in
        store_at moov pos (be32 narrow) in
      shift_entries fuel moov (pos + stride) end_ wide above delta
  end.

Fixpoint shift_boxes (moov : bytes) (boxes : list (Z * Z * bool)) (above delta : Z) : outcome bytes :=
  match boxes with
  | [] => Done moov
  | (start, end_, wide) :: boxes =>
      let! moov := shift_entries (walk_fuel moov) moov (start + 16) end_ wide above delta in
      shift_boxes moov boxes above delta
  end.

(** The buffer after the call; on [Err] the caller drops it. *)
Definition shift_chunk_offsets (moov : bytes) (above delta : Z) : outcome bytes :=
  if delta =? 0 then Done moov else
  let! boxes := collect_chunk_offset_boxes (walk_fuel moov) moov 0 (len moov) [] in
  shift_boxes moov boxes above delta.
