(* ===== verification/Mp4Read.v ===== *)
(** * Reading an MP4 file: [bookclerk-mp4/src/boxutil.rs], [samples.rs], [parser.rs]

    A file is its bytes; a reader is a position in them.  [u64] sums that a declared size enters wrap,
    as in a release build.  [parse_mp4] and [walk_children] follow the extents a file declares, and
    take their fuel as an argument. *)

From stdpp Require Import base option list numbers strings pretty.
From Stdlib Require Import ZArith Lia.
From S2P Require Import Prelude Mp4Bytes.

Local Open Scope Z_scope.

Definition MAX_MP4_TABLE_ENTRIES : Z := 10000000.
Definition MAX_READ_EXACT_VEC_BYTES : Z := 64 * 1024 * 1024.

(** [FourCC]'s [Display]. *)
Definition show_fourcc (k : bytes) : string :=
  if forallb (λ b, u8_val b <? 128) k then String.string_of_list_byte k else "????".

Definition ensure_table_entries (count entry_bytes available : Z) (what : string) : outcome Z :=
  let n := count in
  if MAX_MP4_TABLE_ENTRIES <? n
  then Err (Container (what +:+ " entry_count " +:+ pretty n +:+ " exceeds " +:+ pretty MAX_MP4_TABLE_ENTRIES)) else
  let need := u64_saturating_mul n (Z.max entry_bytes 1) in
  if available <? need
  then Err (Container (what +:+ " entry_count " +:+ pretty n +:+ " needs " +:+ pretty need +:+ " bytes, only "
              +:+ pretty available +:+ " remain in box")) else
  Done n.

Record BoxHeader : Type := mk_BoxHeader {
  bh_start : Z;
  bh_size : Z;
  bh_header_len : Z;
  bh_kind : bytes;
}.

Definition content_start (h : BoxHeader) : Z := u64_add (bh_start h) (bh_header_len h).
Definition content_len (h : BoxHeader) : Z := u64_saturating_sub (bh_size h) (bh_header_len h).
Definition bh_end (h : BoxHeader) : Z := u64_add (bh_start h) (bh_size h).

(** ** A reader over a file *)

Section Reader.
Context (file : bytes).

Definition reader (A : Type) : Type := Z → outcome (A * Z).
Definition rret {A} (a : A) : reader A := λ pos, Done (a, pos).
Definition rbind {A B} (m : reader A) (k : A → reader B) : reader B :=
  λ pos, let! (a, pos) := m pos in k a pos.
Definition fail {A} (e : Mp4Error) : reader A := λ _, Err e.

Notation "'let^' x ':=' m 'in' k" := (rbind m (λ x, k))
  (at level 200, x pattern, m at level 100, k at level 200).

Definition lift {A} (m : outcome A) : reader A := λ pos, let! a := m in Done (a, pos).

(** [SeekFrom::Start]: an offset above [i64::MAX] is refused by the system. *)
Definition seek (to : Z) : reader unit := λ _, if to <=? I64_MAX then Done ((), to) else Err Io.
Definition stream_position : reader Z := λ pos, Done (pos, pos).
(** [read_exact] of [n] bytes. *)
Definition read_bytes (n : Z) : reader bytes := λ pos,
  if pos + n <=? len file then Done (slice file pos (pos + n), pos + n) else Err Io.

Definition read_u8 : reader Z := let^ b := read_bytes 1 in rret (from_be b).
Definition read_u32 : reader Z := let^ b := read_bytes 4 in rret (from_be b).
Definition read_u64 : reader Z := let^ b := read_bytes 8 in rret (from_be b).
Definition read_fourcc : reader bytes := read_bytes 4.

Definition read_exact_vec (n : Z) : reader bytes :=
  if MAX_READ_EXACT_VEC_BYTES <? n
  then fail (Container ("refusing to allocate " +:+ pretty n +:+ " bytes (max "
               +:+ pretty MAX_READ_EXACT_VEC_BYTES +:+ ")")) else
  read_bytes n.

Definition read_full_box_version_flags : reader (Z * Z) :=
  let^ version := read_u8 in
  let^ flags := read_bytes 3 in
  rret (version, from_be flags).

Definition read_box_header : reader BoxHeader :=
  let^ start := stream_position in
  let^ size32 := read_u32 in
  let^ kind := read_fourcc in
  let^ (size, header_len) :=
    if size32 =? 1 then let^ size64 := read_u64 in rret (size64, 16)
    else if size32 =? 0 then let^ _ := seek (start + 8) in rret (len file - start, 8)
    else rret (size32, 8) in
  if size <? header_len
  then fail (Container ("box " +:+ show_fourcc kind +:+ " at " +:+ pretty start +:+ " has size " +:+ pretty size
               +:+ " < header " +:+ pretty header_len)) else
  rret (mk_BoxHeader start size header_len kind).

(** The loop of [walk_children], from where the reader stands; the visitor's captures are [S]. *)
Fixpoint walk_from {S} (fuel : nat) (end_ : Z) (visit : S → BoxHeader → reader S) (s : S) : reader S :=
  match fuel with
  | O => λ _, Spin
  | Datatypes.S fuel =>
      let^ pos := stream_position in
      if end_ <? u64_add pos 8 then rret s else
      let^ header := read_box_header in
      if end_ <? bh_end header
      then fail (Container ("box " +:+ show_fourcc (bh_kind header) +:+ " overflows parent (end "
                   +:+ pretty (bh_end header) +:+ " > " +:+ pretty end_ +:+ ")")) else
      let next := bh_end header in
      let^ s := visit s header in
      let^ _ := seek next in
      walk_from fuel end_ visit s
  end.

Definition walk_children {S} (fuel : nat) (start end_ : Z) (visit : S → BoxHeader → reader S) (s : S) : reader S :=
  let^ _ := seek start in walk_from fuel end_ visit s.

Definition find_child (fuel : nat) (start end_ : Z) (want : bytes) : reader (option BoxHeader) :=
  walk_children fuel start end_ (λ found header,
    rret (if bool_decide (bh_kind header = want) && bool_decide (found = None) then Some header else found)) None.

(** [patch.rs], [top_level_boxes]. *)
Fixpoint top_level_from (fuel : nat) (pos : Z) (out : list BoxHeader) : reader (list BoxHeader) :=
  match fuel with
  | O => λ _, Spin
  | Datatypes.S fuel =>
      if len file <? u64_add pos 8 then rret out else
      let^ _ := seek pos in
      let^ header := read_box_header in
      if bh_end header <=? pos
      then fail (Container ("box " +:+ show_fourcc (bh_kind header) +:+ " at " +:+ pretty pos
                   +:+ " does not advance")) else
      top_level_from fuel (bh_end header) (out ++ [header])
  end.

Definition top_level_boxes : reader (list BoxHeader) := top_level_from (S (S (length file))) 0 [].
End Reader.

#[global] Instance BoxHeader_eq_dec : EqDecision BoxHeader.
Proof. solve_decision. Defined.

(** ** [samples.rs] *)

Record ChunkMapEntry : Type := mk_ChunkMapEntry {
  first_chunk : Z;
  samples_per_chunk : Z;
  sample_description_index : Z;
}.

Record SampleInfo : Type := mk_SampleInfo {
  si_offset : Z;
  si_size : Z;
  si_start_cts : Z;
  si_duration : Z;
  si_chunk_index : Z;
}.

(** [stts] expanded, then padded with its last delta or cut to the number of samples. *)
Definition expand_stts (stts : list (Z * Z)) : list Z :=
  concat (map (λ '(count, delta), replicate (Z.to_nat count) delta) stts).

Definition fit_durations (durations : list Z) (n : nat) : outcome (list Z) :=
  if (length durations =? n)%nat then Done durations else
  match durations with
  | [] => Err (Container "stts produced no sample durations")
  | _ :: _ =>
      if (length durations <? n)%nat
      then Done (durations ++ replicate (n - length durations) (List.last durations 0))
      else Done (take n durations)
  end.

(** The entry in force for a chunk: the last of the leading ones that start no later. *)
Fixpoint spc_for (spc chunk_number : Z) (stsc : list ChunkMapEntry) : Z :=
  match stsc with
  | [] => spc
  | entry :: stsc =>
      if first_chunk entry <=? chunk_number then spc_for (samples_per_chunk entry) chunk_number stsc else spc
  end.

(** The samples of one chunk: its offset and clock advance by each size and duration. *)
Fixpoint chunk_samples (spc : nat) (chunk_idx offset cts : Z) (sizes durations : list Z) (sample_idx : nat)
    : outcome (list SampleInfo * Z * nat) :=
  match spc with
  | O => Done ([], cts, sample_idx)
  | S spc =>
      match sizes !! sample_idx, durations !! sample_idx with
      | Some size, Some duration =>
          let! (rest, cts', sample_idx') :=
            chunk_samples spc chunk_idx (u64_add offset size) (u64_saturating_add cts duration)
              sizes durations (S sample_idx) in
          Done (mk_SampleInfo offset size cts duration chunk_idx :: rest, cts', sample_idx')
      | _, _ => Panic
      end
  end.

Fixpoint all_samples (chunks : list (Z * Z)) (chunk_idx cts : Z) (sizes durations : list Z) (sample_idx : nat)
    : outcome (list SampleInfo) :=
  match chunks with
  | [] => Done []
  | (chunk_offset, spc) :: chunks =>
      let! (here, cts, sample_idx) :=
        chunk_samples (Z.to_nat spc) chunk_idx chunk_offset cts sizes durations sample_idx in
      let! rest := all_samples chunks (chunk_idx + 1) cts sizes durations sample_idx in
      Done (here ++ rest)
  end.

Definition build_samples (stts : list (Z * Z)) (stsc : list ChunkMapEntry) (sample_sizes chunk_offsets : list Z)
    : outcome (list SampleInfo) :=
  match stsc with
  | [] => Err (Container "stsc is empty")
  | first :: _ =>
      match chunk_offsets with
      | [] => Err (Container "no chunk offsets")
      | _ =>
          let! durations := fit_durations (expand_stts stts) (length sample_sizes) in
          let spcs := map (λ i, spc_for (samples_per_chunk first) (Z.of_nat i + 1) stsc)
                        (seq 0 (length chunk_offsets)) in
          let total_from_chunks := foldr Z.add 0 spcs in
          if negb (total_from_chunks =? Z.of_nat (length sample_sizes))
          then Err (Container ("sample count mismatch: stsz=" +:+ pretty (Z.of_nat (length sample_sizes))
                      +:+ " vs stsc/chunks=" +:+ pretty total_from_chunks)) else
          all_samples (zip chunk_offsets spcs) 0 0 sample_sizes durations 0
      end
  end.

Fixpoint select_from (samples : list SampleInfo) (index start_ticks : Z) (end_ticks : option Z) : list Z :=
  match samples with
  | [] => []
  | sample :: samples =>
      let sample_end := u64_saturating_add (si_start_cts sample) (si_duration sample) in
      if sample_end <=? start_ticks then select_from samples (index + 1) start_ticks end_ticks else
      match end_ticks with
      | Some e => if e <=? si_start_cts sample then []
                  else index :: select_from samples (index + 1) start_ticks end_ticks
      | None => index :: select_from samples (index + 1) start_ticks end_ticks
      end
  end.

Definition select_samples_by_ms (samples : list SampleInfo) (timescale start_ms : Z) (end_ms : option Z) : list Z :=
  if timescale =? 0 then map Z.of_nat (seq 0 (length samples)) else
  let start_ticks := u64_saturating_mul start_ms timescale / 1000 in
  let end_ticks := (λ ms, u64_saturating_mul ms timescale / 1000) <$> end_ms in
  select_from samples 0 start_ticks end_ticks.

(** ** [parser.rs] *)

Inductive SampleEntryKind : Type := Aavd | Mp4a | Enca | Other (kind : bytes).

Record AudioTrack : Type := mk_AudioTrack {
  at_trak : BoxHeader;
  at_timescale : Z;
  at_duration : Z;
  at_sample_entry_kind : SampleEntryKind;
  at_sample_entry_type_offset : Z;
  at_samples : list SampleInfo;
}.

Record Mp4File : Type := mk_Mp4File {
  mf_file_size : Z;
  mf_ftyp : BoxHeader;
  mf_moov : BoxHeader;
  mf_mdat : BoxHeader;
  mf_major_brand : bytes;
  mf_compatible_brands : list bytes;
  mf_mvhd_timescale : Z;
  mf_mvhd_duration : Z;
  mf_audio : AudioTrack;
  mf_moov_bytes : bytes;
  mf_ftyp_bytes : bytes;
}.

Section Parser.
Context (fuel : nat) (file : bytes).
Notation "'let^' x ':=' m 'in' k" := (rbind m (λ x, k))
  (at level 200, x pattern, m at level 100, k at level 200).
Notation find_child := (find_child file fuel).
Notation read_u32 := (read_u32 file).
Notation read_u64 := (read_u64 file).
Notation read_fourcc := (read_fourcc file).
Notation flags := (read_full_box_version_flags file).

Definition need {A} (what : string) (o : option A) : reader A := lift (ok_or o (Container what)).

(** [for _ in 0..n { out.push(read()?) }]. *)
Fixpoint read_table {A} (n : nat) (row : reader A) : reader (list A) :=
  match n with
  | O => rret []
  | S n => let^ a := row in let^ l := read_table n row in rret (a :: l)
  end.

Fixpoint read_brands (fuel : nat) (end_ : Z) : reader (list bytes) :=
  match fuel with
  | O => λ _, Spin
  | S fuel =>
      let^ pos := stream_position in
      if end_ <? u64_add pos 4 then rret [] else
      let^ b := read_fourcc in
      let^ l := read_brands fuel end_ in
      rret (b :: l)
  end.

Definition parse_ftyp (ftyp : BoxHeader) : reader (bytes * list bytes) :=
  let^ _ := seek (content_start ftyp) in
  let^ major := read_fourcc in
  let^ _minor := read_u32 in
  let^ brands := read_brands fuel (bh_end ftyp) in
  rret (major, brands).

(** Timescale and duration of [mvhd] and [mdhd]. *)
Definition read_timing (h : BoxHeader) : reader (Z * Z) :=
  let^ _ := seek (content_start h) in
  let^ (version, _) := flags in
  if version =? 1
  then let^ _c := read_u64 in let^ _m := read_u64 in
       let^ timescale := read_u32 in let^ duration := read_u64 in rret (timescale, duration)
  else let^ _c := read_u32 in let^ _m := read_u32 in
       let^ timescale := read_u32 in let^ duration := read_u32 in rret (timescale, duration).

Definition parse_mvhd (moov : BoxHeader) : reader (Z * Z) :=
  let^ found := find_child (content_start moov) (bh_end moov) (lit "mvhd") in
  let^ mvhd := need "missing mvhd" found in
  read_timing mvhd.

Definition parse_stsd (stbl : BoxHeader) : reader (SampleEntryKind * Z) :=
  let^ found := find_child (content_start stbl) (bh_end stbl) (lit "stsd") in
  let^ stsd := need "missing stsd" found in
  let^ _ := seek (content_start stsd) in
  let^ _ := flags in
  let^ entry_count := read_u32 in
  if entry_count =? 0 then fail (Container "stsd has no sample entries") else
  let^ _entry_size := read_u32 in
  let^ type_offset := stream_position in
  let^ entry_type := read_fourcc in
  let kind :=
    if bool_decide (entry_type = lit "aavd") then Aavd
    else if bool_decide (entry_type = lit "mp4a") then Mp4a
    else if bool_decide (entry_type = lit "enca") then Enca
    else Other entry_type in
  rret (kind, type_offset).

Definition read_pair : reader (Z * Z) :=
  let^ count := read_u32 in let^ delta := read_u32 in rret (count, delta).

Definition parse_stts (stbl : BoxHeader) : reader (list (Z * Z)) :=
  let^ found := find_child (content_start stbl) (bh_end stbl) (lit "stts") in
  let^ stts := need "missing stts" found in
  let^ _ := seek (content_start stts) in
  let^ _ := flags in
  let^ entry_count := read_u32 in
  let available := u64_saturating_sub (content_len stts) 8 in
  let^ n := lift (ensure_table_entries entry_count 8 available "stts") in
  read_table (Z.to_nat n) read_pair.

Definition read_chunk_map : reader ChunkMapEntry :=
  let^ a := read_u32 in let^ b := read_u32 in let^ c := read_u32 in rret (mk_ChunkMapEntry a b c).

Definition parse_stsc (stbl : BoxHeader) : reader (list ChunkMapEntry) :=
  let^ found := find_child (content_start stbl) (bh_end stbl) (lit "stsc") in
  let^ stsc := need "missing stsc" found in
  let^ _ := seek (content_start stsc) in
  let^ _ := flags in
  let^ entry_count := read_u32 in
  let available := u64_saturating_sub (content_len stsc) 8 in
  let^ n := lift (ensure_table_entries entry_count 12 available "stsc") in
  read_table (Z.to_nat n) read_chunk_map.

Definition parse_stsz (stbl : BoxHeader) : reader (list Z) :=
  let^ found := find_child (content_start stbl) (bh_end stbl) (lit "stsz") in
  match found with
  | Some stsz =>
      let^ _ := seek (content_start stsz) in
      let^ _ := flags in
      let^ sample_size := read_u32 in
      let^ sample_count := read_u32 in
      let available := u64_saturating_sub (content_len stsz) 12 in
      if negb (sample_size =? 0)
      then let^ n := lift (ensure_table_entries sample_count 1 MAX_MP4_TABLE_ENTRIES "stsz") in
           rret (replicate (Z.to_nat n) sample_size)
      else let^ n := lift (ensure_table_entries sample_count 4 available "stsz") in
           read_table (Z.to_nat n) read_u32
  | None =>
      let^ found := find_child (content_start stbl) (bh_end stbl) (lit "stz2") in
      match found with
      | Some _ => fail (Container "compact sample size (stz2) is not supported yet")
      | None => fail (Container "missing stsz")
      end
  end.

Definition read_offsets (h : BoxHeader) (entry_bytes : Z) (what : string) (row : reader Z) : reader (list Z) :=
  let^ _ := seek (content_start h) in
  let^ _ := flags in
  let^ entry_count := read_u32 in
  let available := u64_saturating_sub (content_len h) 8 in
  let^ n := lift (ensure_table_entries entry_count entry_bytes available what) in
  read_table (Z.to_nat n) row.

Definition parse_chunk_offsets (stbl : BoxHeader) : reader (list Z) :=
  let^ found := find_child (content_start stbl) (bh_end stbl) (lit "stco") in
  match found with
  | Some stco => read_offsets stco 4 "stco" read_u32
  | None =>
      let^ found := find_child (content_start stbl) (bh_end stbl) (lit "co64") in
      match found with
      | Some co64 => read_offsets co64 8 "co64" read_u64
      | None => fail (Container "missing stco/co64")
      end
  end.

Definition sample_table (stbl : BoxHeader) : reader (list SampleInfo) :=
  let^ stts := parse_stts stbl in
  let^ stsc := parse_stsc stbl in
  let^ sample_sizes := parse_stsz stbl in
  let^ chunk_offsets := parse_chunk_offsets stbl in
  lift (build_samples stts stsc sample_sizes chunk_offsets).

Definition try_parse_audio_trak (trak : BoxHeader) : reader (option AudioTrack) :=
  let^ found := find_child (content_start trak) (bh_end trak) (lit "mdia") in
  match found with
  | None => rret None
  | Some mdia =>
  let^ found := find_child (content_start mdia) (bh_end mdia) (lit "hdlr") in
  match found with
  | None => rret None
  | Some hdlr =>
  let^ _ := seek (content_start hdlr) in
  let^ _ := flags in
  let^ _pre := read_u32 in
  let^ handler := read_fourcc in
  if negb (bool_decide (handler = lit "soun")) then rret None else
  let^ found := find_child (content_start mdia) (bh_end mdia) (lit "mdhd") in
  let^ mdhd := need "audio track missing mdhd" found in
  let^ (timescale, duration) := read_timing mdhd in
  let^ found := find_child (content_start mdia) (bh_end mdia) (lit "minf") in
  let^ minf := need "audio track missing minf" found in
  let^ found := find_child (content_start minf) (bh_end minf) (lit "stbl") in
  let^ stbl := need "audio track missing stbl" found in
  let^ (kind, type_offset) := parse_stsd stbl in
  let^ samples := sample_table stbl in
  rret (Some (mk_AudioTrack trak timescale duration kind type_offset samples))
  end
  end.

Definition parse_audio_track (moov : BoxHeader) : reader AudioTrack :=
  let^ audio := walk_children file fuel (content_start moov) (bh_end moov)
    (λ audio header,
       if negb (bool_decide (bh_kind header = lit "trak")) then rret audio else
       match audio with Some _ => rret audio | None => try_parse_audio_trak header end) None in
  need "no audio track found in moov" audio.

(** The top-level loop of [parse_mp4]. *)
Fixpoint top_boxes (fuel : nat) (pos : Z) (ftyp moov mdat : option BoxHeader)
    : reader (option BoxHeader * option BoxHeader * option BoxHeader) :=
  match fuel with
  | O => λ _, Spin
  | S fuel =>
      if len file <? u64_add pos 8 then rret (ftyp, moov, mdat) else
      let^ _ := seek pos in
      let^ header := read_box_header file in
      let keep (kind : string) (slot : option BoxHeader) :=
        match slot with
        | None => if bool_decide (bh_kind header = lit kind) then Some header else None
        | Some _ => slot
        end in
      let ftyp := keep "ftyp" ftyp in
      let moov := keep "moov" moov in
      let mdat := keep "mdat" mdat in
      if bh_size header =? 0 then rret (ftyp, moov, mdat) else
      top_boxes fuel (bh_end header) ftyp moov mdat
  end.

Definition parse_mp4 : outcome Mp4File :=
  let! (f, _) := (
    let^ (ftyp, moov, mdat) := top_boxes fuel 0 None None None in
    let^ ftyp := need "missing ftyp box" ftyp in
    let^ moov := need "missing moov box" moov in
    let^ mdat := need "missing mdat box" mdat in
    let^ (major_brand, compatible_brands) := parse_ftyp ftyp in
    let^ (mvhd_timescale, mvhd_duration) := parse_mvhd moov in
    let^ audio := parse_audio_track moov in
    let^ ftyp_end := need "ftyp extent overflows" (u64_checked_add (bh_start ftyp) (bh_size ftyp)) in
    let^ moov_end := need "moov extent overflows" (u64_checked_add (bh_start moov) (bh_size moov)) in
    if (len file <? ftyp_end) || (len file <? moov_end)
    then fail (Container "ftyp/moov extent exceeds file length") else
    let^ _ := seek (bh_start ftyp) in
    let^ ftyp_bytes := read_exact_vec file (bh_size ftyp) in
    let^ _ := seek (bh_start moov) in
    let^ moov_bytes := read_exact_vec file (bh_size moov) in
    rret (mk_Mp4File (len file) ftyp moov mdat major_brand compatible_brands mvhd_timescale mvhd_duration
            audio moov_bytes ftyp_bytes)) 0 in
  Done f.
End Parser.

Definition track_duration_ms (track : AudioTrack) : Z :=
  if at_timescale track =? 0 then 0 else
  match List.last (map Some (at_samples track)) None with
  | Some s => (u64_add (si_start_cts s) (si_duration s) * 1000) mod 2 ^ 64 / at_timescale track
  | None => 0
  end.
