(* ===== verification/Mp4File.v ===== *)
(** * A [moov] put back into its file: [bookclerk-mp4/src/patch.rs], [bookclerk-media/src/moov.rs],
      [chapters_mp4.rs]

    Reading the [moov] of a file, writing an edited one over it or rebuilding the file around it, and
    appending chapter media.  Files are their bytes; failures of the disk are not modelled. *)

From stdpp Require Import base option list numbers strings pretty.
From Stdlib Require Import ZArith Lia.
From S2P Require Import Prelude Mp4Bytes Mp4Edit Mp4Read.

Local Open Scope Z_scope.

Record MoovLocation : Type := mk_MoovLocation {
  ml_start : Z;
  ml_len : Z;
  ml_is_last : bool;
}.

Definition is_kind (kind : bytes) (h : BoxHeader) : bool := bool_decide (bh_kind h = kind).

Definition read_moov (file : bytes) : outcome (MoovLocation * bytes) :=
  let! (boxes, _) := top_level_boxes file 0 in
  let! moov := ok_or (List.find (is_kind (lit "moov")) boxes) (Container "file has no moov") in
  let! end_ := ok_or (u64_checked_add (bh_start moov) (bh_size moov)) (Container "moov extent overflows") in
  if len file <? end_
  then Err (Container ("moov extent " +:+ pretty end_ +:+ " exceeds file length " +:+ pretty (len file))) else
  if MAX_READ_EXACT_VEC_BYTES <? bh_size moov
  then Err (Container ("moov is " +:+ pretty (bh_size moov) +:+ " bytes; refusing to allocate above "
              +:+ pretty MAX_READ_EXACT_VEC_BYTES)) else
  let! (_, pos) := seek (bh_start moov) 0 in
  let! (contents, _) := read_exact_vec file (bh_size moov) pos in
  let is_last := match List.last (map Some boxes) None with
                 | Some last => bh_start last =? bh_start moov
                 | None => false
                 end in
  Done (mk_MoovLocation (bh_start moov) (bh_size moov) is_last, contents).

(** [write_all] at a position, [set_len]. *)
Definition write_over (file : bytes) (pos : Z) (data : bytes) : bytes :=
  let f := resize file (Z.max (len file) pos) in
  take (Z.to_nat pos) f ++ data ++ drop (Z.to_nat (pos + len data)) f.
Definition set_len (file : bytes) (n : Z) : bytes := resize file n.

(** The file after the call; on [Err] it is as it was. *)
Definition write_moov_in_place (file : bytes) (at_ : MoovLocation) (moov : bytes) : outcome bytes :=
  let reserved := ml_len at_ in
  let! contents :=
    if len moov =? reserved then Done moov
    else if ml_is_last at_ then Done moov
    else pad_moov_to moov reserved in
  let file := write_over file (ml_start at_) contents in
  Done (if ml_is_last at_ then set_len file (ml_start at_ + len contents) else file).

(** ** [moov.rs] *)

(** [MediaError] is kept as the error it wraps. *)
Definition copy_exact (file : bytes) (n : Z) : outcome bytes :=
  if len file <? n
  then Err (Container ("file ended " +:+ pretty (n - len file) +:+ " bytes early while copying its header"))
  else Done (take (Z.to_nat n) file).

Definition rebuild_around_moov (file : bytes) (at_ : MoovLocation) (moov : bytes) : outcome bytes :=
  let! delta := ok_or (new ← i64_of (len moov); old ← i64_of (ml_len at_); Some (new - old))
                  (Container "moov length does not fit an offset delta") in
  let! moov := shift_chunk_offsets moov (ml_start at_) delta in
  let! head := copy_exact file (ml_start at_) in
  let! (_, pos) := seek (u64_add (ml_start at_) (ml_len at_)) 0 in
  Done (head ++ moov ++ drop (Z.to_nat pos) file).

Definition write_moov (file : bytes) (at_ : MoovLocation) (moov : bytes) : outcome bytes :=
  match write_moov_in_place file at_ moov with
  | Err (NoRoom _ _) => rebuild_around_moov file at_ moov
  | r => r
  end.

(** ** [chapters_mp4.rs]: the media of chapter titles *)

Definition write_atom_header (size : Z) (fourcc : bytes) : bytes :=
  if U32_MAX <? size then be32 1 ++ fourcc ++ be64 size else be32 size ++ fourcc.

(** The file after the call, and where the payload lies in it. *)
Definition append_chapter_media (file payload : bytes) : outcome (bytes * Z) :=
  let! (boxes, _) := top_level_boxes file 0 in
  let! media := ok_or (List.find (is_kind (lit "mdat")) boxes)
                  (Container "M4B missing mdat; cannot write chapters") in
  let end_ :=
    match List.last (map Some boxes) None with
    | Some last => if is_kind (lit "mdat") last && negb (bh_start last =? bh_start media)
                   then bh_start last else len file
    | None => len file
    end in
  let file := set_len file end_ in
  let header_len := if U32_MAX <? len payload + 8 then 16 else 8 in
  let header := write_atom_header (header_len + len payload) (lit "mdat") in
  Done (write_over file end_ (header ++ payload), end_ + header_len).
