(* ===== verification/Mp4Chapters.v ===== *)
(** * Chapters of an audiobook: [bookclerk-media/src/chapters_mp4.rs]

    Titles as samples of a text track, the track and the Nero list put into the [moov], and what a
    previous run left behind taken out of it.  A chapter is the bytes of its title and its start in
    milliseconds.  [usize] is 64 bits wide; its sums wrap, as in a release build. *)

From stdpp Require Import base option list numbers strings pretty.
From Stdlib Require Import ZArith Lia.
From S2P Require Import Prelude Mp4Bytes Mp4Edit Mp4Read Mp4File.

Local Open Scope Z_scope.

Notation chapter := (bytes * Z)%type.

Notation be16 := (to_be 2).
Definition U16_MAX : Z := 2 ^ 16 - 1.
Definition bytes_of (l : list Z) : bytes := map u8_of l.

Definition CHAPTER_TIMESCALE : Z := 1000.
Definition CHPL_TIMESCALE : Z := 10000000.
Definition MAX_MOOV_REBUILD_BYTES : Z := MAX_READ_EXACT_VEC_BYTES.

Definition ENCD : bytes := be32 12 ++ lit "encd" ++ bytes_of [0; 0; 1; 0].
Definition TEXT_SAMPLE_ENTRY : bytes :=
  be32 59 ++ lit "text" ++ bytes_of [0; 0; 0; 0; 0; 0; 0; 1; 0; 0; 0; 1; 0; 0; 0; 0; 0; 0]
  ++ bytes_of [0; 0; 0; 0; 0; 0; 0; 0] ++ bytes_of [0; 0; 0; 0; 0; 1; 0; 0] ++ bytes_of [0; 0; 0; 0]
  ++ be32 13 ++ lit "ftab" ++ bytes_of [0; 1; 0; 1; 0].
Definition GMHD_TEXT_PAYLOAD : bytes :=
  bytes_of [0; 1; 0; 0; 0; 0; 0; 0; 0; 0; 0; 0; 0; 0; 0; 0]
  ++ bytes_of [0; 1; 0; 0; 0; 0; 0; 0; 0; 0; 0; 0; 0; 0; 0; 0] ++ bytes_of [0; 0; 64; 0].

(** ** Titles *)

(** The start of the chapter behind, or the end of the book. *)
Definition chapter_end (rest : list chapter) (duration_ms : Z) : Z :=
  match rest with (_, start) :: _ => start | [] => duration_ms end.

Definition title_sample (title : bytes) : bytes :=
  let title_len := Z.min (len title) U16_MAX in
  be16 title_len ++ take (Z.to_nat title_len) title ++ ENCD.

Fixpoint build_chapter_samples (chapters : list chapter) (duration_ms : Z) : bytes * list Z * list Z :=
  match chapters with
  | [] => ([], [], [])
  | (title, start_ms) :: rest =>
      let end_ms := Z.max (chapter_end rest duration_ms) (u64_add start_ms 1) in
      let delta := Z.min ((end_ms - start_ms) mod 2 ^ 64) U32_MAX in
      let title_len := Z.min (len title) U16_MAX in
      let '(payload, sizes, deltas) := build_chapter_samples rest duration_ms in
      (title_sample title ++ payload, 2 + title_len + len ENCD :: sizes, Z.max delta 1 :: deltas)
  end.

(** ** The chapter track *)

Definition wrap_atom (fourcc body : bytes) : bytes := be32 (8 + len body) ++ fourcc ++ body.
Definition wrap_container (fourcc : bytes) (children : list bytes) : bytes :=
  be32 (8 + foldr Z.add 0 (map len children)) ++ fourcc ++ concat children.

Definition identity_matrix : bytes :=
  be32 65536 ++ replicate 12 Byte.x00 ++ be32 65536 ++ replicate 12 Byte.x00 ++ be32 1073741824.

Definition build_tkhd (track_id movie_duration : Z) : bytes :=
  wrap_atom (lit "tkhd")
    (bytes_of [0; 0; 0; 2] ++ be32 0 ++ be32 0 ++ be32 track_id ++ be32 0 ++ be32 movie_duration ++ replicate 8 Byte.x00
     ++ be16 0 ++ be16 0 ++ be16 0 ++ be16 0 ++ identity_matrix ++ be32 0 ++ be32 0).

Definition build_edts (movie_duration : Z) : bytes :=
  wrap_container (lit "edts")
    [wrap_atom (lit "elst") (be32 0 ++ be32 1 ++ be32 movie_duration ++ be32 0 ++ be32 65536)].

Definition build_mdhd (timescale duration : Z) : bytes :=
  wrap_atom (lit "mdhd") (be32 0 ++ be32 0 ++ be32 0 ++ be32 timescale ++ be32 duration ++ be16 21956 ++ be16 0).

Definition build_hdlr_text : bytes :=
  wrap_atom (lit "hdlr") (be32 0 ++ be32 0 ++ lit "text" ++ replicate 12 Byte.x00 ++ lit "ChapterHandler" ++ [Byte.x00]).

Definition build_gmhd : bytes :=
  wrap_container (lit "gmhd")
    [wrap_atom (lit "gmin") (be32 0 ++ be16 64 ++ be16 32768 ++ be16 32768 ++ be16 32768 ++ be16 0 ++ be16 0);
     wrap_atom (lit "text") GMHD_TEXT_PAYLOAD].

Definition build_dinf : bytes :=
  wrap_container (lit "dinf")
    [wrap_atom (lit "dref") (be32 0 ++ be32 1 ++ wrap_atom (lit "url ") (be32 1))].

Definition build_stbl (sample_sizes sample_deltas : list Z) (sample_offset : Z) : bytes :=
  let n := Z.of_nat (length sample_sizes) in
  wrap_container (lit "stbl")
    [wrap_atom (lit "stsd") (be32 0 ++ be32 1 ++ TEXT_SAMPLE_ENTRY);
     wrap_atom (lit "stts") (be32 0 ++ be32 (Z.of_nat (length sample_deltas))
       ++ concat (map (λ delta, be32 1 ++ be32 delta) sample_deltas));
     wrap_atom (lit "stsc") (be32 0 ++ be32 1 ++ be32 1 ++ be32 n ++ be32 1);
     wrap_atom (lit "stsz") (be32 0 ++ be32 0 ++ be32 n ++ concat (map be32 sample_sizes));
     if sample_offset <=? U32_MAX then wrap_atom (lit "stco") (be32 0 ++ be32 1 ++ be32 sample_offset)
     else wrap_atom (lit "co64") (be32 0 ++ be32 1 ++ be64 sample_offset)].

Definition build_minf (sample_sizes sample_deltas : list Z) (sample_offset : Z) : bytes :=
  wrap_container (lit "minf") [build_gmhd; build_dinf; build_stbl sample_sizes sample_deltas sample_offset].

Definition build_chapter_trak (track_id movie_duration duration_ms : Z) (sample_sizes sample_deltas : list Z)
    (sample_offset : Z) : bytes :=
  let media_duration := Z.min duration_ms U32_MAX in
  let movie_dur_u32 := Z.min movie_duration U32_MAX in
  wrap_container (lit "trak")
    [build_tkhd track_id movie_dur_u32; build_edts movie_dur_u32;
     wrap_container (lit "mdia")
       [build_mdhd CHAPTER_TIMESCALE media_duration; build_hdlr_text; build_minf sample_sizes sample_deltas sample_offset]].

(** ** Atoms of a [moov] *)

Record AtomSpan : Type := mk_AtomSpan {
  as_offset : Z;
  as_size : Z;
  as_header : Z;
}.
Definition as_end (a : AtomSpan) : Z := u64_add (as_offset a) (as_size a).

(** The loop of [iter_children]. *)
Fixpoint children_from (fuel : nat) (data : bytes) (pos end_ : Z) : outcome (list AtomSpan) :=
  match fuel with
  | O => Spin
  | S fuel =>
      if end_ <? pos + 8 then Done [] else
      let! size32 := be32_at data pos in
      let next (size header : Z) :=
        if (size <? header) || (end_ <? u64_add pos size) then Done [] else
        let! rest := children_from fuel data (u64_add pos size) end_ in
        Done (mk_AtomSpan pos size header :: rest) in
      if size32 =? 1
      then if end_ <? pos + 16 then Done [] else
           let! size64 := be64_at data (pos + 8) in next size64 16
      else if size32 =? 0 then next (end_ - pos) 8
      else next size32 8
  end.

(** More steps than there are bytes come to a position for the second time, and never end. *)
Definition iter_children (data : bytes) (parent : AtomSpan) : outcome (list AtomSpan) :=
  children_from (walk_fuel data) data (u64_add (as_offset parent) (as_header parent)) (as_end parent).

Definition atom_type (data : bytes) (a : AtomSpan) : outcome bytes := index data (as_offset a + 4) (as_offset a + 8).
Definition atom_bytes (data : bytes) (a : AtomSpan) : outcome bytes := index data (as_offset a) (as_end a).

Definition is_type (data kind : bytes) (a : AtomSpan) : outcome bool :=
  let! t := atom_type data a in Done (bool_decide (t = kind)).

(** [find] and [filter] with a predicate that reads the buffer. *)
Fixpoint find_m {A} (p : A → outcome bool) (l : list A) : outcome (option A) :=
  match l with
  | [] => Done None
  | a :: l => let! b := p a in if b then Done (Some a) else find_m p l
  end.
Fixpoint filter_m {A} (p : A → outcome bool) (l : list A) : outcome (list A) :=
  match l with
  | [] => Done []
  | a :: l => let! b := p a in let! l := filter_m p l in Done (if b then a :: l else l)
  end.
(** [for a in l { out.extend(f(a)) }]. *)
Fixpoint collect_m {A B} (f : A → outcome (list B)) (l : list A) : outcome (list B) :=
  match l with
  | [] => Done []
  | a :: l => let! x := f a in let! y := collect_m f l in Done (x ++ y)
  end.

Definition find_kind (data kind : bytes) (l : list AtomSpan) : outcome (option AtomSpan) := find_m (is_type data kind) l.

Definition set_atom_size (buf : bytes) (atom_offset new_size : Z) : outcome bytes :=
  if U32_MAX <? new_size then Err (Container "atom too large for 32-bit size field") else
  store_at buf atom_offset (be32 new_size).

Definition moov_span (moov : bytes) : AtomSpan := mk_AtomSpan 0 (len moov) 8.
Definition moov_children (moov : bytes) : outcome (list AtomSpan) := iter_children moov (moov_span moov).

Definition read_mvhd_timing (moov : bytes) : outcome (Z * Z) :=
  let! children := moov_children moov in
  let! found := find_kind moov (lit "mvhd") children in
  let! mvhd := ok_or found (Container "moov missing mvhd") in
  let p := as_offset mvhd + as_header mvhd in
  let! version := byte_at moov p in
  if version =? 0
  then let! timescale := be32_at moov (p + 12) in let! duration := be32_at moov (p + 16) in Done (timescale, duration)
  else let! timescale := be32_at moov (p + 20) in let! duration := be64_at moov (p + 24) in Done (timescale, duration).

Definition read_tkhd_id (data : bytes) (tkhd : AtomSpan) : outcome Z :=
  let p := as_offset tkhd + as_header tkhd in
  let! version := byte_at data p in
  if version =? 0 then be32_at data (p + 12) else be32_at data (p + 20).

Definition hdlr_type (data : bytes) (mdia : AtomSpan) : outcome (option bytes) :=
  let! kids := iter_children data mdia in
  let! found := find_kind data (lit "hdlr") kids in
  match found with
  | None => Done None
  | Some hdlr =>
      let p := as_offset hdlr + as_header hdlr in
      Done (if p + 12 <=? len data then Some (slice data (p + 8) (p + 12)) else None)
  end.

(** The track id of a track, where it has a header. *)
Definition trak_id (data : bytes) (kids : list AtomSpan) : outcome (option Z) :=
  let! tkhd := find_kind data (lit "tkhd") kids in
  match tkhd with
  | Some tkhd => let! id := read_tkhd_id data tkhd in Done (Some id)
  | None => Done None
  end.

Definition moov_traks (moov : bytes) : outcome (list AtomSpan) :=
  let! children := moov_children moov in filter_m (is_type moov (lit "trak")) children.

Fixpoint first_audio_of (moov : bytes) (traks : list AtomSpan) : outcome (option Z) :=
  match traks with
  | [] => Done None
  | trak :: traks =>
      let! kids := iter_children moov trak in
      let! tkhd := find_kind moov (lit "tkhd") kids in
      match tkhd with
      | None => first_audio_of moov traks
      | Some tkhd =>
          let! mdia := find_kind moov (lit "mdia") kids in
          match mdia with
          | None => first_audio_of moov traks
          | Some mdia =>
              let! handler := hdlr_type moov mdia in
              if bool_decide (handler = Some (lit "soun"))
              then let! id := read_tkhd_id moov tkhd in Done (Some id)
              else first_audio_of moov traks
          end
      end
  end.
Definition first_audio_track_id (moov : bytes) : outcome (option Z) :=
  let! traks := moov_traks moov in first_audio_of moov traks.

Definition next_track_id (moov : bytes) : outcome Z :=
  let! traks := moov_traks moov in
  let! ids := collect_m (λ trak, let! kids := iter_children moov trak in
                                 let! id := trak_id moov kids in Done (option_list id)) traks in
  Done (Z.max (Z.min (fold_left Z.max ids 0 + 1) U32_MAX) 2).

(** ** Taking old chapters out *)

(** [as_chunks::<4>().0] as integers. *)
Fixpoint quads (l : bytes) : list Z :=
  match l with a :: b :: c :: d :: l => from_be [a; b; c; d] :: quads l | _ => [] end.

Definition referenced_ids (moov : bytes) (kids : list AtomSpan) : outcome (list Z) :=
  let! tref := find_kind moov (lit "tref") kids in
  match tref with
  | None => Done []
  | Some tref =>
      let! tref_kids := iter_children moov tref in
      let! chap := find_kind moov (lit "chap") tref_kids in
      match chap with
      | None => Done []
      | Some chap => let! payload := index moov (as_offset chap + as_header chap) (as_end chap) in Done (quads payload)
      end
  end.
Definition text_id (moov : bytes) (kids : list AtomSpan) : outcome (list Z) :=
  let! mdia := find_kind moov (lit "mdia") kids in
  match mdia with
  | None => Done []
  | Some mdia =>
      let! handler := hdlr_type moov mdia in
      if bool_decide (handler = Some (lit "text"))
      then let! id := trak_id moov kids in Done (option_list id) else Done []
  end.
(** [sort_unstable] and [dedup] do not matter to [contains]. *)
Definition chapter_ids (moov : bytes) : outcome (list Z) :=
  let! traks := moov_traks moov in
  collect_m (λ trak, let! kids := iter_children moov trak in
                     let! refs := referenced_ids moov kids in
                     let! text := text_id moov kids in Done (refs ++ text)) traks.

(** The bytes of the atoms that are not of a type. *)
Definition atoms_but (moov kind : bytes) (kids : list AtomSpan) : outcome bytes :=
  collect_m (λ k, let! drop := is_type moov kind k in if drop then Done [] else atom_bytes moov k) kids.

(** A copy of an atom's first eight bytes with other children. *)
Definition with_children (moov : bytes) (a : AtomSpan) (children : bytes) : outcome bytes :=
  let! head := index moov (as_offset a) (as_offset a + 8) in
  let out := head ++ children in set_atom_size out 0 (len out).

Definition strip_tref (moov : bytes) (tref : AtomSpan) : outcome bytes :=
  let! tref_kids := iter_children moov tref in
  let! only_chap := match tref_kids with [c] => is_type moov (lit "chap") c | _ => Done false end in
  if (only_chap : bool) then Done [] else
  let! head := index moov (as_offset tref) (as_offset tref + 8) in
  let! others := atoms_but moov (lit "chap") tref_kids in
  if 8 <? len (head ++ others) then set_atom_size (head ++ others) 0 (len (head ++ others)) else Done [].

Definition strip_trak (moov : bytes) (remove_ids : list Z) (trak : AtomSpan) : outcome bytes :=
  let! kids := iter_children moov trak in
  let! id := trak_id moov kids in
  if match id with Some id => bool_decide (id ∈ remove_ids) | None => false end then Done [] else
  let! head := index moov (as_offset trak) (as_offset trak + 8) in
  let! rest := collect_m (λ k, let! tref := is_type moov (lit "tref") k in
                               if tref then strip_tref moov k else atom_bytes moov k) kids in
  set_atom_size (head ++ rest) 0 (len (head ++ rest)).

Definition strip_udta (moov : bytes) (udta : AtomSpan) : outcome bytes :=
  let! kids := iter_children moov udta in
  let! others := atoms_but moov (lit "chpl") kids in
  with_children moov udta others.

Definition strip_child (moov : bytes) (remove_ids : list Z) (child : AtomSpan) : outcome bytes :=
  let! typ := atom_type moov child in
  if bool_decide (typ = lit "trak") then strip_trak moov remove_ids child
  else if bool_decide (typ = lit "udta") then strip_udta moov child
  else atom_bytes moov child.

Definition strip_existing_chapters (moov : bytes) : outcome bytes :=
  let! remove_ids := chapter_ids moov in
  if MAX_MOOV_REBUILD_BYTES <? len moov
  then Err (Container ("moov is " +:+ pretty (len moov) +:+ " bytes; refusing rebuild above " +:+ pretty MAX_MOOV_REBUILD_BYTES)) else
  let! head := index moov 0 8 in
  let! children := moov_children moov in
  let! rest := collect_m (strip_child moov remove_ids) children in
  set_atom_size (head ++ rest) 0 (len (head ++ rest)).

(** ** Putting new ones in *)

(** [splice(a..b, new)]. *)
Definition splice_bytes (buf : bytes) (a b : Z) (new : bytes) : outcome bytes :=
  let! head := index buf 0 a in
  let! _ := index buf a b in
  let! tail := index buf b (len buf) in
  Done (head ++ new ++ tail).

Definition resized (buf : bytes) : outcome bytes := set_atom_size buf 0 (len buf).

Definition insert_chapter_trak (moov chapter_trak : bytes) : outcome bytes :=
  let! children := moov_children moov in
  let! udta := find_kind moov (lit "udta") children in
  let insert_at := match udta with Some a => as_offset a | None => len moov end in
  let! moov := splice_bytes moov insert_at insert_at chapter_trak in
  resized moov.

Definition has_track_id (moov : bytes) (track_id : Z) (trak : AtomSpan) : outcome bool :=
  let! is_trak := is_type moov (lit "trak") trak in
  if negb is_trak then Done false else
  let! kids := iter_children moov trak in
  let! id := trak_id moov kids in
  Done (bool_decide (id = Some track_id)).

Definition set_audio_chap_ref (moov : bytes) (audio_track_id chapter_track_id : Z) : outcome bytes :=
  let! children := moov_children moov in
  let! found := find_m (has_track_id moov audio_track_id) children in
  let! audio_trak := ok_or found (Container "audio track not found for chap reference") in
  let tref := wrap_container (lit "tref") [wrap_atom (lit "chap") (be32 chapter_track_id)] in
  let! kids := iter_children moov audio_trak in
  let! tkhd := find_kind moov (lit "tkhd") kids in
  let! _ := ok_or tkhd (Container "audio trak missing tkhd") in
  let! head := index moov (as_offset audio_trak) (as_offset audio_trak + 8) in
  let! others := atoms_but moov (lit "tref") kids in
  let cleaned := head ++ others in
  let! cleaned_kids := iter_children cleaned (mk_AtomSpan 0 (len cleaned) 8) in
  let! found := find_kind cleaned (lit "tkhd") cleaned_kids in
  let! tk := ok_or found (Container "cleaned audio trak missing tkhd") in
  let! cleaned := splice_bytes cleaned (as_end tk) (as_end tk) tref in
  let! cleaned := resized cleaned in
  let! moov := splice_bytes moov (as_offset audio_trak) (as_end audio_trak) cleaned in
  resized moov.

Definition chpl_row (c : chapter) : bytes :=
  let '(title, start_ms) := c in
  let start := start_ms * CHPL_TIMESCALE / 1000 in
  let n := Z.min (len title) 255 in
  be64 start ++ [u8_of n] ++ take (Z.to_nat n) title.
Definition chpl_atom (chapters : list chapter) : bytes :=
  wrap_atom (lit "chpl") (be32 0 ++ [u8_of (Z.min (Z.of_nat (length chapters)) 255)] ++ concat (map chpl_row (take 255 chapters))).

Definition upsert_nero_chpl (moov : bytes) (chapters : list chapter) : outcome bytes :=
  let chpl := chpl_atom chapters in
  let! children := moov_children moov in
  let! udta := find_kind moov (lit "udta") children in
  let! moov :=
    match udta with
    | Some udta =>
        let! head := index moov (as_offset udta) (as_offset udta + 8) in
        let! kids := iter_children moov udta in
        let! others := atoms_but moov (lit "chpl") kids in
        let! udta_out := resized (head ++ others ++ chpl) in
        splice_bytes moov (as_offset udta) (as_end udta) udta_out
    | None => Done (moov ++ wrap_container (lit "udta") [chpl])
    end in
  resized moov.

(** What goes into a [moov] whose old chapters are gone, for titles at [sample_offset]. *)
Definition put_chapters (moov : bytes) (chapters : list chapter) (movie_duration duration_ms : Z)
    (sample_sizes sample_deltas : list Z) (sample_offset : Z) : outcome bytes :=
  let! audio := first_audio_track_id moov in
  let audio_track_id := default 1 audio in
  let! chapter_track_id := next_track_id moov in
  let chapter_trak :=
    build_chapter_trak chapter_track_id movie_duration duration_ms sample_sizes sample_deltas sample_offset in
  let! moov := insert_chapter_trak moov chapter_trak in
  let! moov := set_audio_chap_ref moov audio_track_id chapter_track_id in
  let! moov := upsert_nero_chpl moov chapters in
  resized moov.

Definition write_audiobook_chapters (file : bytes) (chapters : list chapter) : outcome bytes :=
  match chapters with
  | [] => Done file
  | _ =>
      let! (at_, moov) := read_moov file in
      let! (moov, _) := strip_trailing_free moov in
      let! moov := strip_existing_chapters moov in
      let! (movie_timescale, movie_duration) := read_mvhd_timing moov in
      if movie_timescale =? 0 then Err (Container "mvhd timescale is zero") else
      let duration_ms := (movie_duration * 1000 / movie_timescale) mod 2 ^ 64 in
      let '(sample_payload, sample_sizes, sample_deltas) := build_chapter_samples chapters duration_ms in
      let! (file, sample_offset) := append_chapter_media file sample_payload in
      let! moov := put_chapters moov chapters movie_duration duration_ms sample_sizes sample_deltas sample_offset in
      write_moov file at_ moov
  end.
