(* ===== verification/Mp4Remux.v ===== *)
(** * Writing a progressive M4B: [bookclerk-mp4/src/remux.rs]

    The tables of a remuxed track, the [moov] rebuilt around them, and the file that is written: brands,
    [moov] with its slack, and one [mdat] with the samples in order.  [fill_sample] is the caller's
    closure that reads a sample and transforms it. *)

From stdpp Require Import base option list numbers strings pretty.
From Stdlib Require Import ZArith Lia.
From S2P Require Import Prelude Mp4Bytes Mp4Edit Mp4Read.

Local Open Scope Z_scope.

(** [Display] of an error. *)
Definition show_error (e : Mp4Error) : string :=
  match e with
  | Container detail => "MP4 parse/remux error: " +:+ detail
  | Transform detail => "sample transform failed: " +:+ detail
  | NoRoom needed available =>
      "moov needs " +:+ pretty needed +:+ " bytes but only " +:+ pretty available +:+ " are reserved"
  | Io => "I/O error"
  end.

(** ** Tables *)

(** Run lengths, the last one first. *)
Definition push_run (runs : list (Z * Z)) (d : Z) : list (Z * Z) :=
  match runs with
  | (count, delta) :: rest => if delta =? d then (count + 1, delta) :: rest else (1, d) :: runs
  | [] => [(1, d)]
  end.
Definition runs_of (durations : list Z) : list (Z * Z) := rev (fold_left push_run durations []).

Definition encode_stts (durations : list Z) : bytes :=
  let runs := runs_of durations in
  let size := 8 + 4 + 4 + Z.of_nat (length runs) * 8 in
  be32 size ++ lit "stts" ++ be32 0 ++ be32 (Z.of_nat (length runs))
  ++ concat (map (λ '(count, delta), be32 count ++ be32 delta) runs).

Definition encode_stsc_one_per_chunk : bytes :=
  be32 (8 + 4 + 4 + 12) ++ lit "stsc" ++ be32 0 ++ be32 1 ++ be32 1 ++ be32 1 ++ be32 1.

Definition encode_stsz (sizes : list Z) : bytes :=
  be32 (8 + 4 + 4 + 4 + Z.of_nat (length sizes) * 4) ++ lit "stsz" ++ be32 0 ++ be32 0
  ++ be32 (Z.of_nat (length sizes)) ++ concat (map be32 sizes).

Definition encode_stco (offsets : list Z) : bytes :=
  be32 (8 + 4 + 4 + Z.of_nat (length offsets) * 4) ++ lit "stco" ++ be32 0
  ++ be32 (Z.of_nat (length offsets)) ++ concat (map be32 offsets).

Definition encode_co64 (offsets : list Z) : bytes :=
  be32 (8 + 4 + 4 + Z.of_nat (length offsets) * 8) ++ lit "co64" ++ be32 0
  ++ be32 (Z.of_nat (length offsets)) ++ concat (map be64 offsets).

(** ** The [moov] *)

Definition find_stbl (moov : bytes) : outcome (Z * Z) :=
  let! r := find_box_range moov (lit "stbl") in ok_or r (Container "moov missing stbl").

Definition replace_stbl_child (moov fourcc replacement : bytes) : outcome bytes :=
  let! (stbl_start, stbl_end) := find_stbl moov in
  let! child := find_direct_child moov stbl_start stbl_end fourcc in
  let! (a, b) := ok_or child (Container ("stbl missing " +:+ show_fourcc fourcc)) in
  splice_replace moov a b replacement.

Definition replace_chunk_offset_box (moov replacement : bytes) : outcome bytes :=
  let! (stbl_start, stbl_end) := find_stbl moov in
  let! stco := find_direct_child moov stbl_start stbl_end (lit "stco") in
  match stco with
  | Some (a, b) => splice_replace moov a b replacement
  | None =>
      let! co64 := find_direct_child moov stbl_start stbl_end (lit "co64") in
      match co64 with
      | Some (a, b) => splice_replace moov a b replacement
      | None => Err (Container "stbl missing stco/co64")
      end
  end.

(** [for name in names]: the buffer without the first child that is there. *)
Fixpoint remove_one (body : bytes) (stbl_start stbl_end : Z) (names : list bytes) : outcome (option bytes) :=
  match names with
  | [] => Done None
  | name :: names =>
      let! r := find_direct_child body stbl_start stbl_end name in
      match r with
      | Some (a, b) => let! body := splice_replace body a b [] in Done (Some body)
      | None => remove_one body stbl_start stbl_end names
      end
  end.

Fixpoint remove_named (fuel : nat) (body : bytes) (names : list bytes) : outcome bytes :=
  match fuel with
  | O => Spin
  | S fuel =>
      let! r := find_box_range body (lit "stbl") in
      match r with
      | None => Done body
      | Some (stbl_start, stbl_end) =>
          let! removed := remove_one body stbl_start stbl_end names in
          match removed with Some body => remove_named fuel body names | None => Done body end
      end
  end.

(** Every removal shortens the buffer. *)
Definition remove_stbl_children_named (moov : bytes) (names : list bytes) : outcome bytes :=
  remove_named (walk_fuel moov) moov names.

Definition clear_protection_markup (moov : bytes) (type_rel : Z) : outcome bytes :=
  if len moov <? type_rel + 4 then Done moov else
  let! entry_type := index moov type_rel (type_rel + 4) in
  if bool_decide (entry_type = lit "aavd") then store_at moov type_rel (lit "mp4a") else
  if negb (bool_decide (entry_type = lit "enca")) then Done moov else
  let entry_pos := Z.max 0 (type_rel - 4) in
  if len moov <? entry_pos + 8 then Err (Container "enca sample entry truncated") else
  let! entry_size := be32_at moov entry_pos in
  let entry_end := entry_pos + entry_size in
  if (len moov <? entry_end) || (entry_size <? 36) then Err (Container "invalid enca sample entry") else
  let! sinf := find_child_in_range moov (entry_pos + 36) entry_end (lit "sinf") in
  let! (sinf0, sinf1) := ok_or sinf (Container "enca missing sinf") in
  let! frma := find_child_in_range moov (sinf0 + 8) sinf1 (lit "frma") in
  let! (frma0, frma1) := ok_or frma (Container "sinf missing frma") in
  if frma1 <? frma0 + 12 then Err (Container "frma truncated") else
  let! format := index moov (frma0 + 8) (frma0 + 12) in
  let! body := store_at moov type_rel format in
  splice_replace body sinf0 sinf1 [].

(** Where the duration of a box lies behind its start, by type and version, and its width. *)
Definition duration_field (fourcc : bytes) (version : Z) : option (Z * nat) :=
  if bool_decide (fourcc = lit "mvhd") then Some (if version =? 1 then (8 + 4 + 8 + 8 + 4, 8%nat) else (8 + 4 + 4 + 4 + 4, 4%nat))
  else if bool_decide (fourcc = lit "tkhd") then
    Some (if version =? 1 then (8 + 4 + 8 + 8 + 4 + 4, 8%nat) else (8 + 4 + 4 + 4 + 4 + 4, 4%nat))
  else if bool_decide (fourcc = lit "mdhd") then Some (if version =? 1 then (8 + 4 + 8 + 8 + 4, 8%nat) else (8 + 4 + 4 + 4 + 4, 4%nat))
  else None.

Definition patch_named_duration (moov fourcc : bytes) (duration : Z) : outcome bytes :=
  let! r := find_box_range moov fourcc in
  match r with
  | None => Done moov
  | Some (start, end_) =>
      if end_ <? start + 12 then Done moov else
      let! version := byte_at moov (start + 8) in
      match duration_field fourcc version with
      | Some (field, width) =>
          let off := start + field in
          if off + Z.of_nat width <=? end_ then store_at moov off (to_be width duration) else Done moov
      | None => Done moov
      end
  end.

Definition patch_duration_fields (moov : bytes) (media_duration movie_duration : Z) : outcome bytes :=
  let! moov := patch_named_duration moov (lit "mvhd") movie_duration in
  let! moov := patch_named_duration moov (lit "tkhd") movie_duration in
  patch_named_duration moov (lit "mdhd") media_duration.

Record ProgressiveWriteInput : Type := mk_ProgressiveWriteInput {
  pw_moov_bytes : bytes;
  pw_moov_file_start : Z;
  pw_sample_entry_type_offset : Z;
  pw_audio_timescale : Z;
  pw_mvhd_timescale : Z;
  pw_sample_sizes : list Z;
  pw_durations : list Z;
}.

Definition replacing {A} (what : string) (m : outcome A) : outcome A :=
  map_err (λ e, Container ("replace " +:+ what +:+ ": " +:+ show_error e)) m.

Definition encode_offsets (chunk_offsets : list Z) : bytes :=
  if existsb (λ o, U32_MAX <? o) chunk_offsets then encode_co64 chunk_offsets else encode_stco chunk_offsets.

Definition rebuild_moov (input : ProgressiveWriteInput) (chunk_offsets : list Z) (media_duration : Z) : outcome bytes :=
  let moov_bytes := pw_moov_bytes input in
  if len moov_bytes <? 8 then Err (Container "moov too small") else
  let! type_rel := ok_or (u64_of (pw_sample_entry_type_offset input - pw_moov_file_start input))
                     (Container "sample entry offset outside moov") in
  let! body := clear_protection_markup moov_bytes type_rel in
  let! body := replacing "stts" (replace_stbl_child body (lit "stts") (encode_stts (pw_durations input))) in
  let! body := replacing "stsc" (replace_stbl_child body (lit "stsc") encode_stsc_one_per_chunk) in
  let! body := replacing "stsz" (replace_stbl_child body (lit "stsz") (encode_stsz (pw_sample_sizes input))) in
  let! body := replacing "chunk offsets" (replace_chunk_offset_box body (encode_offsets chunk_offsets)) in
  let! body := remove_stbl_children_named body [lit "saiz"; lit "saio"] in
  let movie_duration :=
    if (pw_mvhd_timescale input =? 0) || (pw_audio_timescale input =? 0) then media_duration
    else (media_duration * pw_mvhd_timescale input) mod 2 ^ 64 / pw_audio_timescale input in
  let! body := patch_duration_fields body media_duration movie_duration in
  store_at body 0 (be32 (len body)).

(** ** The file *)

Definition build_m4b_ftyp : bytes :=
  be32 (8 + 8 + 4 * 4) ++ lit "ftyp" ++ lit "M4B " ++ be32 0
  ++ lit "M4B " ++ lit "mp42" ++ lit "isom" ++ lit "iso2".

Definition MDAT_HEADER_LEN : Z := 16.

(** One chunk per sample, one behind the other. *)
Fixpoint lay_out (offset : Z) (sizes : list Z) : list Z :=
  match sizes with [] => [] | size :: sizes => offset :: lay_out (u64_saturating_add offset size) sizes end.

(** The loop that makes the length of the [moov] and the chunk offsets in it agree. *)
Fixpoint settle (fuel : nat) (input : ProgressiveWriteInput) (media_duration moov_len : Z) : outcome bytes :=
  match fuel with
  | O => Spin
  | S fuel =>
      let chunk_offsets := lay_out (len build_m4b_ftyp + moov_len + MDAT_HEADER_LEN) (pw_sample_sizes input) in
      let! built := rebuild_moov input chunk_offsets media_duration in
      let! built := pad_moov_to built (len built + RESERVED_MOOV_SLACK) in
      if len built =? moov_len then Done built else settle fuel input media_duration (len built)
  end.

Fixpoint write_samples (fill_sample : nat → outcome bytes) (i : nat) (sizes : list Z) : outcome bytes :=
  match sizes with
  | [] => Done []
  | expected :: sizes =>
      let! sample := fill_sample i in
      if negb (len sample mod 2 ^ 32 =? expected)
      then Err (Container ("sample " +:+ pretty (Z.of_nat i) +:+ " size " +:+ pretty (len sample) +:+ " != expected "
                  +:+ pretty expected)) else
      let! rest := write_samples fill_sample (S i) sizes in
      Done (sample ++ rest)
  end.

(** The rounds of [settle] that are needed: the length changes once more when offsets outgrow 32 bits. *)
Definition settle_rounds : nat := 4.

(** The file that is written. *)
Definition write_progressive_m4b (input : ProgressiveWriteInput) (fill_sample : nat → outcome bytes) : outcome bytes :=
  match pw_sample_sizes input with
  | [] => Err (Container "no samples to write")
  | _ =>
      if negb (length (pw_sample_sizes input) =? length (pw_durations input))%nat
      then Err (Container ("payload/duration count mismatch: " +:+ pretty (Z.of_nat (length (pw_sample_sizes input)))
                  +:+ " vs " +:+ pretty (Z.of_nat (length (pw_durations input))))) else
      let media_duration := foldr Z.add 0 (pw_durations input) in
      let payload_total := foldr Z.add 0 (pw_sample_sizes input) in
      let! moov := settle settle_rounds input media_duration 0 in
      let header := be32 1 ++ lit "mdat" ++ be64 (MDAT_HEADER_LEN + payload_total) in
      let! payload := write_samples fill_sample 0 (pw_sample_sizes input) in
      Done (build_m4b_ftyp ++ moov ++ header ++ payload)
  end.

(** ** [remux_progressive] *)

Record TrimRange : Type := mk_TrimRange { tr_start_ms : Z; tr_end_ms : option Z }.

(** [SampleReader::read_sample]. *)
Definition read_sample (file : bytes) (offset size : Z) : outcome bytes :=
  if offset + size <=? len file then Done (slice file offset (offset + size)) else Err Io.

Definition lookup_samples (samples : list SampleInfo) (kept : list Z) : outcome (list SampleInfo) :=
  foldr (λ i rest, let! rest := rest in
    match samples !! Z.to_nat i with Some s => Done (s :: rest) | None => Panic end) (Done []) kept.

(** [sample] is [SampleTransform::sample], [retain] its hook. *)
Definition remux_progressive (fuel : nat) (file : bytes) (trim : option TrimRange)
    (retain : list Z → outcome unit) (sample : nat → bytes → outcome bytes) : outcome bytes :=
  let! mp4 := parse_mp4 fuel file in
  let audio := mf_audio mp4 in
  let samples := at_samples audio in
  let kept := match trim with
              | Some t => select_samples_by_ms samples (at_timescale audio) (tr_start_ms t) (tr_end_ms t)
              | None => map Z.of_nat (seq 0 (length samples))
              end in
  match kept with
  | [] => Err (Container "no samples remain after trim; check brand intro/outro durations")
  | _ =>
      let! _ := retain kept in
      let! chosen := lookup_samples samples kept in
      write_progressive_m4b
        (mk_ProgressiveWriteInput (mf_moov_bytes mp4) (bh_start (mf_moov mp4)) (at_sample_entry_type_offset audio)
           (at_timescale audio) (mf_mvhd_timescale mp4) (map si_size chosen) (map si_duration chosen))
        (λ i, match chosen !! i with
              | Some s => let! payload := read_sample file (si_offset s) (si_size s) in sample i payload
              | None => Panic
              end)
  end.
