(* ===== verification/Mp4Walk.v ===== *)
(** * The walks over a buffer end: [edit.rs] and [patch.rs] on arbitrary bytes

    A [moov] comes from a file somebody else wrote.  Whatever it holds, each walk returns: no slice is
    out of range and every loop ends within the fuel the model gives it. *)

From stdpp Require Import base option list numbers strings pretty.
From Stdlib Require Import ZArith Lia.
From S2P Require Import Prelude Mp4Bytes Mp4Edit.

Local Open Scope Z_scope.

Lemma child_at_total buf pos end_ : 0 ≤ pos → end_ ≤ len buf →
  child_at buf pos end_ = Done None
  ∨ ∃ size kind, child_at buf pos end_ = Done (Some (size, kind)) ∧ 8 ≤ size < 2 ^ 32 ∧ pos + size ≤ end_
    ∧ holds buf pos (be32 size) ∧ holds buf (pos + 4) kind ∧ len kind = 4.
Proof.
  intros Hp He. unfold child_at. destruct (Z.ltb_spec end_ (pos + 8)) as [|Hle]; [by left|].
  unfold be32_at. rewrite index_total by lia. cbn [and_then].
  set (s := slice buf pos (pos + 4)).
  assert (Hs : index buf pos (pos + 4) = Done s) by (apply index_total; lia).
  apply index_holds in Hs as [Hh Hl]. pose proof (from_be_range s) as Hr. rewrite Hl in Hr.
  replace (pos + 4 - pos) with 4 in * by lia. change (256 ^ 4) with (2 ^ 32) in Hr.
  destruct ((from_be s <? 8) || (end_ <? pos + from_be s)) eqn:E; [by left|right].
  apply orb_false_iff in E as [E1%Z.ltb_ge E2%Z.ltb_ge].
  assert (Hk : index buf (pos + 4) (pos + 8) = Done (slice buf (pos + 4) (pos + 8))) by (apply index_total; lia).
  rewrite Hk. apply index_holds in Hk as [Hk Hlk]. exists (from_be s), (slice buf (pos + 4) (pos + 8)).
  split_and!; [done|lia|lia|lia| |done|lia].
  rewrite to_from_be; [done|]. unfold len in Hl. lia.
Qed.

Ltac walk_step buf pos end_ :=
  destruct (child_at_total buf pos end_) as [->|(size & kind & -> & Hsize & Hfit & _ & _ & _)];
    [lia|lia| |]; cbn [and_then].

(** A range on the stack of [find_box_range], and what it can still cost. *)
Definition in_buffer (buf : bytes) (r : Z * Z) : Prop := 0 ≤ r.1 ∧ r.2 ≤ len buf.
Definition weight (stack : list (Z * Z)) : Z := foldr (λ r w, Z.max 0 (r.2 - r.1) + 1 + w) 0 stack.

Lemma weight_cons a b stack : weight ((a, b) :: stack) = Z.max 0 (b - a) + 1 + weight stack.
Proof. done. Qed.

Lemma weight_nonneg stack : 0 ≤ weight stack.
Proof. unfold weight. induction stack; cbn -[Z.max]; lia. Qed.

Lemma scan_range_total fuel buf fourcc pos end_ stack :
  0 ≤ pos → end_ ≤ len buf → Z.max 0 (end_ - pos) < Z.of_nat fuel → Forall (in_buffer buf) stack →
  ∃ r, scan_range fuel buf fourcc pos end_ stack = Done r
    ∧ match r with
      | inl (a, b) => 0 ≤ a ∧ a + 8 ≤ b ∧ b ≤ len buf
      | inr stack' => Forall (in_buffer buf) stack' ∧ weight stack' ≤ weight stack + Z.max 0 (end_ - pos)
      end.
Proof.
  revert pos stack. induction fuel as [|fuel IH]; intros pos stack Hp He Hf Hst; [|cbn [scan_range]].
  { lia. }
  walk_step buf pos end_.
  { exists (inr stack). split_and!; [done|done|lia]. }
  case_bool_decide; [exists (inl (pos, pos + size)); split; [done|lia]|].
  set (stack' := if bool_decide _ then _ else _).
  assert (Forall (in_buffer buf) stack' ∧ weight stack' ≤ weight stack + size) as [Hst' Hw].
  { unfold stack'. repeat case_bool_decide; (split; [|rewrite ?weight_cons; lia]); repeat constructor; cbn; try lia; done. }
  destruct (IH (pos + size) stack') as (r & -> & Hr); [lia|lia|lia|done|].
  exists r. split; [done|]. destruct r as [[a b]|st]; [done|]. destruct Hr. split; [done|lia].
Qed.

Lemma scan_stack_total fuel buf fourcc stack :
  Forall (in_buffer buf) stack → weight stack < Z.of_nat fuel →
  ∃ r, scan_stack fuel buf fourcc stack = Done r
    ∧ match r with Some (a, b) => 0 ≤ a ∧ a + 8 ≤ b ∧ b ≤ len buf | None => True end.
Proof.
  revert stack. induction fuel as [|fuel IH]; intros stack Hst Hw.
  { pose proof (weight_nonneg stack). lia. }
  destruct stack as [|[a b] stack]; cbn [scan_stack]; [by exists None|].
  apply Forall_cons in Hst as [[Ha Hb] Hst]. cbn in Ha, Hb. rewrite weight_cons in Hw.
  destruct (scan_range_total (walk_fuel buf) buf fourcc a b stack) as (r & -> & Hr); [done|done| |done|].
  { unfold walk_fuel, len in *. lia. }
  cbn [and_then]. destruct r as [[a' b']|stack']; [by exists (Some (a', b'))|].
  destruct Hr as [Hst' Hw']. apply IH; [done|lia].
Qed.

Lemma find_box_range_total buf fourcc :
  ∃ r, find_box_range buf fourcc = Done r
    ∧ match r with Some (a, b) => 0 ≤ a ∧ a + 8 ≤ b ∧ b ≤ len buf | None => True end.
Proof.
  apply scan_stack_total; [constructor; [|done]; unfold in_buffer; cbn; lia|].
  rewrite weight_cons. unfold walk_fuel, len, weight. cbn [foldr]. lia.
Qed.

Lemma find_sibling_total fuel buf pos end_ fourcc :
  0 ≤ pos → Z.max 0 (len buf - pos) < Z.of_nat fuel →
  ∃ r, find_sibling fuel buf pos end_ fourcc = Done r
    ∧ match r with Some (a, b) => pos ≤ a ∧ a + 8 ≤ b ∧ b ≤ end_ | None => True end.
Proof.
  revert pos. induction fuel as [|fuel IH]; intros pos Hp Hf; [lia|]. cbn [find_sibling].
  destruct (Z.ltb_spec (Z.min end_ (len buf)) (pos + 8)) as [|Hle]; [by exists None|].
  destruct (be32_total buf pos) as (size & -> & Hsize); [lia..|]. cbn [and_then].
  destruct ((size <? 8) || (end_ <? pos + size)) eqn:E; [by exists None|].
  apply orb_false_iff in E as [E1%Z.ltb_ge E2%Z.ltb_ge]. rewrite index_total by lia. cbn [and_then].
  case_bool_decide; [eexists (Some _); split; [done|cbn; lia]|].
  destruct (IH (pos + size)) as (r & -> & Hr); [lia|lia|]. exists r. split; [done|].
  destruct r as [[a b]|]; [lia|done].
Qed.

Lemma find_child_in_range_total buf start end_ fourcc : 0 ≤ start →
  ∃ r, find_child_in_range buf start end_ fourcc = Done r
    ∧ match r with Some (a, b) => start ≤ a ∧ a + 8 ≤ b ∧ b ≤ end_ | None => True end.
Proof. intros. apply find_sibling_total; [done|]. unfold walk_fuel, len. lia. Qed.

Lemma find_direct_child_total buf start end_ fourcc : 0 ≤ start →
  find_direct_child buf start end_ fourcc = Err (Container "parent box header truncated")
  ∨ ∃ r, find_direct_child buf start end_ fourcc = Done r
    ∧ match r with Some (a, b) => start + 8 ≤ a ∧ a + 8 ≤ b ∧ b ≤ end_ | None => True end.
Proof.
  intros Hs. unfold find_direct_child. destruct (Z.ltb_spec (len buf) (start + 8)); [by left|right].
  rewrite index_total by lia. cbn [and_then]. case_bool_decide.
  - destruct (find_child_in_range_total buf (start + 8 + 4) end_ fourcc) as (r & -> & Hr); [lia|].
    exists r. split; [done|]. destruct r as [[]|]; [lia|done].
  - apply find_child_in_range_total. lia.
Qed.

Lemma children_start_after kind pos content : children_start kind pos = Some content → pos + 8 ≤ content.
Proof. unfold children_start. repeat case_bool_decide; intros [=]; lia. Qed.

Lemma enclosing_total fuel buf at_ pos end_ :
  0 ≤ pos → end_ ≤ len buf → Z.max 0 (end_ - pos) < Z.of_nat fuel →
  ∃ r, enclosing fuel buf at_ pos end_ = Done r
    ∧ match r with
      | Some ((c, size), inner) =>
          pos ≤ c ∧ 8 ≤ size ∧ c + size ≤ end_
          ∧ match inner with Some (content, b) => c + 8 ≤ content ∧ b = c + size | None => True end
      | None => True
      end.
Proof.
  revert pos. induction fuel as [|fuel IH]; intros pos Hp He Hf; [lia|]. cbn [enclosing].
  walk_step buf pos end_; [by exists None|].
  destruct ((pos <? at_) && (at_ <? pos + size)).
  - eexists. split; [done|]. cbn. split_and!; [lia..|].
    destruct (children_start kind pos) as [content|] eqn:E; cbn; [|done]. by apply children_start_after in E.
  - destruct (IH (pos + size)) as (r & -> & Hr); [lia..|]. exists r. split; [done|].
    destruct r as [[[c s] inner]|]; [|done]. destruct Hr as (? & ? & ? & ?). split_and!; [lia..|done].
Qed.

Lemma ancestors_total fuel buf at_ pos end_ out :
  0 ≤ pos → end_ ≤ len buf → Z.max 0 (end_ - pos) < Z.of_nat fuel →
  ∃ r, ancestors_from fuel buf at_ pos end_ out = Done r.
Proof.
  revert pos end_ out. induction fuel as [|fuel IH]; intros pos end_ out Hp He Hf; [lia|]. cbn [ancestors_from].
  destruct (enclosing_total (walk_fuel buf) buf at_ pos end_) as (r & -> & Hr); [done|done| |].
  { unfold walk_fuel, len in *. lia. }
  cbn [and_then]. destruct r as [[[c size] [[content b]|]]|]; [|eauto..].
  destruct Hr as (? & ? & ? & ? & ->). apply IH; lia.
Qed.

Lemma splice_returns buf start end_ replacement : 0 ≤ start → returns (splice_replace buf start end_ replacement).
Proof.
  intros Hs. unfold splice_replace. destruct ((end_ <? start) || (len buf <? end_)) eqn:E; [done|].
  apply orb_false_iff in E as [E1%Z.ltb_ge E2%Z.ltb_ge].
  assert (∃ l, (if len replacement - (end_ - start) =? 0 then Done [] else ancestor_size_offsets buf start) = Done l)
    as [l ->].
  { destruct (_ =? 0); [by exists []|]. apply ancestors_total; [lia|lia|]. unfold walk_fuel, len. lia. }
  cbn [and_then]. rewrite !index_total by lia. done.
Qed.

Lemma last_child_total fuel buf pos last :
  0 ≤ pos → Z.max 0 (len buf - pos) < Z.of_nat fuel → ∃ r, last_child fuel buf pos last = Done r.
Proof.
  revert pos last. induction fuel as [|fuel IH]; intros pos last Hp Hf; [lia|]. cbn [last_child].
  walk_step buf pos (len buf); [eauto|]. apply IH; lia.
Qed.

Lemma set_box_len_returns buf : returns (set_box_len buf).
Proof. unfold set_box_len, u32_of. destruct (_ <=? _); cbn; [|done]. by destruct (_ <? _). Qed.

Lemma strip_returns moov : returns (strip_trailing_free moov).
Proof.
  unfold strip_trailing_free, last_child_range. destruct (len moov <? 8); [done|].
  destruct (last_child_total (walk_fuel moov) moov 8 None) as [r ->]; [lia|unfold walk_fuel, len; lia|].
  cbn [and_then]. destruct r as [[start kind]|]; [|done]. destruct (_ && _); [done|].
  apply and_then_returns; [apply set_box_len_returns|done].
Qed.

Lemma pad_returns moov total : returns (pad_moov_to moov total).
Proof.
  unfold pad_moov_to. destruct (_ =? _); [done|]. destruct (_ <? _); [done|]. destruct (_ <? _); [done|].
  apply set_box_len_returns.
Qed.

Lemma collect_total fuel buf pos end_ out :
  0 ≤ pos → end_ ≤ len buf → Z.max 0 (end_ - pos) < Z.of_nat fuel →
  Forall (λ b, 0 ≤ b.1.1 ∧ b.1.2 ≤ len buf) out →
  ∃ r, collect_chunk_offset_boxes fuel buf pos end_ out = Done r ∧ Forall (λ b, 0 ≤ b.1.1 ∧ b.1.2 ≤ len buf) r.
Proof.
  revert pos end_ out. induction fuel as [|fuel IH]; intros pos end_ out Hp He Hf Ho; [lia|].
  cbn [collect_chunk_offset_boxes]. walk_step buf pos end_; [eauto|].
  assert (Hsnoc : ∀ w, Forall (λ b, 0 ≤ b.1.1 ∧ b.1.2 ≤ len buf) (out ++ [(pos, pos + size, w)])).
  { intros w. apply Forall_app. split; [done|]. constructor; [cbn; lia|done]. }
  set (step := if bool_decide _ then _ else _).
  assert (∃ out', step = Done out' ∧ Forall (λ b, 0 ≤ b.1.1 ∧ b.1.2 ≤ len buf) out') as (out' & -> & Ho').
  { unfold step. repeat case_bool_decide; eauto. apply IH; [lia|lia|lia|done]. }
  cbn [and_then]. apply IH; [lia|lia|lia|done].
Qed.

Lemma shift_entries_returns fuel moov pos end_ wide above delta :
  0 ≤ pos → end_ ≤ len moov → Z.max 0 (end_ - pos) < Z.of_nat fuel →
  returns (shift_entries fuel moov pos end_ wide above delta)
  ∧ ∀ r, shift_entries fuel moov pos end_ wide above delta = Done r → len r = len moov.
Proof.
  revert moov pos. induction fuel as [|fuel IH]; intros moov pos Hp He Hf; [lia|]. cbn [shift_entries].
  set (stride := if wide then 8 else 4). assert (Hst : 4 ≤ stride ≤ 8) by (unfold stride; destruct wide; lia).
  destruct (Z.ltb_spec end_ (pos + stride)) as [|Hle]; [split; [done|by intros r [= <-]]|].
  assert (∃ old, (if wide then be64_at moov pos else be32_at moov pos) = Done old) as [old ->].
  { unfold stride in *. destruct wide; [destruct (be64_total moov pos) as (v & -> & _)
      |destruct (be32_total moov pos) as (v & -> & _)]; eauto; lia. }
  cbn [and_then]. destruct (old <=? above); [apply IH; lia|].
  destruct (moved_offset old delta) as [new|]; cbn [ok_or and_then]; [|split; [done|by intros r [=]]].
  assert (Hput : ∀ l, len l = stride → let r := store_at moov pos l in r = Done (overwrite moov pos l)
    ∧ len (overwrite moov pos l) = len moov).
  { intros l Hl. split; [apply store_total; lia|apply len_overwrite; lia]. }
  destruct wide.
  - destruct (Hput (be64 new)) as [-> Hl]; [apply len_to_be|]. cbn [and_then]. rewrite <-Hl. apply IH; lia.
  - destruct (u32_of new) as [narrow|]; cbn [ok_or and_then]; [|split; [done|by intros r [=]]].
    destruct (Hput (be32 narrow)) as [-> Hl]; [apply len_to_be|]. cbn [and_then]. rewrite <-Hl. apply IH; lia.
Qed.

Lemma shift_boxes_returns moov boxes above delta :
  Forall (λ b, 0 ≤ b.1.1 ∧ b.1.2 ≤ len moov) boxes → returns (shift_boxes moov boxes above delta).
Proof.
  revert moov. induction boxes as [|[[start end_] wide] boxes IH]; intros moov Hb; [done|]. cbn [shift_boxes].
  apply Forall_cons in Hb as [[H1 H2] Hb]. cbn in H1, H2.
  destruct (shift_entries_returns (walk_fuel moov) moov (start + 16) end_ wide above delta) as [Hr Hl];
    [lia|lia|unfold walk_fuel, len in *; lia|].
  apply and_then_returns; [done|]. intros m Hm%Hl. apply IH. by rewrite Hm.
Qed.

Lemma shift_returns moov above delta : returns (shift_chunk_offsets moov above delta).
Proof.
  unfold shift_chunk_offsets. destruct (delta =? 0); [done|].
  destruct (collect_total (walk_fuel moov) moov 0 (len moov) []) as (boxes & -> & Hb); [lia|lia|unfold walk_fuel, len; lia|done|].
  by apply shift_boxes_returns.
Qed.

