(* ===== verification/Mp4Tree.v ===== *)
(** * Boxes as a tree

    The abstract view of a [moov]: boxes with children, chunk-offset tables with their entries, and
    everything else as opaque leaves.  [ser] lays a tree out in bytes; the walks of [Mp4Edit] see in a
    buffer exactly the tree that was laid out there, and moving chunk offsets is a map over the
    tables. *)

From stdpp Require Import base option list sets numbers strings pretty.
From Stdlib Require Import ZArith Lia.
From S2P Require Import Prelude Mp4Bytes Mp4Edit.

Local Open Scope Z_scope.

(** A box of a content. *)
Definition boxed (kind content : bytes) : bytes := be32 (8 + len content) ++ kind ++ content.

Inductive atom : Type :=
| Leaf (kind body : bytes)
| Node (kind pre : bytes) (kids : list atom) (post : bytes)
| Table (wide : bool) (head : bytes) (entries : list Z) (tail : bytes).

Definition table_kind (wide : bool) : bytes := if wide then lit "co64" else lit "stco".
Definition stride (wide : bool) : nat := if wide then 8 else 4.
Definition rows (wide : bool) (entries : list Z) : bytes := concat (map (to_be (stride wide)) entries).

Fixpoint ser (a : atom) : bytes :=
  match a with
  | Leaf kind body => boxed kind body
  | Node kind pre kids post => boxed kind (pre ++ concat (map ser kids) ++ post)
  | Table wide head entries tail => boxed (table_kind wide) (head ++ rows wide entries ++ tail)
  end.
Definition sers (l : list atom) : bytes := concat (map ser l).

Definition kind_of (a : atom) : bytes :=
  match a with Leaf kind _ | Node kind _ _ _ => kind | Table wide _ _ _ => table_kind wide end.

(** Kinds the editor looks into, and tables. *)
Definition is_table (kind : bytes) : bool := bool_decide (kind = lit "stco") || bool_decide (kind = lit "co64").

(** A tree the editor reads back: sizes fit their field, and children begin where [children_start]
    has them.  Up to seven bytes may follow the last child. *)
Fixpoint wf (a : atom) : bool :=
  (len (ser a) <? 2 ^ 32) && (length (kind_of a) =? 4)%nat
  && match a with
     | Leaf kind body => bool_decide (children_start kind 0 = None) && negb (is_table kind)
     | Node kind pre kids post =>
         bool_decide (children_start kind 0 = Some (8 + len pre)) && (len post <? 8) && forallb wf kids
     | Table wide head entries tail =>
         (len head =? 8) && (len tail <? Z.of_nat (stride wide))
         && forallb (λ e, (0 <=? e) && (e <? 256 ^ Z.of_nat (stride wide))) entries
     end.

Section Induction.
Context (P : atom → Prop).
Hypothesis HL : ∀ kind body, P (Leaf kind body).
Hypothesis HN : ∀ kind pre kids post, Forall P kids → P (Node kind pre kids post).
Hypothesis HT : ∀ wide head entries tail, P (Table wide head entries tail).

Fixpoint atom_tree_ind (a : atom) : P a :=
  match a with
  | Leaf kind body => HL kind body
  | Node kind pre kids post =>
      HN kind pre kids post
        ((fix go (l : list atom) : Forall P l :=
            match l with [] => Forall_nil_2 P | a :: l => Forall_cons_2 P a l (atom_tree_ind a) (go l) end) kids)
  | Table wide head entries tail => HT wide head entries tail
  end.
End Induction.

(** Induction over a forest and the trees under it. *)
Lemma forest_ind (P : list atom → Prop) :
  P [] →
  (∀ kind body l, P l → P (Leaf kind body :: l)) →
  (∀ kind pre kids post l, P kids → P l → P (Node kind pre kids post :: l)) →
  (∀ wide head entries tail l, P l → P (Table wide head entries tail :: l)) →
  ∀ l, P l.
Proof.
  intros Hnil HL HN HT.
  assert (Hcons : ∀ a l, P l → P (a :: l)).
  { intros a. induction a as [kind body|kind pre kids post IH|wide head entries tail] using atom_tree_ind;
      intros l Hl; [by apply HL| |by apply HT].
    apply HN; [|done]. induction IH as [|k ks Hk _ IHk]; [exact Hnil|exact (Hk _ IHk)]. }
  induction l; auto.
Qed.

Lemma sers_cons a l : sers (a :: l) = ser a ++ sers l.
Proof. done. Qed.

Lemma sers_app l k : sers (l ++ k) = sers l ++ sers k.
Proof. unfold sers. by rewrite map_app, concat_app. Qed.

Lemma len_boxed kind content : length kind = 4%nat → len (boxed kind content) = 8 + len content.
Proof. intros Hk. unfold boxed. rewrite !len_app, len_to_be. assert (len kind = 4) by (unfold len; lia). lia. Qed.

Lemma ser_boxed a : ∃ content, ser a = boxed (kind_of a) content.
Proof. destruct a; cbn; eauto. Qed.

Lemma wf_size a : wf a = true → 8 ≤ len (ser a) < 2 ^ 32 ∧ length (kind_of a) = 4%nat.
Proof.
  intros H. assert (Hk : length (kind_of a) = 4%nat ∧ len (ser a) < 2 ^ 32).
  { destruct a; cbn [wf] in H; apply andb_prop in H as [[H1%Z.ltb_lt H2%Nat.eqb_eq]%andb_prop _]; done. }
  destruct Hk as [Hk ?]. destruct (ser_boxed a) as [c E]. rewrite E in *.
  rewrite len_boxed in * by done. pose proof (len_nonneg c). lia.
Qed.

(** The head of a walk reads the header that was laid out. *)
Lemma child_at_boxed buf pos end_ kind content :
  holds buf pos (boxed kind content) → length kind = 4%nat → 8 + len content < 2 ^ 32 →
  pos + 8 + len content ≤ end_ →
  child_at buf pos end_ = Done (Some (8 + len content, kind)).
Proof.
  intros Hh Hk Hs He. pose proof (len_nonneg content). unfold boxed in Hh.
  apply holds_app in Hh as [H1 [H2 H3]%holds_app]. rewrite len_to_be in H2. unfold child_at.
  rewrite (proj2 (Z.ltb_ge _ _)) by lia. rewrite (holds_be32 _ _ _ H1). cbn [and_then].
  rewrite Z.mod_small by lia. rewrite (proj2 (Z.ltb_ge _ _)), (proj2 (Z.ltb_ge _ _)) by lia. cbn [orb].
  assert (Hlk : len kind = 4) by (unfold len; lia).
  change (Z.of_nat 4) with 4 in H2. rewrite (holds_index _ _ _ _ H2) by lia. done.
Qed.

Lemma child_at_ser buf pos end_ a :
  holds buf pos (ser a) → wf a = true → pos + len (ser a) ≤ end_ →
  child_at buf pos end_ = Done (Some (len (ser a), kind_of a)).
Proof.
  intros Hh Hw He. destruct (wf_size a Hw) as [Hs Hk]. destruct (ser_boxed a) as [c E]. rewrite E in *.
  rewrite len_boxed in * by done. apply child_at_boxed; [done|done|lia|lia].
Qed.

Lemma child_at_end buf pos end_ : end_ < pos + 8 → child_at buf pos end_ = Done None.
Proof. intros. unfold child_at. by rewrite (proj2 (Z.ltb_lt _ _)). Qed.

(** ** Chunk offsets *)

(** What [shift_chunk_offsets] does to one entry. *)
Definition shift_entry (above delta : Z) (wide : bool) (o : Z) : option Z :=
  if o <=? above then Some o else
  new ← moved_offset o delta; if wide then Some new else u32_of new.

(** The tables under the boxes [collect_chunk_offset_boxes] enters, with [f] applied to each entry. *)
Fixpoint map_offsets (f : bool → Z → option Z) (a : atom) : option atom :=
  match a with
  | Leaf _ _ => Some a
  | Node kind pre kids post =>
      if bool_decide (kind ∈ OFFSET_ANCESTORS)
      then kids ← foldr (λ k l, k ← map_offsets f k; l ← l; Some (k :: l)) (Some []) kids;
           Some (Node kind pre kids post)
      else Some a
  | Table wide head entries tail => entries ← mapM (f wide) entries; Some (Table wide head entries tail)
  end.
Definition map_all_offsets (f : bool → Z → option Z) (l : list atom) : option (list atom) :=
  foldr (λ k l, k ← map_offsets f k; l ← l; Some (k :: l)) (Some []) l.

(** The tables' extents when the forest is laid out at [pos]. *)
Fixpoint tables (a : atom) (pos : Z) : list (Z * Z * bool) :=
  match a with
  | Leaf _ _ => []
  | Node kind pre kids post =>
      if bool_decide (kind ∈ OFFSET_ANCESTORS)
      then foldr (λ k rest pos, tables k pos ++ rest (pos + len (ser k))) (λ _, []) kids (pos + 8)
      else []
  | Table wide _ _ _ => [(pos, pos + len (ser a), wide)]
  end.
Definition all_tables (l : list atom) (pos : Z) : list (Z * Z * bool) :=
  foldr (λ k rest pos, tables k pos ++ rest (pos + len (ser k))) (λ _, []) l pos.

Lemma wf_leaf kind body : wf (Leaf kind body) = true → children_start kind 0 = None ∧ is_table kind = false.
Proof. cbn [wf]. intros [_ [H1%bool_decide_eq_true H2%negb_true_iff]%andb_prop]%andb_prop. done. Qed.
Lemma wf_node kind pre kids post : wf (Node kind pre kids post) = true →
  children_start kind 0 = Some (8 + len pre) ∧ len post < 8 ∧ forallb wf kids = true.
Proof. cbn [wf]. intros [_ [[H1%bool_decide_eq_true H2%Z.ltb_lt]%andb_prop H3]%andb_prop]%andb_prop. done. Qed.
Lemma wf_table wide head entries tail : wf (Table wide head entries tail) = true →
  len head = 8 ∧ len tail < Z.of_nat (stride wide)
  ∧ ∀ e, e ∈ entries → 0 ≤ e < 256 ^ Z.of_nat (stride wide).
Proof.
  cbn [wf]. intros [_ [[H1%Z.eqb_eq H2%Z.ltb_lt]%andb_prop H3]%andb_prop]%andb_prop. split_and!; [done..|].
  rewrite forallb_forall in H3. intros e He%list_elem_of_In. apply H3 in He.
  apply andb_prop in He as [?%Z.leb_le ?%Z.ltb_lt]. done.
Qed.

Lemma offset_ancestor_start kind pos : kind ∈ OFFSET_ANCESTORS → children_start kind pos = Some (pos + 8).
Proof.
  unfold OFFSET_ANCESTORS, children_start. intros H.
  rewrite bool_decide_eq_true_2; [done|]. cbn [map] in *. set_solver.
Qed.

Lemma leaf_plain kind body : wf (Leaf kind body) = true →
  kind ≠ lit "stco" ∧ kind ≠ lit "co64" ∧ kind ∉ OFFSET_ANCESTORS.
Proof.
  intros [H1 H2]%wf_leaf. unfold is_table in H2. apply orb_false_iff in H2 as [?%bool_decide_eq_false ?%bool_decide_eq_false].
  split_and!; [done..|]. intros Hk%(offset_ancestor_start _ 0). congruence.
Qed.

Lemma node_plain kind pre kids post : wf (Node kind pre kids post) = true →
  kind ≠ lit "stco" ∧ kind ≠ lit "co64" ∧ (kind ∈ OFFSET_ANCESTORS → pre = []).
Proof.
  intros (H1 & _ & _)%wf_node. split_and!.
  - intros ->. vm_compute in H1. done.
  - intros ->. vm_compute in H1. done.
  - intros Hk%(offset_ancestor_start _ 0). assert (len pre = 0) by (rewrite H1 in Hk; injection Hk; lia).
    destruct pre; [done|rewrite len_cons in *; pose proof (len_nonneg pre); lia].
Qed.

Lemma forallb_cons {A} (p : A → bool) a l : forallb p (a :: l) = true → p a = true ∧ forallb p l = true.
Proof. cbn. by intros [? ?]%andb_prop. Qed.

(** Collecting finds the tables of the tree, in order. *)
Lemma collect_ser l : ∀ fuel buf pos end_ out,
  forallb wf l = true → holds buf pos (sers l) → pos + len (sers l) ≤ end_ < pos + len (sers l) + 8 →
  Z.max 0 (end_ - pos) < Z.of_nat fuel →
  collect_chunk_offset_boxes fuel buf pos end_ out = Done (out ++ all_tables l pos).
Proof.
  induction l as [|kind body l IH|kind pre kids post l IHk IH|wide head entries tail l IH] using forest_ind;
    intros fuel buf pos end_ out Hw Hh He Hf; (destruct fuel as [|fuel]; [lia|]); cbn [collect_chunk_offset_boxes].
  { change (len (sers [])) with 0 in He. rewrite child_at_end by lia. by rewrite app_nil_r. }
  all: apply forallb_cons in Hw as [Hwa Hw]; destruct (wf_size _ Hwa) as [Hs _];
    rewrite sers_cons in Hh, He; rewrite len_app in He; pose proof (len_nonneg (sers l));
    pose proof (holds_app _ _ _ _ Hh) as [Ha Hl];
    rewrite (child_at_ser _ _ _ _ Ha Hwa) by lia; cbn [and_then kind_of].
  - destruct (leaf_plain _ _ Hwa) as (N1 & N2 & N3). rewrite !bool_decide_eq_false_2 by done.
    cbn [and_then]. apply IH; [done|done|lia|lia].
  - destruct (node_plain _ _ _ _ Hwa) as (N1 & N2 & N3). destruct (wf_node _ _ _ _ Hwa) as (_ & Hpost & Hkids).
    rewrite !(bool_decide_eq_false_2 (kind = _)) by done.
    change (all_tables (Node kind pre kids post :: l) pos) with
      (tables (Node kind pre kids post) pos ++ all_tables l (pos + len (ser (Node kind pre kids post)))).
    cbn [tables]. case_bool_decide as Hk.
    + rewrite (N3 Hk) in *. destruct (wf_size _ Hwa) as [_ Hk4]. cbn [kind_of] in Hk4.
      set (content := [] ++ concat (map ser kids) ++ post).
      assert (Hlen : len (ser (Node kind [] kids post)) = 8 + len (sers kids) + len post).
      { cbn [ser]. fold content. rewrite len_boxed by done. unfold content. cbn [app]. rewrite len_app.
        unfold sers. lia. }
      assert (Hin : holds buf (pos + 8) (sers kids)).
      { cbn [ser] in Ha. fold content in Ha. unfold boxed in Ha. apply holds_app in Ha as [_ [_ Hc]%holds_app].
        rewrite len_to_be in Hc. replace (pos + Z.of_nat 4 + len kind) with (pos + 8) in Hc by (unfold len; lia).
        unfold content in Hc. cbn [app] in Hc. by apply holds_app in Hc as [Hc _]. }
      pose proof (len_nonneg post). pose proof (len_nonneg (sers kids)).
      rewrite (IHk fuel buf (pos + 8)) by (first [done|lia]). cbn [and_then].
      rewrite (IH fuel buf) by (first [done|lia]). by rewrite <-(assoc_L (++)).
    + cbn [and_then]. apply IH; [done|done|lia|lia].
  - assert (Hstep : ∀ b, b = wide → all_tables (Table wide head entries tail :: l) pos
      = [(pos, pos + len (ser (Table wide head entries tail)), b)]
        ++ all_tables l (pos + len (ser (Table wide head entries tail)))) by (by intros b ->).
    destruct wide; cbn [table_kind].
    + rewrite bool_decide_eq_false_2, bool_decide_eq_true_2 by done. cbn [and_then].
      rewrite IH by (first [done|lia]). rewrite (Hstep true) by done. by rewrite <-(assoc_L (++)).
    + rewrite bool_decide_eq_true_2 by done. cbn [and_then].
      rewrite IH by (first [done|lia]). rewrite (Hstep false) by done. by rewrite <-(assoc_L (++)).
Qed.

Lemma rows_cons wide e es : rows wide (e :: es) = to_be (stride wide) e ++ rows wide es.
Proof. done. Qed.
Lemma len_rows wide es : len (rows wide es) = Z.of_nat (stride wide) * Z.of_nat (length es).
Proof. induction es as [|e es IH]; [cbn [length]; change (len (rows wide [])) with 0; lia|]. rewrite rows_cons, len_app, len_to_be, IH. cbn [length]. lia. Qed.

Lemma read_entry wide buf pos e : 0 ≤ e < 256 ^ Z.of_nat (stride wide) →
  holds buf pos (to_be (stride wide) e) → (if wide then be64_at buf pos else be32_at buf pos) = Done e.
Proof.
  intros He Hh. destruct wide; cbn [stride] in *.
  - rewrite (holds_be64 _ _ _ Hh). f_equal. by apply Z.mod_small.
  - rewrite (holds_be32 _ _ _ Hh). f_equal. by apply Z.mod_small.
Qed.

(** The answer of a shift whose entries are mapped by [o]: the buffer [done] makes of the result. *)
Definition shifted {A} (o : option A) (done : A → outcome bytes) (r : outcome bytes) : Prop :=
  match o with Some a => r = done a | None => ∃ s, r = Err (Container s) end.

Lemma store_mid A old C new : len new = len old →
  store_at (A ++ old ++ C) (len A) new = Done (A ++ new ++ C).
Proof.
  intros E. rewrite store_total, overwrite_mid; [done|done|apply len_nonneg|].
  rewrite !len_app. pose proof (len_nonneg C). lia.
Qed.

Lemma shift_entries_rows wide above delta es : ∀ fuel A tail C,
  (∀ e, e ∈ es → 0 ≤ e < 256 ^ Z.of_nat (stride wide)) → len tail < Z.of_nat (stride wide) →
  Z.of_nat (length es) < Z.of_nat fuel →
  shifted (mapM (shift_entry above delta wide) es) (λ es', Done (A ++ rows wide es' ++ tail ++ C))
    (shift_entries fuel (A ++ rows wide es ++ tail ++ C) (len A) (len A + len (rows wide es) + len tail)
       wide above delta).
Proof.
  induction es as [|e es IH]; intros fuel A tail C Hes Ht Hf; (destruct fuel as [|fuel]; [cbn in Hf; lia|]);
    cbn [shift_entries].
  all: assert (Estr : (if wide then 8 else 4) = Z.of_nat (stride wide)) by (by destruct wide); rewrite Estr.
  { rewrite (proj2 (Z.ltb_lt _ _)); [done|]. change (len (rows wide [])) with 0. lia. }
  pose proof (len_nonneg tail). pose proof (len_nonneg (rows wide es)).
  rewrite rows_cons, <-!(assoc_L (++)). rewrite len_app, len_to_be.
  rewrite (proj2 (Z.ltb_ge _ _)) by lia.
  rewrite (read_entry _ _ _ e); [|apply Hes; left|by eexists _, _].
  cbn [and_then]. change (mapM (shift_entry above delta wide) (e :: es)) with
    (v ← shift_entry above delta wide e; l ← mapM (shift_entry above delta wide) es; Some (v :: l)).
  rewrite (eq_refl : shift_entry above delta wide e
    = if e <=? above then Some e else new ← moved_offset e delta; if wide then Some new else u32_of new).
  assert (Hnext : ∀ v, shifted (v ← Some v; l ← mapM (shift_entry above delta wide) es; Some (v :: l))
    (λ es', Done (A ++ rows wide es' ++ tail ++ C))
    (shift_entries fuel (A ++ to_be (stride wide) v ++ rows wide es ++ tail ++ C) (len A + Z.of_nat (stride wide))
       (len A + (Z.of_nat (stride wide) + len (rows wide es)) + len tail) wide above delta)).
  { intros v. specialize (IH fuel (A ++ to_be (stride wide) v) tail C).
    rewrite len_app, len_to_be, <-(assoc_L (++)) in IH.
    replace (len A + (Z.of_nat (stride wide) + len (rows wide es)) + len tail)
      with (len A + Z.of_nat (stride wide) + len (rows wide es) + len tail) by lia.
    cbn [length] in Hf. specialize (IH (λ e H, Hes e (list_elem_of_further _ _ _ H)) Ht ltac:(lia)).
    cbn [mbind option_bind]. destruct (mapM _ es) as [es'|]; cbn [shifted option_bind] in *; [|done]. rewrite IH.
    change (Done ((A ++ to_be (stride wide) v) ++ rows wide es' ++ tail ++ C)
            = Done (A ++ rows wide (v :: es') ++ tail ++ C)). by rewrite rows_cons, <-!(assoc_L (++)). }
  destruct (e <=? above); [apply Hnext|].
  destruct (moved_offset e delta) as [new|]; cbn [ok_or and_then]; [|cbn; eauto].
  destruct wide; cbn [stride mbind option_bind] in *.
  - rewrite (store_mid A (be64 e)) by (by rewrite !len_to_be). apply Hnext.
  - destruct (u32_of new) as [n|] eqn:En; cbn [ok_or and_then]; [|cbn; eauto].
    assert (n = new) as -> by (unfold u32_of in En; destruct (_ <=? _); congruence).
    rewrite (store_mid A (be32 e)) by (by rewrite !len_to_be). apply Hnext.
Qed.

Lemma mapM_length {A B} (f : A → option B) l k : mapM f l = Some k → length k = length l.
Proof. intros H%mapM_Some. symmetry. by eapply Forall2_length. Qed.

(** Mapping offsets keeps the layout. *)
Lemma map_offsets_len f l : ∀ l', map_all_offsets f l = Some l' → len (sers l') = len (sers l).
Proof.
  induction l as [|kind body l IH|kind pre kids post l IHk IH|wide head entries tail l IH] using forest_ind;
    intros l' E; [by injection E as <-|..]; unfold map_all_offsets in E; cbn [foldr map_offsets] in E;
    fold (map_all_offsets f l) in E.
  - cbn in E. apply bind_Some in E as (m & Em & [= <-]). rewrite !sers_cons, !len_app. by rewrite (IH m).
  - fold (map_all_offsets f kids) in E. case_bool_decide.
    + destruct (map_all_offsets f kids) as [kids'|] eqn:Ek; [|done]. cbn in E.
      apply bind_Some in E as (m & Em & [= <-]). rewrite !sers_cons, !len_app, (IH m Em). f_equal.
      cbn [ser]. unfold boxed. fold (sers kids) (sers kids'). rewrite !len_app, (IHk kids' eq_refl), !len_to_be. done.
    + cbn in E. apply bind_Some in E as (m & Em & [= <-]). rewrite !sers_cons, !len_app. by rewrite (IH m).
  - destruct (mapM (f wide) entries) as [es|] eqn:Ee; [|done]. cbn in E.
    apply bind_Some in E as (m & Em & [= <-]). rewrite !sers_cons, !len_app, (IH m Em). f_equal.
    cbn [ser]. unfold boxed. rewrite !len_app, !len_rows, (mapM_length _ _ _ Ee), !len_to_be. done.
Qed.

Lemma shift_boxes_app moov l k above delta :
  shift_boxes moov (l ++ k) above delta
  = let! moov := shift_boxes moov l above delta in shift_boxes moov k above delta.
Proof.
  revert moov. induction l as [|[[s e] w] l IH]; intros moov; [done|]. cbn [shift_boxes app].
  destruct (shift_entries _ _ _ _ _ _ _); cbn [and_then]; [apply IH|done..].
Qed.

Definition then_shift {A} (o : option A) (lay : A → bytes) (r : outcome bytes) : Prop :=
  shifted o (λ a, Done (lay a)) r.

Lemma then_shift_bind {A B} (o : option A) (lay : A → bytes) r (k : A → option B) lay' next :
  then_shift o lay r → (∀ a, then_shift (k a) lay' (next (lay a))) → then_shift (o ≫= k) lay' (and_then r next).
Proof. unfold then_shift, shifted. destruct o as [a|]; cbn; [intros -> Hk; apply Hk|intros [s ->] _; by exists s]. Qed.

(** Shifting the entries of one table in place. *)
Lemma shift_table above delta wide head entries tail A C : wf (Table wide head entries tail) = true →
  let T := ser (Table wide head entries tail) in
  (∀ es, mapM (shift_entry above delta wide) entries = Some es → len (ser (Table wide head es tail)) = len T)
  ∧ shifted (mapM (shift_entry above delta wide) entries) (λ es, Done (A ++ ser (Table wide head es tail) ++ C))
      (shift_entries (walk_fuel (A ++ T ++ C)) (A ++ T ++ C) (len A + 16) (len A + len T) wide above delta).
Proof.
  intros (Hhead & Htail & Hes)%wf_table T.
  set (h es := be32 (8 + len (head ++ rows wide es ++ tail)) ++ table_kind wide ++ head).
  assert (Hser : ∀ es, ser (Table wide head es tail) = h es ++ rows wide es ++ tail).
  { intros es. cbn [ser]. unfold boxed, h. by rewrite <-!(assoc_L (++)). }
  assert (Hh : ∀ es, len (h es) = 16).
  { intros es. unfold h. rewrite !len_app, len_to_be, Hhead. by destruct wide. }
  assert (Hsz : len T = 16 + len (rows wide entries) + len tail) by (unfold T; rewrite Hser, !len_app, Hh; lia).
  pose proof (shift_entries_rows wide above delta entries (walk_fuel (A ++ T ++ C)) (A ++ h entries) tail C
    Hes Htail) as E.
  rewrite len_app, Hh in E.
  replace (len A + 16 + len (rows wide entries) + len tail) with (len A + len T) in E by lia.
  assert (Hlay : ∀ es, (A ++ h es) ++ rows wide es ++ tail ++ C = A ++ ser (Table wide head es tail) ++ C).
  { intros es. by rewrite Hser, <-!(assoc_L (++)). }
  rewrite Hlay in E. fold T in E. specialize (E ltac:(rewrite len_rows in Hsz; pose proof (len_nonneg tail);
    unfold walk_fuel, len in *; rewrite !length_app; destruct wide; cbn [stride] in *; lia)).
  assert (Hhe : ∀ es, mapM (shift_entry above delta wide) entries = Some es → h entries = h es).
  { intros es Ees. unfold h. by rewrite !len_app, !len_rows, (mapM_length _ _ _ Ees). }
  split.
  - intros es Ees. rewrite Hsz, Hser, !len_app, !len_rows, !Hh, (mapM_length _ _ _ Ees). lia.
  - unfold shifted in *. destruct (mapM _ entries) as [es|]; [|done].
    by rewrite E, (Hhe es eq_refl), Hlay.
Qed.

(** Shifting the collected tables of a forest in place. *)
Lemma shift_boxes_ser above delta l : ∀ A C,
  forallb wf l = true →
  then_shift (map_all_offsets (shift_entry above delta) l) (λ l', A ++ sers l' ++ C)
    (shift_boxes (A ++ sers l ++ C) (all_tables l (len A)) above delta).
Proof.
  induction l as [|kind body l IH|kind pre kids post l IHk IH|wide head entries tail l IH] using forest_ind;
    intros A C Hw; [done|..]; apply forallb_cons in Hw as [Hwa Hw]; destruct (wf_size _ Hwa) as [Hs Hk4];
    cbn [kind_of] in Hk4.
  all: assert (Hcons : ∀ a a', len (ser a') = len (ser a) →
    then_shift (l' ← map_all_offsets (shift_entry above delta) l; Some (a' :: l')) (λ l', A ++ sers l' ++ C)
      (shift_boxes (A ++ ser a' ++ sers l ++ C) (all_tables l (len A + len (ser a))) above delta)).
  1,3,5: intros a a' Hl; specialize (IH (A ++ ser a') C Hw); rewrite len_app, Hl, <-(assoc_L (++)) in IH;
    unfold then_shift, shifted in *; destruct (map_all_offsets _ l) as [l'|]; [|exact IH];
    change (shift_boxes (A ++ ser a' ++ sers l ++ C) (all_tables l (len A + len (ser a))) above delta
            = Done (A ++ sers (a' :: l') ++ C)); rewrite IH; by rewrite sers_cons, <-!(assoc_L (++)).
  all: rewrite sers_cons, <-(assoc_L (++)); unfold map_all_offsets; cbn [foldr];
    fold (map_all_offsets (shift_entry above delta) l).
  - apply Hcons; done.
  - change (all_tables (Node kind pre kids post :: l) (len A)) with
      (tables (Node kind pre kids post) (len A) ++ all_tables l (len A + len (ser (Node kind pre kids post)))).
    destruct (node_plain _ _ _ _ Hwa) as (_ & _ & N3). destruct (wf_node _ _ _ _ Hwa) as (_ & _ & Hkids).
    cbn [tables map_offsets]. fold (map_all_offsets (shift_entry above delta) kids). case_bool_decide as Hk.
    + rewrite (N3 Hk) in *. rewrite shift_boxes_app.
      change (foldr (λ k rest pos, tables k pos ++ rest (pos + len (ser k))) (λ _, []) kids (len A + 8))
        with (all_tables kids (len A + 8)).
      set (h := be32 (8 + len (sers kids ++ post)) ++ kind). change (concat (map ser kids)) with (sers kids).
      assert (Hser : ∀ ks, len (sers ks) = len (sers kids) → ser (Node kind [] ks post) = h ++ sers ks ++ post).
      { intros ks El. cbn [ser]. unfold boxed, h. cbn [app]. fold (sers ks). rewrite !len_app, El, (assoc_L (++)). done. }
      specialize (IHk (A ++ h) (post ++ sers l ++ C) Hkids).
      assert (Hh : len (A ++ h) = len A + 8).
      { unfold h. rewrite !len_app, len_to_be. assert (len kind = 4) by (unfold len; lia). lia. }
      rewrite Hh in IHk. rewrite (Hser kids) at 1 by done. rewrite <-!(assoc_L (++)) in *.
      destruct (map_all_offsets (shift_entry above delta) kids) as [ks|] eqn:Eks; cbn [mbind option_bind] in *.
      * unfold then_shift, shifted in IHk. rewrite IHk. cbn [and_then]. pose proof (map_offsets_len _ _ _ Eks) as El.
        replace ((A ++ h) ++ sers ks ++ post ++ sers l ++ C) with (A ++ ser (Node kind [] ks post) ++ sers l ++ C)
          by (by rewrite (Hser ks El), <-!(assoc_L (++))). apply Hcons.
        rewrite (Hser ks El), (Hser kids eq_refl), !len_app. lia.
      * destruct IHk as [s ->]. by exists s.
    + apply Hcons; done.
  - change (all_tables (Table wide head entries tail :: l) (len A)) with
      ((len A, len A + len (ser (Table wide head entries tail)), wide)
         :: all_tables l (len A + len (ser (Table wide head entries tail)))).
    cbn [shift_boxes map_offsets].
    destruct (shift_table above delta wide head entries tail A (sers l ++ C) Hwa) as [Hlen E].
    unfold shifted in E. destruct (mapM (shift_entry above delta wide) entries) as [es|].
    + rewrite E. cbn [and_then]. by apply Hcons, Hlen.
    + destruct E as [s ->]. by exists s.
Qed.
