(* ===== verification/Mp4Splice.v ===== *)
(** * Splicing is substitution in the tree

    [splice_replace] on a buffer: a stretch of siblings replaced, and the size of every box around
    them corrected.  A position in the tree is a path of frames, each the box that is entered with
    what lies before and behind it; the result is the buffer laid out with the replacement in place. *)

From stdpp Require Import base option list sets numbers strings pretty.
From Stdlib Require Import ZArith Lia.
From S2P Require Import Prelude Mp4Bytes Mp4Edit Mp4Walk Mp4Tree.

Local Open Scope Z_scope.

Record frame : Type := mk_frame {
  fr_left : list atom;
  fr_kind : bytes;
  fr_pre : bytes;
  fr_right : bytes;
}.

Fixpoint plug (p : list frame) (x : bytes) : bytes :=
  match p with
  | [] => x
  | f :: p => sers (fr_left f) ++ boxed (fr_kind f) (fr_pre f ++ plug p x) ++ fr_right f
  end.

Definition frame_ok (f : frame) : bool :=
  forallb wf (fr_left f) && (length (fr_kind f) =? 4)%nat
  && bool_decide (children_start (fr_kind f) 0 = Some (8 + len (fr_pre f))).

Fixpoint fits (p : list frame) (x : bytes) : bool :=
  match p with [] => true | f :: p => (8 + len (fr_pre f ++ plug p x) <? 2 ^ 32) && fits p x end.

(** Where the hole of a path is. *)
Fixpoint hole (p : list frame) : Z :=
  match p with [] => 0 | f :: p => len (sers (fr_left f)) + 8 + len (fr_pre f) + hole p end.

Fixpoint around (p : list frame) (base : Z) (x : bytes) : list (Z * Z) :=
  match p with
  | [] => []
  | f :: p =>
      let c := base + len (sers (fr_left f)) in
      (c, 8 + len (fr_pre f ++ plug p x)) :: around p (c + 8 + len (fr_pre f)) x
  end.

Lemma frame_ok_spec f : frame_ok f = true →
  forallb wf (fr_left f) = true ∧ length (fr_kind f) = 4%nat
  ∧ children_start (fr_kind f) 0 = Some (8 + len (fr_pre f)).
Proof. intros [[H1 H2%Nat.eqb_eq]%andb_prop H3%bool_decide_eq_true]%andb_prop. done. Qed.

Lemma children_start_shift kind pos c : children_start kind 0 = Some c → children_start kind pos = Some (pos + c).
Proof. unfold children_start. repeat case_bool_decide; intros [= <-]; f_equal; lia. Qed.

(** ** Finding the boxes around a position *)

Lemma enclosing_past fuel buf at_ pos end_ :
  0 ≤ pos → at_ ≤ pos → end_ ≤ len buf → Z.max 0 (end_ - pos) < Z.of_nat fuel →
  enclosing fuel buf at_ pos end_ = Done None.
Proof.
  revert pos. induction fuel as [|fuel IH]; intros pos Hp Hat He Hf; [lia|]. cbn [enclosing].
  walk_step buf pos end_; [done|]. rewrite (proj2 (Z.ltb_ge pos at_)) by lia. cbn [andb]. apply IH; lia.
Qed.

(** Siblings that end before the position are passed over. *)
Lemma enclosing_skip l buf at_ end_ : ∀ fuel pos,
  forallb wf l = true → holds buf pos (sers l) → pos + len (sers l) ≤ at_ → pos + len (sers l) ≤ end_ →
  Z.max 0 (end_ - pos) < Z.of_nat fuel →
  ∃ fuel', Z.max 0 (end_ - (pos + len (sers l))) < Z.of_nat fuel'
    ∧ enclosing fuel buf at_ pos end_ = enclosing fuel' buf at_ (pos + len (sers l)) end_.
Proof.
  induction l as [|a l IH]; intros fuel pos Hw Hh Hat He Hf.
  { exists fuel. change (len (sers [])) with 0. rewrite Z.add_0_r. done. }
  destruct fuel as [|fuel]; [lia|]. apply forallb_cons in Hw as [Hwa Hw]. destruct (wf_size _ Hwa) as [Hs _].
  rewrite sers_cons in *. rewrite len_app in *. pose proof (len_nonneg (sers l)).
  pose proof (holds_app _ _ _ _ Hh) as [Ha Hl]. cbn [enclosing].
  rewrite (child_at_ser _ _ _ _ Ha Hwa) by lia. cbn [and_then].
  rewrite (proj2 (Z.ltb_ge at_ _)) by lia. rewrite andb_false_r.
  destruct (IH fuel (pos + len (ser a))) as (fuel' & Hf' & E); [done|done|lia|lia|lia|].
  exists fuel'. rewrite Z.add_assoc. split; [lia|done].
Qed.

Lemma hole_nonneg p : 0 ≤ hole p.
Proof. induction p as [|f p IH]; cbn [hole]; [done|]. pose proof (len_nonneg (sers (fr_left f))). pose proof (len_nonneg (fr_pre f)). lia. Qed.

Lemma hole_inside p y : forallb frame_ok p = true → hole p + len y ≤ len (plug p y).
Proof.
  induction p as [|f p IH]; intros Hp; cbn [hole plug]; [lia|].
  apply forallb_cons in Hp as [(_ & Hk & _)%frame_ok_spec Hp]. rewrite !len_app, len_boxed, len_app by done.
  specialize (IH Hp). pose proof (len_nonneg (fr_right f)). lia.
Qed.

Lemma ancestors_plug p : ∀ fuel buf base end_ left x right out,
  forallb frame_ok p = true → forallb wf left = true → fits p (sers left ++ x ++ right) = true →
  holds buf base (plug p (sers left ++ x ++ right)) → base + len (plug p (sers left ++ x ++ right)) ≤ end_ →
  end_ ≤ len buf → (p ≠ [] → 0 < len x + len right) → Z.max 0 (end_ - base) < Z.of_nat fuel →
  ancestors_from fuel buf (base + hole p + len (sers left)) base end_ out
  = Done (out ++ around p base (sers left ++ x ++ right)).
Proof.
  induction p as [|f p IH]; intros fuel buf base end_ left x right out Hp Hw Hfit Hh He Hbuf Hne Hf;
    (destruct fuel as [|fuel]; [lia|]); cbn [ancestors_from plug hole] in *;
    set (y := sers left ++ x ++ right) in *; pose proof (holds_bounds _ _ _ Hh) as [Hb0 Hb1].
  - cbn [around]. rewrite app_nil_r. unfold y in Hh, He. rewrite len_app in He.
    pose proof (holds_app _ _ _ _ Hh) as [Hl _]. pose proof (len_nonneg (x ++ right)).
    destruct (enclosing_skip left buf (base + 0 + len (sers left)) end_ (walk_fuel buf) base) as (fuel' & Hf' & ->);
      [done|done|lia|lia|unfold walk_fuel, len in *; lia|].
    pose proof (len_nonneg (sers left)). by rewrite enclosing_past by lia.
  - apply forallb_cons in Hp as [(Hfl & Hk & Hcs)%frame_ok_spec Hp]. cbn [fits] in Hfit.
    apply andb_prop in Hfit as [Hsz%Z.ltb_lt Hfit].
    set (content := fr_pre f ++ plug p y) in *. rewrite !len_app in He. rewrite len_boxed in He by done.
    pose proof (len_nonneg (fr_right f)). pose proof (len_nonneg (sers (fr_left f))). pose proof (len_nonneg (sers left)).
    pose proof (holds_app _ _ _ _ Hh) as [Hl [Hbox _]%holds_app].
    assert (Hlen : len content = len (fr_pre f) + len (plug p y)) by (apply len_app).
    assert (Hin : holds buf (base + len (sers (fr_left f)) + 8 + len (fr_pre f)) (plug p y)).
    { unfold boxed in Hbox. apply holds_app in Hbox as [_ [_ Hc]%holds_app]. apply holds_app in Hc as [_ Hc].
      rewrite len_to_be in Hc. assert (len (fr_kind f) = 4) as Ek by (unfold len; lia). rewrite Ek in Hc.
      by replace (base + len (sers (fr_left f)) + Z.of_nat 4 + 4) with (base + len (sers (fr_left f)) + 8) in Hc by lia. }
    assert (Hdeep : hole p + len (sers left) < len (plug p y)).
    { pose proof (hole_inside p y Hp) as Hi. unfold y in Hi at 1. rewrite !len_app in Hi. specialize (Hne ltac:(done)). lia. }
    pose proof (hole_nonneg p). pose proof (len_nonneg (fr_pre f)).
    set (c := base + len (sers (fr_left f))) in *. replace (base + (len (sers (fr_left f)) + 8 + len (fr_pre f) + hole p))
      with (c + 8 + len (fr_pre f) + hole p) by lia.
    destruct (enclosing_skip (fr_left f) buf (c + 8 + len (fr_pre f) + hole p + len (sers left)) end_ (walk_fuel buf) base)
      as (fuel' & Hf' & ->); [done|done|lia|lia|unfold walk_fuel, len in *; lia|]. fold c. destruct fuel' as [|fuel']; [lia|].
    cbn [enclosing]. rewrite (child_at_boxed _ _ _ _ _ Hbox Hk) by lia. cbn [and_then].
    rewrite (proj2 (Z.ltb_lt c _)), (proj2 (Z.ltb_lt _ (c + _))) by lia. cbn [andb].
    rewrite (children_start_shift _ c _ Hcs). cbn [fmap option_fmap option_map and_then].
    replace (c + (8 + len (fr_pre f))) with (c + 8 + len (fr_pre f)) by lia.
    rewrite (IH fuel buf (c + 8 + len (fr_pre f)) (c + (8 + len content)) left x right); [|done|done|done|done|fold y; lia|lia|auto|lia].
    cbn [around]. fold y c content. by rewrite <-(assoc_L (++)).
Qed.

(** ** Correcting the sizes *)

(** The buffer with the replacement in place and the old sizes. *)
Fixpoint stale (p : list frame) (old new : bytes) : bytes :=
  match p with
  | [] => new
  | f :: p =>
      sers (fr_left f) ++ (be32 (8 + len (fr_pre f ++ plug p old)) ++ fr_kind f ++ fr_pre f ++ stale p old new)
      ++ fr_right f
  end.

Lemma len_plug p old new : forallb frame_ok p = true → len (plug p new) = len (plug p old) + (len new - len old).
Proof.
  induction p as [|f p IH]; intros Hp; cbn [plug]; [lia|].
  apply forallb_cons in Hp as [(_ & Hk & _)%frame_ok_spec Hp]. rewrite !len_app, !len_boxed, !len_app by done.
  specialize (IH Hp). lia.
Qed.

Lemma patch_sizes p old new : ∀ A C,
  forallb frame_ok p = true →
  fold_left (resize_ancestor (len new - len old)) (around p (len A) old) (A ++ stale p old new ++ C)
  = A ++ plug p new ++ C.
Proof.
  induction p as [|f p IH]; intros A C Hp; cbn [around stale plug fold_left]; [done|].
  apply forallb_cons in Hp as [(_ & Hk & _)%frame_ok_spec Hp]. assert (Hk4 : len (fr_kind f) = 4) by (unfold len; lia).
  set (A' := A ++ sers (fr_left f)). set (sz := 8 + len (fr_pre f ++ plug p old)).
  assert (Hc : len A + len (sers (fr_left f)) = len A') by (unfold A'; by rewrite len_app). rewrite Hc.
  set (rest := fr_kind f ++ fr_pre f ++ stale p old new ++ fr_right f ++ C).
  replace (A ++ (sers (fr_left f) ++ (be32 sz ++ fr_kind f ++ fr_pre f ++ stale p old new) ++ fr_right f) ++ C)
    with (A' ++ be32 sz ++ rest) by (unfold A', rest; by rewrite <-!(assoc_L (++))).
  unfold resize_ancestor at 2. rewrite (proj2 (Z.leb_le _ _)).
  2:{ rewrite !len_app, len_to_be. pose proof (len_nonneg rest). lia. }
  rewrite overwrite_mid by (by rewrite !len_to_be).
  set (h := be32 (sz + (len new - len old)) ++ fr_kind f ++ fr_pre f).
  replace (A' ++ be32 (sz + (len new - len old)) ++ rest) with ((A' ++ h) ++ stale p old new ++ fr_right f ++ C)
    by (unfold h, rest; by rewrite <-!(assoc_L (++))).
  replace (len A' + 8 + len (fr_pre f)) with (len (A' ++ h)).
  2:{ unfold h. rewrite !len_app, len_to_be. lia. }
  rewrite IH by done. unfold h, A', boxed, sz. rewrite <-!(assoc_L (++)). do 3 f_equal.
  rewrite !len_app, (len_plug p old new Hp). f_equal. lia.
Qed.

Lemma stale_same p old new : forallb frame_ok p = true → len new = len old → stale p old new = plug p new.
Proof.
  induction p as [|f p IH]; intros Hp E; cbn [stale plug]; [done|].
  apply forallb_cons in Hp as [_ Hp]. rewrite IH by done. unfold boxed.
  rewrite !len_app, (len_plug p old new Hp), E. rewrite <-!(assoc_L (++)). do 2 f_equal. f_equal. lia.
Qed.

Lemma stale_parts p L R old new : forallb frame_ok p = true →
  ∃ a c, plug p (L ++ old ++ R) = a ++ old ++ c ∧ stale p (L ++ old ++ R) (L ++ new ++ R) = a ++ new ++ c
    ∧ len a = hole p + len L.
Proof.
  intros Hp. induction p as [|f p IH]; cbn [plug stale hole]; [by exists L, R|].
  apply forallb_cons in Hp as [(_ & Hk & _)%frame_ok_spec Hp]. assert (Hk4 : len (fr_kind f) = 4) by (unfold len; lia).
  destruct (IH Hp) as (a & c & E1 & E2 & E3). set (n := be32 (8 + len (fr_pre f ++ plug p (L ++ old ++ R)))).
  exists (sers (fr_left f) ++ n ++ fr_kind f ++ fr_pre f ++ a), (c ++ fr_right f).
  unfold boxed. fold n. rewrite E1, E2. split_and!.
  - by rewrite <-!(assoc_L (++)).
  - by rewrite <-!(assoc_L (++)).
  - rewrite !len_app, E3. unfold n. rewrite len_to_be. lia.
Qed.

(** The splice, frame by frame. *)
Lemma splice_plug p left old right new :
  forallb frame_ok p = true → forallb wf left = true → fits p (sers left ++ old ++ right) = true →
  0 < len old + len right →
  let start := hole p + len (sers left) in
  splice_replace (plug p (sers left ++ old ++ right)) start (start + len old) new
  = Done (plug p (sers left ++ new ++ right)).
Proof.
  intros Hp Hw Hfit Hne start. set (buf := plug p (sers left ++ old ++ right)).
  destruct (stale_parts p (sers left) right old new Hp) as (a & c & E1 & E2 & E3). fold buf start in E1, E3.
  pose proof (len_nonneg a). pose proof (len_nonneg old). pose proof (len_nonneg c).
  assert (Hlen : len buf = start + len old + len c) by (rewrite E1, !len_app; lia).
  unfold splice_replace. rewrite (proj2 (Z.ltb_ge _ start)), (proj2 (Z.ltb_ge (len buf) _)) by lia. cbn [orb].
  replace (start + len old - start) with (len old) by lia.
  assert (Hd : len new - len old = len (sers left ++ new ++ right) - len (sers left ++ old ++ right)) by (rewrite !len_app; lia).
  assert (Hhead : index buf 0 start = Done a).
  { apply holds_index; [|lia]. exists [], (old ++ c). done. }
  assert (Htail : index buf (start + len old) (len buf) = Done c).
  { apply holds_index; [|lia]. exists (a ++ old), []. rewrite app_nil_r, len_app, E3. by rewrite E1, <-(assoc_L (++)). }
  destruct (Z.eqb_spec (len new - len old) 0) as [Hz|Hnz]; cbn [and_then].
  - rewrite Hhead, Htail. cbn [and_then fold_left]. rewrite <-E2. f_equal.
    apply stale_same; [done|lia].
  - unfold ancestor_size_offsets. pose proof (ancestors_plug p (walk_fuel buf) buf 0 (len buf) left old right []) as Ha.
    rewrite !Z.add_0_l in Ha. cbn [app] in Ha. fold start in Ha. rewrite Ha; [|done|done|done|apply holds_whole|apply Z.le_refl|apply Z.le_refl|done|unfold walk_fuel, len; lia].
    cbn [and_then]. rewrite Hhead, Htail. cbn [and_then]. rewrite <-E2, Hd. f_equal.
    pose proof (patch_sizes p (sers left ++ old ++ right) (sers left ++ new ++ right) [] [] Hp) as Hpatch.
    cbn [app] in Hpatch. by rewrite !app_nil_r in Hpatch.
Qed.

(** C19: Replacing a stretch of siblings anywhere in a tree of boxes gives the layout of the
    tree with the replacement in that place: the bytes around it stay, and each enclosing box
    has its new size. A size that outgrows its 32 bits wraps. *)
Theorem splice_is_substitution p left old right new :
  forallb frame_ok p = true → forallb wf left = true → fits p (sers left ++ old ++ right) = true →
  0 < len old + len right →
  let start := hole p + len (sers left) in
  splice_replace (plug p (sers left ++ old ++ right)) start (start + len old) new
  = Done (plug p (sers left ++ new ++ right)).
Proof. exact (splice_plug p left old right new). Qed.
