(* ===== verification/Mp4Search.v ===== *)
(** * Finding a box in a tree

    [find_box_range] keeps the containers it has yet to enter on a stack and takes the one it pushed
    last.  In a laid-out tree it answers with an occurrence of the type it was asked for, with the
    occurrence when there is one only, and with nothing when there is none; among several it prefers
    the last container. *)

From stdpp Require Import base option list sets numbers strings pretty.
From Stdlib Require Import ZArith Lia.
From S2P Require Import Prelude Mp4Bytes Mp4Edit Mp4Walk Mp4Tree.

Local Open Scope Z_scope.

Definition entered (kind : bytes) : bool := bool_decide (kind ∈ CONTAINERS) || bool_decide (kind = lit "meta").

(** The boxes of a type that the search can meet when the tree is laid out at [pos]. *)
Fixpoint occurs (k : bytes) (a : atom) (pos : Z) : list (Z * atom) :=
  if bool_decide (kind_of a = k) then [(pos, a)] else
  match a with
  | Node kind pre kids _ =>
      if entered kind
      then foldr (λ c rest pos, occurs k c pos ++ rest (pos + len (ser c))) (λ _, []) kids (pos + 8 + len pre)
      else []
  | _ => []
  end.
Definition all_occurs (k : bytes) (l : list atom) (pos : Z) : list (Z * atom) :=
  foldr (λ c rest pos, occurs k c pos ++ rest (pos + len (ser c))) (λ _, []) l pos.

Lemma all_occurs_cons k a l pos : all_occurs k (a :: l) pos = occurs k a pos ++ all_occurs k l (pos + len (ser a)).
Proof. done. Qed.

(** The ranges a level pushes, in order. *)
Fixpoint pushes (l : list atom) (pos : Z) : list (Z * list atom * Z) :=
  match l with
  | [] => []
  | a :: l =>
      let rest := pushes l (pos + len (ser a)) in
      match a with
      | Node kind pre kids _ =>
          if entered kind then (pos + 8 + len pre, kids, pos + len (ser a)) :: rest else rest
      | _ => rest
      end
  end.

(** A range on the stack and the forest laid out in it. *)
Record region (buf : bytes) (r : Z * list atom * Z) : Prop := {
  rg_wf : forallb wf r.1.2 = true;
  rg_holds : holds buf r.1.1 (sers r.1.2);
  rg_end : r.1.1 + len (sers r.1.2) ≤ r.2 < r.1.1 + len (sers r.1.2) + 8;
  rg_buf : r.2 ≤ len buf;
}.
Definition range (r : Z * list atom * Z) : Z * Z := (r.1.1, r.2).

Lemma node_inside buf pos kind pre kids post :
  wf (Node kind pre kids post) = true → holds buf pos (ser (Node kind pre kids post)) →
  region buf (pos + 8 + len pre, kids, pos + len (ser (Node kind pre kids post))).
Proof.
  intros Hw Hh. destruct (wf_size _ Hw) as [_ Hk]. cbn [kind_of] in Hk. destruct (wf_node _ _ _ _ Hw) as (_ & Hpost & Hkids).
  assert (Hk4 : len kind = 4) by (unfold len; lia). pose proof (len_nonneg post).
  pose proof (holds_bounds _ _ _ Hh). cbn [ser] in *. fold (sers kids) in *. rewrite len_boxed, !len_app in * by done.
  split; cbn [fst snd]; [done| |lia|lia].
  unfold boxed in Hh. apply holds_app in Hh as [_ [_ [_ [Hh _]%holds_app]%holds_app]%holds_app].
  rewrite len_to_be, Hk4 in Hh. by replace (pos + Z.of_nat 4 + 4) with (pos + 8) in Hh by lia.
Qed.

Lemma container_start kind pos : kind ∈ CONTAINERS → children_start kind pos = Some (pos + 8).
Proof.
  unfold CONTAINERS, children_start. intros H.
  rewrite bool_decide_eq_true_2; [done|]. cbn [map] in *. set_solver.
Qed.

(** Where the search expects the children of a container is where they are. *)
Lemma entered_start kind pre kids post : wf (Node kind pre kids post) = true → entered kind = true →
  if bool_decide (kind ∈ CONTAINERS) then len pre = 0 else kind = lit "meta" ∧ len pre = 4.
Proof.
  intros (Hc & _ & _)%wf_node He. unfold entered in He. case_bool_decide as HC.
  - rewrite (container_start _ _ HC) in Hc. injection Hc. lia.
  - cbn [orb] in He. apply bool_decide_eq_true in He as ->. split; [done|].
    assert (Hm : children_start (lit "meta") 0 = Some 12) by done. rewrite Hm in Hc. injection Hc. lia.
Qed.

(** One level: the first box of the type, or the containers pushed on the stack. *)
Lemma scan_range_ser k l : ∀ fuel buf pos end_ stack,
  region buf (pos, l, end_) → Z.max 0 (end_ - pos) < Z.of_nat fuel →
  (∃ p a, (p, a) ∈ all_occurs k l pos ∧ a ∈ l ∧ kind_of a = k
     ∧ scan_range fuel buf k pos end_ stack = Done (inl (p, p + len (ser a))))
  ∨ Forall (λ a, kind_of a ≠ k) l
    ∧ scan_range fuel buf k pos end_ stack = Done (inr (map range (rev (pushes l pos)) ++ stack)).
Proof.
  induction l as [|a l IH]; intros fuel buf pos end_ stack [Hw Hh He Hb] Hf; cbn [fst snd] in *;
    (destruct fuel as [|fuel]; [lia|]); cbn [scan_range].
  { right. change (len (sers [])) with 0 in He. by rewrite child_at_end by lia. }
  apply forallb_cons in Hw as [Hwa Hw]. destruct (wf_size _ Hwa) as [Hs _]. rewrite sers_cons in Hh, He.
  rewrite len_app in He. pose proof (len_nonneg (sers l)). pose proof (holds_app _ _ _ _ Hh) as [Ha Hl].
  rewrite (child_at_ser _ _ _ _ Ha Hwa) by lia. cbn [and_then]. case_bool_decide as Hk.
  { left. exists pos, a. split_and!; [|left|done|done]. rewrite all_occurs_cons. apply elem_of_app. left.
    destruct a; cbn [occurs kind_of] in *; rewrite bool_decide_eq_true_2 by done; left. }
  set (stack' := if bool_decide _ then _ else _).
  assert (Hst : map range (rev (pushes (a :: l) pos)) ++ stack
    = map range (rev (pushes l (pos + len (ser a)))) ++ stack').
  { unfold stack'. clear IH stack'. cbn [pushes]. destruct a as [kind body|kind pre kids post|wide head es tail]; cbn [kind_of].
    - assert (entered kind = false) as [E1%bool_decide_eq_false E2%bool_decide_eq_false]%orb_false_iff.
      { destruct (wf_leaf _ _ Hwa) as [Hn _]. unfold entered. rewrite !bool_decide_eq_false_2; [done|..].
        - intros ->. by vm_compute in Hn.
        - intros HC. by rewrite (container_start _ _ HC) in Hn. }
      by rewrite !bool_decide_eq_false_2.
    - pose proof (entered_start _ _ _ _ Hwa) as Hes. destruct (entered kind) eqn:Een.
      + specialize (Hes eq_refl). cbn [rev map]. rewrite map_app, <-(assoc_L (++)). cbn [map app range fst snd].
        case_bool_decide; [by rewrite Hes, Z.add_0_r|]. destruct Hes as [-> ->].
        rewrite bool_decide_eq_true_2 by done. done.
      + apply orb_false_iff in Een as [-> ->]. done.
    - destruct wide; done. }
  destruct (IH fuel buf (pos + len (ser a)) end_ stack') as [(p & b & Hin & Hbl & Hkb & E)|[Hne E]].
  - split; cbn [fst snd]; [done|done|lia|done].
  - lia.
  - left. exists p, b. split_and!; [|by right|done|done]. rewrite all_occurs_cons. apply elem_of_app. by right.
  - right. split; [by constructor|]. by rewrite E, Hst.
Qed.

Lemma pushes_regions buf l : ∀ pos, forallb wf l = true → holds buf pos (sers l) → Forall (region buf) (pushes l pos).
Proof.
  induction l as [|a l IH]; intros pos Hw Hh; cbn [pushes]; [done|]. apply forallb_cons in Hw as [Hwa Hw].
  rewrite sers_cons in Hh. apply holds_app in Hh as [Ha Hl]. specialize (IH _ Hw Hl).
  destruct a as [| |]; [done| |done]. destruct (entered kind); [|done]. constructor; [|done]. by apply node_inside.
Qed.

Definition found (k : bytes) (regs : list (Z * list atom * Z)) : list (Z * atom) :=
  concat (map (λ r, all_occurs k r.1.2 r.1.1) regs).

Lemma level_occurs k l : ∀ pos, Forall (λ a, kind_of a ≠ k) l → all_occurs k l pos = found k (pushes l pos).
Proof.
  induction l as [|a l IH]; intros pos Hl; [done|]. apply Forall_cons in Hl as [Ha Hl].
  rewrite all_occurs_cons, (IH _ Hl). cbn [pushes]. destruct a as [kind body|kind pre kids post|wide head es tail];
    cbn [occurs kind_of] in *; rewrite bool_decide_eq_false_2 by done; [done| |done].
  destruct (entered kind); [|done]. done.
Qed.

Lemma found_app k l m : found k (l ++ m) = found k l ++ found k m.
Proof. unfold found. by rewrite map_app, concat_app. Qed.

Lemma found_rev k l : found k (rev l) ≡ₚ found k l.
Proof. induction l as [|r l IH]; [done|]. cbn [rev]. rewrite found_app, IH. unfold found. cbn. rewrite app_nil_r. apply Permutation_app_comm. Qed.

Lemma scan_stack_ser k buf : ∀ fuel regs r,
  Forall (region buf) regs → scan_stack fuel buf k (map range regs) = Done r →
  match r with
  | Some (s, e) => ∃ a, (s, a) ∈ found k regs ∧ kind_of a = k ∧ e = s + len (ser a)
  | None => found k regs = []
  end.
Proof.
  induction fuel as [|fuel IH]; intros regs r Hr; [done|]. destruct regs as [|[[pos l] end_] regs]; cbn [scan_stack map].
  { by intros [= <-]. }
  apply Forall_cons in Hr as [Hreg Hr]. cbn [range fst snd].
  destruct (scan_range_ser k l (walk_fuel buf) buf pos end_ (map range regs)) as [(p & a & Hin & _ & Hka & ->)|[Hne ->]].
  - done.
  - destruct Hreg as [_ Hh _ Hb]. cbn in *. pose proof (holds_bounds _ _ _ Hh). unfold walk_fuel, len in *. lia.
  - cbn [and_then]. intros [= <-]. exists a. split_and!; [|done|done]. unfold found. cbn. apply elem_of_app. by left.
  - cbn [and_then]. rewrite <-map_app. intros E%IH.
    + assert (Hp : found k (rev (pushes l pos) ++ regs) ≡ₚ found k ((pos, l, end_) :: regs)).
      { rewrite found_app, found_rev, <-(level_occurs _ _ _ Hne). done. }
      destruct r as [[s e]|].
      * destruct E as (a & Ha & ?). exists a. by rewrite <-Hp.
      * rewrite E in Hp. by apply Permutation_nil_l in Hp.
    + apply Forall_app. split; [|done]. apply Forall_rev. destruct Hreg. by apply pushes_regions.
Qed.

Lemma find_in_tree k l : forallb wf l = true →
  ∃ r, find_box_range (sers l) k = Done r
  ∧ match r with
    | Some (s, e) => ∃ a, (s, a) ∈ all_occurs k l 0 ∧ kind_of a = k ∧ e = s + len (ser a)
    | None => all_occurs k l 0 = []
    end.
Proof.
  intros Hw. destruct (find_box_range_total (sers l) k) as (r & E & _). exists r. split; [done|].
  apply (scan_stack_ser k (sers l) _ [(0, l, len (sers l))]) in E.
  - unfold found in E. cbn [map concat fst snd] in E. by rewrite app_nil_r in E.
  - constructor; [|done]. split; cbn [fst snd]; [done|apply holds_whole|lia|lia].
Qed.

Lemma find_unique k l p a : forallb wf l = true → all_occurs k l 0 = [(p, a)] →
  find_box_range (sers l) k = Done (Some (p, p + len (ser a))).
Proof.
  intros Hw Ho. destruct (find_in_tree k l Hw) as (r & -> & Hr). rewrite Ho in Hr. destruct r as [[s e]|]; [|done].
  destruct Hr as (b & Hb%list_elem_of_singleton & _ & ->). by injection Hb as -> ->.
Qed.

(** The ranges on top of the stack are searched to the end first. *)
Lemma scan_stack_first k buf : ∀ fuel regs rest r,
  Forall (region buf) (regs ++ rest) → found k regs ≠ [] → scan_stack fuel buf k (map range (regs ++ rest)) = Done r →
  ∃ s a, (s, a) ∈ found k regs ∧ r = Some (s, s + len (ser a)).
Proof.
  induction fuel as [|fuel IH]; intros regs rest r Hr Hne; [done|].
  destruct regs as [|[[pos l] end_] regs]; [done|]. cbn [scan_stack map app] in *.
  apply Forall_cons in Hr as [Hreg Hr]. cbn [range fst snd].
  destruct (scan_range_ser k l (walk_fuel buf) buf pos end_ (map range (regs ++ rest))) as [(p & a & Hin & _ & Hka & ->)|[Hk ->]].
  - done.
  - destruct Hreg as [_ Hh _ Hb]. cbn in *. pose proof (holds_bounds _ _ _ Hh). unfold walk_fuel, len in *. lia.
  - cbn [and_then]. intros [= <-]. exists p, a. split; [|done]. unfold found. cbn. apply elem_of_app. by left.
  - assert (Hp : found k (rev (pushes l pos) ++ regs) ≡ₚ found k ((pos, l, end_) :: regs)).
    { rewrite found_app, found_rev, <-(level_occurs _ _ _ Hk). done. }
    cbn [and_then]. rewrite <-map_app, (assoc_L (++)). intros Hres%IH.
    + destruct Hres as (s & a & Ha & ->). exists s, a. by rewrite <-Hp.
    + apply Forall_app in Hr as [Hr1 Hr2]. rewrite !Forall_app. split_and!; [|done|done].
      apply Forall_rev. destruct Hreg. by apply pushes_regions.
    + intros E. rewrite E in Hp. by apply Permutation_nil_l in Hp.
Qed.

Lemma pushes_app l m : ∀ pos, pushes (l ++ m) pos = pushes l pos ++ pushes m (pos + len (sers l)).
Proof.
  induction l as [|a l IH]; intros pos; cbn [app pushes]; [by rewrite Z.add_0_r|].
  rewrite IH, sers_cons, len_app, Z.add_assoc. destruct a; [done| |done]. by destruct (entered kind).
Qed.

Lemma pushes_none l : ∀ pos, Forall (λ a, entered (kind_of a) = false) l → pushes l pos = [].
Proof.
  induction l as [|a l IH]; intros pos Hl; [done|]. apply Forall_cons in Hl as [Ha Hl]. cbn [pushes]. rewrite (IH _ Hl).
  destruct a; [done| |done]. cbn [kind_of] in Ha. by rewrite Ha.
Qed.

(** The search is documented to find the first box of a type; in a movie with several tracks it finds
    one of the last track that has any, whatever the tracks before it hold. *)
Theorem search_prefers_the_last_track k before tpre tkids tpost after pre post :
  let trak := Node (lit "trak") tpre tkids tpost in
  let kids := before ++ trak :: after in
  let movie := [Node (lit "moov") pre kids post] in
  let start := 8 + len pre + len (sers before) in
  k ≠ lit "moov" → Forall (λ a, kind_of a ≠ k) kids → Forall (λ a, entered (kind_of a) = false) after →
  forallb wf movie = true → all_occurs k tkids (start + 8 + len tpre) ≠ [] →
  ∃ s a, find_box_range (sers movie) k = Done (Some (s, s + len (ser a)))
    ∧ (s, a) ∈ all_occurs k tkids (start + 8 + len tpre).
Proof.
  intros trak kids movie start Hk Hkids Hafter Hw Hocc. set (buf := sers movie).
  destruct (find_box_range_total buf k) as (r & E & _). rewrite E.
  assert (Hreg : region buf (0, movie, len buf)) by (split; cbn [fst snd]; [done|apply holds_whole|fold buf; lia|lia]).
  assert (Hfuel : ∀ pos end_, 0 ≤ pos → end_ ≤ len buf → Z.max 0 (end_ - pos) < Z.of_nat (walk_fuel buf))
    by (intros; unfold walk_fuel, len in *; lia).
  unfold find_box_range in E. unfold walk_fuel at 1 in E. cbn [scan_stack] in E.
  destruct (scan_range_ser k movie (walk_fuel buf) buf 0 (len buf) [] Hreg) as [(p & a & _ & Ha & Hka & _)|[_ E1]];
    [by apply Hfuel|by apply list_elem_of_singleton in Ha as ->|].
  rewrite E1 in E. cbn [and_then movie pushes] in E. rewrite (eq_refl : entered (lit "moov") = true) in E.
  cbn [rev app map range fst snd] in E. rewrite Z.add_0_l in E.
  assert (Hin : region buf (8 + len pre, kids, len buf)).
  { pose proof (node_inside buf 0 (lit "moov") pre kids post) as Hn. cbn [movie forallb] in Hw. rewrite andb_true_r in Hw.
    specialize (Hn Hw). unfold buf, movie, sers in *. cbn [map concat] in *. rewrite app_nil_r in *. apply Hn, holds_whole. }
  assert (Hlen : len (ser (Node (lit "moov") pre kids post)) = len buf).
  { unfold buf, movie, sers. cbn [map concat]. by rewrite app_nil_r. }
  rewrite Hlen, ?Z.add_0_l in E.
  destruct (scan_range_ser k kids (walk_fuel buf) buf (8 + len pre) (len buf) [] Hin) as [(p & a & _ & Ha & Hka & _)|[_ E2]];
    [apply Hfuel; [pose proof (len_nonneg pre)|]; lia|by apply (proj1 (Forall_forall _ _) Hkids) in Ha|].
  rewrite E2, app_nil_r in E. cbn [and_then] in E.
  assert (Hp : pushes kids (8 + len pre)
    = pushes before (8 + len pre) ++ [(start + 8 + len tpre, tkids, start + len (ser trak))]).
  { unfold kids. rewrite pushes_app. cbn [pushes trak]. rewrite (eq_refl : entered (lit "trak") = true).
    fold start. by rewrite (pushes_none after). }
  rewrite Hp, rev_app_distr in E. cbn [rev app] in E.
  apply (scan_stack_first k buf _ [(start + 8 + len tpre, tkids, start + len (ser trak))]) in E.
  - destruct E as (s & a & Ha & ->). unfold found in Ha. cbn [map concat fst snd] in Ha. rewrite app_nil_r in Ha. by exists s, a.
  - assert (Forall (region buf) (pushes kids (8 + len pre))) as Hall by (destruct Hin; by apply pushes_regions).
    rewrite Hp in Hall. apply Forall_app in Hall as [Hb Ht]. apply Forall_app. split; [done|by apply Forall_rev].
  - unfold found. cbn [map concat fst snd]. by rewrite app_nil_r.
Qed.
