(* ===== verification/Mp4Retable.v ===== *)
(** * Rewriting the tables of a track

    The edits of [remux.rs] on a [moov] laid out from a tree with one sample table: replacing a child
    of [stbl], dropping others, and patching durations are what they are on the tree. *)

From stdpp Require Import base option list sets numbers strings pretty.
From Stdlib Require Import ZArith Lia.
From S2P Require Import Prelude Mp4Bytes Mp4Edit Mp4Read Mp4Remux Mp4Walk Mp4Tree Mp4Splice Mp4Search.

Local Open Scope Z_scope.

(** ** A path in a tree *)

Record tframe : Type := mk_tframe {
  tf_left : list atom;
  tf_kind : bytes;
  tf_pre : bytes;
  tf_right : list atom;
}.

Fixpoint tplug (p : list tframe) (ks : list atom) : list atom :=
  match p with
  | [] => ks
  | f :: p => tf_left f ++ Node (tf_kind f) (tf_pre f) (tplug p ks) [] :: tf_right f
  end.

Definition frame_of (f : tframe) : frame := mk_frame (tf_left f) (tf_kind f) (tf_pre f) (sers (tf_right f)).
Notation frames p := (map frame_of p).

Lemma sers_tplug p ks : sers (tplug p ks) = plug (frames p) (sers ks).
Proof.
  induction p as [|f p IH]; cbn [tplug plug map]; [done|].
  rewrite sers_app, sers_cons. cbn [ser frame_of fr_left fr_kind fr_pre fr_right].
  fold (sers (tplug p ks)). by rewrite IH, app_nil_r.
Qed.

Lemma tplug_wf p ks : forallb wf (tplug p ks) = true →
  forallb frame_ok (frames p) = true ∧ fits (frames p) (sers ks) = true ∧ forallb wf ks = true.
Proof.
  induction p as [|f p IH]; cbn [tplug map forallb fits]; [done|]. rewrite forallb_app. intros [Hl [Hn Hr]%forallb_cons]%andb_prop.
  pose proof (wf_size _ Hn) as [Hs Hk]. cbn [kind_of] in Hk. destruct (wf_node _ _ _ _ Hn) as (Hc & _ & Hin).
  destruct (IH Hin) as (H1 & H2 & H3). rewrite H1, H2, H3. cbn [ser] in Hs. fold (sers (tplug p ks)) in Hs.
  rewrite sers_tplug, app_nil_r, len_boxed in Hs by done.
  unfold frame_ok. cbn [frame_of fr_left fr_kind fr_pre]. rewrite Hl, Hk, bool_decide_eq_true_2 by done.
  rewrite (proj2 (Z.ltb_lt _ _)) by lia. done.
Qed.

(** ** Where nothing of a type is *)

Fixpoint absent (k : bytes) (a : atom) : bool :=
  negb (bool_decide (kind_of a = k))
  && match a with Node kind _ kids _ => negb (entered kind) || forallb (absent k) kids | _ => true end.

Lemma absent_occurs k l : ∀ pos, forallb (absent k) l = true → all_occurs k l pos = [].
Proof.
  induction l as [|kind body l IH|kind pre kids post l IHk IH|wide head entries tail l IH] using forest_ind;
    intros pos Ha; [done|..]; apply forallb_cons in Ha as [Ha Hl]; rewrite all_occurs_cons, (IH _ Hl), app_nil_r;
    cbn [absent] in Ha; apply andb_prop in Ha as [Hk%negb_true_iff%bool_decide_eq_false Ha]; cbn [occurs kind_of] in *;
    rewrite bool_decide_eq_false_2 by done; [done| |done].
  destruct (entered kind); [|done]. cbn [negb orb] in Ha. by apply IHk.
Qed.

Lemma all_occurs_app k l m : ∀ pos, all_occurs k (l ++ m) pos = all_occurs k l pos ++ all_occurs k m (pos + len (sers l)).
Proof.
  induction l as [|a l IH]; intros pos; cbn [app]; [by rewrite Z.add_0_r|].
  rewrite !all_occurs_cons, IH, sers_cons, len_app, Z.add_assoc. by rewrite (assoc_L (++)).
Qed.

(** A path to the only box of type [k]: the search enters every frame on the way, and finds the type
    nowhere beside it. *)
Definition way (k : bytes) (f : tframe) : bool :=
  negb (bool_decide (tf_kind f = k)) && entered (tf_kind f) && forallb (absent k) (tf_left f ++ tf_right f).

Lemma path_occurs k q f ks : ∀ pos,
  forallb (way k) q = true → tf_kind f = k → forallb (absent k) (tf_left f ++ tf_right f) = true →
  forallb frame_ok (frames (q ++ [f])) = true →
  all_occurs k (tplug (q ++ [f]) ks) pos
  = [(pos + hole (frames q) + len (sers (tf_left f)), Node (tf_kind f) (tf_pre f) ks [])].
Proof.
  induction q as [|g q IH]; intros pos Hq Hf Hab Hok; cbn [app tplug map hole] in *.
  - rewrite forallb_app in Hab. apply andb_prop in Hab as [Hl Hr].
    rewrite all_occurs_app, all_occurs_cons, !absent_occurs by done. cbn [occurs kind_of].
    rewrite bool_decide_eq_true_2 by done. by rewrite Z.add_0_r.
  - apply forallb_cons in Hq as [Hg Hq]. unfold way in Hg.
    apply andb_prop in Hg as [[Hk%negb_true_iff%bool_decide_eq_false He]%andb_prop Hg].
    apply forallb_cons in Hok as [_ Hok]. rewrite forallb_app in Hg. apply andb_prop in Hg as [Hl Hr].
    rewrite all_occurs_app, all_occurs_cons, !absent_occurs by done. cbn [occurs kind_of].
    rewrite bool_decide_eq_false_2, He by done.
    fold (all_occurs k (tplug (q ++ [f]) ks) (pos + len (sers (tf_left g)) + 8 + len (tf_pre g))).
    rewrite (IH _ Hq Hf Hab Hok). cbn [app frame_of fr_left fr_pre]. do 2 f_equal. lia.
Qed.

(** ** A child among its siblings *)

Fixpoint first_of (k : bytes) (l : list atom) (pos : Z) : option (Z * Z) :=
  match l with
  | [] => None
  | a :: l => if bool_decide (kind_of a = k) then Some (pos, pos + len (ser a)) else first_of k l (pos + len (ser a))
  end.

Lemma find_sibling_ser k l : ∀ fuel buf pos end_,
  forallb wf l = true → holds buf pos (sers l) → end_ = pos + len (sers l) →
  Z.max 0 (end_ - pos) < Z.of_nat fuel →
  find_sibling fuel buf pos end_ k = Done (first_of k l pos).
Proof.
  induction l as [|a l IH]; intros fuel buf pos end_ Hw Hh -> Hf; (destruct fuel as [|fuel]; [lia|]); cbn [find_sibling first_of];
    pose proof (holds_bounds _ _ _ Hh) as [H0 H1].
  { change (len (sers [])) with 0 in *. by rewrite (proj2 (Z.ltb_lt _ _)) by lia. }
  apply forallb_cons in Hw as [Hwa Hw]. destruct (wf_size _ Hwa) as [Hs Hk]. rewrite sers_cons in *. rewrite len_app in *.
  pose proof (len_nonneg (sers l)). pose proof (holds_app _ _ _ _ Hh) as [Ha Hl].
  rewrite (proj2 (Z.ltb_ge _ _)) by lia.
  pose proof (child_at_ser _ _ (pos + (len (ser a) + len (sers l))) _ Ha Hwa ltac:(lia)) as Hc.
  unfold child_at in Hc. rewrite (proj2 (Z.ltb_ge _ (pos + 8))) in Hc by lia.
  destruct (be32_at buf pos) as [size| | |]; cbn [and_then] in *; try done.
  destruct ((size <? 8) || (_ <? pos + size)); [done|].
  destruct (index buf (pos + 4) (pos + 8)) as [kind| | |]; cbn [and_then] in *; try done. injection Hc as -> ->.
  case_bool_decide; [done|]. apply IH; [done|done|lia|lia].
Qed.

Lemma find_direct_child_ser k buf start kind pre kids :
  wf (Node kind pre kids []) = true → kind ∈ CONTAINERS → holds buf start (ser (Node kind pre kids [])) →
  find_direct_child buf start (start + len (ser (Node kind pre kids []))) k = Done (first_of k kids (start + 8)).
Proof.
  intros Hw HC Hh. pose proof (holds_bounds _ _ _ Hh) as [H0 H1]. destruct (wf_size _ Hw) as [Hs Hk].
  destruct (wf_node _ _ _ _ Hw) as (Hc & _ & Hkids). rewrite (container_start _ _ HC) in Hc. injection Hc as Hp.
  assert (pre = []) as -> by (destruct pre; [done|rewrite len_cons in Hp; pose proof (len_nonneg pre); lia]).
  cbn [ser kind_of app] in *. fold (sers kids) in *. rewrite app_nil_r in *. rewrite len_boxed in * by done.
  assert (Hk4 : len kind = 4) by (unfold len; lia).
  unfold boxed in Hh. apply holds_app in Hh as [_ [Hkind Hin]%holds_app]. rewrite len_to_be in Hkind, Hin. rewrite Hk4 in Hin.
  unfold find_direct_child. rewrite (proj2 (Z.ltb_ge _ _)) by lia.
  change (Z.of_nat 4) with 4 in *. rewrite (holds_index _ _ _ _ Hkind) by lia. cbn [and_then].
  rewrite bool_decide_eq_false_2 by (intros ->; vm_compute in HC; set_solver).
  replace (start + 4 + 4) with (start + 8) in Hin by lia. unfold find_child_in_range.
  apply find_sibling_ser; [done|done|lia|unfold walk_fuel, len in *; lia].
Qed.

Fixpoint swap (k : bytes) (b : atom) (l : list atom) : option (list atom) :=
  match l with
  | [] => None
  | a :: l => if bool_decide (kind_of a = k) then Some (b :: l) else (a ::.) <$> swap k b l
  end.

Lemma swap_none k b l : swap k b l = None → ∀ pos, first_of k l pos = None.
Proof.
  induction l as [|a l IH]; cbn [swap first_of]; [done|]. case_bool_decide; [done|]. intros E%fmap_None pos. by apply IH.
Qed.

Lemma first_of_split k l pos r : first_of k l pos = Some r →
  ∃ l1 a l2, l = l1 ++ a :: l2 ∧ kind_of a = k ∧ r = (pos + len (sers l1), pos + len (sers l1) + len (ser a)).
Proof.
  revert pos. induction l as [|a l IH]; intros pos E; cbn [first_of] in E; [done|]. case_bool_decide as Hk.
  - injection E as <-. exists [], a, l. split_and!; [done|done|]. by rewrite Z.add_0_r.
  - destruct (IH _ E) as (l1 & c & l2 & -> & Hc & ->). exists (a :: l1), c, l2.
    split_and!; [done|done|]. rewrite sers_cons, len_app. f_equal; lia.
Qed.

Lemma first_of_none k l pos : first_of k l pos = None → Forall (λ a, kind_of a ≠ k) l.
Proof.
  revert pos. induction l as [|a l IH]; intros pos E; cbn [first_of] in E; [done|]. case_bool_decide; [done|].
  constructor; [done|]. by eapply IH.
Qed.

Lemma swap_split k b l l' : swap k b l = Some l' →
  ∃ l1 a l2, l = l1 ++ a :: l2 ∧ l' = l1 ++ b :: l2 ∧ ∀ pos, first_of k l pos = Some (pos + len (sers l1), pos + len (sers l1) + len (ser a)).
Proof.
  revert l'. induction l as [|a l IH]; intros l' E; cbn [swap first_of] in *; [done|]. case_bool_decide as Hk.
  - injection E as <-. exists [], a, l. split_and!; [done|done|]. intros pos. by rewrite Z.add_0_r.
  - apply fmap_Some in E as (m & Em & ->). destruct (IH m Em) as (l1 & c & l2 & -> & -> & Hf).
    exists (a :: l1), c, l2. split_and!; [done|done|]. intros pos. rewrite Hf, sers_cons, len_app. f_equal. f_equal; lia.
Qed.

Lemma len_tplug p ks ks' : forallb wf (tplug p ks) = true →
  len (sers (tplug p ks')) = len (sers (tplug p ks)) + (len (sers ks') - len (sers ks)).
Proof. intros (H & _ & _)%tplug_wf. rewrite !sers_tplug. by apply len_plug. Qed.

(** A tree with other children in place is well-formed when they are and its size fits. *)
Lemma tplug_rewf p ks ks' : forallb wf (tplug p ks) = true → forallb wf ks' = true →
  len (sers (tplug p ks')) < 2 ^ 32 → forallb wf (tplug p ks') = true.
Proof.
  induction p as [|f p IH]; cbn [tplug]; [done|]. rewrite !forallb_app. intros [Hl [Hn Hr]%forallb_cons]%andb_prop Hks Hs.
  rewrite Hl. cbn [forallb andb]. rewrite Hr, andb_true_r.
  rewrite sers_app, sers_cons, !len_app in Hs. pose proof (len_nonneg (sers (tf_left f))). pose proof (len_nonneg (sers (tf_right f))).
  pose proof (wf_size _ Hn) as [_ Hk]. cbn [kind_of] in Hk. destruct (wf_node _ _ _ _ Hn) as (Hc & Hpost & Hin).
  set (n' := Node (tf_kind f) (tf_pre f) (tplug p ks') []) in *.
  assert (Hin' : forallb wf (tplug p ks') = true).
  { apply IH; [done|done|]. unfold n' in Hs. cbn [ser] in Hs. fold (sers (tplug p ks')) in Hs.
    rewrite len_boxed, !len_app in Hs by done. pose proof (len_nonneg (tf_pre f)). change (len []) with 0 in Hs. lia. }
  unfold n'. cbn [wf kind_of]. fold n'. rewrite (proj2 (Z.ltb_lt _ _)) by lia.
  rewrite Hk, bool_decide_eq_true_2, Hin' by done. done.
Qed.

(** ** The sample table *)

(** The way to the only [stbl] of a tree. *)
Record table_path (q : list tframe) (f : tframe) : Prop := {
  tp_kind : tf_kind f = lit "stbl";
  tp_pre : tf_pre f = [];
  tp_way : forallb (way (lit "stbl")) q = true;
  tp_beside : forallb (absent (lit "stbl")) (tf_left f ++ tf_right f) = true;
}.

Section Table.
Context (q : list tframe) (f : tframe) (Hp : table_path q f).

Definition tree (ks : list atom) : list atom := tplug (q ++ [f]) ks.
Definition stbl_node (ks : list atom) : atom := Node (lit "stbl") [] ks [].
Definition stbl_at : Z := hole (frames q) + len (sers (tf_left f)).

Lemma tree_stbl ks : tree ks = tplug q (tf_left f ++ stbl_node ks :: tf_right f).
Proof.
  unfold tree, stbl_node. destruct Hp as [Hk Hpre _ _]. clear Hp.
  induction q as [|g p IH]; cbn [app tplug]; [by rewrite Hk, Hpre|]. by rewrite IH.
Qed.

Lemma tree_holds ks : forallb wf (tree ks) = true → holds (sers (tree ks)) stbl_at (ser (stbl_node ks)).
Proof.
  rewrite tree_stbl, sers_tplug. intros (Hok & _ & _)%tplug_wf. rewrite sers_app, sers_cons.
  destruct (stale_parts (frames q) (sers (tf_left f)) (sers (tf_right f)) (ser (stbl_node ks)) [] Hok) as (a & c & -> & _ & Hl).
  exists a, c. done.
Qed.

Lemma stbl_wf ks : forallb wf (tree ks) = true → wf (stbl_node ks) = true ∧ forallb wf ks = true.
Proof.
  rewrite tree_stbl. intros (_ & _ & Hk)%tplug_wf. rewrite forallb_app in Hk. apply andb_prop in Hk as [_ [Hn _]%forallb_cons].
  split; [done|]. by destruct (wf_node _ _ _ _ Hn) as (_ & _ & ?).
Qed.

Lemma find_stbl_tree ks : forallb wf (tree ks) = true →
  find_box_range (sers (tree ks)) (lit "stbl") = Done (Some (stbl_at, stbl_at + len (ser (stbl_node ks)))).
Proof.
  intros Hw. apply find_unique; [done|]. unfold tree. destruct Hp as [Hk Hpre Hway Hbes].
  rewrite (path_occurs _ _ _ _ _ Hway Hk Hbes); [|by apply tplug_wf in Hw as (? & _ & _)].
  unfold stbl_at, stbl_node. by rewrite Hk, Hpre, Z.add_0_l.
Qed.

Lemma direct_child_tree k ks : forallb wf (tree ks) = true →
  find_direct_child (sers (tree ks)) stbl_at (stbl_at + len (ser (stbl_node ks))) k = Done (first_of k ks (stbl_at + 8)).
Proof.
  intros Hw. apply find_direct_child_ser; [by apply stbl_wf|apply (bool_decide_unpack _); by vm_compute|by apply tree_holds].
Qed.

Lemma splice_tree l1 old l2 new : forallb wf (tree (l1 ++ old ++ l2)) = true → 0 < len (sers old) →
  splice_replace (sers (tree (l1 ++ old ++ l2))) (stbl_at + 8 + len (sers l1)) (stbl_at + 8 + len (sers l1) + len (sers old)) (sers new)
  = Done (sers (tree (l1 ++ new ++ l2))).
Proof.
  intros Hw Ho. unfold tree in *. pose proof (tplug_wf _ _ Hw) as (Hok & Hfit & Hks).
  rewrite !sers_tplug, !sers_app in *. rewrite forallb_app in Hks. apply andb_prop in Hks as [Hl1 _].
  pose proof (splice_plug (frames (q ++ [f])) l1 (sers old) (sers l2) (sers new) Hok Hl1 Hfit) as E.
  cbv zeta in E. assert (Hh : hole (frames (q ++ [f])) = stbl_at + 8).
  { unfold stbl_at. clear -Hp. destruct Hp as [_ Hpre _ _]. clear Hp. induction q as [|g p IH]; cbn [app map hole frame_of fr_left fr_pre].
    - rewrite Hpre. change (len []) with 0. lia.
    - rewrite IH. lia. }
  rewrite Hh in E. apply E. pose proof (len_nonneg (sers l2)). lia.
Qed.

Lemma replace_tree k b ks ks' : forallb wf (tree ks) = true → swap k b ks = Some ks' →
  replace_stbl_child (sers (tree ks)) k (ser b) = Done (sers (tree ks')).
Proof.
  intros Hw Hs. destruct (swap_split _ _ _ _ Hs) as (l1 & a & l2 & -> & -> & Hf).
  unfold replace_stbl_child, find_stbl. rewrite (find_stbl_tree _ Hw). cbn [and_then ok_or].
  rewrite (direct_child_tree _ _ Hw), Hf. cbn [and_then ok_or].
  assert (Ha : 8 ≤ len (ser a)).
  { destruct (stbl_wf _ Hw) as [_ Hk]. rewrite forallb_app in Hk. apply andb_prop in Hk as [_ [Hwa _]%forallb_cons].
    by apply wf_size in Hwa as [[? _] _]. }
  assert (H1 : ∀ c, sers [c] = ser c) by (intros c; apply app_nil_r).
  pose proof (splice_tree l1 [a] l2 [b] Hw) as E. rewrite !H1 in E. apply E. lia.
Qed.

(** The table of chunk offsets, narrow or else wide. *)
Definition swap_offsets (b : atom) (ks : list atom) : option (list atom) :=
  match swap (lit "stco") b ks with Some ks' => Some ks' | None => swap (lit "co64") b ks end.

Lemma replace_offsets_tree b ks ks' : forallb wf (tree ks) = true → swap_offsets b ks = Some ks' →
  replace_chunk_offset_box (sers (tree ks)) (ser b) = Done (sers (tree ks')).
Proof.
  intros Hw. unfold swap_offsets, replace_chunk_offset_box.
  assert (Hrep : ∀ k ks', swap k b ks = Some ks' → ∃ x y, first_of k ks (stbl_at + 8) = Some (x, y)
    ∧ splice_replace (sers (tree ks)) x y (ser b) = Done (sers (tree ks'))).
  { intros k ks'' Hs. pose proof (replace_tree k b ks ks'' Hw Hs) as E.
    destruct (swap_split _ _ _ _ Hs) as (l1 & a & l2 & _ & _ & Hf). rewrite Hf. eexists _, _. split; [done|].
    unfold replace_stbl_child, find_stbl in E. rewrite (find_stbl_tree _ Hw) in E. cbn [and_then ok_or] in E.
    by rewrite (direct_child_tree _ _ Hw), Hf in E. }
  unfold find_stbl. rewrite (find_stbl_tree _ Hw). cbn [and_then ok_or]. rewrite (direct_child_tree (lit "stco") _ Hw).
  destruct (swap (lit "stco") b ks) as [m|] eqn:E1; cbn [and_then].
  - intros [= <-]. destruct (Hrep _ _ E1) as (x & y & -> & E). done.
  - intros E2. rewrite (swap_none _ _ _ E1), (direct_child_tree (lit "co64") _ Hw).
    destruct (Hrep _ _ E2) as (x & y & -> & E). done.
Qed.

(** ** Dropping children *)

Definition named (names : list bytes) (a : atom) : bool := existsb (λ n, bool_decide (kind_of a = n)) names.

Lemma remove_one_tree names ks : forallb wf (tree ks) = true →
  (∃ l1 a l2, ks = l1 ++ a :: l2 ∧ named names a = true
     ∧ remove_one (sers (tree ks)) stbl_at (stbl_at + len (ser (stbl_node ks))) names = Done (Some (sers (tree (l1 ++ l2)))))
  ∨ Forall (λ a, named names a = false) ks
    ∧ remove_one (sers (tree ks)) stbl_at (stbl_at + len (ser (stbl_node ks))) names = Done None.
Proof.
  intros Hw. induction names as [|n names IH]; cbn [remove_one].
  { right. split; [|done]. by apply Forall_true. }
  rewrite (direct_child_tree n _ Hw). cbn [and_then].
  destruct (first_of n ks (stbl_at + 8)) as [r|] eqn:Er.
  - left. destruct (first_of_split _ _ _ _ Er) as (l1 & a & l2 & -> & Hk & ->). exists l1, a, l2.
    assert (Ha : 8 ≤ len (ser a)).
    { destruct (stbl_wf _ Hw) as [_ Hks]. rewrite forallb_app in Hks. apply andb_prop in Hks as [_ [Hwa _]%forallb_cons].
      by apply wf_size in Hwa as [[? _] _]. }
    pose proof (splice_tree l1 [a] l2 [] Hw) as E. change (sers [a]) with (ser a ++ []) in E. rewrite app_nil_r in E.
    specialize (E ltac:(lia)). change (sers []) with (@nil u8) in E. cbn [app] in E. rewrite E. cbn [and_then].
    split_and!; [done| |done]. unfold named. cbn [existsb]. by rewrite bool_decide_eq_true_2.
  - pose proof (first_of_none _ _ _ Er) as Hne. destruct IH as [(l1 & a & l2 & -> & Hn & E)|[Hn E]].
    + left. exists l1, a, l2. split_and!; [done| |done]. unfold named in *. cbn [existsb]. rewrite Hn. apply orb_true_r.
    + right. split; [|done]. apply Forall_forall. intros a Ha. unfold named in *. cbn [existsb].
      rewrite bool_decide_eq_false_2; [|by eapply (proj1 (Forall_forall _ _) Hne)].
      exact (proj1 (Forall_forall _ _) Hn a Ha).
Qed.

Lemma remove_named_tree names : ∀ fuel ks,
  forallb wf (tree ks) = true → len (sers (tree ks)) < 2 ^ 32 → (length ks < fuel)%nat →
  remove_named fuel (sers (tree ks)) names = Done (sers (tree (List.filter (λ a, negb (named names a)) ks))).
Proof.
  induction fuel as [|fuel IH]; intros ks Hw Hsz Hf; [lia|]. cbn [remove_named].
  rewrite (find_stbl_tree _ Hw). cbn [and_then]. destruct (remove_one_tree names ks Hw) as [(l1 & a & l2 & -> & Hn & ->)|[Hn ->]]; cbn [and_then].
  - assert (Hless : len (sers (tree (l1 ++ l2))) < 2 ^ 32).
    { unfold tree in *. rewrite (len_tplug _ _ (l1 ++ l2) Hw), !sers_app, sers_cons, !len_app.
      pose proof (len_nonneg (ser a)). lia. }
    rewrite IH.
    + do 3 f_equal. rewrite !List.filter_app. cbn [List.filter]. by rewrite Hn.
    + destruct (stbl_wf _ Hw) as [_ Hks]. rewrite forallb_app in Hks. apply andb_prop in Hks as [H1 [Ha H2]%forallb_cons].
      eapply tplug_rewf; [exact Hw|by rewrite forallb_app, H1, H2|]. fold (tree (l1 ++ l2)). lia.
    + lia.
    + rewrite !length_app in *. cbn [length] in *. lia.
  - f_equal. f_equal. f_equal. clear -Hn. induction Hn as [|a l Ha _ IHl]; [done|]. cbn [List.filter]. rewrite Ha. cbn [negb]. by f_equal.
Qed.
End Table.

(** ** Durations *)

Definition TIMED : list bytes := map lit ["mvhd"; "tkhd"; "mdhd"].

(** The same tree, but for the bodies of the boxes that state a duration. *)
Inductive retouched : list atom → list atom → Prop :=
| rt_nil : retouched [] []
| rt_leaf kind body body' l l' :
    kind ∈ TIMED → len body' = len body → retouched l l' → retouched (Leaf kind body :: l) (Leaf kind body' :: l')
| rt_same a l l' : retouched l l' → retouched (a :: l) (a :: l')
| rt_node kind pre kids kids' post l l' :
    retouched kids kids' → retouched l l' → retouched (Node kind pre kids post :: l) (Node kind pre kids' post :: l').

Lemma retouched_refl l : retouched l l.
Proof. induction l; by constructor. Qed.

Lemma retouched_len l l' : retouched l l' → len (sers l') = len (sers l).
Proof.
  induction 1 as [|kind body body' l l' _ Hb _ IH|a l l' _ IH|kind pre kids kids' post l l' _ IHk _ IH]; [done|..];
    rewrite !sers_cons, !len_app, IH; [|done|]; f_equal; cbn [ser].
  - unfold boxed. by rewrite !len_app, !len_to_be, Hb.
  - fold (sers kids) (sers kids'). unfold boxed. by rewrite !len_app, !len_to_be, IHk.
Qed.

Lemma timed_leaf kind : kind ∈ TIMED → length kind = 4%nat ∧ children_start kind 0 = None ∧ is_table kind = false ∧ entered kind = false.
Proof.
  intros H. unfold TIMED in H. cbn [map] in H.
  repeat (apply elem_of_cons in H as [->|H]; [vm_compute; done|]). by apply elem_of_nil in H.
Qed.

Lemma retouched_wf l l' : retouched l l' → forallb wf l = true → forallb wf l' = true.
Proof.
  induction 1 as [|kind body body' l l' Hk Hb _ IH|a l l' _ IH|kind pre kids kids' post l l' Hr IHk _ IH];
    intros Hw; [done|..]; apply forallb_cons in Hw as [Hwa Hw]; cbn [forallb]; rewrite (IH Hw), andb_true_r; [|done|].
  - destruct (timed_leaf _ Hk) as (H4 & Hc & Ht & _). destruct (wf_size _ Hwa) as [Hs _].
    assert (Hl : len (ser (Leaf kind body')) = len (ser (Leaf kind body))) by (cbn [ser]; rewrite !len_boxed by done; lia).
    cbn [wf kind_of]. rewrite Hl, (proj2 (Z.ltb_lt _ _)), H4, Hc, Ht by lia. done.
  - destruct (wf_node _ _ _ _ Hwa) as (Hc & Hpost & Hkids). destruct (wf_size _ Hwa) as [Hs H4]. cbn [kind_of] in H4.
    assert (Hl : len (ser (Node kind pre kids' post)) = len (ser (Node kind pre kids post))).
    { cbn [ser]. fold (sers kids) (sers kids'). rewrite !len_boxed, !len_app, (retouched_len _ _ Hr) by done. done. }
    cbn [wf kind_of]. rewrite Hl, (proj2 (Z.ltb_lt _ _)), H4, bool_decide_eq_true_2, (IHk Hkids) by (done || lia).
    by rewrite (proj2 (Z.ltb_lt _ _)).
Qed.

Lemma retouched_trans l1 l2 l3 : retouched l1 l2 → retouched l2 l3 → retouched l1 l3.
Proof.
  intros H. revert l3. induction H as [|kind body body' l l' Hk Hb _ IH|a l l' Hl IH|kind pre kids kids' post l l' Hr IHk Hl IH];
    intros l3 H3; [done|..].
  - inversion H3; subst; [constructor; [done|congruence|auto]|constructor; auto].
  - inversion H3; subst; constructor; auto.
  - inversion H3; subst; constructor; auto.
Qed.

Lemma occurs_wf k l : ∀ pos s a, forallb wf l = true → (s, a) ∈ all_occurs k l pos → wf a = true.
Proof.
  induction l as [|kind b l IH|kind pre kids post l IHk IH|wide head entries tail l IH] using forest_ind;
    intros pos s a Hw Hin; [by apply elem_of_nil in Hin|..]; apply forallb_cons in Hw as [Hwa Hw];
    rewrite all_occurs_cons in Hin; apply elem_of_app in Hin as [Hin|Hin]; try (by eapply IH);
    cbn [occurs kind_of] in Hin; (case_bool_decide; [by apply list_elem_of_singleton in Hin as [= -> ->]|]);
    try by apply elem_of_nil in Hin.
  destruct (entered kind); [|by apply elem_of_nil in Hin]. destruct (wf_node _ _ _ _ Hwa) as (_ & _ & Hkids).
  by eapply IHk.
Qed.

(** A box the search found can be given another body of the same length. *)
Lemma occurs_patch k body body' l : ∀ pos s, k ∈ TIMED → len body' = len body →
  forallb wf l = true → (s, Leaf k body) ∈ all_occurs k l pos →
  ∃ x y l', sers l = x ++ ser (Leaf k body) ++ y ∧ pos + len x = s
    ∧ sers l' = x ++ ser (Leaf k body') ++ y ∧ retouched l l'.
Proof.
  induction l as [|kind b l IH|kind pre kids post l IHk IH|wide head entries tail l IH] using forest_ind;
    intros pos s Hk Hb Hw Hin; [by apply elem_of_nil in Hin|..]; apply forallb_cons in Hw as [Hwa Hw];
    rewrite all_occurs_cons in Hin; apply elem_of_app in Hin as [Hin|Hin].
  2,4,6: destruct (IH _ _ Hk Hb Hw Hin) as (x & y & l' & E1 & E2 & E3 & E4);
    eexists (ser _ ++ x), y, (_ :: l'); rewrite !sers_cons, E1, E3, len_app, <-!(assoc_L (++));
    (split_and!; [done|lia|done|by apply rt_same]).
  - cbn [occurs kind_of] in Hin. case_bool_decide; [|by apply elem_of_nil in Hin].
    apply list_elem_of_singleton in Hin as [= -> <- <-]. exists [], (sers l), (Leaf k body' :: l). rewrite !sers_cons, Z.add_0_r.
    split_and!; [done..|]. constructor; [done|done|apply retouched_refl].
  - cbn [occurs kind_of] in Hin. case_bool_decide.
    { apply list_elem_of_singleton in Hin. done. }
    destruct (entered kind); [|by apply elem_of_nil in Hin]. fold (all_occurs k kids (pos + 8 + len pre)) in Hin.
    destruct (wf_node _ _ _ _ Hwa) as (_ & _ & Hkids). destruct (wf_size _ Hwa) as [_ H4]. cbn [kind_of] in H4.
    assert (len kind = 4) by (unfold len; lia).
    destruct (IHk _ _ Hk Hb Hkids Hin) as (x & y & kids' & E1 & E2 & E3 & E4).
    set (n := be32 (8 + len (pre ++ sers kids ++ post))).
    assert (Hn : n = be32 (8 + len (pre ++ sers kids' ++ post))) by (unfold n; by rewrite !len_app, (retouched_len _ _ E4)).
    exists (n ++ kind ++ pre ++ x), (y ++ post ++ sers l), (Node kind pre kids' post :: l). rewrite !sers_cons. cbn [ser].
    fold (sers kids) (sers kids'). unfold boxed at 1 3. fold n. rewrite <-Hn, E1, E3, <-!(assoc_L (++)), !len_app.
    split_and!; [done| |done|]. { unfold n. rewrite len_to_be. lia. } constructor; [done|apply retouched_refl].
  - cbn [occurs kind_of] in Hin. case_bool_decide; [|by apply elem_of_nil in Hin].
    apply list_elem_of_singleton in Hin. done.
Qed.

Lemma overwrite_inside x body y off new : 0 ≤ off → off + len new ≤ len body →
  overwrite (x ++ body ++ y) (len x + off) new = x ++ overwrite body off new ++ y.
Proof.
  intros Ho Hl. pose proof (len_nonneg new).
  destruct (index_holds body off (off + len new) (slice body off (off + len new))) as [(a & c & E & Ha) Hlen].
  { by rewrite index_total by lia. }
  replace (off + len new - off) with (len new) in Hlen by lia. set (m := slice body off (off + len new)) in *.
  rewrite E, <-Ha. rewrite (overwrite_mid a m c new) by lia.
  replace (x ++ (a ++ m ++ c) ++ y) with ((x ++ a) ++ m ++ c ++ y) by (by rewrite <-!(assoc_L (++))).
  rewrite <-len_app, overwrite_mid by lia. by rewrite <-!(assoc_L (++)).
Qed.

Lemma duration_field_spec k version field width : duration_field k version = Some (field, width) → 8 ≤ field.
Proof. unfold duration_field. repeat case_bool_decide; try done; destruct (version =? 1); intros [= <- <-]; lia. Qed.

(** A patch changes the body of one timed box, or nothing. *)
Lemma patch_tree k d l : k ∈ TIMED → forallb wf l = true →
  ∃ l', patch_named_duration (sers l) k d = Done (sers l') ∧ retouched l l'.
Proof.
  intros Hk Hw. pose proof (retouched_refl l) as Hrefl. unfold patch_named_duration.
  destruct (find_in_tree k l Hw) as (r & -> & Hr). cbn [and_then]. destruct r as [[s e]|]; [|by exists l].
  destruct Hr as (a & Hin & Hka & ->). destruct (timed_leaf _ Hk) as (H4 & Hc & Ht & _).
  destruct (Z.ltb_spec (s + len (ser a)) (s + 12)) as [|Hlong]; [by exists l|].
  assert (Hleaf : ∃ body, a = Leaf k body).
  { pose proof (occurs_wf k l 0 s a Hw Hin) as Hwa. destruct a as [kind body|kind pre kids post|wide head es tail]; cbn [kind_of] in Hka.
    - subst. by exists body.
    - subst kind. apply wf_node in Hwa as (Hcs & _). congruence.
    - subst k. destruct wide; done. }
  destruct Hleaf as [body ->]. assert (Hs : len (ser (Leaf k body)) = 8 + len body) by (by apply len_boxed).
  assert (Hx : ∀ body', len body' = len body → ∃ x y l', sers l = x ++ ser (Leaf k body) ++ y ∧ len x = s
    ∧ sers l' = x ++ ser (Leaf k body') ++ y ∧ retouched l l').
  { intros body' Hb. destruct (occurs_patch k body body' l 0 s Hk Hb Hw Hin) as (x & y & l' & ? & ? & ? & ?).
    exists x, y, l'. split_and!; [done|lia|done|done]. }
  destruct (Hx body eq_refl) as (x & y & _ & E & Hlx & _). pose proof (len_nonneg x). pose proof (len_nonneg y).
  assert (Hbuf : s + len (ser (Leaf k body)) ≤ len (sers l)) by (rewrite E, !len_app; lia).
  unfold byte_at. rewrite index_total by lia. cbn [and_then].
  destruct (duration_field k _) as [[field width]|] eqn:Ef; [|by exists l].
  apply duration_field_spec in Ef. destruct (Z.leb_spec (s + field + Z.of_nat width) (s + len (ser (Leaf k body)))) as [Hfit|]; [|by exists l].
  set (new := to_be width d). assert (Hnew : len new = Z.of_nat width) by apply len_to_be.
  destruct (Hx (overwrite body (field - 8) new)) as (x' & y' & l' & E' & Hlx' & El' & Hr').
  { apply len_overwrite; lia. }
  exists l'. split; [|done]. rewrite store_total by lia. f_equal. rewrite E', El'. cbn [ser]. unfold boxed.
  set (h := be32 (8 + len body) ++ k).
  assert (Hh : len (x' ++ h) = s + 8) by (unfold h; rewrite !len_app, len_to_be; assert (len k = 4) by (unfold len; lia); lia).
  replace (x' ++ (be32 (8 + len body) ++ k ++ body) ++ y') with ((x' ++ h) ++ body ++ y') by (unfold h; by rewrite <-!(assoc_L (++))).
  replace (s + field) with (len (x' ++ h) + (field - 8)) by lia. rewrite overwrite_inside by lia.
  rewrite (len_overwrite body) by lia. unfold h. by rewrite <-!(assoc_L (++)).
Qed.

Lemma patch_durations_tree l media movie : forallb wf l = true →
  ∃ l', patch_duration_fields (sers l) media movie = Done (sers l') ∧ retouched l l'.
Proof.
  intros Hw. unfold patch_duration_fields.
  assert (Hin : ∀ n, n ∈ ["mvhd"; "tkhd"; "mdhd"] → lit n ∈ TIMED) by (intros n Hn; by apply list_elem_of_fmap_2).
  destruct (patch_tree (lit "mvhd") movie l) as (l1 & -> & R1); [apply Hin; set_solver|done|]. cbn [and_then].
  destruct (patch_tree (lit "tkhd") movie l1) as (l2 & -> & R2); [apply Hin; set_solver|by eapply retouched_wf|]. cbn [and_then].
  pose proof (retouched_trans _ _ _ R1 R2) as R12.
  destruct (patch_tree (lit "mdhd") media l2) as (l3 & -> & R3); [apply Hin; set_solver|by eapply retouched_wf|].
  exists l3. split; [done|]. by eapply retouched_trans.
Qed.
