(* ===== verification/Mp4Layout.v ===== *)
(** * The layout of a file

    A file as a sequence of top-level boxes, with 32-bit or 64-bit sizes; reading their headers gives
    that sequence back. *)

From stdpp Require Import base option list sets numbers strings pretty.
From Stdlib Require Import ZArith Lia.
From S2P Require Import Prelude Mp4Bytes Mp4Edit Mp4Read Mp4File Mp4Tree.

Local Open Scope Z_scope.

Record tbox : Type := mk_tbox { tb_kind : bytes; tb_wide : bool; tb_content : bytes }.

Definition tser (b : tbox) : bytes :=
  if tb_wide b then be32 1 ++ tb_kind b ++ be64 (16 + len (tb_content b)) ++ tb_content b
  else boxed (tb_kind b) (tb_content b).
Definition tsers (l : list tbox) : bytes := concat (map tser l).

Definition tb_ok (b : tbox) : bool :=
  (length (tb_kind b) =? 4)%nat
  && if tb_wide b then 16 + len (tb_content b) <? 2 ^ 64 else 8 + len (tb_content b) <? 2 ^ 32.

Definition header_len (b : tbox) : Z := if tb_wide b then 16 else 8.
Definition header_at (pos : Z) (b : tbox) : BoxHeader :=
  mk_BoxHeader pos (len (tser b)) (header_len b) (tb_kind b).
Fixpoint headers (pos : Z) (l : list tbox) : list BoxHeader :=
  match l with [] => [] | b :: l => header_at pos b :: headers (pos + len (tser b)) l end.

Lemma tsers_cons b l : tsers (b :: l) = tser b ++ tsers l.
Proof. done. Qed.
Lemma tsers_app l k : tsers (l ++ k) = tsers l ++ tsers k.
Proof. unfold tsers. by rewrite map_app, concat_app. Qed.

Lemma tb_ok_kind b : tb_ok b = true → len (tb_kind b) = 4 ∧ length (tb_kind b) = 4%nat.
Proof. intros [H%Nat.eqb_eq _]%andb_prop. split; [unfold len; lia|done]. Qed.

Lemma len_tser b : tb_ok b = true → len (tser b) = header_len b + len (tb_content b).
Proof.
  intros [Hk4 Hk]%tb_ok_kind. unfold tser, header_len. destruct (tb_wide b); [|by apply len_boxed].
  rewrite !len_app, !len_to_be, Hk4. lia.
Qed.

(** ** Reading *)

Lemma read_bytes_holds file pos l n : holds file pos l → n = len l → read_bytes file n pos = Done (l, pos + n).
Proof.
  intros H ->. pose proof (holds_bounds _ _ _ H). unfold read_bytes.
  rewrite (proj2 (Z.leb_le _ _)) by lia. by rewrite (holds_slice _ _ _ H).
Qed.

Lemma read_u32_holds file pos v : holds file pos (be32 v) → 0 ≤ v < 2 ^ 32 → read_u32 file pos = Done (v, pos + 4).
Proof.
  intros H Hv. unfold read_u32, rbind. rewrite (read_bytes_holds _ _ _ _ H) by (by rewrite len_to_be).
  cbn [and_then rret]. unfold rret. by rewrite from_to_be_small.
Qed.
Lemma read_u64_holds file pos v : holds file pos (be64 v) → 0 ≤ v < 2 ^ 64 → read_u64 file pos = Done (v, pos + 8).
Proof.
  intros H Hv. unfold read_u64, rbind. rewrite (read_bytes_holds _ _ _ _ H) by (by rewrite len_to_be).
  cbn [and_then rret]. unfold rret. by rewrite from_to_be_small.
Qed.

Lemma seek_ok to pos : to ≤ I64_MAX → seek to pos = Done ((), to).
Proof. intros. unfold seek. by rewrite (proj2 (Z.leb_le _ _)). Qed.

Lemma holds_pos buf pos l : holds buf pos l → 0 ≤ pos ≤ len buf.
Proof. intros H%holds_bounds. pose proof (len_nonneg l). lia. Qed.

Lemma u64_add_small a b : 0 ≤ a → 0 ≤ b → a + b < 2 ^ 64 → u64_add a b = a + b.
Proof. intros. apply Z.mod_small. lia. Qed.

Lemma rbind_step {A B} (m : reader A) (k : A → reader B) pos a p : m pos = Done (a, p) → rbind m k pos = k a p.
Proof. unfold rbind. by intros ->. Qed.

Lemma read_header file pos b : holds file pos (tser b) → tb_ok b = true →
  read_box_header file pos = Done (header_at pos b, pos + header_len b).
Proof.
  intros Hh Hok. destruct (tb_ok_kind _ Hok) as [Hk4 Hk]. pose proof (len_tser _ Hok) as Hlen.
  pose proof (len_nonneg (tb_content b)). unfold header_at. rewrite Hlen.
  unfold tb_ok in Hok. apply andb_prop in Hok as [_ Hs]. unfold read_box_header, tser, header_len, boxed in *.
  rewrite (rbind_step _ _ _ pos pos) by done.
  destruct (tb_wide b); apply Z.ltb_lt in Hs;
    pose proof (holds_app _ _ _ _ Hh) as [H1 [H2 H3]%holds_app]; rewrite len_to_be in H2, H3; rewrite Hk4 in H3;
    change (Z.of_nat 4) with 4 in *; rewrite (rbind_step _ _ _ _ _ (read_u32_holds _ _ _ H1 ltac:(lia)));
    rewrite (rbind_step _ _ _ _ _ (read_bytes_holds _ _ _ 4 H2 ltac:(done)));
    replace (pos + 4 + 4) with (pos + 8) in * by lia.
  - apply holds_app in H3 as [H3 _].
    rewrite (rbind_step _ _ _ (16 + len (tb_content b), 16) (pos + 16)).
    { by rewrite (proj2 (Z.ltb_ge _ _)) by lia. }
    cbn [Z.eqb Pos.eqb]. rewrite (rbind_step _ _ _ _ _ (read_u64_holds _ _ _ H3 ltac:(lia))).
    unfold rret. by replace (pos + 8 + 8) with (pos + 16) by lia.
  - rewrite !(proj2 (Z.eqb_neq _ _)) by lia. rewrite (rbind_step _ _ _ (8 + len (tb_content b), 8) (pos + 8)) by done.
    by rewrite (proj2 (Z.ltb_ge _ _)) by lia.
Qed.

Lemma top_level_ser file l : ∀ fuel pos out p,
  forallb tb_ok l = true → holds file pos (tsers l) → len file < pos + len (tsers l) + 8 →
  len file + 8 ≤ I64_MAX → Z.max 0 (len file - pos) < Z.of_nat fuel →
  ∃ q, top_level_from file fuel pos out p = Done (out ++ headers pos l, q).
Proof.
  induction l as [|b l IH]; intros fuel pos out p Hok Hh He Hm Hf; (destruct fuel as [|fuel]; [lia|]); cbn [top_level_from];
    pose proof (holds_pos _ _ _ Hh) as Hp; unfold I64_MAX in Hm; rewrite u64_add_small by lia.
  { change (len (tsers [])) with 0 in *. rewrite (proj2 (Z.ltb_lt _ _)) by lia. rewrite app_nil_r. by eexists. }
  apply forallb_cons in Hok as [Hb Hok]. rewrite tsers_cons in Hh, He. rewrite len_app in He.
  pose proof (holds_app _ _ _ _ Hh) as [Ha Hl]. pose proof (holds_bounds _ _ _ Ha).
  pose proof (len_tser _ Hb) as Hlen. pose proof (len_nonneg (tb_content b)).
  assert (Hhl : 8 ≤ header_len b) by (unfold header_len; destruct (tb_wide b); lia).
  rewrite (proj2 (Z.ltb_ge _ _)) by lia. rewrite (rbind_step _ _ _ _ _ (seek_ok pos p ltac:(unfold I64_MAX; lia))).
  rewrite (rbind_step _ _ _ _ _ (read_header _ _ _ Ha Hb)).
  assert (Hend : bh_end (header_at pos b) = pos + len (tser b)) by (apply u64_add_small; cbn; lia).
  rewrite Hend, (proj2 (Z.leb_gt _ _)) by lia.
  destruct (IH fuel (pos + len (tser b)) (out ++ [header_at pos b]) (pos + header_len b)) as [q ->]; [done|done|lia|unfold I64_MAX; lia|lia|].
  exists q. cbn [headers]. by rewrite <-(assoc_L (++)).
Qed.

Lemma top_level_tsers l junk : forallb tb_ok l = true → len junk < 8 → len (tsers l ++ junk) + 8 ≤ I64_MAX →
  ∃ q, top_level_boxes (tsers l ++ junk) 0 = Done (headers 0 l, q).
Proof.
  intros. unfold top_level_boxes. eapply (top_level_ser _ l _ _ []); [done| | |done|unfold len; lia].
  - by exists [], junk.
  - rewrite len_app. lia.
Qed.

(** ** The [moov] of a file *)

Lemma headers_app l k pos : headers pos (l ++ k) = headers pos l ++ headers (pos + len (tsers l)) k.
Proof.
  revert pos. induction l as [|b l IH]; intros pos; cbn [app headers]; [by rewrite Z.add_0_r|].
  rewrite IH, tsers_cons, len_app, Z.add_assoc. done.
Qed.

Lemma find_header kind l b k pos : Forall (λ c, tb_kind c ≠ kind) l → tb_kind b = kind →
  List.find (is_kind kind) (headers pos (l ++ b :: k)) = Some (header_at (pos + len (tsers l)) b).
Proof.
  intros Hl Hb. revert pos. induction Hl as [|c l Hc Hl IH]; intros pos; cbn [app headers find].
  - unfold is_kind at 1. cbn [header_at bh_kind]. rewrite bool_decide_eq_true_2 by done. by rewrite Z.add_0_r.
  - unfold is_kind at 1. cbn [header_at bh_kind]. rewrite bool_decide_eq_false_2 by done.
    rewrite IH, tsers_cons, len_app. by rewrite Z.add_assoc.
Qed.

Lemma last_header l b pos : List.last (map Some (headers pos (l ++ [b]))) None = Some (header_at (pos + len (tsers l)) b).
Proof. rewrite headers_app, map_app. cbn [headers map]. by rewrite last_last. Qed.

Lemma tser_pos b : tb_ok b = true → 8 ≤ len (tser b).
Proof. intros H. rewrite (len_tser _ H). pose proof (len_nonneg (tb_content b)). unfold header_len. destruct (tb_wide b); lia. Qed.

Definition moov_at (pre : list tbox) (mb : tbox) (post : list tbox) : MoovLocation :=
  mk_MoovLocation (len (tsers pre)) (len (tser mb)) (bool_decide (post = [])).

Lemma read_moov_layout pre mb post junk :
  forallb tb_ok (pre ++ mb :: post) = true → Forall (λ c, tb_kind c ≠ lit "moov") pre → tb_kind mb = lit "moov" →
  len junk < 8 → len (tsers (pre ++ mb :: post) ++ junk) + 8 ≤ I64_MAX → len (tser mb) ≤ MAX_READ_EXACT_VEC_BYTES →
  read_moov (tsers (pre ++ mb :: post) ++ junk) = Done (moov_at pre mb post, tser mb).
Proof.
  intros Hok Hpre Hmb Hj Hlen Hmax. unfold read_moov.
  destruct (top_level_tsers _ _ Hok Hj Hlen) as [q ->]. cbn [and_then].
  rewrite (find_header _ _ _ _ _ Hpre Hmb), Z.add_0_l. cbn [ok_or and_then header_at bh_start bh_size].
  set (file := tsers (pre ++ mb :: post) ++ junk) in *.
  assert (Hh : holds file (len (tsers pre)) (tser mb)).
  { exists (tsers pre), (tsers post ++ junk). unfold file. by rewrite tsers_app, tsers_cons, <-!(assoc_L (++)). }
  pose proof (holds_bounds _ _ _ Hh) as [H0 H1]. unfold I64_MAX in Hlen. unfold u64_checked_add, U64_MAX.
  rewrite (proj2 (Z.leb_le _ _)) by lia. cbn [ok_or and_then].
  rewrite (proj2 (Z.ltb_ge (len file) _)), (proj2 (Z.ltb_ge MAX_READ_EXACT_VEC_BYTES _)) by lia.
  pose proof (len_nonneg (tser mb)). rewrite seek_ok by (unfold I64_MAX; lia). cbn [and_then]. unfold read_exact_vec.
  rewrite (proj2 (Z.ltb_ge MAX_READ_EXACT_VEC_BYTES _)), (read_bytes_holds _ _ _ _ Hh) by done. cbn [and_then].
  unfold moov_at. do 2 f_equal. f_equal.
  destruct post as [|b post _] using rev_ind.
  - rewrite last_header, Z.add_0_l. cbn [header_at bh_start]. by rewrite Z.eqb_refl, bool_decide_eq_true_2.
  - rewrite (app_comm_cons post [b] mb), (assoc_L (++)), last_header, Z.add_0_l. cbn [header_at bh_start].
    rewrite bool_decide_eq_false_2 by (by destruct post). apply Z.eqb_neq.
    rewrite tsers_app, tsers_cons, !len_app.
    assert (tb_ok mb = true) as ?%tser_pos.
    { rewrite forallb_app in Hok. by apply andb_prop in Hok as [_ [? _]%forallb_cons]. }
    pose proof (len_nonneg (tsers post)). lia.
Qed.

(** ** Writing *)

Lemma write_over_mid A M C new : len new = len M → write_over (A ++ M ++ C) (len A) new = A ++ new ++ C.
Proof.
  intros E. unfold write_over. set (f := A ++ M ++ C).
  assert (Hr : resize f (Z.max (len f) (len A)) = f).
  { unfold resize. assert (len A ≤ len f) by (unfold f; rewrite !len_app; pose proof (len_nonneg M); pose proof (len_nonneg C); lia).
    rewrite Z.max_l by done. unfold len. rewrite Nat2Z.id, take_ge, Nat.sub_diag by done. apply app_nil_r. }
  rewrite Hr. unfold f. rewrite take_len, E, <-len_app. rewrite (assoc_L (++) A M C), drop_len. done.
Qed.

Lemma write_over_cut A M new : set_len (write_over (A ++ M) (len A) new) (len A + len new) = A ++ new.
Proof.
  unfold write_over, set_len. set (f := A ++ M).
  assert (Hr : resize f (Z.max (len f) (len A)) = f).
  { unfold resize. assert (len A ≤ len f) by (unfold f; rewrite !len_app; pose proof (len_nonneg M); lia).
    rewrite Z.max_l by done. unfold len. rewrite Nat2Z.id, take_ge, Nat.sub_diag by done. apply app_nil_r. }
  rewrite Hr. unfold f at 1. rewrite take_len, (assoc_L (++)). set (r := drop _ f). unfold resize.
  rewrite <-len_app, take_len. replace (_ - _)%nat with 0%nat; [apply app_nil_r|].
  rewrite length_app. unfold len. lia.
Qed.
