(* ===== verification/Mp4Tables.v ===== *)
(** * Sample tables: written, read back, and turned into samples

    The four tables a remux writes, as boxes; the parser reads from them what was encoded, and
    [build_samples] makes of it one sample per chunk at the offsets that were given. *)

From stdpp Require Import base option list sets numbers strings pretty.
From Stdlib Require Import ZArith Lia.
From S2P Require Import Prelude Mp4Bytes Mp4Edit Mp4Read Mp4Remux Mp4Tree Mp4Layout.

Local Open Scope Z_scope.

(** ** Run lengths *)

Lemma push_run_expand runs d : Forall (λ r, 1 ≤ r.1) runs →
  Forall (λ r, 1 ≤ r.1) (push_run runs d) ∧ expand_stts (rev (push_run runs d)) = expand_stts (rev runs) ++ [d].
Proof.
  assert (Happ : ∀ l r, expand_stts (l ++ [r]) = expand_stts l ++ replicate (Z.to_nat r.1) r.2).
  { intros l [c e]. unfold expand_stts. rewrite map_app, concat_app. cbn. by rewrite app_nil_r. }
  intros Hr. destruct runs as [|[count delta] runs]; cbn [push_run].
  - split; [by repeat constructor|done].
  - apply Forall_cons in Hr as [Hc Hr]. cbn in Hc. destruct (Z.eqb_spec delta d) as [->|Hne].
    + split; [constructor; [cbn; lia|done]|]. cbn [rev]. rewrite !Happ. cbn [fst snd].
      rewrite <-(assoc_L (++)). f_equal. replace (Z.to_nat (count + 1)) with (Z.to_nat count + 1)%nat by lia.
      by rewrite replicate_add.
    + split; [by repeat constructor|]. cbn [rev]. rewrite !Happ. done.
Qed.

Lemma fold_runs_expand ds : ∀ runs, Forall (λ r, 1 ≤ r.1) runs →
  expand_stts (rev (fold_left push_run ds runs)) = expand_stts (rev runs) ++ ds
  ∧ Forall (λ r, 1 ≤ r.1) (fold_left push_run ds runs).
Proof.
  induction ds as [|d ds IH]; intros runs Hr; cbn [fold_left]; [by rewrite app_nil_r|].
  destruct (push_run_expand runs d Hr) as [H1 H2]. destruct (IH _ H1) as [-> H3]. rewrite H2, <-(assoc_L (++)). done.
Qed.

Lemma expand_runs ds : expand_stts (runs_of ds) = ds.
Proof. unfold runs_of. by destruct (fold_runs_expand ds []) as [-> _]. Qed.

(** Runs are no more than the samples, and each counts as many at most. *)
Lemma runs_bound ds n m : Z.of_nat (length ds) ≤ n → Forall (λ d, 0 ≤ d < m) ds →
  Z.of_nat (length (runs_of ds)) ≤ n ∧ Forall (λ r, 0 ≤ r.1 ≤ n ∧ 0 ≤ r.2 < m) (runs_of ds).
Proof.
  intros Hn Hd. unfold runs_of. rewrite length_rev.
  assert (Hgen : ∀ runs, Forall (λ r, 1 ≤ r.1) runs → Forall (λ r, 0 ≤ r.2 < m) runs →
    (length (fold_left push_run ds runs) ≤ length runs + length ds)%nat
    ∧ Forall (λ r, 0 ≤ r.2 < m) (fold_left push_run ds runs)).
  { clear Hn. induction Hd as [|d ds Hd _ IH]; intros runs H1 H2; cbn [fold_left]; [split; [lia|done]|].
    destruct (push_run_expand runs d H1) as [H1' _].
    assert (Forall (λ r, 0 ≤ r.2 < m) (push_run runs d) ∧ (length (push_run runs d) ≤ S (length runs))%nat) as [H2' Hl].
    { destruct runs as [|[c e] runs]; cbn [push_run].
      - split; [constructor; done|cbn; lia].
      - apply Forall_cons in H2 as [He H2]. destruct (e =? d); (split; [constructor; [done|]|cbn; lia]); [done|].
        by constructor. }
    destruct (IH _ H1' H2') as [Hl' H3]. split; [cbn [length]; lia|done]. }
  destruct (Hgen [] (Forall_nil_2 _) (Forall_nil_2 _)) as [Hl H2]. cbn [length] in Hl.
  destruct (fold_runs_expand ds [] (Forall_nil_2 _)) as [He H1]. split; [lia|].
  apply Forall_rev, Forall_forall. intros r Hr. pose proof (proj1 (Forall_forall _ _) H1 r Hr) as Hr1.
  pose proof (proj1 (Forall_forall _ _) H2 r Hr) as Hr2. cbn in Hr1, Hr2. split; [|done].
  assert (Z.to_nat r.1 ≤ length ds)%nat; [|lia]. cbn [rev] in He. unfold expand_stts at 2 in He. cbn in He. rewrite <-He.
  apply list_elem_of_In, in_rev, list_elem_of_In, list_elem_of_split in Hr as (l1 & l2 & E). rewrite E. unfold expand_stts.
  rewrite map_app, concat_app. cbn [map concat]. destruct r as [c e]. rewrite !length_app, length_replicate. cbn. lia.
Qed.

(** ** Children of a box in a file *)

Definition atom_header (pos : Z) (a : atom) : BoxHeader := mk_BoxHeader pos (len (ser a)) 8 (kind_of a).

Fixpoint first_at (k : bytes) (l : list atom) (pos : Z) : option (Z * atom) :=
  match l with
  | [] => None
  | a :: l => if bool_decide (kind_of a = k) then Some (pos, a) else first_at k l (pos + len (ser a))
  end.

(** A box whose size fits its field. *)
Definition sized (a : atom) : Prop := 8 ≤ len (ser a) < 2 ^ 32 ∧ length (kind_of a) = 4%nat.
Lemma wf_sized l : forallb wf l = true → Forall sized l.
Proof. intros H. apply Forall_forall. intros a Ha%list_elem_of_In. apply wf_size. by apply (proj1 (forallb_forall _ _) H). Qed.

Lemma read_atom_header file pos a : holds file pos (ser a) → sized a →
  read_box_header file pos = Done (atom_header pos a, pos + 8).
Proof.
  intros Hh [Hs Hk]. destruct (ser_boxed a) as [c E].
  pose proof (read_header file pos (mk_tbox (kind_of a) false c)) as R. unfold tser, header_at, header_len, tb_ok in R.
  cbn [tb_wide tb_kind tb_content] in R. unfold tser in R. cbn [tb_wide tb_kind tb_content] in R. rewrite <-E in R.
  unfold atom_header. apply R; [done|]. rewrite E, len_boxed in Hs by done. rewrite Hk, (proj2 (Z.ltb_lt _ _)) by lia. done.
Qed.

Lemma find_child_from file k l : ∀ fuel pos end_ found,
  Forall sized l → holds file pos (sers l) → end_ = pos + len (sers l) → len file + 8 ≤ I64_MAX →
  (length l < fuel)%nat →
  walk_from file fuel end_ (λ found header,
    rret (if bool_decide (bh_kind header = k) && bool_decide (found = None) then Some header else found)) found pos
  = Done (match found with Some h => Some h | None => (λ '(p, a), atom_header p a) <$> first_at k l pos end, end_).
Proof.
  assert (HI : I64_MAX = 2 ^ 63 - 1) by done.
  induction l as [|a l IH]; intros fuel pos end_ found Hw Hh -> Hm Hf; (destruct fuel as [|fuel]; [cbn in Hf; lia|]);
    cbn [walk_from first_at]; pose proof (holds_pos _ _ _ Hh) as Hpos; rewrite (rbind_step _ _ _ pos pos) by done.
  { change (len (sers [])) with 0. rewrite u64_add_small, (proj2 (Z.ltb_lt _ _)) by lia. unfold rret. rewrite Z.add_0_r. by destruct found. }
  apply Forall_cons in Hw as [Hwa Hw]. destruct Hwa as [Hs Hk]. rewrite sers_cons in *.
  pose proof (holds_bounds _ _ _ Hh) as [_ Hb]. rewrite len_app in *. apply holds_app in Hh as [Ha Hl].
  pose proof (len_nonneg (sers l)). rewrite u64_add_small, (proj2 (Z.ltb_ge _ _)) by lia.
  rewrite (rbind_step _ _ _ _ _ (read_atom_header _ _ _ Ha (conj Hs Hk))). cbv zeta. unfold bh_end. cbn [atom_header bh_start bh_size bh_kind].
  rewrite u64_add_small, (proj2 (Z.ltb_ge _ _)) by lia. erewrite rbind_step by done.
  rewrite (rbind_step _ _ _ () (pos + len (ser a))) by (apply seek_ok; lia).
  rewrite (IH fuel _ (pos + (len (ser a) + len (sers l)))); [|done|done|lia|done|cbn in Hf; lia]. do 2 f_equal.
  destruct found as [h|].
  - rewrite (bool_decide_eq_false_2 (Some h = None)) by done. by rewrite andb_false_r.
  - rewrite (bool_decide_eq_true_2 (None = None)) by done. rewrite andb_true_r. by case_bool_decide.
Qed.

(** The boxes of a sample table, laid out at [at_] in a file. *)
Record table_in (file : bytes) (fuel : nat) (at_ : Z) (ks : list atom) : Prop := {
  ti_sized : Forall sized ks;
  ti_holds : holds file (at_ + 8) (sers ks);
  ti_small : len file + 8 ≤ I64_MAX;
  ti_at : 0 ≤ at_;
  ti_fuel : (length ks < fuel)%nat;
}.
Definition table_header (at_ : Z) (ks : list atom) : BoxHeader := mk_BoxHeader at_ (8 + len (sers ks)) 8 (lit "stbl").

Lemma find_child_in file fuel at_ ks k p : table_in file fuel at_ ks →
  find_child file fuel (content_start (table_header at_ ks)) (bh_end (table_header at_ ks)) k p
  = Done ((λ '(p, a), atom_header p a) <$> first_at k ks (at_ + 8), at_ + 8 + len (sers ks)).
Proof.
  intros [Hw Hh Hm Ha Hf]. assert (HI : I64_MAX = 2 ^ 63 - 1) by done. pose proof (holds_bounds _ _ _ Hh).
  pose proof (len_nonneg (sers ks)). unfold find_child, walk_children, content_start, bh_end, table_header.
  cbn [bh_start bh_size bh_header_len]. rewrite !u64_add_small by lia.
  rewrite (rbind_step _ _ _ () (at_ + 8)) by (apply seek_ok; lia). rewrite Z.add_assoc.
  exact (find_child_from file k ks fuel (at_ + 8) _ None Hw Hh eq_refl Hm Hf).
Qed.

Lemma first_at_split k l pos : match first_at k l pos with
  | Some (p, a) => ∃ l1 l2, l = l1 ++ a :: l2 ∧ kind_of a = k ∧ p = pos + len (sers l1)
  | None => Forall (λ a, kind_of a ≠ k) l
  end.
Proof.
  revert pos. induction l as [|a l IH]; intros pos; cbn [first_at]; [done|]. case_bool_decide as Hk.
  { exists [], l. split_and!; [done|done|]. by rewrite Z.add_0_r. }
  specialize (IH (pos + len (ser a))). destruct (first_at k l _) as [[p b]|].
  - destruct IH as (l1 & l2 & -> & Hb & ->). exists (a :: l1), l2. split_and!; [done|done|]. rewrite sers_cons, len_app. lia.
  - by constructor.
Qed.

(** The first box of a type, wherever it lies. *)
Definition pick (k : bytes) (l : list atom) : option atom := List.find (λ a, bool_decide (kind_of a = k)) l.

Lemma first_at_pick k l : ∀ pos, snd <$> first_at k l pos = pick k l.
Proof. unfold pick. induction l as [|a l IH]; intros pos; cbn [first_at find]; [done|]. by case_bool_decide. Qed.

Lemma pick_first_at k l a pos : pick k l = Some a → ∃ p, first_at k l pos = Some (p, a).
Proof. rewrite <-(first_at_pick k l pos). intros ([p b] & E & ->)%fmap_Some. by exists p. Qed.
Lemma pick_no_first_at k l pos : pick k l = None → first_at k l pos = None.
Proof. rewrite <-(first_at_pick k l pos). by intros E%fmap_None. Qed.

Lemma pick_app k l m : pick k (l ++ m) = match pick k l with Some a => Some a | None => pick k m end.
Proof. unfold pick. induction l as [|a l IH]; cbn [find app]; [done|]. by case_bool_decide. Qed.
Lemma pick_cons k a l : pick k (a :: l) = if bool_decide (kind_of a = k) then Some a else pick k l.
Proof. unfold pick. cbn [find]. by case_bool_decide. Qed.
Lemma pick_none k l : Forall (λ c, kind_of c ≠ k) l → pick k l = None.
Proof. unfold pick. induction 1 as [|a l Ha _ IH]; cbn [find]; [done|]. by rewrite bool_decide_eq_false_2. Qed.

(** A box found is there, with its content behind an eight-byte header. *)
Lemma first_at_in file fuel at_ ks k p a : table_in file fuel at_ ks → first_at k ks (at_ + 8) = Some (p, a) →
  holds file p (ser a) ∧ sized a ∧ 0 ≤ p.
Proof.
  intros [Hw Hh Hm Ha Hf] E. pose proof (first_at_split k ks (at_ + 8)) as Hs. rewrite E in Hs.
  destruct Hs as (l1 & l2 & -> & _ & ->). apply Forall_app in Hw as [_ [Hwa _]%Forall_cons].
  rewrite sers_app, sers_cons in Hh. apply holds_app in Hh as [_ [Hh _]%holds_app]. pose proof (len_nonneg (sers l1)). split_and!; [done|done|lia].
Qed.

(** ** The tables a remux writes, as boxes *)

Definition count {A} (l : list A) : Z := Z.of_nat (length l).
Definition pair_row (r : Z * Z) : bytes := let '(n, delta) := r in be32 n ++ be32 delta.
Definition chunk_row (e : ChunkMapEntry) : bytes :=
  be32 (first_chunk e) ++ be32 (samples_per_chunk e) ++ be32 (sample_description_index e).
Definition one_per_chunk : list ChunkMapEntry := [mk_ChunkMapEntry 1 1 1].

Definition stts_atom (durations : list Z) : atom :=
  Leaf (lit "stts") (be32 0 ++ be32 (count (runs_of durations)) ++ concat (map pair_row (runs_of durations))).
Definition stsc_atom : atom :=
  Leaf (lit "stsc") (be32 0 ++ be32 (count one_per_chunk) ++ concat (map chunk_row one_per_chunk)).
Definition stsz_atom (sizes : list Z) : atom :=
  Leaf (lit "stsz") (be32 0 ++ be32 0 ++ be32 (count sizes) ++ concat (map be32 sizes)).
Definition outgrown (offsets : list Z) : bool := existsb (λ o, U32_MAX <? o) offsets.
Definition offsets_atom (offsets : list Z) : atom :=
  Table (outgrown offsets) (be32 0 ++ be32 (count offsets)) offsets [].

Lemma len_rows_of {A} (row : A → bytes) w l : (∀ a, len (row a) = w) → len (concat (map row l)) = w * count l.
Proof.
  intros Hr. unfold count. induction l as [|a l IH]; cbn [map concat length]; [rewrite Z.mul_0_r; done|].
  rewrite len_app, Hr, IH. lia.
Qed.
Lemma len_pair_row r : len (pair_row r) = 8.
Proof. destruct r. cbn [pair_row]. by rewrite len_app, !len_to_be. Qed.

Lemma encode_stts_ser durations : encode_stts durations = ser (stts_atom durations).
Proof.
  unfold encode_stts, stts_atom. cbn [ser]. unfold boxed. rewrite !len_app, !len_to_be, (len_rows_of _ 8) by apply len_pair_row.
  unfold count. f_equal. f_equal. lia.
Qed.
Lemma encode_stsc_ser : encode_stsc_one_per_chunk = ser stsc_atom.
Proof. by vm_compute. Qed.
Lemma encode_stsz_ser sizes : encode_stsz sizes = ser (stsz_atom sizes).
Proof.
  unfold encode_stsz, stsz_atom. cbn [ser]. unfold boxed.
  rewrite !len_app, !len_to_be, (len_rows_of _ 4) by (intros; apply len_to_be). unfold count. f_equal. f_equal. lia.
Qed.
Lemma encode_offsets_ser offsets : encode_offsets offsets = ser (offsets_atom offsets).
Proof.
  unfold encode_offsets, offsets_atom. fold (outgrown offsets). cbn [ser]. unfold boxed. rewrite app_nil_r.
  rewrite !len_app, !len_to_be, len_rows. unfold encode_co64, encode_stco, rows, count.
  destruct (outgrown offsets); cbn [table_kind stride]; rewrite <-!(assoc_L (++)); do 2 f_equal; lia.
Qed.

(** Their sizes, and that they are well-formed boxes. *)
Lemma len_stts durations n : count durations ≤ n → len (ser (stts_atom durations)) ≤ 16 + 8 * n.
Proof.
  intros Hn. unfold stts_atom. cbn [ser]. rewrite len_boxed, !len_app, !len_to_be, (len_rows_of _ 8) by (done || apply len_pair_row).
  assert (count (runs_of durations) ≤ count durations); [|lia]. unfold count, runs_of. rewrite length_rev.
  assert (Hgen : ∀ ds runs, (length (fold_left push_run ds runs) ≤ length runs + length ds)%nat);
    [|pose proof (Hgen durations []); cbn [length] in *; lia].
  intros ds. induction ds as [|d ds IH]; intros runs; cbn [fold_left length]; [lia|]. specialize (IH (push_run runs d)).
  assert (length (push_run runs d) ≤ S (length runs))%nat; [|lia].
  destruct runs as [|[c e] runs]; cbn [push_run length]; [lia|]. destruct (e =? d); cbn [length]; lia.
Qed.
Lemma len_stsc : len (ser stsc_atom) = 28.
Proof. done. Qed.
Lemma len_stsz sizes : len (ser (stsz_atom sizes)) = 20 + 4 * count sizes.
Proof. unfold stsz_atom. cbn [ser]. rewrite len_boxed, !len_app, !len_to_be, (len_rows_of _ 4) by (done || (intros; apply len_to_be)). lia. Qed.
Lemma len_offsets offsets :
  len (ser (offsets_atom offsets)) = 16 + (if outgrown offsets then 8 else 4) * count offsets.
Proof.
  unfold offsets_atom. cbn [ser]. rewrite len_boxed, !len_app, !len_to_be, len_rows by (by destruct (outgrown offsets)).
  unfold count. change (len []) with 0. destruct (outgrown offsets); cbn [stride]; lia.
Qed.

Lemma leaf_wf kind body : length kind = 4%nat → children_start kind 0 = None → is_table kind = false →
  len (ser (Leaf kind body)) < 2 ^ 32 → wf (Leaf kind body) = true.
Proof. intros H1 H2 H3 H4. cbn [wf kind_of]. rewrite (proj2 (Z.ltb_lt _ _)), H1, H2, H3 by done. done. Qed.

Lemma narrow_entries offsets o : o ∈ offsets → o < 2 ^ 64 → o < 256 ^ Z.of_nat (stride (outgrown offsets)).
Proof.
  intros Hin Hr. destruct (outgrown offsets) eqn:E; cbn [stride]; [exact Hr|].
  assert (o ≤ U32_MAX); [|unfold U32_MAX in *; change (256 ^ Z.of_nat 4) with (2 ^ 32); lia].
  apply Z.ltb_ge. destruct (U32_MAX <? o) eqn:Eo; [|done]. exfalso. apply list_elem_of_In in Hin.
  assert (outgrown offsets = true) by (apply existsb_exists; eauto). congruence.
Qed.

Lemma offsets_wf offsets : Forall (λ o, 0 ≤ o < 2 ^ 64) offsets → len (ser (offsets_atom offsets)) < 2 ^ 32 →
  wf (offsets_atom offsets) = true.
Proof.
  intros Ho Hl. unfold offsets_atom in *. cbn [wf kind_of]. rewrite (proj2 (Z.ltb_lt _ _)) by done.
  rewrite len_app, !len_to_be. assert (Hk : length (table_kind (outgrown offsets)) = 4%nat) by (by destruct (outgrown offsets)).
  rewrite Hk. cbn [Nat.eqb andb]. rewrite (proj2 (Z.eqb_eq _ _)) by lia.
  rewrite (proj2 (Z.ltb_lt (len []) _)) by (change (len []) with 0; destruct (outgrown offsets); cbn; lia). cbn [andb].
  apply forallb_forall. intros o Hin. pose proof (proj1 (List.Forall_forall _ _) Ho o Hin) as Hr. cbn in Hr.
  rewrite (proj2 (Z.leb_le _ _)) by lia. cbn [andb]. apply Z.ltb_lt, narrow_entries; [by apply list_elem_of_In|lia].
Qed.

(** ** Reading them back *)

Section ReadBack.
Context (file : bytes) (fuel : nat) (at_ : Z) (ks : list atom) (Hin : table_in file fuel at_ ks).
Notation stbl := (table_header at_ ks).

Definition table_limit : Z := MAX_MP4_TABLE_ENTRIES.

Lemma read_flags_zero pos : holds file pos (be32 0) → read_full_box_version_flags file pos = Done ((0, 0), pos + 4).
Proof.
  intros Hh. change (be32 0) with ([Byte.x00] ++ [Byte.x00; Byte.x00; Byte.x00]) in Hh. apply holds_app in Hh as [H1 H3].
  unfold read_full_box_version_flags, read_u8.
  rewrite (rbind_step _ _ pos 0 (pos + 1)).
  2:{ rewrite (rbind_step _ _ pos [Byte.x00] (pos + 1)) by (by apply read_bytes_holds). done. }
  rewrite (rbind_step _ _ (pos + 1) [Byte.x00; Byte.x00; Byte.x00] (pos + 1 + 3)) by (by apply read_bytes_holds).
  unfold rret. do 2 f_equal. lia.
Qed.

Lemma read_table_rows {A} (row : reader A) (enc : A → bytes) l : ∀ pos,
  Forall (λ a, ∀ pos, holds file pos (enc a) → row pos = Done (a, pos + len (enc a))) l →
  holds file pos (concat (map enc l)) →
  read_table (length l) row pos = Done (l, pos + len (concat (map enc l))).
Proof.
  induction l as [|a l IH]; intros pos Hl Hh; cbn [length read_table].
  { unfold rret. change (len (concat (map enc []))) with 0. by rewrite Z.add_0_r. }
  apply Forall_cons in Hl as [Ha Hl]. cbn [map concat] in *. apply holds_app in Hh as [H1 H2].
  rewrite (rbind_step _ _ _ _ _ (Ha _ H1)). rewrite (rbind_step _ _ _ _ _ (IH _ Hl H2)).
  unfold rret. rewrite len_app, Z.add_assoc. done.
Qed.

Lemma ensure_entries n w what : 0 < w → 0 ≤ n ≤ table_limit → ensure_table_entries n w (w * n) what = Done n.
Proof.
  intros Hw [H0 Hn]. unfold ensure_table_entries, table_limit in *. rewrite (proj2 (Z.ltb_ge _ _)) by done.
  unfold u64_saturating_mul. rewrite Z.max_l by lia. by rewrite (proj2 (Z.ltb_ge _ _)) by lia.
Qed.

Lemma u32_row v pos : 0 ≤ v < 2 ^ 32 → holds file pos (be32 v) → read_u32 file pos = Done (v, pos + len (be32 v)).
Proof. intros. rewrite len_to_be. by apply read_u32_holds. Qed.

(** The rows of a version-zero table: a count, then as many rows of [w] bytes. *)
Lemma read_version_table {A} (row : reader A) (enc : A → bytes) w what l p a :
  ser a = boxed (kind_of a) (be32 0 ++ be32 (count l) ++ concat (map enc l)) →
  holds file p (ser a) → sized a → 0 ≤ p → 0 < w → (∀ x, len (enc x) = w) → count l ≤ table_limit →
  Forall (λ x, ∀ pos, holds file pos (enc x) → row pos = Done (x, pos + len (enc x))) l → ∀ pos,
  ∃ q, rbind (seek (content_start (atom_header p a))) (λ _,
    rbind (read_full_box_version_flags file) (λ _,
    rbind (read_u32 file) (λ entry_count,
    rbind (lift (ensure_table_entries entry_count w (u64_saturating_sub (content_len (atom_header p a)) 8) what)) (λ n,
      read_table (Z.to_nat n) row)))) pos = Done (l, q).
Proof.
  intros E Hh [Hs Hk] Hp0 Hw0 Henc Hn Hrow pos. destruct Hin as [_ _ Hsm _ _].
  assert (HI : I64_MAX = 2 ^ 63 - 1) by done. assert (Hc0 : 0 ≤ count l) by (unfold count; lia).
  pose proof (holds_bounds _ _ _ Hh) as Hb. assert (Hlen : len (ser a) = 16 + w * count l).
  { rewrite E, len_boxed, !len_app, !len_to_be, (len_rows_of _ w) by done. lia. }
  assert (Hk4 : len (kind_of a) = 4) by (unfold len; lia). rewrite E in Hh. unfold boxed in Hh.
  apply holds_app in Hh as [_ [_ Hh]%holds_app]. rewrite len_to_be, Hk4 in Hh.
  apply holds_app in Hh as [Hv [Hcnt Hrows]%holds_app]. rewrite !len_to_be in Hrows. rewrite len_to_be in Hcnt.
  unfold content_start, content_len. cbn [atom_header bh_start bh_size bh_header_len]. rewrite u64_add_small by lia.
  rewrite (rbind_step _ _ _ () (p + 8)) by (apply seek_ok; lia).
  replace (p + Z.of_nat 4 + 4) with (p + 8) in * by lia.
  rewrite (rbind_step _ _ _ _ _ (read_flags_zero _ Hv)).
  rewrite (rbind_step _ _ _ (count l) (p + 8 + 4 + 4)).
  2:{ apply read_u32_holds; [done|]. unfold table_limit, MAX_MP4_TABLE_ENTRIES in Hn. lia. }
  unfold u64_saturating_sub. replace (Z.max 0 (Z.max 0 (len (ser a) - 8) - 8)) with (w * count l) by lia.
  rewrite (rbind_step _ _ _ (count l) (p + 8 + 4 + 4)) by (unfold lift; by rewrite ensure_entries by lia).
  unfold count at 1. rewrite Nat2Z.id. eexists. apply read_table_rows; [done|].
  by replace (p + 8 + 4 + 4) with (p + 8 + Z.of_nat 4 + Z.of_nat 4) by lia.
Qed.

Lemma parse_stts_rows rows body p pos : first_at (lit "stts") ks (at_ + 8) = Some (p, Leaf (lit "stts") body) →
  body = be32 0 ++ be32 (count rows) ++ concat (map pair_row rows) → count rows ≤ table_limit →
  Forall (λ r, 0 ≤ r.1 < 2 ^ 32 ∧ 0 ≤ r.2 < 2 ^ 32) rows →
  ∃ q, parse_stts fuel file stbl pos = Done (rows, q).
Proof.
  intros Hf Eb Hn Hr. destruct (first_at_in _ _ _ _ _ _ _ Hin Hf) as (Hh & Hw & Hp0). unfold parse_stts.
  rewrite (rbind_step _ _ _ _ _ (find_child_in _ _ _ _ (lit "stts") pos Hin)), Hf. cbn [fmap option_fmap option_map].
  erewrite rbind_step by (unfold need, lift; cbn [ok_or and_then]; done).
  eapply (read_version_table _ pair_row); [cbn [ser kind_of]; by rewrite Eb|done|done|done|lia|apply len_pair_row|done|].
  eapply Forall_impl; [exact Hr|]. intros [c d] [Hc Hd'] pos' Hpos. cbn [fst snd pair_row] in *.
  apply holds_app in Hpos as [H1 H2]. unfold read_pair.
  rewrite (rbind_step _ _ _ _ _ (u32_row c _ ltac:(lia) H1)), (rbind_step _ _ _ _ _ (u32_row d _ ltac:(lia) H2)).
  unfold rret. rewrite len_app, Z.add_assoc. done.
Qed.

Lemma parse_stts_back durations p pos : first_at (lit "stts") ks (at_ + 8) = Some (p, stts_atom durations) →
  count durations ≤ table_limit → Forall (λ d, 0 ≤ d < 2 ^ 32) durations →
  ∃ q, parse_stts fuel file stbl pos = Done (runs_of durations, q).
Proof.
  intros Hf Hn Hd. destruct (runs_bound durations table_limit (2 ^ 32)) as [Hrn Hr]; [done|done|].
  eapply parse_stts_rows; [exact Hf|done|done|]. eapply Forall_impl; [exact Hr|]. unfold table_limit, MAX_MP4_TABLE_ENTRIES. cbn. lia.
Qed.

Lemma parse_stsc_rows e body p pos : first_at (lit "stsc") ks (at_ + 8) = Some (p, Leaf (lit "stsc") body) →
  body = be32 0 ++ be32 1 ++ chunk_row e →
  0 ≤ first_chunk e < 2 ^ 32 → 0 ≤ samples_per_chunk e < 2 ^ 32 → 0 ≤ sample_description_index e < 2 ^ 32 →
  ∃ q, parse_stsc fuel file stbl pos = Done ([e], q).
Proof.
  intros Hf Eb He1 He2 He3. destruct (first_at_in _ _ _ _ _ _ _ Hin Hf) as (Hh & Hw & Hp0). unfold parse_stsc.
  rewrite (rbind_step _ _ _ _ _ (find_child_in _ _ _ _ (lit "stsc") pos Hin)), Hf. cbn [fmap option_fmap option_map].
  erewrite rbind_step by (unfold need, lift; cbn [ok_or and_then]; done).
  eapply (read_version_table _ chunk_row); [cbn [ser kind_of map concat]; rewrite app_nil_r; by rewrite Eb|done|done|done|lia| |done|].
  { intros x. unfold chunk_row. by rewrite !len_app, !len_to_be. }
  apply Forall_singleton. intros pos' Hpos. destruct e as [a b c]. unfold chunk_row in *. cbn [first_chunk samples_per_chunk sample_description_index] in *.
  apply holds_app in Hpos as [H1 [H2 H3]%holds_app]. unfold read_chunk_map.
  rewrite (rbind_step _ _ _ _ _ (u32_row a _ He1 H1)), (rbind_step _ _ _ _ _ (u32_row b _ He2 H2)), (rbind_step _ _ _ _ _ (u32_row c _ He3 H3)).
  unfold rret. rewrite !len_app, !Z.add_assoc. done.
Qed.

Lemma parse_stsc_back p pos : first_at (lit "stsc") ks (at_ + 8) = Some (p, stsc_atom) →
  ∃ q, parse_stsc fuel file stbl pos = Done (one_per_chunk, q).
Proof. intros Hf. eapply parse_stsc_rows; [exact Hf|done|done|done|done]. Qed.

Lemma parse_stsz_back sizes p pos : first_at (lit "stsz") ks (at_ + 8) = Some (p, stsz_atom sizes) →
  count sizes ≤ table_limit → Forall (λ s, 0 ≤ s < 2 ^ 32) sizes →
  ∃ q, parse_stsz fuel file stbl pos = Done (sizes, q).
Proof.
  intros Hf Hn Hd. destruct (first_at_in _ _ _ _ _ _ _ Hin Hf) as (Hh & [Hs Hk] & Hp0).
  assert (HI : I64_MAX = 2 ^ 63 - 1) by done. assert (Hc0 : 0 ≤ count sizes) by (unfold count; lia).
  pose proof (holds_bounds _ _ _ Hh) as Hb. pose proof (len_stsz sizes) as Hlen. pose proof (ti_small _ _ _ _ Hin) as Hsm. unfold parse_stsz.
  rewrite (rbind_step _ _ _ _ _ (find_child_in _ _ _ _ (lit "stsz") pos Hin)), Hf. cbn [fmap option_fmap option_map].
  unfold content_start, content_len. cbn [atom_header bh_start bh_size bh_header_len]. rewrite u64_add_small by lia.
  rewrite (rbind_step _ _ _ () (p + 8)) by (apply seek_ok; lia).
  unfold stsz_atom in Hh. cbn [ser] in Hh. unfold boxed in Hh. apply holds_app in Hh as [_ [_ Hh]%holds_app].
  rewrite len_to_be in Hh. change (len (lit "stsz")) with 4 in Hh.
  apply holds_app in Hh as [Hv [Hz [Hcnt Hrows]%holds_app]%holds_app]. rewrite !len_to_be in *.
  replace (p + Z.of_nat 4 + 4) with (p + 8) in * by lia. change (Z.of_nat 4) with 4 in *.
  rewrite (rbind_step _ _ _ _ _ (read_flags_zero _ Hv)).
  rewrite (rbind_step _ _ _ 0 (p + 8 + 4 + 4)) by (by apply read_u32_holds).
  rewrite (rbind_step _ _ _ (count sizes) (p + 8 + 4 + 4 + 4)).
  2:{ apply read_u32_holds; [done|]. unfold table_limit, MAX_MP4_TABLE_ENTRIES in Hn. lia. }
  cbv zeta. cbn [Z.eqb negb]. unfold u64_saturating_sub.
  replace (Z.max 0 (Z.max 0 (len (ser (stsz_atom sizes)) - 8) - 12)) with (4 * count sizes) by lia.
  rewrite (rbind_step _ _ _ (count sizes) (p + 8 + 4 + 4 + 4)) by (unfold lift; by rewrite ensure_entries by lia).
  unfold count at 1. rewrite Nat2Z.id. eexists. apply (read_table_rows _ be32); [|done].
  eapply Forall_impl; [exact Hd|]. intros s Hs' pos' Hpos. by apply u32_row.
Qed.

Lemma parse_offsets_back offsets p pos :
  (outgrown offsets = true → first_at (lit "stco") ks (at_ + 8) = None) →
  first_at (table_kind (outgrown offsets)) ks (at_ + 8) = Some (p, offsets_atom offsets) →
  count offsets ≤ table_limit → Forall (λ o, 0 ≤ o < 2 ^ 64) offsets →
  ∃ q, parse_chunk_offsets fuel file stbl pos = Done (offsets, q).
Proof.
  intros Hno Hf Hn Hr. destruct (first_at_in _ _ _ _ _ _ _ Hin Hf) as (Hh & Hw & Hp0).
  assert (Hes : ∀ e, e ∈ offsets → 0 ≤ e < 256 ^ Z.of_nat (stride (outgrown offsets))).
  { intros e He. pose proof (proj1 (Forall_forall _ _) Hr e He) as [H0 H1]. split; [done|]. by apply narrow_entries. }
  assert (Hser : ser (offsets_atom offsets)
    = boxed (kind_of (offsets_atom offsets)) (be32 0 ++ be32 (count offsets) ++ concat (map (to_be (stride (outgrown offsets))) offsets))).
  { unfold offsets_atom. cbn [ser kind_of]. by rewrite app_nil_r, <-(assoc_L (++)). }
  unfold parse_chunk_offsets. rewrite (rbind_step _ _ _ _ _ (find_child_in _ _ _ _ (lit "stco") pos Hin)).
  destruct (outgrown offsets) eqn:Eo; cbn [table_kind stride] in *.
  - rewrite (Hno eq_refl). cbn [fmap option_fmap option_map].
    rewrite (rbind_step _ _ _ _ _ (find_child_in _ _ _ _ (lit "co64") _ Hin)), Hf. cbn [fmap option_fmap option_map].
    eapply (read_version_table _ be64); [exact Hser|done|done|done|lia|by intros; rewrite len_to_be|done|].
    apply Forall_forall. intros e He pos' Hpos. rewrite len_to_be. apply read_u64_holds; [done|by apply Hes].
  - rewrite Hf. cbn [fmap option_fmap option_map].
    eapply (read_version_table _ be32); [exact Hser|done|done|done|lia|by intros; rewrite len_to_be|done|].
    apply Forall_forall. intros e He pos' Hpos. apply u32_row; [by apply Hes|done].
Qed.
End ReadBack.

(** ** One sample per chunk *)

(** The samples the tables stand for: their offsets, sizes and durations, on a clock that starts at 0. *)
Fixpoint timed_samples (index cts : Z) (offsets sizes durations : list Z) : list SampleInfo :=
  match offsets, sizes, durations with
  | o :: offsets, s :: sizes, d :: durations =>
      mk_SampleInfo o s cts d index :: timed_samples (index + 1) (u64_saturating_add cts d) offsets sizes durations
  | _, _, _ => []
  end.

Lemma all_samples_single offsets : ∀ i index cts sizes durations,
  (length offsets + i)%nat = length sizes → length durations = length sizes →
  all_samples (map (λ o, (o, 1)) offsets) index cts sizes durations i
  = Done (timed_samples index cts offsets (drop i sizes) (drop i durations)).
Proof.
  induction offsets as [|o offsets IH]; intros i index cts sizes durations Hs Hd; cbn [map all_samples]; [done|].
  cbn [length] in Hs. change (Z.to_nat 1) with 1%nat. cbn [chunk_samples].
  destruct (lookup_lt_is_Some_2 sizes i) as [s Es]; [lia|]. destruct (lookup_lt_is_Some_2 durations i) as [d Ed]; [lia|].
  rewrite Es, Ed. cbn [and_then]. rewrite IH by lia. cbn [and_then app].
  rewrite (drop_S sizes s i Es), (drop_S durations d i Ed). done.
Qed.

Lemma build_one_per_chunk durations sizes offsets :
  offsets ≠ [] → length offsets = length sizes → length durations = length sizes →
  build_samples (runs_of durations) one_per_chunk sizes offsets = Done (timed_samples 0 0 offsets sizes durations).
Proof.
  intros Hne Ho Hd. unfold build_samples, one_per_chunk at 1.
  assert (Hnon : ∀ (e k : outcome (list SampleInfo)), match offsets with [] => e | _ :: _ => k end = k) by (by destruct offsets).
  rewrite Hnon. clear Hnon Hne.
  rewrite expand_runs. unfold fit_durations. rewrite Hd, Nat.eqb_refl. cbn [and_then samples_per_chunk].
  assert (Hspc : ∀ a, map (λ i, spc_for 1 (Z.of_nat i + 1) one_per_chunk) (seq a (length offsets)) = map (λ _, 1) offsets).
  { induction offsets as [|x xs IH] in |- *; intros a; cbn [length seq map]; [done|]. f_equal; [|apply IH].
    unfold one_per_chunk. cbn [spc_for first_chunk samples_per_chunk]. by destruct (_ <=? _). }
  rewrite Hspc. cbv zeta. assert (Hsum : foldr Z.add 0 (map (λ _, 1) offsets) = Z.of_nat (length sizes)).
  { rewrite <-Ho. clear. induction offsets as [|x xs IH]; cbn [map foldr length]; [done|]. lia. }
  rewrite Hsum, Z.eqb_refl. cbn [negb].
  assert (Hzip : zip offsets (map (λ _, 1) offsets) = map (λ o, (o, 1)) offsets).
  { clear. induction offsets as [|x xs IH]; cbn; [done|]. by f_equal. }
  rewrite Hzip, all_samples_single by lia. by rewrite !drop_0.
Qed.

(** A table box that holds the four tables of a remux gives its samples back. *)
Record remux_tables (ks : list atom) (pos : Z) (durations sizes offsets : list Z) : Prop := {
  rx_stts : ∃ p, first_at (lit "stts") ks pos = Some (p, stts_atom durations);
  rx_stsc : ∃ p, first_at (lit "stsc") ks pos = Some (p, stsc_atom);
  rx_stsz : ∃ p, first_at (lit "stsz") ks pos = Some (p, stsz_atom sizes);
  rx_narrow : outgrown offsets = true → first_at (lit "stco") ks pos = None;
  rx_offsets : ∃ p, first_at (table_kind (outgrown offsets)) ks pos = Some (p, offsets_atom offsets);
}.

Definition u32s (l : list Z) : Prop := Forall (λ v, 0 ≤ v < 2 ^ 32) l.

Lemma sample_table_back file fuel at_ ks durations sizes offsets pos :
  table_in file fuel at_ ks → remux_tables ks (at_ + 8) durations sizes offsets →
  u32s durations → u32s sizes → count sizes ≤ table_limit → offsets ≠ [] → Forall (λ o, 0 ≤ o < 2 ^ 64) offsets →
  length offsets = length sizes → length durations = length sizes →
  ∃ q, sample_table fuel file (table_header at_ ks) pos = Done (timed_samples 0 0 offsets sizes durations, q).
Proof.
  intros Hin [[p1 H1] [p2 H2] [p3 H3] H4 [p5 H5]] Hd Hs Hn Hne Hor Hlo Hld. unfold sample_table.
  assert (Hco : count offsets = count sizes) by (unfold count; lia). assert (Hcd : count durations = count sizes) by (unfold count; lia).
  destruct (parse_stts_back _ _ _ _ Hin _ _ pos H1) as [q1 E1]; [lia|done|].
  destruct (parse_stsc_back _ _ _ _ Hin _ q1 H2) as [q2 E2].
  destruct (parse_stsz_back _ _ _ _ Hin _ _ q2 H3) as [q3 E3]; [lia|done|].
  destruct (parse_offsets_back _ _ _ _ Hin _ _ q3 H4 H5) as [q4 E4]; [lia|done|].
  rewrite (rbind_step _ _ _ _ _ E1), (rbind_step _ _ _ _ _ E2), (rbind_step _ _ _ _ _ E3), (rbind_step _ _ _ _ _ E4).
  exists q4. unfold lift. by rewrite build_one_per_chunk.
Qed.

(** ** Any tables at all *)

(** Samples that follow each other on the clock, from [cts] on. *)
Fixpoint clocked (cts : Z) (samples : list SampleInfo) : Prop :=
  match samples with
  | [] => True
  | s :: samples => si_start_cts s = cts ∧ clocked (u64_saturating_add cts (si_duration s)) samples
  end.
Definition clock_after (cts : Z) (samples : list SampleInfo) : Z :=
  fold_left (λ t s, u64_saturating_add t (si_duration s)) samples cts.

Lemma clocked_app l k : ∀ cts, clocked cts l → clocked (clock_after cts l) k → clocked cts (l ++ k).
Proof. induction l as [|s l IH]; intros cts; [done|]. cbn [clocked app clock_after fold_left]. intros [-> Hl] Hk. split; [done|]. by apply IH. Qed.

Lemma chunk_samples_spec n : ∀ chunk offset cts sizes durations i,
  (i + n ≤ length sizes)%nat → length durations = length sizes →
  ∃ l, chunk_samples n chunk offset cts sizes durations i = Done (l, clock_after cts l, (i + n)%nat)
    ∧ map si_size l = take n (drop i sizes) ∧ map si_duration l = take n (drop i durations) ∧ clocked cts l
    ∧ Forall (λ s, si_chunk_index s = chunk) l.
Proof.
  induction n as [|n IH]; intros chunk offset cts sizes durations i Hi Hd; cbn [chunk_samples].
  { exists []. rewrite Nat.add_0_r, !take_0. done. }
  destruct (lookup_lt_is_Some_2 sizes i) as [s Es]; [lia|]. destruct (lookup_lt_is_Some_2 durations i) as [d Ed]; [lia|].
  rewrite Es, Ed. destruct (IH chunk (u64_add offset s) (u64_saturating_add cts d) sizes durations (S i)) as (l & -> & H1 & H2 & H3 & H4); [lia|done|].
  cbn [and_then]. exists (mk_SampleInfo offset s cts d chunk :: l). split_and!.
  - by rewrite Nat.add_succ_r.
  - rewrite (drop_S sizes s i Es). cbn [map take si_size]. by f_equal.
  - rewrite (drop_S durations d i Ed). cbn [map take si_duration]. by f_equal.
  - done.
  - by constructor.
Qed.

Lemma all_samples_spec chunks : ∀ index cts sizes durations i,
  Forall (λ c, 0 ≤ c.2) chunks →
  Z.of_nat i + foldr Z.add 0 (map snd chunks) = Z.of_nat (length sizes) → length durations = length sizes →
  ∃ l, all_samples chunks index cts sizes durations i = Done l
    ∧ map si_size l = drop i sizes ∧ map si_duration l = drop i durations ∧ clocked cts l.
Proof.
  induction chunks as [|[offset spc] chunks IH]; intros index cts sizes durations i Hc Hs Hd; cbn [all_samples map foldr] in *.
  { exists []. rewrite (drop_ge sizes), (drop_ge durations) by lia. done. }
  apply Forall_cons in Hc as [Hspc Hc]. cbn [snd] in *.
  assert (Hrest : 0 ≤ foldr Z.add 0 (map snd chunks)) by (clear -Hc; induction Hc; cbn [map foldr]; lia).
  destruct (chunk_samples_spec (Z.to_nat spc) index offset cts sizes durations i) as (l & -> & H1 & H2 & H3 & _); [lia|done|]. cbn [and_then].
  destruct (IH (index + 1) (clock_after cts l) sizes durations (i + Z.to_nat spc)%nat Hc) as (k & -> & K1 & K2 & K3); [lia|done|]. cbn [and_then].
  exists (l ++ k). rewrite !map_app, H1, H2, K1, K2, <-!drop_drop, !take_drop. split_and!; [done..|]. by apply clocked_app.
Qed.

Lemma fit_durations_spec ds n : match fit_durations ds n with
  | Done fit => length fit = n ∧ fit `prefix_of` ds ++ replicate n (List.last ds 0)
  | Err e => ds = [] ∧ n ≠ 0%nat
  | _ => False
  end.
Proof.
  unfold fit_durations. destruct (Nat.eqb_spec (length ds) n) as [<-|Hne]; [split; [done|by exists (replicate (length ds) (List.last ds 0))]|].
  destruct ds as [|d ds]; [by split; [|intros ->]|]. set (l := d :: ds) in *. destruct (Nat.ltb_spec (length l) n) as [Hlt|Hge].
  - rewrite length_app, length_replicate. split; [unfold l in *; lia|]. exists (replicate (length l) (List.last l 0)).
    rewrite <-(assoc_L (++)), <-replicate_add.
    by replace (n - length l + length l)%nat with n by lia.
  - rewrite length_take. split; [lia|]. exists (drop n l ++ replicate n (List.last l 0)). by rewrite (assoc_L (++)), take_drop.
Qed.

(** C29: Whatever tables a file declares, building its samples neither panics nor leaves one
    out: it refuses them, or gives one sample per declared size, with the durations of the time
    table (its last one repeated where it is short), each starting when the one before it ends. *)
Theorem any_tables_are_samples_or_refused stts stsc sample_sizes chunk_offsets :
  Forall (λ e, 0 ≤ samples_per_chunk e) stsc →
  match build_samples stts stsc sample_sizes chunk_offsets with
  | Done samples =>
      map si_size samples = sample_sizes ∧ clocked 0 samples
      ∧ map si_duration samples `prefix_of`
          expand_stts stts ++ replicate (length sample_sizes) (List.last (expand_stts stts) 0)
  | Err _ => True
  | _ => False
  end.
Proof.
  intros Hspc. unfold build_samples. destruct stsc as [|first rest]; [done|]. set (stsc := first :: rest) in *.
  destruct chunk_offsets as [|o os]; [done|]. set (offsets := o :: os).
  pose proof (fit_durations_spec (expand_stts stts) (length sample_sizes)) as Hfit.
  destruct (fit_durations _ _) as [durations| | |]; cbn [and_then]; [|done..]. destruct Hfit as [Hlen Hpre].
  set (spcs := map _ (seq 0 _)). cbv zeta. destruct (Z.eqb_spec (foldr Z.add 0 spcs) (Z.of_nat (length sample_sizes))) as [Hsum|]; [|done].
  cbn [negb]. assert (Hnn : ∀ v n l, Forall (λ e, 0 ≤ samples_per_chunk e) l → 0 ≤ v → 0 ≤ spc_for v n l).
  { intros v n l. revert v. induction l as [|e l IH]; intros v Hl Hv; [done|]. apply Forall_cons in Hl as [He Hl]. cbn [spc_for].
    destruct (_ <=? _); [by apply IH|done]. }
  assert (Hlz : length spcs = length offsets) by (unfold spcs; by rewrite length_map, length_seq).
  destruct (all_samples_spec (zip offsets spcs) 0 0 sample_sizes durations 0) as (l & -> & H1 & H2 & H3).
  - apply Forall_forall. intros [x y] Hxy%elem_of_zip_r. cbn [snd]. unfold spcs in Hxy. apply list_elem_of_In, in_map_iff in Hxy as (i & <- & _).
    apply Hnn; [done|]. by apply Forall_cons in Hspc as [? _].
  - change (map snd (zip offsets spcs)) with ((zip offsets spcs).*2). rewrite snd_zip by lia. lia.
  - done.
  - rewrite H1, H2. done.
Qed.
