(* ===== verification/Mp4Slack.v ===== *)
(** * Slack, shifts and files: what an edit of a [moov] promises

    Padding and stripping are inverse, moving chunk offsets there and back too; an edited [moov] that
    is written over the old one reads back and leaves every byte outside it alone; and whichever way
    it is written, the chunk offsets in it still reach the same media. *)

From stdpp Require Import base option list sets numbers strings pretty.
From Stdlib Require Import ZArith Lia.
From S2P Require Import Prelude Mp4Bytes Mp4Edit Mp4Read Mp4File Mp4Walk Mp4Tree Mp4Layout.

Local Open Scope Z_scope.

(** ** Padding *)

Definition zeros (n : Z) : bytes := replicate (Z.to_nat n) Byte.x00.
Lemma len_zeros n : 0 ≤ n → len (zeros n) = n.
Proof. intros. unfold len, zeros. rewrite length_replicate. lia. Qed.

(** A box with a [free] child of [gap] bytes behind its content. *)
Definition padded (kind content : bytes) (gap : Z) : bytes :=
  boxed kind (content ++ boxed (lit "free") (zeros (gap - 8))).

Lemma len_padded kind content gap : length kind = 4%nat → 8 ≤ gap →
  len (padded kind content gap) = 8 + len content + gap.
Proof. intros Hk Hg. unfold padded. rewrite len_boxed, len_app, len_boxed, len_zeros by (done || lia). lia. Qed.

Lemma set_box_len_over a rest : length a = 4%nat → len (a ++ rest) ≤ U32_MAX →
  set_box_len (a ++ rest) = Done (be32 (len (a ++ rest)) ++ rest).
Proof.
  intros Ha Hl. unfold set_box_len, u32_of. rewrite (proj2 (Z.leb_le _ _)) by done. cbn [ok_or and_then].
  assert (len a = 4) by (unfold len; lia). pose proof (len_nonneg rest).
  rewrite (proj2 (Z.ltb_ge _ _)) by (rewrite len_app; lia).
  change 0 with (len []). change (a ++ rest) with ([] ++ a ++ rest) at 1.
  rewrite overwrite_mid; [done|]. rewrite len_to_be. lia.
Qed.

(** Padding succeeds exactly when nothing is to be added or a [free] box fits. *)
Lemma pad_boxed kind content total : length kind = 4%nat →
  pad_moov_to (boxed kind content) total
  = (let n := 8 + len content in
     if n =? total then Done (boxed kind content)
     else if bool_decide (n + 8 ≤ total ≤ U32_MAX) then Done (padded kind content (total - n))
     else Err (NoRoom n total)).
Proof.
  intros Hk. unfold pad_moov_to. rewrite len_boxed by done. cbv zeta. set (n := 8 + len content).
  destruct (Z.eqb_spec n total) as [|Hne]; [done|].
  pose proof (len_nonneg content). case_bool_decide as Hfit.
  - rewrite (proj2 (Z.ltb_ge _ _)) by lia. unfold FREE_BOX_LEN. rewrite (proj2 (Z.ltb_ge _ _)) by lia.
    assert (Hp : len (padded kind content (total - n)) = total) by (rewrite len_padded by (done || lia); lia).
    assert (Hr : resize (boxed kind content ++ be32 (total - n) ++ lit "free") total
      = be32 n ++ kind ++ content ++ boxed (lit "free") (zeros (total - n - 8))).
    { set (x := boxed kind content ++ be32 (total - n) ++ lit "free").
      assert (Hx : len x = n + 8) by (unfold x; rewrite !len_app, len_boxed, len_to_be by done; done).
      unfold resize. rewrite take_ge by (unfold len in Hx; lia).
      replace (Z.to_nat total - length x)%nat with (Z.to_nat (total - n - 8)) by (unfold len in Hx; lia).
      fold (zeros (total - n - 8)). unfold x, boxed. rewrite len_zeros by lia.
      replace (8 + (total - n - 8)) with (total - n) by lia. by rewrite <-!(assoc_L (++)). }
    assert (Hlr : len (be32 n ++ kind ++ content ++ boxed (lit "free") (zeros (total - n - 8))) = total).
    { rewrite !len_app, len_to_be, len_boxed, len_zeros by (done || lia). assert (len kind = 4) by (unfold len; lia). lia. }
    rewrite Hr, set_box_len_over; [|apply length_to_be|lia]. rewrite Hlr. f_equal. unfold padded, boxed at 2. f_equal.
    rewrite len_app, len_boxed, len_zeros by (done || lia). f_equal. lia.
  - destruct (U32_MAX <? total) eqn:E; [done|]. apply Z.ltb_ge in E. unfold FREE_BOX_LEN.
    by rewrite (proj2 (Z.ltb_lt _ _)) by lia.
Qed.

(** ** Stripping *)

Fixpoint final (pos : Z) (last : option (Z * bytes)) (l : list atom) : option (Z * bytes) :=
  match l with [] => last | a :: l => final (pos + len (ser a)) (Some (pos, kind_of a)) l end.

Lemma final_snoc l a : ∀ pos last, final pos last (l ++ [a]) = Some (pos + len (sers l), kind_of a).
Proof.
  induction l as [|b l IH]; intros pos last; cbn [app final]; [by rewrite Z.add_0_r|].
  rewrite IH, sers_cons, len_app. by rewrite Z.add_assoc.
Qed.

Lemma last_child_ser l : ∀ fuel buf pos last,
  forallb wf l = true → holds buf pos (sers l) → len buf < pos + len (sers l) + 8 →
  Z.max 0 (len buf - pos) < Z.of_nat fuel →
  last_child fuel buf pos last = Done (final pos last l).
Proof.
  induction l as [|a l IH]; intros fuel buf pos last Hw Hh He Hf; (destruct fuel as [|fuel]; [lia|]); cbn [last_child].
  { change (len (sers [])) with 0 in He. by rewrite child_at_end by lia. }
  apply forallb_cons in Hw as [Hwa Hw]. destruct (wf_size _ Hwa) as [Hs _].
  rewrite sers_cons in Hh, He. rewrite len_app in He. pose proof (holds_app _ _ _ _ Hh) as [Ha Hl].
  pose proof (holds_bounds _ _ _ Ha). rewrite (child_at_ser _ _ _ _ Ha Hwa) by lia. cbn [and_then final].
  apply IH; [done|done|lia|lia].
Qed.

(** A [moov] the code can take apart: its children are a well-formed forest. *)
Definition moov_of (kids : list atom) : bytes := boxed (lit "moov") (sers kids).

Definition slack (gap : Z) : atom := Leaf (lit "free") (zeros (gap - 8)).

Lemma slack_wf gap : 8 ≤ gap < 2 ^ 32 → wf (slack gap) = true.
Proof.
  intros. cbn [slack wf ser kind_of]. rewrite len_boxed, len_zeros by (done || lia).
  rewrite (proj2 (Z.ltb_lt _ _)) by lia. done.
Qed.

Lemma padded_moov kids gap : padded (lit "moov") (sers kids) gap = moov_of (kids ++ [slack gap]).
Proof. unfold padded, moov_of. rewrite sers_app. unfold sers at 3. cbn [map concat]. by rewrite app_nil_r. Qed.

Lemma moov_holds kids : 8 + len (sers kids) < 2 ^ 32 → holds (moov_of kids) 8 (sers kids).
Proof. intros _. exists (be32 (8 + len (sers kids)) ++ lit "moov"), []. unfold moov_of, boxed. by rewrite app_nil_r, (assoc_L (++)). Qed.

Lemma strip_slack kids gap : forallb wf kids = true → 8 ≤ gap → 8 + len (sers kids) + gap < 2 ^ 32 →
  strip_trailing_free (moov_of (kids ++ [slack gap])) = Done (moov_of kids, true).
Proof.
  intros Hw Hg Hs. pose proof (len_nonneg (sers kids)). unfold strip_trailing_free, last_child_range.
  assert (Hsl : len (sers (kids ++ [slack gap])) = len (sers kids) + gap).
  { rewrite sers_app, len_app. unfold sers at 2. cbn [map concat slack ser]. rewrite app_nil_r.
    rewrite len_boxed, len_zeros by (done || lia). lia. }
  assert (Hl : len (moov_of (kids ++ [slack gap])) = 8 + len (sers kids) + gap).
  { unfold moov_of. rewrite len_boxed by done. lia. }
  rewrite Hl, (proj2 (Z.ltb_ge _ _)) by lia.
  rewrite (last_child_ser (kids ++ [slack gap])).
  - rewrite final_snoc. cbn [and_then slack kind_of]. rewrite (bool_decide_eq_false_2 (lit "free" ≠ lit "free")) by tauto.
    cbn [andb]. set (x := be32 (8 + len (sers (kids ++ [slack gap]))) ++ lit "moov" ++ sers kids).
    assert (Hx : len x = 8 + len (sers kids)) by (unfold x; rewrite !len_app, len_to_be; change (len (lit "moov")) with 4; lia).
    assert (Ht : moov_of (kids ++ [slack gap]) = x ++ sers [slack gap]).
    { unfold moov_of, boxed, x. rewrite sers_app. by rewrite <-!(assoc_L (++)). }
    rewrite Ht, <-Hx, take_len. unfold x.
    rewrite set_box_len_over; [|apply length_to_be|fold x; rewrite Hx; unfold U32_MAX; lia]. fold x. by rewrite Hx.
  - apply forallb_forall. intros a [Ha|[<-|[]]]%in_app_iff; [by eapply forallb_forall in Hw|apply slack_wf; lia].
  - apply moov_holds. lia.
  - lia.
  - unfold walk_fuel, len in *. lia.
Qed.

(** C28: Padding a [moov] to a length succeeds exactly when it has that length already or a
    [free] box fits in between and the length fits a 32-bit size; the result has exactly that
    length, and stripping gives back the [moov] byte for byte. *)
Theorem slack_round_trip kids total :
  forallb wf kids = true →
  let moov := moov_of kids in
  match pad_moov_to moov total with
  | Done p => len p = total ∧ (p = moov ∧ total = len moov ∨ strip_trailing_free p = Done (moov, true))
  | Err e => e = NoRoom (len moov) total ∧ (total < len moov + 8 ∨ U32_MAX < total) ∧ total ≠ len moov
  | _ => False
  end.
Proof.
  intros Hw moov. assert (Hm : len moov = 8 + len (sers kids)) by (by apply len_boxed).
  unfold moov at 1. unfold moov_of. rewrite pad_boxed by done. cbv zeta. rewrite <-Hm.
  destruct (Z.eqb_spec (len moov) total) as [Et|Et]; [by split; [|left]|].
  case_bool_decide as Hf; [|split_and!; [done|lia|done]].
  rewrite len_padded by (done || lia). split; [lia|right]. rewrite padded_moov.
  apply strip_slack; [done|lia|unfold U32_MAX in *; lia].
Qed.

(** ** Moving chunk offsets *)

Lemma shift_ser above delta l : forallb wf l = true → delta ≠ 0 →
  then_shift (map_all_offsets (shift_entry above delta) l) sers (shift_chunk_offsets (sers l) above delta).
Proof.
  intros Hw Hd. unfold shift_chunk_offsets. rewrite (proj2 (Z.eqb_neq _ _)) by done.
  rewrite (collect_ser l); [|done|apply holds_whole|lia|unfold walk_fuel, len; lia]. cbn [and_then app].
  pose proof (shift_boxes_ser above delta l [] [] Hw) as E. cbn [app] in E. rewrite app_nil_r in E.
  change (len []) with 0 in E.
  unfold then_shift, shifted in *. destruct (map_all_offsets _ l); [|done]. by rewrite E, app_nil_r.
Qed.

(** Two maps over the tables of a forest, one after the other. *)
Lemma map_offsets_back f g l : ∀ l', forallb wf l = true →
  (∀ wide o o', 0 ≤ o < 256 ^ Z.of_nat (stride wide) → f wide o = Some o' → g wide o' = Some o) →
  map_all_offsets f l = Some l' → map_all_offsets g l' = Some l.
Proof.
  induction l as [|kind body l IH|kind pre kids post l IHk IH|wide head entries tail l IH] using forest_ind;
    intros l' Hw Hfg E; [by injection E as <-|..]; unfold map_all_offsets in E; cbn [foldr map_offsets] in E;
    fold (map_all_offsets f l) in E; apply forallb_cons in Hw as [Hwa Hw].
  - cbn in E. apply bind_Some in E as (m & Em & [= <-]). unfold map_all_offsets. cbn [foldr map_offsets].
    fold (map_all_offsets g m). by rewrite (IH m Hw Hfg Em).
  - fold (map_all_offsets f kids) in E. case_bool_decide as Hk.
    + destruct (map_all_offsets f kids) as [ks|] eqn:Ek; [|done]. cbn in E.
      apply bind_Some in E as (m & Em & [= <-]). unfold map_all_offsets. cbn [foldr map_offsets].
      fold (map_all_offsets g m) (map_all_offsets g ks). rewrite bool_decide_eq_true_2 by done.
      destruct (wf_node _ _ _ _ Hwa) as (_ & _ & Hwk).
      by rewrite (IH m Hw Hfg Em), (IHk ks Hwk Hfg eq_refl).
    + cbn in E. apply bind_Some in E as (m & Em & [= <-]). unfold map_all_offsets. cbn [foldr map_offsets].
      fold (map_all_offsets g m). rewrite bool_decide_eq_false_2 by done. by rewrite (IH m Hw Hfg Em).
  - destruct (mapM (f wide) entries) as [es|] eqn:Ee; [|done]. cbn in E.
    apply bind_Some in E as (m & Em & [= <-]). unfold map_all_offsets. cbn [foldr map_offsets].
    fold (map_all_offsets g m). rewrite (IH m Hw Hfg Em).
    assert (mapM (g wide) es = Some entries) as ->; [|done].
    destruct (wf_table _ _ _ _ Hwa) as (_ & _ & Hr). apply mapM_Some. apply mapM_Some in Ee.
    clear -Ee Hfg Hr. induction Ee; constructor; [|set_solver]. eapply Hfg; [|done]. apply Hr. left.
Qed.

Lemma shift_entry_back above delta wide o o' : 0 ≤ delta → 0 ≤ above →
  0 ≤ o < 256 ^ Z.of_nat (stride wide) → shift_entry above delta wide o = Some o' → shift_entry above (- delta) wide o' = Some o.
Proof.
  intros Hd Ha Hn. unfold shift_entry. destruct (Z.leb_spec o above) as [Hle|Hgt].
  { intros [= <-]. by rewrite (proj2 (Z.leb_le _ _)). }
  unfold moved_offset, i64_of. destruct (Z.leb_spec o I64_MAX) as [Hi|]; [cbn|done].
  unfold i64_checked_add. case_bool_decide as Hr; [cbn|done]. unfold u64_of.
  rewrite (proj2 (Z.leb_le _ _)) by lia. cbn. intros E.
  assert (o' = o + delta) as -> by (destruct wide; [congruence|unfold u32_of in E; destruct (_ <=? _); congruence]).
  rewrite (proj2 (Z.leb_gt _ _)), (proj2 (Z.leb_le _ _)) by lia. cbn. replace (o + delta + - delta) with o by lia.
  rewrite bool_decide_eq_true_2 by (unfold I64_MAX in *; lia). cbn. rewrite (proj2 (Z.leb_le _ _)) by lia. cbn.
  destruct wide; [done|]. unfold u32_of. rewrite (proj2 (Z.leb_le _ _)); [done|]. unfold U32_MAX. cbn [stride] in Hn. lia.
Qed.

Lemma shift_entry_range above delta wide o o' : 0 ≤ o < 256 ^ Z.of_nat (stride wide) →
  shift_entry above delta wide o = Some o' → 0 ≤ o' < 256 ^ Z.of_nat (stride wide).
Proof.
  intros Hn. unfold shift_entry. destruct (o <=? above); [by intros [= <-]|].
  unfold moved_offset, i64_of. destruct (_ <=? _); [cbn|done]. unfold i64_checked_add.
  case_bool_decide as Hr; [cbn|done]. unfold u64_of. destruct (Z.leb_spec 0 (o + delta)); [cbn|done].
  unfold I64_MAX in Hr. destruct wide; cbn [stride].
  - intros [= <-]. change (256 ^ Z.of_nat 8) with (2 ^ 64). lia.
  - unfold u32_of. destruct (Z.leb_spec (o + delta) U32_MAX); [intros [= <-]|done]. unfold U32_MAX in *.
    change (256 ^ Z.of_nat 4) with (2 ^ 32). lia.
Qed.

Lemma map_offsets_wf f l : ∀ l', forallb wf l = true →
  (∀ wide o o', 0 ≤ o < 256 ^ Z.of_nat (stride wide) → f wide o = Some o' → 0 ≤ o' < 256 ^ Z.of_nat (stride wide)) →
  map_all_offsets f l = Some l' → forallb wf l' = true.
Proof.
  intros l' Hw Hf. revert l' Hw.
  assert (Hsz : ∀ a a', map_offsets f a = Some a' → len (ser a') = len (ser a) ∧ kind_of a' = kind_of a).
  { intros a a' E. pose proof (map_offsets_len f [a] [a']) as Hl. unfold map_all_offsets in Hl. cbn [foldr] in Hl.
    rewrite E in Hl. specialize (Hl eq_refl). rewrite !sers_cons, !len_app in Hl. split; [lia|].
    destruct a; cbn [map_offsets] in E.
    - congruence.
    - case_bool_decide; [|congruence]. apply bind_Some in E as (? & _ & [= <-]). done.
    - apply bind_Some in E as (? & _ & [= <-]). done. }
  induction l as [|kind body l IH|kind pre kids post l IHk IH|wide head entries tail l IH] using forest_ind;
    intros l' Hw E; [by injection E as <-|..]; unfold map_all_offsets in E; cbn [foldr] in E;
    fold (map_all_offsets f l) in E; apply forallb_cons in Hw as [Hwa Hw];
    apply bind_Some in E as (a' & Ea & (m & Em & [= <-])%bind_Some); destruct (Hsz _ _ Ea) as [Hl Hk];
    apply andb_true_iff; (split; [|by apply IH]); cbn [map_offsets] in Ea.
  - by injection Ea as <-.
  - fold (map_all_offsets f kids) in Ea. case_bool_decide; [|by injection Ea as <-].
    apply bind_Some in Ea as (ks & Eks & [= <-]). destruct (wf_node _ _ _ _ Hwa) as (_ & _ & Hwk).
    cbn [wf] in *. rewrite Hl. cbn [kind_of]. rewrite (IHk ks Hwk Eks). by rewrite Hwk in Hwa.
  - apply bind_Some in Ea as (es & Ees & [= <-]). destruct (wf_table _ _ _ _ Hwa) as (_ & _ & Hes).
    cbn [wf] in *. rewrite Hl. apply andb_true_iff in Hwa as [Hwa1 Hwa2]. apply andb_true_iff in Hwa2 as [Hwa2 _].
    cbn [kind_of] in *. rewrite Hwa1, Hwa2. cbn [andb]. apply forallb_forall. intros e He%list_elem_of_In.
    apply mapM_Some in Ees. apply list_elem_of_lookup in He as [i Hi].
    destruct (Forall2_lookup_r _ _ _ _ _ Ees Hi) as (o & Ho & Hfo).
    destruct (Hf wide o e) as [H1 H2]; [by eapply Hes, list_elem_of_lookup_2|done|].
    apply andb_true_iff. split; [by apply Z.leb_le|by apply Z.ltb_lt].
Qed.

(** What [shift_chunk_offsets] does, entry by entry: on success the boxes are the same but for the
    entries of the tables, each that lay past [above] moved by [delta]; a move that leaves the range
    of an entry is an error.  Shifting forward and back is the identity. *)
Theorem shift_round_trip above delta kids :
  forallb wf kids = true → 0 ≤ above → 0 < delta →
  match map_all_offsets (shift_entry above delta) kids with
  | Some kids' =>
      shift_chunk_offsets (sers kids) above delta = Done (sers kids')
      ∧ shift_chunk_offsets (sers kids') above (- delta) = Done (sers kids)
  | None => ∃ s, shift_chunk_offsets (sers kids) above delta = Err (Container s)
  end.
Proof.
  intros Hw Ha Hd. pose proof (shift_ser above delta kids Hw ltac:(lia)) as E. unfold then_shift, shifted in E.
  destruct (map_all_offsets _ kids) as [kids'|] eqn:Ek; [|done]. split; [done|].
  assert (Hw' : forallb wf kids' = true).
  { eapply map_offsets_wf; [exact Hw| |exact Ek]. intros wide o o'. apply shift_entry_range. }
  pose proof (shift_ser above (- delta) kids' Hw' ltac:(lia)) as E'. unfold then_shift, shifted in E'.
  rewrite (map_offsets_back (shift_entry above delta) (shift_entry above (- delta)) _ _ Hw) in E'; [done| |done].
  intros wide o o' Ho Es. eapply shift_entry_back; [| |exact Ho|exact Es]; lia.
Qed.

(** ** An edited [moov] in its file *)

(** A file whose first [moov] the code finds and reads. *)
Record readable (pre : list tbox) (mb : tbox) (post : list tbox) (junk : bytes) : Prop := {
  rd_ok : forallb tb_ok (pre ++ mb :: post) = true;
  rd_first : Forall (λ c, tb_kind c ≠ lit "moov") pre;
  rd_moov : tb_kind mb = lit "moov";
  rd_junk : len junk < 8;
  rd_len : len (tsers (pre ++ mb :: post) ++ junk) + 8 ≤ I64_MAX;
  rd_max : len (tser mb) ≤ MAX_READ_EXACT_VEC_BYTES;
}.

Definition file_of (pre : list tbox) (mb : tbox) (post : list tbox) (junk : bytes) : bytes :=
  tsers (pre ++ mb :: post) ++ junk.

Lemma file_parts pre mb post junk : file_of pre mb post junk = tsers pre ++ tser mb ++ tsers post ++ junk.
Proof. unfold file_of. by rewrite tsers_app, tsers_cons, <-!(assoc_L (++)). Qed.

Definition moov_box (kids : list atom) : tbox := mk_tbox (lit "moov") false (sers kids).

Lemma readable_swap pre mb post junk kids post' junk' :
  readable pre mb post junk → (post' = post ∧ junk' = junk ∨ post' = [] ∧ junk' = []) →
  len (moov_of kids) ≤ MAX_READ_EXACT_VEC_BYTES →
  len (file_of pre mb post junk) + MAX_READ_EXACT_VEC_BYTES + 8 ≤ I64_MAX →
  readable pre (moov_box kids) post' junk'.
Proof.
  intros [] Hp Hm Hroom. assert (Hl : len (moov_of kids) = 8 + len (sers kids)) by (by apply len_boxed).
  rewrite forallb_app in rd_ok0. apply andb_prop in rd_ok0 as [Hpre [Hmb Hpost]%forallb_cons].
  split; [|done|done| | |done].
  - rewrite forallb_app. apply andb_true_iff. split; [done|]. cbn [forallb]. apply andb_true_iff. split.
    + change ((8 + len (sers kids) <? 2 ^ 32) = true). apply Z.ltb_lt. unfold MAX_READ_EXACT_VEC_BYTES in *. lia.
    + destruct Hp as [[-> _]|[-> _]]; done.
  - destruct Hp as [[_ ->]|[_ ->]]; [done|change (0 < 8); lia].
  - fold (file_of pre (moov_box kids) post' junk'). clear rd_len0.
    rewrite file_parts in *. change (tser (moov_box kids)) with (moov_of kids). rewrite !len_app in *.
    pose proof (tser_pos _ Hmb). pose proof (len_nonneg (tsers post)). pose proof (len_nonneg junk).
    destruct Hp as [[-> ->]|[-> ->]]; [|change (len (tsers [])) with 0; change (len []) with 0]; 
      unfold MAX_READ_EXACT_VEC_BYTES, I64_MAX in *; lia.
Qed.

Lemma readable_read pre mb post junk :
  readable pre mb post junk → read_moov (file_of pre mb post junk) = Done (moov_at pre mb post, tser mb).
Proof. intros []. by apply read_moov_layout. Qed.

(** What [write_moov_in_place] does to a file it can be used on. *)
Lemma write_in_place_layout pre mb post junk kids :
  readable pre mb post junk → len (moov_of kids) ≤ MAX_READ_EXACT_VEC_BYTES →
  let file := file_of pre mb post junk in
  let r := write_moov_in_place file (moov_at pre mb post) (moov_of kids) in
  (∃ kids' post' junk', r = Done (file_of pre (moov_box kids') post' junk')
     ∧ (post' = post ∧ junk' = junk ∧ len (moov_of kids') = len (tser mb)
        ∨ post = [] ∧ post' = [] ∧ junk' = [] ∧ kids' = kids)
     ∧ (kids' = kids
        ∨ ∃ gap, kids' = kids ++ [slack gap] ∧ 8 ≤ gap ∧ len (moov_of kids) + gap ≤ MAX_READ_EXACT_VEC_BYTES))
  ∨ r = Err (NoRoom (len (moov_of kids)) (len (tser mb))) ∧ post ≠ []
    ∧ len (tser mb) < len (moov_of kids) + 8 ∧ len (tser mb) ≠ len (moov_of kids).
Proof.
  intros Hr Hm file r. destruct Hr as [Hok _ _ _ _ Hmax]. unfold r, write_moov_in_place, moov_at.
  cbn [ml_len ml_start ml_is_last]. set (moov := moov_of kids) in *. set (reserved := len (tser mb)) in *.
  assert (Hover : ∀ c, len c = reserved → write_over file (len (tsers pre)) c = tsers pre ++ c ++ tsers post ++ junk).
  { intros c Hc. unfold file. rewrite file_parts. by apply write_over_mid. }
  assert (Hlay : ∀ ks p j, tsers pre ++ moov_of ks ++ tsers p ++ j = file_of pre (moov_box ks) p j).
  { intros. by rewrite file_parts. }
  case_bool_decide as Hp.
  - left. exists kids, [], []. split; [|split; [by right|by left]].
    replace (if len moov =? reserved then Done moov else Done moov) with (Done moov) by (by destruct (_ =? _)).
    cbn [and_then]. unfold file. rewrite file_parts, write_over_cut. rewrite <-Hlay. f_equal. f_equal.
    by rewrite app_nil_r.
  - destruct (Z.eqb_spec (len moov) reserved) as [He|He]; cbn [and_then].
    + left. exists kids, post, junk. rewrite Hover by done. rewrite <-Hlay. split_and!; [done|by left|by left].
    + pose proof (pad_boxed (lit "moov") (sers kids) reserved eq_refl) as Hpad. cbv zeta in Hpad.
      fold (moov_of kids) in Hpad. fold moov in Hpad.
      assert (Hl : len moov = 8 + len (sers kids)) by (by apply len_boxed).
      rewrite <-Hl, (proj2 (Z.eqb_neq _ _)) in Hpad by done. rewrite Hpad. clear Hpad.
      case_bool_decide as Hfit; cbn [and_then].
      * left. exists (kids ++ [slack (reserved - len moov)]), post, junk. rewrite padded_moov.
        assert (Hpl : len (moov_of (kids ++ [slack (reserved - len moov)])) = reserved).
        { rewrite <-padded_moov, len_padded by (done || lia). lia. }
        rewrite Hover by done. rewrite <-Hlay. split_and!; [done|by left|right].
        exists (reserved - len moov). split_and!; [done|lia|lia].
      * right. split_and!; [done|done| |done]. unfold U32_MAX, MAX_READ_EXACT_VEC_BYTES in *. lia.
Qed.

(** An edited [moov] written in place reads back: at the same offset, and byte for byte once its
    slack is stripped.  Nothing before it changes; when media follows it, neither its extent nor the
    length of the file nor a byte behind it does.  The write is refused, with the lengths, only when
    media follows and the space for a [free] box is missing; a [moov] at the end always fits. *)
Theorem rewritten_moov_reads_back pre mb post junk kids :
  readable pre mb post junk → forallb wf kids = true → len (moov_of kids) ≤ MAX_READ_EXACT_VEC_BYTES →
  let file := file_of pre mb post junk in
  len file + MAX_READ_EXACT_VEC_BYTES + 8 ≤ I64_MAX →
  ∃ at_ old, read_moov file = Done (at_, old)
  ∧ let past f := drop (Z.to_nat (ml_start at_ + ml_len at_)) f in
    match write_moov_in_place file at_ (moov_of kids) with
    | Done file' =>
        ∃ new, read_moov file' = Done (mk_MoovLocation (ml_start at_) (len new) (ml_is_last at_), new)
        ∧ (new = moov_of kids ∨ strip_trailing_free new = Done (moov_of kids, true))
        ∧ take (Z.to_nat (ml_start at_)) file' = take (Z.to_nat (ml_start at_)) file
        ∧ (ml_is_last at_ = false → len new = ml_len at_ ∧ len file' = len file ∧ past file' = past file)
    | Err e => e = NoRoom (len (moov_of kids)) (ml_len at_) ∧ ml_is_last at_ = false
               ∧ ml_len at_ < len (moov_of kids) + 8
    | _ => False
    end.
Proof.
  intros Hr Hw Hm file Hroom. exists (moov_at pre mb post), (tser mb). split; [by apply readable_read|].
  cbv zeta. cbn [moov_at ml_start ml_len ml_is_last].
  pose proof (write_in_place_layout pre mb post junk kids Hr Hm) as Hcases. cbv zeta in Hcases. fold file in Hcases.
  destruct Hcases as [(kids' & post' & junk' & -> & Hp & Hk)|(-> & Hp & Hlt & _)];
    [|by rewrite bool_decide_eq_false_2 by done].
  assert (Hm' : len (moov_of kids') ≤ MAX_READ_EXACT_VEC_BYTES).
  { destruct Hk as [->|(gap & -> & Hg & Hl)]; [done|]. rewrite <-padded_moov, len_padded by done.
    unfold moov_of in Hl. rewrite len_boxed in Hl by done. lia. }
  assert (Hr' : readable pre (moov_box kids') post' junk').
  { apply (readable_swap pre mb post junk); [done| |done|done]. destruct Hp as [(-> & -> & _)|(_ & -> & -> & _)]; auto. }
  exists (moov_of kids'). rewrite (readable_read _ _ _ _ Hr'). split_and!.
  - unfold moov_at. change (tser (moov_box kids')) with (moov_of kids'). do 3 f_equal.
    destruct Hp as [(-> & _)|(-> & -> & _)]; done.
  - destruct Hk as [->|(gap & -> & Hg & Hl)]; [by left|right]. apply strip_slack; [done|done|].
    unfold moov_of in Hl. rewrite len_boxed in Hl by done. unfold MAX_READ_EXACT_VEC_BYTES in *. lia.
  - unfold file. rewrite !file_parts, !take_len. done.
  - intros Hlast%bool_decide_eq_false. destruct Hp as [(-> & -> & Hl)|(-> & _)]; [|done].
    unfold file. rewrite !file_parts. change (tser (moov_box kids')) with (moov_of kids').
    split_and!; [done|rewrite !len_app; lia|].
    rewrite !(assoc_L (++) (tsers pre)). rewrite <-len_app at 2. rewrite <-Hl at 1. by rewrite <-len_app, !drop_len.
Qed.

(** ** Chunk offsets and media *)

(** The chunk offsets of a tree, as [shift_chunk_offsets] meets them. *)
Fixpoint offsets (a : atom) : list Z :=
  match a with
  | Leaf _ _ => []
  | Node kind _ kids _ => if bool_decide (kind ∈ OFFSET_ANCESTORS) then concat (map offsets kids) else []
  | Table _ _ entries _ => entries
  end.
Definition all_offsets (l : list atom) : list Z := concat (map offsets l).

Lemma map_offsets_related f l : ∀ l', map_all_offsets f l = Some l' →
  Forall2 (λ o o', ∃ wide, f wide o = Some o') (all_offsets l) (all_offsets l').
Proof.
  induction l as [|kind body l IH|kind pre kids post l IHk IH|wide head entries tail l IH] using forest_ind;
    intros l' E; [by injection E as <-|..]; unfold map_all_offsets in E; cbn [foldr map_offsets] in E;
    fold (map_all_offsets f l) in E.
  - cbn in E. apply bind_Some in E as (m & Em & [= <-]). exact (IH m Em).
  - fold (map_all_offsets f kids) in E. case_bool_decide as Hk.
    + destruct (map_all_offsets f kids) as [ks|] eqn:Ek; [|done]. cbn in E.
      apply bind_Some in E as (m & Em & [= <-]). unfold all_offsets. cbn [map concat offsets].
      rewrite bool_decide_eq_true_2 by done. apply Forall2_app; [exact (IHk ks eq_refl)|exact (IH m Em)].
    + cbn in E. apply bind_Some in E as (m & Em & [= <-]). unfold all_offsets. cbn [map concat offsets].
      rewrite bool_decide_eq_false_2 by done. exact (IH m Em).
  - destruct (mapM (f wide) entries) as [es|] eqn:Ee; [|done]. cbn in E.
    apply bind_Some in E as (m & Em & [= <-]). unfold all_offsets. cbn [map concat offsets].
    apply Forall2_app; [|exact (IH m Em)]. apply mapM_Some in Ee. eapply Forall2_impl; [exact Ee|]. intros o o' Ho. by exists wide.
Qed.

(** [o'] in [file'] is where [o] was in [file]: every stretch from [o] on that keeps clear of the old
    [moov] is found again from [o'] on. *)
Definition same_media (file : bytes) (at_ : MoovLocation) (file' : bytes) (o o' : Z) : Prop :=
  ∀ n, 0 ≤ o → 0 ≤ n → o + n ≤ ml_start at_ ∨ ml_start at_ + ml_len at_ ≤ o →
  slice file' o' (o' + n) = slice file o (o + n).

Lemma slice_prefix A B C o n : 0 ≤ o → 0 ≤ n → o + n ≤ len A → slice (A ++ B) o (o + n) = slice (A ++ C) o (o + n).
Proof.
  intros. unfold slice. replace (o + n - o) with n by lia.
  rewrite !drop_app_le by (unfold len in *; lia). by rewrite !take_app_le by (rewrite length_drop; unfold len in *; lia).
Qed.

Lemma slice_suffix A B o n : 0 ≤ o → slice (A ++ B) (len A + o) (len A + o + n) = slice B o (o + n).
Proof.
  intros. unfold slice. replace (len A + o + n - (len A + o)) with (o + n - o) by lia. f_equal.
  unfold len. replace (Z.to_nat (Z.of_nat (length A) + o)) with (length A + Z.to_nat o)%nat by lia.
  by rewrite <-drop_drop, drop_app_length.
Qed.

(** A [moov] that keeps its place, or one that moved everything behind it by [delta]. *)
Lemma same_media_shift pre M M' C o o' : 8 ≤ len M →
  (o ≤ len pre → o' = o) → (len pre < o → o' = o + (len M' - len M)) →
  same_media (pre ++ M ++ C) (mk_MoovLocation (len pre) (len M) false) (pre ++ M' ++ C) o o'.
Proof.
  intros HM H1 H2 n Ho Hn Hcl. cbn [ml_start ml_len] in Hcl. destruct Hcl as [Hle|Hge].
  - rewrite H1 by lia. by apply slice_prefix.
  - rewrite H2 by (pose proof (len_nonneg pre); lia). rewrite !(assoc_L (++) pre).
    replace (o + (len M' - len M)) with (len (pre ++ M') + (o - len pre - len M)) by (rewrite len_app; lia).
    replace o with (len (pre ++ M) + (o - len pre - len M)) at 3 4 by (rewrite len_app; lia).
    rewrite !slice_suffix by lia. done.
Qed.

Definition moov_node (kids : list atom) : atom := Node (lit "moov") [] kids [].

Lemma ser_moov_node kids : sers [moov_node kids] = moov_of kids.
Proof. unfold moov_of, sers, moov_node. cbn [map concat ser app]. by rewrite !app_nil_r. Qed.

Lemma map_moov_node f kids :
  map_all_offsets f [moov_node kids] = kids ← map_all_offsets f kids; Some [moov_node kids].
Proof.
  unfold map_all_offsets at 1. cbn [foldr moov_node map_offsets]. rewrite bool_decide_eq_true_2 by (by left).
  fold (map_all_offsets f kids). by destruct (map_all_offsets f kids).
Qed.

Lemma wf_moov_node kids : forallb wf kids = true → len (moov_of kids) ≤ MAX_READ_EXACT_VEC_BYTES →
  forallb wf [moov_node kids] = true.
Proof.
  intros Hw Hm. cbn [forallb]. rewrite andb_true_r. rewrite <-ser_moov_node in Hm.
  unfold sers in Hm. cbn [map concat] in Hm. rewrite app_nil_r in Hm.
  unfold moov_node in *. cbn [wf]. rewrite (proj2 (Z.ltb_lt _ _)) by (unfold MAX_READ_EXACT_VEC_BYTES in *; lia).
  rewrite Hw. done.
Qed.

Lemma shift_entry_cases above delta wide o o' : shift_entry above delta wide o = Some o' →
  (o ≤ above → o' = o) ∧ (above < o → o' = o + delta).
Proof.
  unfold shift_entry. destruct (Z.leb_spec o above); [intros [= <-]; split; [done|lia]|].
  intros (new & En & E)%bind_Some. split; [lia|]. intros _.
  assert (new = o + delta) as ->.
  { unfold moved_offset, i64_of, i64_checked_add, u64_of in En. destruct (_ <=? _); [cbn in En|done].
    case_bool_decide; [cbn in En|done]. destruct (_ <=? _); congruence. }
  destruct wide; [congruence|]. unfold u32_of in E. destruct (_ <=? _); congruence.
Qed.

(** Rebuilding a file around a [moov] that outgrew its place. *)
Lemma rebuild_layout pre mb post junk kids :
  readable pre mb post junk → forallb wf kids = true → len (moov_of kids) ≤ MAX_READ_EXACT_VEC_BYTES →
  len (tser mb) ≠ len (moov_of kids) →
  let r := rebuild_around_moov (file_of pre mb post junk) (moov_at pre mb post) (moov_of kids) in
  match map_all_offsets (shift_entry (len (tsers pre)) (len (moov_of kids) - len (tser mb))) kids with
  | Some kids' => r = Done (file_of pre (moov_box kids') post junk)
  | None => ∃ s, r = Err (Container s)
  end.
Proof.
  intros Hr Hw Hm Hne r. destruct Hr as [Hok _ _ _ Hlen Hmax].
  assert (HI : I64_MAX = 2 ^ 63 - 1) by done. assert (HMx : MAX_READ_EXACT_VEC_BYTES < 2 ^ 32) by done.
  assert (Hparts : len (tsers pre) + len (tser mb) ≤ len (file_of pre mb post junk)).
  { rewrite file_parts, !len_app. pose proof (len_nonneg (tsers post)). pose proof (len_nonneg junk). lia. }
  pose proof (len_nonneg (tsers pre)). pose proof (len_nonneg (tser mb)). pose proof (len_nonneg (moov_of kids)).
  unfold r, rebuild_around_moov, moov_at. cbn [ml_start ml_len]. unfold i64_of.
  fold (file_of pre mb post junk) in Hlen.
  rewrite !(proj2 (Z.leb_le _ _)) by lia. cbn [mbind option_bind ok_or and_then].
  pose proof (shift_ser (len (tsers pre)) (len (moov_of kids) - len (tser mb)) [moov_node kids]) as E.
  specialize (E (wf_moov_node _ Hw Hm) ltac:(lia)). rewrite ser_moov_node, map_moov_node in E.
  unfold then_shift, shifted in E. destruct (map_all_offsets _ kids) as [kids'|]; cbn [mbind option_bind] in E;
    [|destruct E as [s ->]; by exists s].
  rewrite E, ser_moov_node. cbn [and_then]. unfold copy_exact. rewrite (proj2 (Z.ltb_ge _ _)) by lia. cbn [and_then].
  rewrite u64_add_small, seek_ok by lia. cbn [and_then]. f_equal.
  rewrite !file_parts. rewrite take_len. do 2 f_equal.
  rewrite <-len_app, (assoc_L (++)), drop_len. done.
Qed.

