(* ===== verification/Mp4ChaptersTree.v ===== *)
(** * The chapters of a tree of boxes

    Reading the bytes of a [moov] through [iter_children] is reading its tree; what
    [strip_existing_chapters] does, stated on the tree, and that the edit of the bytes is this edit. *)

From stdpp Require Import base option list sets numbers strings pretty.
From Stdlib Require Import ZArith Lia.
From S2P Require Import Prelude Mp4Bytes Mp4Edit Mp4Read Mp4File Mp4Chapters Mp4Walk Mp4Tree Mp4Layout Mp4Tables Mp4Slack.

Local Open Scope Z_scope.

(** ** Trees *)

Definition content_of (a : atom) : bytes :=
  match a with
  | Leaf _ body => body
  | Node _ pre kids post => pre ++ sers kids ++ post
  | Table wide head entries tail => head ++ rows wide entries ++ tail
  end.
Lemma ser_content a : ser a = boxed (kind_of a) (content_of a).
Proof. by destruct a. Qed.

Definition kids_of (a : atom) : list atom := match a with Node _ _ kids _ => kids | _ => [] end.
Definition of_kind (k : bytes) (a : atom) : bool := bool_decide (kind_of a = k).
Definition not_kind (k : bytes) (a : atom) : bool := negb (of_kind k a).
Definition node (kind : bytes) (kids : list atom) : atom := Node kind [] kids [].

(** The boxes this module looks into are lists of boxes; headers and handlers are long enough. *)
Definition OPENED : list bytes := map lit ["trak"; "udta"; "tref"; "mdia"].
Fixpoint sound (a : atom) : bool :=
  (len (ser a) <? 2 ^ 32) && (length (kind_of a) =? 4)%nat
  && (if of_kind (lit "tkhd") a then 24 <=? len (content_of a) else true)
  && (if of_kind (lit "hdlr") a then 12 <=? len (content_of a) else true)
  && match a with
     | Node kind pre kids post =>
         if bool_decide (kind ∈ OPENED) then bool_decide (pre = []) && bool_decide (post = []) && forallb sound kids else true
     | _ => negb (bool_decide (kind_of a ∈ OPENED))
     end.

Record is_sound (a : atom) : Prop := {
  so_size : 8 ≤ len (ser a) < 2 ^ 32;
  so_kind : length (kind_of a) = 4%nat;
  so_tkhd : kind_of a = lit "tkhd" → 24 ≤ len (content_of a);
  so_hdlr : kind_of a = lit "hdlr" → 12 ≤ len (content_of a);
  so_open : kind_of a ∈ OPENED → a = node (kind_of a) (kids_of a) ∧ forallb sound (kids_of a) = true;
}.

Lemma sound_spec a : sound a = true → is_sound a.
Proof.
  intros H. assert (Hp : ((len (ser a) <? 2 ^ 32) && (length (kind_of a) =? 4)%nat
    && (if of_kind (lit "tkhd") a then 24 <=? len (content_of a) else true)
    && (if of_kind (lit "hdlr") a then 12 <=? len (content_of a) else true)) = true
    ∧ match a with
      | Node kind pre kids post =>
          if bool_decide (kind ∈ OPENED) then bool_decide (pre = []) && bool_decide (post = []) && forallb sound kids else true
      | _ => negb (bool_decide (kind_of a ∈ OPENED))
      end = true) by (destruct a; cbn [sound] in H; by apply andb_prop in H). clear H.
  destruct Hp as [[[[H1%Z.ltb_lt H2%Nat.eqb_eq]%andb_prop H3]%andb_prop H4]%andb_prop H5]. split.
  - rewrite ser_content, len_boxed in * by done. pose proof (len_nonneg (content_of a)). lia.
  - done.
  - intros E. unfold of_kind in H3. rewrite bool_decide_eq_true_2 in H3 by done. by apply Z.leb_le.
  - intros E. unfold of_kind in H4. rewrite bool_decide_eq_true_2 in H4 by done. by apply Z.leb_le.
  - intros Ho. destruct a as [kind body|kind pre kids post|wide head es tail]; cbn [kind_of kids_of] in *.
    + by rewrite bool_decide_eq_true_2 in H5.
    + rewrite bool_decide_eq_true_2 in H5 by done. apply andb_prop in H5 as [[->%bool_decide_eq_true ->%bool_decide_eq_true]%andb_prop H5]. done.
    + by rewrite bool_decide_eq_true_2 in H5.
Qed.

Lemma sounds l : forallb sound l = true → Forall is_sound l.
Proof. intros H. apply Forall_forall. intros a Ha%list_elem_of_In. apply sound_spec. by apply (proj1 (forallb_forall _ _) H). Qed.

(** ** Spans over a tree *)

Definition span (pos : Z) (a : atom) : AtomSpan := mk_AtomSpan pos (len (ser a)) 8.
Fixpoint spans (pos : Z) (l : list atom) : list AtomSpan :=
  match l with [] => [] | a :: l => span pos a :: spans (pos + len (ser a)) l end.

Section Spans.
Context (data : bytes) (Hsmall : len data < 2 ^ 63).

Lemma children_spans l : ∀ fuel pos end_, Forall is_sound l → holds data pos (sers l) → end_ = pos + len (sers l) →
  (length l < fuel)%nat → children_from fuel data pos end_ = Done (spans pos l).
Proof.
  induction l as [|a l IH]; intros fuel pos end_ Hl Hh -> Hf; (destruct fuel as [|fuel]; [cbn in Hf; lia|]); cbn [children_from spans].
  { change (len (sers [])) with 0. by rewrite (proj2 (Z.ltb_lt _ _)) by lia. }
  apply Forall_cons in Hl as [Ha Hl]. destruct Ha as [Hs Hk _ _ _]. rewrite sers_cons in *. pose proof (holds_bounds _ _ _ Hh) as [H0 Hb].
  rewrite len_app in *. apply holds_app in Hh as [Ha Hr]. pose proof (len_nonneg (sers l)). rewrite (proj2 (Z.ltb_ge _ _)) by lia.
  pose proof Ha as Hat. rewrite ser_content in Hat. unfold boxed in Hat. apply holds_app in Hat as [Hsz _].
  rewrite (holds_be32 _ _ _ Hsz). cbn [and_then]. rewrite ser_content, len_boxed in Hs by done.
  rewrite Z.mod_small, (proj2 (Z.eqb_neq _ 1)), (proj2 (Z.eqb_neq _ 0)) by lia.
  assert (E : 8 + len (content_of a) = len (ser a)) by (rewrite ser_content, len_boxed; done). rewrite E in *.
  unfold u64_add. rewrite !(Z.mod_small (pos + len (ser a))) by lia. rewrite (proj2 (Z.ltb_ge (len (ser a)) 8)), (proj2 (Z.ltb_ge _ (pos + _))) by lia. cbn [orb].
  rewrite IH; [done|done|done|lia|cbn in Hf; lia].
Qed.

Lemma iter_node pos kind kids : Forall is_sound kids → length kind = 4%nat → holds data pos (ser (node kind kids)) →
  iter_children data (span pos (node kind kids)) = Done (spans (pos + 8) kids) ∧ holds data (pos + 8) (sers kids).
Proof.
  intros Hk H4 Hh. pose proof (holds_bounds _ _ _ Hh) as [H0 Hb]. assert (Hk4 : len kind = 4) by (unfold len; lia).
  assert (Hl : len (ser (node kind kids)) = 8 + len (sers kids)).
  { unfold node. cbn [ser app]. fold (sers kids). by rewrite app_nil_r, len_boxed. }
  assert (Hin : holds data (pos + 8) (sers kids)).
  { unfold node in Hh. cbn [ser app] in Hh. fold (sers kids) in Hh. rewrite app_nil_r in Hh. unfold boxed in Hh.
    apply holds_app in Hh as [_ [_ Hh]%holds_app]. rewrite len_to_be, Hk4 in Hh. by replace (pos + 8) with (pos + Z.of_nat 4 + 4) by lia. }
  split; [|done]. unfold iter_children, span, as_end. cbn [as_offset as_size as_header]. pose proof (len_nonneg (sers kids)).
  rewrite !u64_add_small by lia. apply children_spans; [done|done|lia|]. unfold walk_fuel.
  assert (Hc : Z.of_nat (length kids) ≤ len (sers kids)); [|unfold len in *; lia].
  clear -Hk. induction Hk as [|a l [[Hs _] _ _ _ _] _ IH]; [done|]. rewrite sers_cons, len_app. cbn [length]. lia.
Qed.

Lemma type_span pos a k : length (kind_of a) = 4%nat → holds data pos (ser a) →
  atom_type data (span pos a) = Done (kind_of a) ∧ is_type data k (span pos a) = Done (of_kind k a).
Proof.
  intros Hk Hh. assert (Hk4 : len (kind_of a) = 4) by (unfold len; lia). rewrite ser_content in Hh. unfold boxed in Hh.
  apply holds_app in Hh as [_ [Hh _]%holds_app]. rewrite len_to_be in Hh.
  assert (E : atom_type data (span pos a) = Done (kind_of a)) by (unfold atom_type, span; cbn [as_offset]; apply holds_index; [done|lia]).
  unfold is_type. by rewrite E.
Qed.

Lemma bytes_span pos a : holds data pos (ser a) → atom_bytes data (span pos a) = Done (ser a).
Proof.
  intros Hh. pose proof (holds_bounds _ _ _ Hh). pose proof (len_nonneg (ser a)). unfold atom_bytes, as_end, span. cbn [as_offset as_size].
  apply holds_index; [done|]. apply u64_add_small; lia.
Qed.

(** The first box that passes a test, and where it lies. *)
Fixpoint first_where (t : atom → bool) (l : list atom) (pos : Z) : option (Z * atom) :=
  match l with [] => None | a :: l => if t a then Some (pos, a) else first_where t l (pos + len (ser a)) end.

Lemma find_spans p t l : ∀ pos,
  (∀ q a, a ∈ l → holds data q (ser a) → p (span q a) = Done (t a)) → holds data pos (sers l) →
  find_m p (spans pos l) = Done ((λ '(q, a), span q a) <$> first_where t l pos).
Proof.
  induction l as [|a l IH]; intros pos Hp Hh; cbn [spans find_m first_where]; [done|]. rewrite sers_cons in Hh. apply holds_app in Hh as [Ha Hr].
  rewrite (Hp pos a (list_elem_of_here _ _) Ha). cbn [and_then]. destruct (t a); [done|]. apply IH; [|done].
  intros q b Hb. apply Hp. by right.
Qed.

Lemma first_where_spec t l pos q a : first_where t l pos = Some (q, a) →
  List.find t l = Some a ∧ a ∈ l ∧ ∃ l1 l2, l = l1 ++ a :: l2 ∧ q = pos + len (sers l1).
Proof.
  revert pos. induction l as [|b l IH]; intros pos E; cbn [first_where find] in *; [done|]. destruct (t b).
  - injection E as <- <-. split_and!; [done|by left|]. exists [], l. split; [done|]. by rewrite Z.add_0_r.
  - destruct (IH _ E) as (H1 & H2 & l1 & l2 & -> & ->). split_and!; [done|by right|]. exists (b :: l1), l2. split; [done|].
    rewrite sers_cons, len_app. lia.
Qed.

Lemma first_where_none t l pos : first_where t l pos = None → List.find t l = None.
Proof. revert pos. induction l as [|b l IH]; intros pos E; cbn [first_where find] in *; [done|]. destruct (t b); [done|]. by eapply IH. Qed.

Lemma first_where_holds t l pos q a : first_where t l pos = Some (q, a) → holds data pos (sers l) → holds data q (ser a).
Proof.
  intros (_ & _ & l1 & l2 & -> & ->)%first_where_spec Hh. rewrite sers_app, sers_cons in Hh. by apply holds_app in Hh as [_ [? _]%holds_app].
Qed.

Lemma collect_spans {B} (f : AtomSpan → outcome (list B)) (g : atom → list B) l : ∀ pos,
  (∀ q a, a ∈ l → holds data q (ser a) → f (span q a) = Done (g a)) → holds data pos (sers l) →
  collect_m f (spans pos l) = Done (concat (map g l)).
Proof.
  induction l as [|a l IH]; intros pos Hf Hh; cbn [spans collect_m map concat]; [done|]. rewrite sers_cons in Hh. apply holds_app in Hh as [Ha Hr].
  rewrite (Hf pos a (list_elem_of_here _ _) Ha). cbn [and_then]. rewrite IH; [done| |done]. intros q b Hb. apply Hf. by right.
Qed.

Lemma filter_spans p t l : ∀ pos,
  (∀ q a, a ∈ l → holds data q (ser a) → p (span q a) = Done (t a)) → holds data pos (sers l) →
  ∃ traks, filter_m p (spans pos l) = Done traks
    ∧ ∀ {B} (f : AtomSpan → outcome (list B)) (g : atom → list B),
        (∀ q a, a ∈ l → t a = true → holds data q (ser a) → f (span q a) = Done (g a)) →
        collect_m f traks = Done (concat (map g (List.filter t l))).
Proof.
  induction l as [|a l IH]; intros pos Hp Hh; cbn [spans filter_m List.filter]; [by exists []|]. rewrite sers_cons in Hh. apply holds_app in Hh as [Ha Hr].
  rewrite (Hp pos a (list_elem_of_here _ _) Ha). cbn [and_then].
  destruct (IH (pos + len (ser a))) as (traks & -> & Hc); [intros q b Hb; apply Hp; by right|done|]. cbn [and_then].
  destruct (t a) eqn:Et; eexists; (split; [done|]); intros B f g Hf; cbn [collect_m map concat].
  - rewrite (Hf pos a (list_elem_of_here _ _) Et Ha). cbn [and_then]. rewrite (Hc B f g); [done|]. intros q b Hb. apply Hf. by right.
  - apply Hc. intros q b Hb. apply Hf. by right.
Qed.

Lemma kind_tests l k : Forall is_sound l → ∀ q a, a ∈ l → holds data q (ser a) → is_type data k (span q a) = Done (of_kind k a).
Proof. intros Hl q a Ha Hh. apply type_span; [|done]. by destruct (proj1 (Forall_forall _ _) Hl a Ha). Qed.

Lemma find_kind_spans k l pos : Forall is_sound l → holds data pos (sers l) →
  find_kind data k (spans pos l) = Done ((λ '(q, a), span q a) <$> first_where (of_kind k) l pos).
Proof. intros Hl Hh. apply find_spans; [by apply kind_tests|done]. Qed.

Lemma pick_first_where k l pos : match first_where (of_kind k) l pos with
  | Some (q, a) => pick k l = Some a ∧ a ∈ l ∧ kind_of a = k
  | None => pick k l = None
  end.
Proof.
  destruct (first_where (of_kind k) l pos) as [[q a]|] eqn:E.
  - apply first_where_spec in E as (H1 & H2 & _). split_and!; [exact H1|done|].
    apply List.find_some in H1 as [_ H1]. unfold of_kind in H1. by apply bool_decide_eq_true in H1.
  - by apply first_where_none in E.
Qed.

(** ** Fields *)

Lemma index_inside pos c a b : holds data pos c → 0 ≤ a ≤ b → b ≤ len c → index data (pos + a) (pos + b) = Done (slice c a b).
Proof.
  intros Hh Hab Hb. destruct (index_holds c a b (slice c a b)) as [(x & y & E & Hx) Hl]; [by apply index_total|].
  rewrite E in Hh. apply holds_app in Hh as [_ [Hh _]%holds_app]. rewrite Hx in Hh. apply holds_index; [done|lia].
Qed.

Lemma content_held pos a : length (kind_of a) = 4%nat → holds data pos (ser a) → holds data (pos + 8) (content_of a).
Proof.
  intros Hk Hh. assert (Hk4 : len (kind_of a) = 4) by (unfold len; lia). rewrite ser_content in Hh. unfold boxed in Hh.
  apply holds_app in Hh as [_ [_ Hh]%holds_app]. rewrite len_to_be, Hk4 in Hh. by replace (pos + 8) with (pos + Z.of_nat 4 + 4) by lia.
Qed.

Definition id_of (tkhd : atom) : Z :=
  let c := content_of tkhd in
  if from_be (slice c 0 1) =? 0 then from_be (slice c 12 16) else from_be (slice c 20 24).
Definition track_id_of (kids : list atom) : option Z := id_of <$> pick (lit "tkhd") kids.
Definition handler_of (mdia : atom) : option bytes := (λ h, slice (content_of h) 8 12) <$> pick (lit "hdlr") (kids_of mdia).

Lemma read_id pos a : is_sound a → kind_of a = lit "tkhd" → holds data pos (ser a) → read_tkhd_id data (span pos a) = Done (id_of a).
Proof.
  intros [_ Hk Ht _ _] E Hh. specialize (Ht E). pose proof (content_held pos a Hk Hh) as Hc.
  unfold read_tkhd_id, span, byte_at, be32_at, id_of. cbn [as_offset as_header].
  replace (pos + 8) with (pos + 8 + 0) at 1 by lia. replace (pos + 8 + 1) with (pos + 8 + 1) by lia.
  rewrite (index_inside (pos + 8) (content_of a) 0 1) by (done || lia). cbn [and_then].
  destruct (from_be _ =? 0).
  - replace (pos + 8 + 12 + 4) with (pos + 8 + 16) by lia. by rewrite (index_inside (pos + 8) (content_of a) 12 16) by (done || lia).
  - replace (pos + 8 + 20 + 4) with (pos + 8 + 24) by lia. by rewrite (index_inside (pos + 8) (content_of a) 20 24) by (done || lia).
Qed.

Lemma opened_node a k : is_sound a → kind_of a = k → k ∈ OPENED → a = node k (kids_of a) ∧ Forall is_sound (kids_of a).
Proof. intros [_ _ _ _ Ho] <- Hk. destruct (Ho Hk) as [E H]. split; [done|by apply sounds]. Qed.

Lemma iter_opened pos a k : is_sound a → kind_of a = k → k ∈ OPENED → holds data pos (ser a) →
  iter_children data (span pos a) = Done (spans (pos + 8) (kids_of a)) ∧ holds data (pos + 8) (sers (kids_of a)) ∧ Forall is_sound (kids_of a).
Proof.
  intros Hs Hk Ho Hh. destruct (opened_node a k Hs Hk Ho) as [E Hl]. pose proof (so_kind _ Hs) as H4. rewrite Hk in H4. rewrite E in Hh |- *.
  destruct (iter_node pos k (kids_of a) Hl H4 Hh) as [H1 H2]. done.
Qed.

Lemma trak_id_spans pos kids : Forall is_sound kids → holds data pos (sers kids) → trak_id data (spans pos kids) = Done (track_id_of kids).
Proof.
  intros Hk Hh. unfold trak_id, track_id_of. rewrite (find_kind_spans _ _ _ Hk Hh). cbn [and_then].
  pose proof (pick_first_where (lit "tkhd") kids pos) as Hp. destruct (first_where _ kids pos) as [[q a]|] eqn:E; cbn [fmap option_fmap option_map].
  - destruct Hp as (-> & Ha & Ek). rewrite (read_id q a); [done| |done|by eapply first_where_holds]. by apply (proj1 (Forall_forall _ _) Hk).
  - by rewrite Hp.
Qed.

Lemma handler_span pos a : is_sound a → kind_of a = lit "mdia" → holds data pos (ser a) → hdlr_type data (span pos a) = Done (handler_of a).
Proof.
  intros Hs Hk Hh. destruct (iter_opened pos a (lit "mdia") Hs Hk) as (E & Hin & Hl); [apply (bool_decide_unpack _); by vm_compute|done|].
  unfold hdlr_type, handler_of. rewrite E. cbn [and_then]. rewrite (find_kind_spans _ _ _ Hl Hin). cbn [and_then].
  pose proof (pick_first_where (lit "hdlr") (kids_of a) (pos + 8)) as Hp. destruct (first_where _ (kids_of a) (pos + 8)) as [[q h]|] eqn:Ef; cbn [fmap option_fmap option_map].
  - destruct Hp as (-> & Ha & Ek). pose proof (proj1 (Forall_forall _ _) Hl h Ha) as [_ H4 _ Hlong _]. specialize (Hlong Ek).
    pose proof (content_held q h H4 (first_where_holds _ _ _ _ _ Ef Hin)) as Hc. pose proof (holds_bounds _ _ _ Hc).
    unfold span. cbn [as_offset as_header]. rewrite (proj2 (Z.leb_le _ _)) by lia. cbn [fmap option_fmap option_map].
    pose proof (index_inside (q + 8) (content_of h) 8 12 Hc ltac:(lia) ltac:(lia)) as Hi.
    rewrite index_total in Hi by lia. apply Done_inj in Hi. by rewrite Hi.
  - by rewrite Hp.
Qed.
End Spans.

(** ** Old chapters, on a tree *)

Definition refs_of (kids : list atom) : list Z :=
  match pick (lit "tref") kids with
  | Some tref => match pick (lit "chap") (kids_of tref) with Some chap => quads (content_of chap) | None => [] end
  | None => []
  end.
Definition text_ids (kids : list atom) : list Z :=
  match pick (lit "mdia") kids with
  | Some mdia => if bool_decide (handler_of mdia = Some (lit "text")) then option_list (track_id_of kids) else []
  | None => []
  end.
Definition chapter_ids_of (items : list atom) : list Z :=
  concat (map (λ t, refs_of (kids_of t) ++ text_ids (kids_of t)) (List.filter (of_kind (lit "trak")) items)).

Definition strip_refs (tref : atom) : list atom :=
  match List.filter (not_kind (lit "chap")) (kids_of tref) with [] => [] | others => [node (lit "tref") others] end.
Definition strip_track (trak : atom) : atom :=
  node (lit "trak") (concat (map (λ k, if of_kind (lit "tref") k then strip_refs k else [k]) (kids_of trak))).
Definition removed (ids : list Z) (trak : atom) : bool :=
  match track_id_of (kids_of trak) with Some id => bool_decide (id ∈ ids) | None => false end.
Definition strip_lists (udta : atom) : atom := node (lit "udta") (List.filter (not_kind (lit "chpl")) (kids_of udta)).
Definition strip_item (ids : list Z) (a : atom) : list atom :=
  if of_kind (lit "trak") a then if removed ids a then [] else [strip_track a]
  else if of_kind (lit "udta") a then [strip_lists a] else [a].
Definition strip_tree (items : list atom) : list atom := concat (map (strip_item (chapter_ids_of items)) items).

(** ** The edit of the bytes is the edit of the tree *)

Lemma sers_concat l : sers (concat l) = concat (map sers l).
Proof. induction l as [|x l IH]; cbn [concat map]; [done|]. by rewrite sers_app, IH. Qed.

Lemma sers_one a : sers [a] = ser a.
Proof. apply app_nil_r. Qed.

Lemma concat_sers {A} (g : A → list atom) l : concat (map (λ a, sers (g a)) l) = sers (concat (map g l)).
Proof. rewrite sers_concat, map_map. done. Qed.

Lemma sers_filter (t : atom → bool) l : concat (map (λ a, if t a then [] else ser a) l) = sers (List.filter (λ a, negb (t a)) l).
Proof. induction l as [|a l IH]; cbn [map concat List.filter]; [done|]. rewrite IH. destruct (t a); cbn [negb]; [done|]. by rewrite sers_cons. Qed.

(** Restating the size of a box with other children. *)
Lemma resize_head h kids kind : length h = 4%nat → length kind = 4%nat → 8 + len (sers kids) ≤ U32_MAX →
  set_atom_size ((h ++ kind) ++ sers kids) 0 (len ((h ++ kind) ++ sers kids)) = Done (ser (node kind kids)).
Proof.
  intros Hh Hk Hs. assert (len h = 4) by (unfold len; lia). assert (len kind = 4) by (unfold len; lia).
  unfold set_atom_size. rewrite !len_app. rewrite (proj2 (Z.ltb_ge _ _)) by lia. rewrite <-!(assoc_L (++)).
  rewrite (store_mid [] h (kind ++ sers kids)) by (rewrite len_to_be; lia). unfold node. cbn [ser app]. fold (sers kids). rewrite app_nil_r.
  unfold boxed. do 3 f_equal. lia.
Qed.

Section Strip.
Context (data : bytes) (Hsmall : len data < 2 ^ 63).

Lemma head_span pos a : length (kind_of a) = 4%nat → holds data pos (ser a) →
  index data pos (pos + 8) = Done (be32 (8 + len (content_of a)) ++ kind_of a).
Proof.
  intros Hk Hh. assert (Hk4 : len (kind_of a) = 4) by (unfold len; lia). apply holds_index; [|rewrite len_app, len_to_be; lia].
  rewrite ser_content in Hh. unfold boxed in Hh. rewrite (assoc_L (++)) in Hh. by apply holds_app in Hh as [? _].
Qed.

Lemma atoms_but_spans k l pos : Forall is_sound l → holds data pos (sers l) →
  atoms_but data k (spans pos l) = Done (sers (List.filter (not_kind k) l)).
Proof.
  intros Hl Hh. unfold atoms_but. rewrite (collect_spans data _ (λ a, if of_kind k a then [] else ser a) l pos); [by rewrite sers_filter| |done].
  intros q a Ha Hq. rewrite (kind_tests data l k Hl q a Ha Hq). cbn [and_then]. destruct (of_kind k a); [done|by apply bytes_span].
Qed.

Lemma filter_len (t : atom → bool) l : len (sers (List.filter t l)) ≤ len (sers l).
Proof.
  induction l as [|a l IH]; cbn [List.filter]; [done|]. pose proof (len_nonneg (ser a)).
  destruct (t a); rewrite !sers_cons, ?len_app; rewrite ?sers_cons, ?len_app; lia.
Qed.

Lemma len_node kind kids : length kind = 4%nat → len (ser (node kind kids)) = 8 + len (sers kids).
Proof. intros Hk. unfold node. cbn [ser app]. fold (sers kids). by rewrite app_nil_r, len_boxed. Qed.

Lemma sound_nonempty l : Forall is_sound l → l ≠ [] → 8 ≤ len (sers l).
Proof. intros Hl Hne. destruct Hl as [|a l [[Hs _] _ _ _ _] _]; [done|]. rewrite sers_cons, len_app. pose proof (len_nonneg (sers l)). lia. Qed.

Lemma Forall_filter_list {A} (P : A → Prop) (t : A → bool) l : Forall P l → Forall P (List.filter t l).
Proof. induction 1 as [|a l Ha _ IH]; cbn [List.filter]; [done|]. destruct (t a); [by constructor|done]. Qed.

Lemma strip_tref_span pos a : is_sound a → kind_of a = lit "tref" → holds data pos (ser a) →
  strip_tref data (span pos a) = Done (sers (strip_refs a)).
Proof.
  intros Hs Hk Hh. assert (Ho : lit "tref" ∈ OPENED) by (apply (bool_decide_unpack _); by vm_compute).
  destruct (iter_opened data Hsmall pos a (lit "tref") Hs Hk Ho Hh) as (E & Hin & Hl). destruct (opened_node a _ Hs Hk Ho) as [Ea _].
  pose proof (so_size _ Hs) as Hsz. rewrite Ea in Hsz. rewrite len_node in Hsz by done.
  unfold strip_tref, strip_refs. rewrite E. cbn [and_then].
  assert (Honly : match spans (pos + 8) (kids_of a) with [c] => is_type data (lit "chap") c | _ => Done false end
    = Done match kids_of a with [c] => of_kind (lit "chap") c | _ => false end).
  { destruct (kids_of a) as [|c [|d ks]] eqn:Ek; [done| |done]. cbn [spans]. rewrite sers_one in Hin.
    apply (kind_tests data [c] (lit "chap")); [done|by left|done]. }
  rewrite Honly. cbn [and_then]. destruct (match kids_of a with [c] => of_kind (lit "chap") c | _ => false end) eqn:Eo.
  { destruct (kids_of a) as [|c [|d ks]]; [done| |done]. cbn [List.filter]. unfold not_kind. rewrite Eo. done. }
  change (as_offset (span pos a)) with pos. rewrite (head_span pos a) by (done || (rewrite Hk; done)). cbn [and_then].
  rewrite (atoms_but_spans _ _ _ Hl Hin). cbn [and_then]. set (others := List.filter _ (kids_of a)).
  pose proof (filter_len (not_kind (lit "chap")) (kids_of a)) as Hfl. fold others in Hfl.
  assert (Hlen : len ((be32 (8 + len (content_of a)) ++ kind_of a) ++ sers others) = 8 + len (sers others)).
  { rewrite !len_app, len_to_be, Hk. change (len (lit "tref")) with 4. lia. }
  destruct others as [|o os] eqn:Eoth.
  { rewrite (proj2 (Z.ltb_ge _ _)); [done|]. rewrite Hlen. change (len (sers [])) with 0. lia. }
  rewrite <-Eoth in *. assert (Hne : 8 ≤ len (sers others)) by (apply sound_nonempty; [by apply Forall_filter_list|congruence]).
  rewrite (proj2 (Z.ltb_lt _ _)) by lia. rewrite Hk, resize_head; [by rewrite sers_one|apply length_to_be|done|unfold U32_MAX; lia].
Qed.

Lemma strip_refs_len a : is_sound a → kind_of a = lit "tref" → len (sers (strip_refs a)) ≤ len (ser a).
Proof.
  intros Hs Hk. destruct (opened_node a _ Hs Hk ltac:(apply (bool_decide_unpack _); by vm_compute)) as [Ea _]. rewrite Ea at 2. rewrite len_node by done.
  unfold strip_refs. pose proof (filter_len (not_kind (lit "chap")) (kids_of a)) as Hf. pose proof (len_nonneg (sers (kids_of a))).
  destruct (List.filter _ (kids_of a)) as [|o os]; [change (len (sers [])) with 0; lia|]. rewrite sers_one, len_node by done. lia.
Qed.

Lemma strip_track_len a : is_sound a → kind_of a = lit "trak" → len (sers (kids_of (strip_track a))) ≤ len (sers (kids_of a)).
Proof.
  intros Hs Hk. destruct (opened_node a _ Hs Hk ltac:(apply (bool_decide_unpack _); by vm_compute)) as [_ Hl]. unfold strip_track. cbn [kids_of].
  unfold node. cbn [kids_of]. induction Hl as [|k l Hsk _ IH]; cbn [map concat]; [done|]. rewrite sers_app, sers_cons, !len_app.
  destruct (of_kind (lit "tref") k) eqn:Ek; [|rewrite sers_one; lia].
  pose proof (strip_refs_len k Hsk) as Hr. unfold of_kind in Ek. apply bool_decide_eq_true in Ek. specialize (Hr Ek). lia.
Qed.

Lemma strip_trak_span ids pos a : is_sound a → kind_of a = lit "trak" → holds data pos (ser a) →
  strip_trak data ids (span pos a) = Done (sers (if removed ids a then [] else [strip_track a])).
Proof.
  intros Hs Hk Hh. assert (Ho : lit "trak" ∈ OPENED) by (apply (bool_decide_unpack _); by vm_compute).
  destruct (iter_opened data Hsmall pos a (lit "trak") Hs Hk Ho Hh) as (E & Hin & Hl). destruct (opened_node a _ Hs Hk Ho) as [Ea _].
  pose proof (so_size _ Hs) as Hsz. rewrite Ea in Hsz. rewrite len_node in Hsz by done.
  unfold strip_trak. rewrite E. cbn [and_then]. rewrite (trak_id_spans data _ _ Hl Hin). cbn [and_then]. fold (removed ids a).
  destruct (removed ids a); [done|]. change (as_offset (span pos a)) with pos. rewrite (head_span pos a) by (done || (rewrite Hk; done)). cbn [and_then].
  rewrite (collect_spans data _ (λ k, sers (if of_kind (lit "tref") k then strip_refs k else [k])) (kids_of a) (pos + 8)); [| |done].
  - cbn [and_then]. rewrite concat_sers, Hk. pose proof (strip_track_len a Hs Hk) as Hle. unfold strip_track in Hle |- *. unfold node in Hle. cbn [kids_of] in Hle.
    rewrite resize_head; [by rewrite sers_one|apply length_to_be|done|unfold U32_MAX; lia].
  - intros q k Hin' Hq. rewrite (kind_tests data _ (lit "tref") Hl q k Hin' Hq). cbn [and_then].
    destruct (of_kind (lit "tref") k) eqn:Ek; [|rewrite sers_one; by apply bytes_span].
    apply strip_tref_span; [by apply (proj1 (Forall_forall _ _) Hl)|by apply bool_decide_eq_true in Ek|done].
Qed.

Lemma strip_udta_span pos a : is_sound a → kind_of a = lit "udta" → holds data pos (ser a) →
  strip_udta data (span pos a) = Done (ser (strip_lists a)).
Proof.
  intros Hs Hk Hh. assert (Ho : lit "udta" ∈ OPENED) by (apply (bool_decide_unpack _); by vm_compute).
  destruct (iter_opened data Hsmall pos a (lit "udta") Hs Hk Ho Hh) as (E & Hin & Hl). destruct (opened_node a _ Hs Hk Ho) as [Ea _].
  pose proof (so_size _ Hs) as Hsz. rewrite Ea in Hsz. rewrite len_node in Hsz by done.
  unfold strip_udta, with_children. rewrite E. cbn [and_then]. rewrite (atoms_but_spans _ _ _ Hl Hin). cbn [and_then].
  change (as_offset (span pos a)) with pos. rewrite (head_span pos a) by (done || (rewrite Hk; done)). cbn [and_then]. cbv zeta.
  pose proof (filter_len (not_kind (lit "chpl")) (kids_of a)) as Hf.
  rewrite Hk, resize_head; [done|apply length_to_be|done|unfold U32_MAX; lia].
Qed.

Lemma strip_child_span ids pos a : is_sound a → holds data pos (ser a) →
  strip_child data ids (span pos a) = Done (sers (strip_item ids a)).
Proof.
  intros Hs Hh. unfold strip_child, strip_item. destruct (type_span data pos a (lit "trak") (so_kind _ Hs) Hh) as [-> _]. cbn [and_then].
  unfold of_kind. case_bool_decide as H1; [by apply strip_trak_span|]. case_bool_decide as H2.
  - rewrite sers_one. by apply strip_udta_span.
  - rewrite sers_one. by apply bytes_span.
Qed.
End Strip.

(** The [moov] of a tree. *)
Record movie_tree (items : list atom) : Prop := {
  mt_sound : forallb sound items = true;
  mt_small : len (ser (node (lit "moov") items)) ≤ MAX_READ_EXACT_VEC_BYTES;
}.
Notation moov_ser items := (ser (node (lit "moov") items)).

Section Movie.
Context (items : list atom) (Ht : movie_tree items).
Notation data := (moov_ser items).

Lemma movie_small : len data < 2 ^ 63.
Proof. destruct Ht as [_ H]. unfold MAX_READ_EXACT_VEC_BYTES in H. lia. Qed.

Lemma movie_children : moov_children data = Done (spans 8 items) ∧ holds data 8 (sers items) ∧ Forall is_sound items.
Proof.
  pose proof (sounds _ (mt_sound _ Ht)) as Hl. destruct (iter_node data movie_small 0 (lit "moov") items Hl eq_refl (holds_whole _)) as [H1 H2]. done.
Qed.

Lemma track_tests q t : t ∈ items → holds data q (ser t) → is_type data (lit "trak") (span q t) = Done (of_kind (lit "trak") t).
Proof. destruct movie_children as (_ & _ & Hl). by apply kind_tests. Qed.

(** What a loop over the tracks collects. *)
Lemma collect_traks {B} (f : AtomSpan → outcome (list B)) (g : atom → list B) :
  (∀ q t, is_sound t → kind_of t = lit "trak" → holds data q (ser t) → f (span q t) = Done (g t)) →
  (let! traks := moov_traks data in collect_m f traks) = Done (concat (map g (List.filter (of_kind (lit "trak")) items))).
Proof.
  intros Hf. destruct movie_children as (E & Hin & Hl). unfold moov_traks. rewrite E. cbn [and_then].
  destruct (filter_spans data (is_type data (lit "trak")) (of_kind (lit "trak")) items 8 track_tests Hin) as (traks & -> & Hc). cbn [and_then].
  apply Hc. intros q t Hin' Hk Hq. apply Hf; [by apply (proj1 (Forall_forall _ _) Hl)|by apply bool_decide_eq_true in Hk|done].
Qed.

Lemma track_kids q t : is_sound t → kind_of t = lit "trak" → holds data q (ser t) →
  iter_children data (span q t) = Done (spans (q + 8) (kids_of t)) ∧ holds data (q + 8) (sers (kids_of t)) ∧ Forall is_sound (kids_of t).
Proof. intros Hs Hk Hq. apply (iter_opened data movie_small q t (lit "trak")); [done|done|apply (bool_decide_unpack _); by vm_compute|done]. Qed.

Lemma referenced_spans pos kids : Forall is_sound kids → holds data pos (sers kids) → referenced_ids data (spans pos kids) = Done (refs_of kids).
Proof.
  intros Hl Hh. unfold referenced_ids, refs_of. rewrite (find_kind_spans data _ _ _ Hl Hh). cbn [and_then].
  pose proof (pick_first_where (lit "tref") kids pos) as Hp. destruct (first_where _ kids pos) as [[q a]|] eqn:E; cbn [fmap option_fmap option_map]; [|by rewrite Hp].
  destruct Hp as (-> & Ha & Ek). pose proof (proj1 (Forall_forall _ _) Hl a Ha) as Hs. pose proof (first_where_holds data _ _ _ _ _ E Hh) as Hq.
  destruct (iter_opened data movie_small q a (lit "tref") Hs Ek) as (-> & Hin & Hl'); [apply (bool_decide_unpack _); by vm_compute|done|]. cbn [and_then].
  rewrite (find_kind_spans data _ _ _ Hl' Hin). cbn [and_then].
  pose proof (pick_first_where (lit "chap") (kids_of a) (q + 8)) as Hp. destruct (first_where _ (kids_of a) (q + 8)) as [[r c]|] eqn:Ec; cbn [fmap option_fmap option_map]; [|by rewrite Hp].
  destruct Hp as (-> & Hc & _). pose proof (proj1 (Forall_forall _ _) Hl' c Hc) as [Hcs Hck _ _ _]. pose proof (first_where_holds data _ _ _ _ _ Ec Hin) as Hr.
  pose proof (content_held data r c Hck Hr) as Hcon. pose proof (holds_bounds _ _ _ Hr) as Hb. pose proof movie_small.
  unfold as_end, span. cbn [as_offset as_size as_header]. rewrite u64_add_small by lia.
  rewrite (holds_index _ _ _ _ Hcon); [done|]. rewrite ser_content, len_boxed by done. lia.
Qed.

Lemma text_spans pos kids : Forall is_sound kids → holds data pos (sers kids) → text_id data (spans pos kids) = Done (text_ids kids).
Proof.
  intros Hl Hh. unfold text_id, text_ids. rewrite (find_kind_spans data _ _ _ Hl Hh). cbn [and_then].
  pose proof (pick_first_where (lit "mdia") kids pos) as Hp. destruct (first_where _ kids pos) as [[q a]|] eqn:E; cbn [fmap option_fmap option_map]; [|by rewrite Hp].
  destruct Hp as (-> & Ha & Ek). rewrite (handler_span data movie_small q a); [|by apply (proj1 (Forall_forall _ _) Hl)|done|by eapply first_where_holds].
  cbn [and_then]. case_bool_decide; [|done]. by rewrite (trak_id_spans data _ _ Hl Hh).
Qed.

Lemma chapter_ids_tree : chapter_ids data = Done (chapter_ids_of items).
Proof.
  unfold chapter_ids, chapter_ids_of. apply collect_traks. intros q t Hs Hk Hq. destruct (track_kids q t Hs Hk Hq) as (-> & Hin & Hl). cbn [and_then].
  rewrite (referenced_spans _ _ Hl Hin). cbn [and_then]. by rewrite (text_spans _ _ Hl Hin).
Qed.

Lemma strip_item_len ids a : is_sound a → len (sers (strip_item ids a)) ≤ len (ser a).
Proof.
  intros Hs. unfold strip_item, of_kind. pose proof (so_size _ Hs). case_bool_decide as H1.
  - destruct (removed ids a); [change (len (sers [])) with 0; lia|]. rewrite sers_one. pose proof (strip_track_len a Hs H1) as Hle.
    destruct (opened_node a _ Hs H1 ltac:(apply (bool_decide_unpack _); by vm_compute)) as [Ea _]. rewrite Ea at 2.
    unfold strip_track in Hle |- *. unfold node at 1 in Hle. cbn [kids_of] in Hle. rewrite !len_node by done. lia.
  - case_bool_decide as H2; [|by rewrite sers_one]. rewrite sers_one.
    destruct (opened_node a _ Hs H2 ltac:(apply (bool_decide_unpack _); by vm_compute)) as [Ea _]. rewrite Ea at 2. unfold strip_lists.
    rewrite !len_node by done. pose proof (filter_len (not_kind (lit "chpl")) (kids_of a)). lia.
Qed.

Lemma strip_refines : strip_existing_chapters data = Done (moov_ser (strip_tree items)).
Proof.
  destruct movie_children as (E & Hin & Hl). pose proof (mt_small _ Ht) as Hsm. unfold strip_existing_chapters. rewrite chapter_ids_tree. cbn [and_then].
  unfold MAX_MOOV_REBUILD_BYTES. rewrite (proj2 (Z.ltb_ge _ _)) by done.
  pose proof (head_span data 0 (node (lit "moov") items) eq_refl (holds_whole _)) as Hhead. change (0 + 8) with 8 in Hhead. rewrite Hhead. cbn [and_then].
  rewrite E. cbn [and_then]. rewrite (collect_spans data _ (λ a, sers (strip_item (chapter_ids_of items) a)) items 8); [| |done].
  2:{ intros q a Ha Hq. apply strip_child_span; [apply movie_small|by apply (proj1 (Forall_forall _ _) Hl)|done]. }
  cbn [and_then]. rewrite concat_sers. apply resize_head; [apply length_to_be|done|].
  assert (len (sers (concat (map (strip_item (chapter_ids_of items)) items))) ≤ len (sers items)).
  { generalize (chapter_ids_of items) as ids. clear -Hl. induction Hl as [|a l Ha _ IH]; intros ids; cbn [map concat]; [done|]. rewrite sers_app, sers_cons, !len_app.
    pose proof (strip_item_len ids a Ha). specialize (IH ids). lia. }
  rewrite len_node in Hsm by done. assert (MAX_READ_EXACT_VEC_BYTES ≤ U32_MAX) by done.
  transitivity (8 + len (sers items)); [by apply Z.add_le_mono_l|lia].
Qed.
End Movie.
