(* ===== verification/Mp4ChaptersPut.v ===== *)
(** * New chapters in a tree of boxes

    What [put_chapters] does, stated on the tree of a [moov]: the chapter track before the user data,
    the reference to it in the audio track, the Nero list in the user data; and that the edits of the
    bytes are these edits. *)

From stdpp Require Import base option list sets numbers strings pretty.
From Stdlib Require Import ZArith Lia.
From S2P Require Import Prelude Mp4Bytes Mp4Edit Mp4Read Mp4File Mp4Chapters Mp4Walk Mp4Tree Mp4Layout Mp4Tables Mp4Slack Mp4ChaptersTree.

Local Open Scope Z_scope.

(** ** New chapters, on a tree *)

Fixpoint audio_id (items : list atom) : option Z :=
  match items with
  | [] => None
  | t :: items =>
      match pick (lit "tkhd") (kids_of t), pick (lit "mdia") (kids_of t) with
      | Some tkhd, Some mdia =>
          if of_kind (lit "trak") t && bool_decide (handler_of mdia = Some (lit "soun")) then Some (id_of tkhd) else audio_id items
      | _, _ => audio_id items
      end
  end.
Definition track_ids (items : list atom) : list Z :=
  concat (map (λ t, option_list (track_id_of (kids_of t))) (List.filter (of_kind (lit "trak")) items)).
Definition next_id (items : list atom) : Z := Z.max (Z.min (fold_left Z.max (track_ids items) 0 + 1) U32_MAX) 2.

Fixpoint insert_trak (trak : atom) (items : list atom) : list atom :=
  match items with
  | [] => [trak]
  | a :: items => if of_kind (lit "udta") a then trak :: a :: items else a :: insert_trak trak items
  end.

(** The first item that passes a test, changed. *)
Fixpoint alter_first (t : atom → bool) (f : atom → atom) (l : list atom) : list atom :=
  match l with [] => [] | a :: l => if t a then f a :: l else a :: alter_first t f l end.

Definition has_id (id : Z) (a : atom) : bool := of_kind (lit "trak") a && bool_decide (track_id_of (kids_of a) = Some id).
Definition chap_ref (id : Z) : atom := node (lit "tref") [Leaf (lit "chap") (be32 id)].
Fixpoint behind_header (x : atom) (kids : list atom) : list atom :=
  match kids with [] => [] | k :: kids => if of_kind (lit "tkhd") k then k :: x :: kids else k :: behind_header x kids end.
Definition ref_track (id : Z) (trak : atom) : atom :=
  node (lit "trak") (behind_header (chap_ref id) (List.filter (not_kind (lit "tref")) (kids_of trak))).

Definition chpl_leaf (chapters : list chapter) : atom :=
  Leaf (lit "chpl") (be32 0 ++ [u8_of (Z.min (Z.of_nat (length chapters)) 255)] ++ concat (map chpl_row (take 255 chapters))).
Definition list_chapters (chapters : list chapter) (udta : atom) : atom :=
  node (lit "udta") (List.filter (not_kind (lit "chpl")) (kids_of udta) ++ [chpl_leaf chapters]).
Definition put_lists (chapters : list chapter) (items : list atom) : list atom :=
  match pick (lit "udta") items with
  | Some _ => alter_first (of_kind (lit "udta")) (list_chapters chapters) items
  | None => items ++ [node (lit "udta") [chpl_leaf chapters]]
  end.

(** [put_chapters], with the chapter track as a function of its id. *)
Definition put_tree (track : Z → atom) (chapters : list chapter) (items : list atom) : list atom :=
  let id := next_id items in
  put_lists chapters (alter_first (has_id (default 1 (audio_id items))) (ref_track id) (insert_trak (track id) items)).

(** ** Buffers with a header *)

Definition buffer (h kind : bytes) (l : list atom) : bytes := (h ++ kind) ++ sers l.

Lemma buffer_ser kind l : ser (node kind l) = buffer (be32 (8 + len (sers l))) kind l.
Proof. unfold node, buffer. cbn [ser app]. fold (sers l). rewrite app_nil_r. unfold boxed. by rewrite <-(assoc_L (++)). Qed.

Section Buffer.
Context (h kind : bytes) (Hh : length h = 4%nat) (Hk : length kind = 4%nat).

Lemma len_buffer l : len (buffer h kind l) = 8 + len (sers l).
Proof. unfold buffer. rewrite !len_app. assert (len h = 4) by (unfold len; lia). assert (len kind = 4) by (unfold len; lia). lia. Qed.

Lemma buffer_holds l : holds (buffer h kind l) 8 (sers l).
Proof. exists (h ++ kind), []. unfold buffer. rewrite app_nil_r, len_app. split; [done|]. unfold len. lia. Qed.

Lemma buffer_children l : Forall is_sound l → len (buffer h kind l) < 2 ^ 63 →
  iter_children (buffer h kind l) (mk_AtomSpan 0 (len (buffer h kind l)) 8) = Done (spans 8 l).
Proof.
  intros Hl Hs. unfold iter_children, as_end. cbn [as_offset as_size as_header]. pose proof (len_nonneg (buffer h kind l)).
  rewrite !u64_add_small by lia. apply children_spans; [done|done|apply buffer_holds|rewrite len_buffer; lia|]. unfold walk_fuel.
  assert (Hc : Z.of_nat (length l) ≤ len (sers l)); [|pose proof (len_buffer l); unfold len in *; lia].
  clear -Hl. induction Hl as [|a l [[Hs _] _ _ _ _] _ IH]; [done|]. rewrite sers_cons, len_app. cbn [length]. lia.
Qed.

Lemma buffer_splice l1 old new l2 q : q = 8 + len (sers l1) →
  splice_bytes (buffer h kind (l1 ++ old ++ l2)) q (q + len (sers old)) (sers new) = Done (buffer h kind (l1 ++ new ++ l2)).
Proof.
  intros ->. assert (Hl : len ((h ++ kind) ++ sers l1) = 8 + len (sers l1)) by apply len_buffer. unfold splice_bytes, buffer. rewrite !sers_app, !(assoc_L (++)).
  set (A := (h ++ kind) ++ sers l1) in *. rewrite <-!(assoc_L (++)). rewrite <-Hl.
  rewrite (holds_index _ 0 A); [|by exists [], (sers old ++ sers l2)|lia]. cbn [and_then].
  rewrite (holds_index _ (len A) (sers old)); [|by exists A, (sers l2)|done]. cbn [and_then].
  rewrite (holds_index _ (len A + len (sers old)) (sers l2)); [done| |rewrite !len_app; lia].
  exists (A ++ sers old), []. rewrite app_nil_r, <-(assoc_L (++)), len_app. done.
Qed.

Lemma buffer_resized l : 8 + len (sers l) ≤ U32_MAX → resized (buffer h kind l) = Done (ser (node kind l)).
Proof. intros Hs. unfold resized, buffer. by apply resize_head. Qed.
End Buffer.

(** ** The steps of [put_chapters] *)

Lemma first_where_split t l pos q a : first_where t l pos = Some (q, a) →
  ∃ l1 l2, l = l1 ++ a :: l2 ∧ q = pos + len (sers l1) ∧ Forall (λ x, t x = false) l1 ∧ t a = true.
Proof.
  revert pos. induction l as [|b l IH]; intros pos E; cbn [first_where] in *; [done|]. destruct (t b) eqn:Eb.
  - injection E as <- <-. exists [], l. split_and!; [done|by rewrite Z.add_0_r|done|done].
  - destruct (IH _ E) as (l1 & l2 & -> & -> & H1 & H2). exists (b :: l1), l2. split_and!; [done|rewrite sers_cons, len_app; lia|by constructor|done].
Qed.

Lemma alter_first_split t f l1 a l2 : Forall (λ x, t x = false) l1 → t a = true → alter_first t f (l1 ++ a :: l2) = l1 ++ f a :: l2.
Proof. intros H1 Ha. induction H1 as [|b l Hb _ IH]; cbn [app alter_first]; [by rewrite Ha|]. by rewrite Hb, IH. Qed.
Lemma alter_first_none t f l : Forall (λ x, t x = false) l → alter_first t f l = l.
Proof. induction 1 as [|b l Hb _ IH]; cbn [alter_first]; [done|]. by rewrite Hb, IH. Qed.
Lemma insert_trak_split x l1 a l2 : Forall (λ y, of_kind (lit "udta") y = false) l1 → of_kind (lit "udta") a = true →
  insert_trak x (l1 ++ a :: l2) = l1 ++ x :: a :: l2.
Proof. intros H1 Ha. induction H1 as [|b l Hb _ IH]; cbn [app insert_trak]; [by rewrite Ha|]. by rewrite Hb, IH. Qed.
Lemma insert_trak_none x l : Forall (λ y, of_kind (lit "udta") y = false) l → insert_trak x l = l ++ [x].
Proof. induction 1 as [|b l Hb _ IH]; cbn [app insert_trak]; [done|]. by rewrite Hb, IH. Qed.

Lemma none_where (t : atom → bool) l : List.find t l = None → Forall (λ x, t x = false) l.
Proof. induction l as [|a l IH]; cbn [find]; [done|]. destruct (t a) eqn:E; [done|]. intros H. constructor; auto. Qed.

Section Put.
Context (items : list atom) (Ht : movie_tree items).
Notation data := (moov_ser items).

Lemma movie_buffer : data = buffer (be32 (8 + len (sers items))) (lit "moov") items.
Proof. apply buffer_ser. Qed.

Lemma first_audio_tree : first_audio_track_id data = Done (audio_id items).
Proof.
  destruct (movie_children items Ht) as (E & Hin & Hl). unfold first_audio_track_id, moov_traks. rewrite E. cbn [and_then]. clear E.
  assert (Hgen : ∀ l pos, Forall is_sound l → holds data pos (sers l) →
    ∃ traks, filter_m (is_type data (lit "trak")) (spans pos l) = Done traks ∧ first_audio_of data traks = Done (audio_id l)).
  { clear Hin Hl. intros l. induction l as [|t l IH]; intros pos Hl Hh; cbn [spans filter_m audio_id]; [by exists []|].
    rewrite sers_cons in Hh. apply holds_app in Hh as [Ha Hr]. apply Forall_cons in Hl as [Hs Hl]. destruct (IH _ Hl Hr) as (traks & E1 & E2).
    destruct (type_span data pos t (lit "trak") (so_kind _ Hs) Ha) as [_ ->]. cbn [and_then]. rewrite E1. cbn [and_then].
    destruct (of_kind (lit "trak") t) eqn:Ek.
    - eexists. split; [done|]. cbn [first_audio_of andb]. apply bool_decide_eq_true in Ek. destruct (track_kids items Ht pos t Hs Ek Ha) as (-> & Hin & Hk). cbn [and_then].
      rewrite (find_kind_spans data _ _ _ Hk Hin). cbn [and_then]. pose proof (pick_first_where (lit "tkhd") (kids_of t) (pos + 8)) as Hp.
      destruct (first_where _ (kids_of t) (pos + 8)) as [[q h]|] eqn:Eh; cbn [fmap option_fmap option_map]; [|by rewrite Hp].
      destruct Hp as (-> & Hh & Ehk). rewrite (find_kind_spans data _ _ _ Hk Hin). cbn [and_then].
      pose proof (pick_first_where (lit "mdia") (kids_of t) (pos + 8)) as Hp.
      destruct (first_where (of_kind (lit "mdia")) (kids_of t) (pos + 8)) as [[r m]|] eqn:Em; cbn [fmap option_fmap option_map]; [|by rewrite Hp].
      destruct Hp as (-> & Hm & Emk). pose proof (proj1 (Forall_forall _ _) Hk m Hm) as Hms. pose proof (proj1 (Forall_forall _ _) Hk h Hh) as Hhs.
      rewrite (handler_span data (movie_small items Ht) r m Hms Emk (first_where_holds data _ _ _ _ _ Em Hin)). cbn [and_then].
      case_bool_decide; [|done]. by rewrite (read_id data q h Hhs Ehk (first_where_holds data _ _ _ _ _ Eh Hin)).
    - exists traks. split; [done|]. rewrite E2. cbn [andb]. destruct (pick _ _); [|done]. by destruct (pick _ _). }
  destruct (Hgen items 8 Hl Hin) as (traks & -> & H). exact H.
Qed.

Lemma next_id_tree : next_track_id data = Done (next_id items).
Proof.
  unfold next_track_id, next_id, track_ids.
  assert (Hc : (let! traks := moov_traks data in
      collect_m (λ trak, let! kids := iter_children data trak in let! id := trak_id data kids in Done (option_list id)) traks)
    = Done (concat (map (λ t, option_list (track_id_of (kids_of t))) (List.filter (of_kind (lit "trak")) items)))).
  { apply (collect_traks items Ht). intros q t Hs Hk Hq. destruct (track_kids items Ht q t Hs Hk Hq) as (-> & Hin & Hl). cbn [and_then].
    by rewrite (trak_id_spans data _ _ Hl Hin). }
  destruct (moov_traks data) as [traks| | |]; cbn [and_then] in Hc |- *; [by rewrite Hc|done..].
Qed.

Lemma find_udta : find_kind data (lit "udta") (spans 8 items) = Done ((λ '(q, a), span q a) <$> first_where (of_kind (lit "udta")) items 8).
Proof. destruct (movie_children items Ht) as (_ & Hin & Hl). by apply find_kind_spans. Qed.

Lemma insert_tree trak : len data + len (ser trak) ≤ U32_MAX → insert_chapter_trak data (ser trak) = Done (moov_ser (insert_trak trak items)).
Proof.
  intros Hs. destruct (movie_children items Ht) as (E & Hin & Hl). unfold insert_chapter_trak. rewrite E. cbn [and_then]. rewrite find_udta. cbn [and_then].
  rewrite len_node in Hs by done. rewrite <-(sers_one trak).
  destruct (first_where (of_kind (lit "udta")) items 8) as [[q a]|] eqn:Ef; cbn [fmap option_fmap option_map].
  - apply first_where_split in Ef as (l1 & l2 & Ei & -> & H1 & Ha). cbn [span as_offset].
    rewrite movie_buffer. rewrite Ei at 2. pose proof (buffer_splice (be32 (8 + len (sers items))) (lit "moov") (length_to_be _ _) eq_refl l1 [] [trak] (a :: l2) _ eq_refl) as Hsp.
    change (len (sers [])) with 0 in Hsp. rewrite Z.add_0_r in Hsp. cbn [app] in Hsp. rewrite Hsp. cbn [and_then].
    rewrite buffer_resized; [|apply length_to_be|done|].
    + rewrite Ei, insert_trak_split by done. done.
    + rewrite Ei in Hs. rewrite !sers_app, !sers_cons, !len_app in *. lia.
  - apply first_where_none, none_where in Ef. rewrite insert_trak_none by done.
    pose proof (buffer_splice (be32 (8 + len (sers items))) (lit "moov") (length_to_be _ _) eq_refl items [] [trak] [] _ eq_refl) as Hsp.
    change (len (sers [])) with 0 in Hsp. rewrite Z.add_0_r in Hsp. cbn [app] in Hsp. rewrite app_nil_r in Hsp.
    rewrite len_node by done. rewrite movie_buffer, Hsp. cbn [and_then]. rewrite buffer_resized; [done|apply length_to_be|done|].
    rewrite sers_app, len_app, sers_one. lia.
Qed.

(** Changing one item. *)
Lemma splice_item l1 a l2 b : items = l1 ++ a :: l2 → len (ser a) < 2 ^ 32 → len data + len (ser b) ≤ U32_MAX →
  (let! moov := splice_bytes data (8 + len (sers l1)) (as_end (span (8 + len (sers l1)) a)) (ser b) in resized moov)
  = Done (moov_ser (l1 ++ b :: l2)).
Proof.
  intros Ei Ha Hs. pose proof (len_nonneg (ser b)). rewrite len_node in Hs by done. rewrite Ei in Hs. rewrite sers_app, sers_cons, !len_app in Hs.
  pose proof (len_nonneg (sers l1)). pose proof (len_nonneg (sers l2)). pose proof (len_nonneg (ser a)).
  unfold as_end, span. cbn [as_offset as_size]. unfold U32_MAX in Hs. rewrite u64_add_small by lia. rewrite movie_buffer, <-(sers_one b), <-(sers_one a).
  pose proof (buffer_splice (be32 (8 + len (sers items))) (lit "moov") (length_to_be _ _) eq_refl l1 [a] [b] l2 _ eq_refl) as Hsp.
  cbn [app] in Hsp. rewrite Ei at 2. rewrite Hsp. cbn [and_then].
  rewrite buffer_resized; [done|apply length_to_be|done|]. rewrite sers_app, sers_cons, !len_app. unfold U32_MAX. lia.
Qed.

Lemma chap_ref_bytes id : wrap_container (lit "tref") [wrap_atom (lit "chap") (be32 id)] = ser (chap_ref id).
Proof. reflexivity. Qed.

Lemma len_chap_ref id : len (ser (chap_ref id)) = 20.
Proof. unfold chap_ref. rewrite len_node, sers_one by done. cbn [ser]. by rewrite len_boxed, len_to_be. Qed.

Lemma has_id_span id q t : is_sound t → holds data q (ser t) → has_track_id data id (span q t) = Done (has_id id t).
Proof.
  intros Hs Hq. unfold has_track_id, has_id. destruct (type_span data q t (lit "trak") (so_kind _ Hs) Hq) as [_ ->]. cbn [and_then].
  destruct (of_kind (lit "trak") t) eqn:Ek; cbn [negb andb]; [|done]. apply bool_decide_eq_true in Ek.
  destruct (track_kids items Ht q t Hs Ek Hq) as (-> & Hin & Hl). cbn [and_then]. by rewrite (trak_id_spans data _ _ Hl Hin).
Qed.

Lemma behind_header_split x l1 k l2 : Forall (λ y, of_kind (lit "tkhd") y = false) l1 → of_kind (lit "tkhd") k = true →
  behind_header x (l1 ++ k :: l2) = l1 ++ k :: x :: l2.
Proof. intros H1 Ha. induction H1 as [|b l Hb _ IH]; cbn [app behind_header]; [by rewrite Ha|]. by rewrite Hb, IH. Qed.

Lemma pick_without k k' l : k ≠ k' → pick k (List.filter (not_kind k') l) = pick k l.
Proof.
  intros Hne. induction l as [|a l IH]; cbn [List.filter]; [done|]. unfold not_kind at 1, of_kind. case_bool_decide as Ha; cbn [negb]; rewrite !pick_cons.
  - rewrite IH, bool_decide_eq_false_2 by congruence. done.
  - by rewrite IH.
Qed.

(** The reference put behind the header of a track that was copied. *)
Lemma ref_buffer hd others h id : length hd = 4%nat → Forall is_sound others → pick (lit "tkhd") others = Some h →
  8 + len (sers others) < 2 ^ 32 - 20 →
  let cleaned := buffer hd (lit "trak") others in
  (∀ (k : bytes → outcome bytes),
   (let! cleaned_kids := iter_children cleaned (mk_AtomSpan 0 (len cleaned) 8) in
    let! found := find_kind cleaned (lit "tkhd") cleaned_kids in
    let! tk := ok_or found (Container "cleaned audio trak missing tkhd") in
    let! cleaned := splice_bytes cleaned (as_end tk) (as_end tk) (ser (chap_ref id)) in
    let! cleaned := resized cleaned in k cleaned)
   = k (ser (node (lit "trak") (behind_header (chap_ref id) others))))
  ∧ len (sers (behind_header (chap_ref id) others)) = len (sers others) + 20.
Proof.
  intros Hhd Hot Hpo Hsz cleaned. unfold cleaned.
  rewrite (buffer_children hd (lit "trak") Hhd eq_refl others Hot) by (rewrite len_buffer by done; lia). cbn [and_then].
  rewrite (find_kind_spans _ _ _ _ Hot (buffer_holds hd (lit "trak") Hhd eq_refl others)). cbn [and_then].
  destruct (first_where (of_kind (lit "tkhd")) others 8) as [[r' h']|] eqn:Eo.
  2:{ apply first_where_none in Eo. unfold pick in Hpo. fold (of_kind (lit "tkhd")) in Hpo. congruence. }
  cbn [fmap option_fmap option_map ok_or and_then]. apply first_where_split in Eo as (k1 & k2 & Eoth & -> & Hk1 & Hh').
  assert (Hlk : len (sers k1) + len (ser h') ≤ len (sers others)) by (rewrite Eoth, sers_app, sers_cons, !len_app; pose proof (len_nonneg (sers k2)); lia).
  pose proof (len_nonneg (sers k1)). pose proof (len_nonneg (ser h')).
  assert (Hend : as_end (span (8 + len (sers k1)) h') = 8 + len (sers (k1 ++ [h']))).
  { unfold as_end, span. cbn [as_offset as_size]. rewrite u64_add_small by lia. rewrite sers_app, len_app, sers_one. lia. }
  rewrite Hend, <-(sers_one (chap_ref id)).
  assert (Ebuf : buffer hd (lit "trak") others = buffer hd (lit "trak") ((k1 ++ [h']) ++ [] ++ k2)) by (by rewrite Eoth, <-(assoc_L (++))).
  rewrite Ebuf. pose proof (buffer_splice hd (lit "trak") Hhd eq_refl (k1 ++ [h']) [] [chap_ref id] k2 _ eq_refl) as Hsp.
  change (len (sers [])) with 0 in Hsp. rewrite Z.add_0_r in Hsp. rewrite Hsp. cbn [and_then].
  assert (Enew : (k1 ++ [h']) ++ [chap_ref id] ++ k2 = behind_header (chap_ref id) others) by (by rewrite Eoth, behind_header_split, <-(assoc_L (++)) by done).
  assert (Hnl : len (sers ((k1 ++ [h']) ++ [chap_ref id] ++ k2)) = len (sers others) + 20).
  { rewrite Eoth. rewrite !sers_app, !sers_cons, !len_app, len_chap_ref. change (len (sers [])) with 0. lia. }
  rewrite buffer_resized by (done || (unfold U32_MAX; lia)). by rewrite Enew in *.
Qed.

Lemma ref_tree audio id : is_Some (List.find (has_id audio) items) → len data + len data + 20 ≤ U32_MAX →
  set_audio_chap_ref data audio id = Done (moov_ser (alter_first (has_id audio) (ref_track id) items)).
Proof.
  intros Hf Hs. destruct (movie_children items Ht) as (E & Hin & Hl). unfold set_audio_chap_ref. rewrite E. cbn [and_then].
  rewrite (find_spans data _ (has_id audio) items 8); [| |done].
  2:{ intros q a Ha Hq. apply has_id_span; [by apply (proj1 (Forall_forall _ _) Hl)|done]. }
  cbn [and_then]. destruct (first_where (has_id audio) items 8) as [[q t]|] eqn:Ef; [|apply first_where_none in Ef; rewrite Ef in Hf; by destruct Hf].
  cbn [fmap option_fmap option_map ok_or and_then]. pose proof (first_where_holds data _ _ _ _ _ Ef Hin) as Hq.
  apply first_where_split in Ef as (l1 & l2 & Ei & -> & H1 & Hid). pose proof Hid as [Ek Eid]%andb_prop. apply bool_decide_eq_true in Ek, Eid.
  assert (Hst : is_sound t) by (rewrite Ei in Hl; by apply Forall_app in Hl as [_ [? _]%Forall_cons]).
  destruct (track_kids items Ht _ t Hst Ek Hq) as (-> & Hkin & Hk). cbn [and_then].
  rewrite (find_kind_spans data _ _ _ Hk Hkin). cbn [and_then]. pose proof (pick_first_where (lit "tkhd") (kids_of t) (8 + len (sers l1) + 8)) as Hp.
  destruct (first_where _ (kids_of t) _) as [[r h]|] eqn:Eh; cbn [fmap option_fmap option_map ok_or and_then].
  2:{ unfold track_id_of in Eid. rewrite Hp in Eid. done. }
  destruct Hp as (Hpick & _ & _). change (as_offset (span (8 + len (sers l1)) t)) with (8 + len (sers l1)).
  rewrite (head_span data _ t (so_kind _ Hst) Hq), Ek. cbn [and_then]. rewrite (atoms_but_spans data (movie_small items Ht) _ _ _ Hk Hkin). cbn [and_then]. cbv zeta.
  set (others := List.filter (not_kind (lit "tref")) (kids_of t)). set (hd := be32 (8 + len (content_of t))).
  fold (buffer hd (lit "trak") others). pose proof (length_to_be 4 (8 + len (content_of t))) as Hhd. fold hd in Hhd.
  assert (Hot : Forall is_sound others) by (by apply Forall_filter_list). pose proof (so_size _ Hst) as Hsz.
  assert (Hlo : 8 + len (sers others) ≤ len (ser t)).
  { destruct (opened_node t _ Hst Ek ltac:(apply (bool_decide_unpack _); by vm_compute)) as [Et _]. rewrite Et. rewrite len_node by done.
    pose proof (filter_len (not_kind (lit "tref")) (kids_of t)). unfold others. lia. }
  assert (Hlt : len (ser t) ≤ len (sers items)) by (rewrite Ei, sers_app, sers_cons, !len_app; pose proof (len_nonneg (sers l1)); pose proof (len_nonneg (sers l2)); lia).
  rewrite len_node in Hs by done. unfold U32_MAX in Hs.
  assert (Hpo : pick (lit "tkhd") others = Some h) by (unfold others; by rewrite pick_without).
  destruct (ref_buffer hd others h id Hhd Hot Hpo ltac:(lia)) as [Href Hnl]. cbv zeta in Href. rewrite chap_ref_bytes.
  rewrite Href. rewrite (splice_item l1 t l2 (node (lit "trak") (behind_header (chap_ref id) others)) Ei).
  - rewrite Ei, alter_first_split by done. done.
  - lia.
  - rewrite !len_node by done. unfold U32_MAX. lia.
Qed.

Lemma chpl_bytes chapters : chpl_atom chapters = ser (chpl_leaf chapters).
Proof. reflexivity. Qed.

Lemma lists_tree chapters : len data + len data + len (ser (chpl_leaf chapters)) + 8 ≤ U32_MAX →
  upsert_nero_chpl data chapters = Done (moov_ser (put_lists chapters items)).
Proof.
  intros Hs. destruct (movie_children items Ht) as (E & Hin & Hl). unfold upsert_nero_chpl, put_lists. rewrite E. cbn [and_then]. rewrite find_udta. cbn [and_then].
  pose proof (pick_first_where (lit "udta") items 8) as Hp. rewrite len_node in Hs by done. set (leaf := chpl_leaf chapters) in *.
  destruct (first_where (of_kind (lit "udta")) items 8) as [[q u]|] eqn:Ef; cbn [fmap option_fmap option_map].
  - destruct Hp as (-> & Hu & Ek). pose proof (first_where_holds data _ _ _ _ _ Ef Hin) as Hq. apply first_where_split in Ef as (l1 & l2 & Ei & -> & H1 & Hku).
    pose proof (proj1 (Forall_forall _ _) Hl u Hu) as Hsu. change (as_offset (span (8 + len (sers l1)) u)) with (8 + len (sers l1)).
    rewrite (head_span data _ u (so_kind _ Hsu) Hq), Ek. cbn [and_then].
    destruct (iter_opened data (movie_small items Ht) (8 + len (sers l1)) u (lit "udta") Hsu Ek) as (-> & Hkin & Hk); [apply (bool_decide_unpack _); by vm_compute|done|]. cbn [and_then].
    rewrite (atoms_but_spans data (movie_small items Ht) _ _ _ Hk Hkin). cbn [and_then]. set (others := List.filter (not_kind (lit "chpl")) (kids_of u)).
    rewrite chpl_bytes. fold leaf. rewrite <-(sers_one leaf), <-sers_app.
    fold (buffer (be32 (8 + len (content_of u))) (lit "udta") (others ++ [leaf])). pose proof (so_size _ Hsu) as Hsz.
    assert (Hlu : len (ser u) ≤ len (sers items)) by (rewrite Ei, sers_app, sers_cons, !len_app; pose proof (len_nonneg (sers l1)); pose proof (len_nonneg (sers l2)); lia).
    assert (Hlo : 8 + len (sers others) ≤ len (ser u)).
    { destruct (opened_node u _ Hsu Ek ltac:(apply (bool_decide_unpack _); by vm_compute)) as [Eu _]. rewrite Eu. rewrite len_node by done.
      pose proof (filter_len (not_kind (lit "chpl")) (kids_of u)). unfold others. lia. }
    assert (Hnew : len (sers (others ++ [leaf])) = len (sers others) + len (ser leaf)) by (by rewrite sers_app, len_app, sers_one).
    rewrite buffer_resized; [|apply length_to_be|done|lia]. cbn [and_then].
    rewrite (splice_item l1 u l2 (node (lit "udta") (others ++ [leaf])) Ei) by (rewrite ?len_node by done; lia).
    rewrite Ei, alter_first_split by done. done.
  - rewrite Hp. assert (Hw : wrap_container (lit "udta") [chpl_atom chapters] = ser (node (lit "udta") [leaf])).
    { unfold wrap_container. cbn [map foldr concat]. rewrite chpl_bytes. fold leaf. unfold node. cbn [ser map concat app]. rewrite !app_nil_r. unfold boxed. by rewrite Z.add_0_r. }
    rewrite Hw. cbn [and_then]. rewrite movie_buffer. unfold buffer. rewrite <-(assoc_L (++)), <-(sers_one (node (lit "udta") [leaf])), <-sers_app.
    fold (buffer (be32 (8 + len (sers items))) (lit "moov") (items ++ [node (lit "udta") [leaf]])).
    rewrite buffer_resized; [done|apply length_to_be|done|]. rewrite sers_app, len_app, sers_one, len_node, sers_one by done.
    pose proof (len_nonneg (sers items)). lia.
Qed.
End Put.

(** ** The chapter track *)

Definition stbl_of (sizes deltas : list Z) (offset : Z) : list atom :=
  let n := Z.of_nat (length sizes) in
  [Leaf (lit "stsd") (be32 0 ++ be32 1 ++ TEXT_SAMPLE_ENTRY);
   Leaf (lit "stts") (be32 0 ++ be32 (Z.of_nat (length deltas)) ++ concat (map (λ d, be32 1 ++ be32 d) deltas));
   Leaf (lit "stsc") (be32 0 ++ be32 1 ++ be32 1 ++ be32 n ++ be32 1);
   Leaf (lit "stsz") (be32 0 ++ be32 0 ++ be32 n ++ concat (map be32 sizes));
   Table (negb (offset <=? U32_MAX)) (be32 0 ++ be32 1) [offset] []].
Definition chapter_minf (sizes deltas : list Z) (offset : Z) : atom :=
  node (lit "minf")
    [node (lit "gmhd") [Leaf (lit "gmin") (be32 0 ++ be16 64 ++ be16 32768 ++ be16 32768 ++ be16 32768 ++ be16 0 ++ be16 0);
                        Leaf (lit "text") GMHD_TEXT_PAYLOAD];
     node (lit "dinf") [Leaf (lit "dref") (be32 0 ++ be32 1 ++ wrap_atom (lit "url ") (be32 1))];
     node (lit "stbl") (stbl_of sizes deltas offset)].
Definition chapter_header (id movie_duration : Z) : atom :=
  Leaf (lit "tkhd") (bytes_of [0; 0; 0; 2] ++ be32 0 ++ be32 0 ++ be32 id ++ be32 0 ++ be32 movie_duration ++ replicate 8 Byte.x00
    ++ be16 0 ++ be16 0 ++ be16 0 ++ be16 0 ++ identity_matrix ++ be32 0 ++ be32 0).
Definition chapter_handler : atom :=
  Leaf (lit "hdlr") (be32 0 ++ be32 0 ++ lit "text" ++ replicate 12 Byte.x00 ++ lit "ChapterHandler" ++ [Byte.x00]).
Definition chapter_track (movie_duration duration_ms : Z) (sizes deltas : list Z) (offset id : Z) : atom :=
  let movie := Z.min movie_duration U32_MAX in
  node (lit "trak")
    [chapter_header id movie;
     node (lit "edts") [Leaf (lit "elst") (be32 0 ++ be32 1 ++ be32 movie ++ be32 0 ++ be32 65536)];
     node (lit "mdia")
       [Leaf (lit "mdhd") (be32 0 ++ be32 0 ++ be32 0 ++ be32 CHAPTER_TIMESCALE ++ be32 (Z.min duration_ms U32_MAX) ++ be16 21956 ++ be16 0);
        chapter_handler; chapter_minf sizes deltas offset]].

Lemma wrap_ser kind l : wrap_container kind (map ser l) = ser (node kind l).
Proof.
  unfold wrap_container, node. cbn [ser app]. fold (sers l). rewrite app_nil_r. unfold boxed. f_equal. f_equal. f_equal.
  induction l as [|a l IH]; cbn [map foldr]; [done|]. by rewrite sers_cons, len_app, IH.
Qed.

Lemma wrap_leaf kind body : wrap_atom kind body = ser (Leaf kind body).
Proof. done. Qed.
Lemma wrap_three kind a b c x y z : x = ser a → y = ser b → z = ser c → wrap_container kind [x; y; z] = ser (node kind [a; b; c]).
Proof. intros -> -> ->. apply (wrap_ser kind [a; b; c]). Qed.

Lemma stbl_bytes sizes deltas offset : build_stbl sizes deltas offset = ser (node (lit "stbl") (stbl_of sizes deltas offset)).
Proof.
  rewrite <-wrap_ser. unfold build_stbl, stbl_of. cbn [map]. cbv zeta.
  assert (E : ser (Table (negb (offset <=? U32_MAX)) (be32 0 ++ be32 1) [offset] [])
    = if offset <=? U32_MAX then wrap_atom (lit "stco") (be32 0 ++ be32 1 ++ be32 offset) else wrap_atom (lit "co64") (be32 0 ++ be32 1 ++ be64 offset)).
  { cbn [ser]. unfold rows. cbn [map concat]. destruct (offset <=? U32_MAX); cbn [negb table_kind stride]; by rewrite !app_nil_r, <-(assoc_L (++)). }
  rewrite E. done.
Qed.

Lemma minf_bytes sizes deltas offset : build_minf sizes deltas offset = ser (chapter_minf sizes deltas offset).
Proof.
  unfold build_minf, chapter_minf. apply wrap_three; [unfold build_gmhd|unfold build_dinf|apply stbl_bytes].
  - rewrite !wrap_leaf. apply (wrap_ser (lit "gmhd") [_; _]).
  - rewrite (wrap_leaf (lit "dref")). apply (wrap_ser (lit "dinf") [_]).
Qed.

Lemma chapter_track_bytes d ms sizes deltas offset id :
  build_chapter_trak id d ms sizes deltas offset = ser (chapter_track d ms sizes deltas offset id).
Proof.
  unfold build_chapter_trak, chapter_track. cbv zeta.
  apply wrap_three; [apply wrap_leaf|unfold build_edts; rewrite wrap_leaf; apply (wrap_ser (lit "edts") [_])|].
  apply wrap_three; [apply wrap_leaf|apply wrap_leaf|apply minf_bytes].
Qed.

Lemma sound_node kind kids : kind ∈ OPENED → forallb sound kids = true → len (ser (node kind kids)) < 2 ^ 32 → sound (node kind kids) = true.
Proof.
  intros Ho Hk Hs. assert (H4 : length kind = 4%nat ∧ kind ≠ lit "tkhd" ∧ kind ≠ lit "hdlr").
  { unfold OPENED in Ho. cbn [map] in Ho. repeat (apply elem_of_cons in Ho as [-> | Ho]; [by vm_compute|]). by apply elem_of_nil in Ho. }
  destruct H4 as (H4 & H5 & H6). unfold node in *. cbn [sound kind_of]. unfold of_kind. cbn [kind_of].
  rewrite (proj2 (Z.ltb_lt _ _)), H4 by done. rewrite !bool_decide_eq_false_2 by done. rewrite bool_decide_eq_true_2 by done. rewrite Hk. done.
Qed.

Lemma sound_closed kind kids : length kind = 4%nat → bool_decide (kind ∈ OPENED) = false → kind ≠ lit "tkhd" → kind ≠ lit "hdlr" →
  len (ser (node kind kids)) < 2 ^ 32 → sound (node kind kids) = true.
Proof.
  intros H4 Ho H5 H6 Hs. unfold node in *. cbn [sound kind_of]. unfold of_kind. cbn [kind_of].
  rewrite (proj2 (Z.ltb_lt _ _)), H4, Ho by done. by rewrite !bool_decide_eq_false_2 by done.
Qed.

Lemma chapter_track_sound d ms sizes deltas offset id : len (ser (chapter_track d ms sizes deltas offset id)) < 2 ^ 32 →
  sound (chapter_track d ms sizes deltas offset id) = true.
Proof.
  intros Hs. unfold chapter_track in *. set (movie := Z.min d U32_MAX) in *.
  assert (Hin : ∀ kind kids k, length kind = 4%nat → k ∈ kids → len (ser k) ≤ len (ser (node kind kids))).
  { intros kind kids k H4 (l1 & l2 & ->)%list_elem_of_split. rewrite len_node, sers_app, sers_cons, !len_app by done.
    pose proof (len_nonneg (sers l1)). pose proof (len_nonneg (sers l2)). lia. }
  apply sound_node; [apply (bool_decide_unpack _); by vm_compute| |done]. cbn [forallb].
  match goal with |- context [node (lit "mdia") ?ks] => set (mdia := node (lit "mdia") ks) in * end.
  assert (Hm : len (ser mdia) < 2 ^ 32) by (eapply Z.le_lt_trans; [apply (Hin (lit "trak")); [done|]|exact Hs]; right; right; by left).
  assert (Hmi : len (ser (chapter_minf sizes deltas offset)) < 2 ^ 32) by (eapply Z.le_lt_trans; [apply (Hin (lit "mdia")); [done|]|exact Hm]; right; right; by left).
  assert (H1 : sound (chapter_header id movie) = true).
  { unfold chapter_header. cbn [sound kind_of content_of]. unfold of_kind. cbn [kind_of]. cbn [ser]. rewrite len_boxed by done.
    rewrite !len_app, !len_to_be. by vm_compute. }
  rewrite H1. cbn [andb]. assert (H2 : sound mdia = true); [|rewrite H2; done].
  apply sound_node; [apply (bool_decide_unpack _); by vm_compute| |done]. cbn [forallb].
  assert (H3 : sound (chapter_minf sizes deltas offset) = true).
  { by apply sound_closed. }
  rewrite H3. cbn [sound kind_of content_of ser]. unfold of_kind. cbn [kind_of]. rewrite len_boxed by done. rewrite !len_app, !len_to_be. by vm_compute.
Qed.

(** ** All steps together *)

Lemma insert_trak_perm x l : insert_trak x l ≡ₚ x :: l.
Proof. induction l as [|a l IH]; cbn [insert_trak]; [done|]. destruct (of_kind _ a); [done|]. rewrite IH. apply Permutation_swap. Qed.

Lemma sers_perm l k : l ≡ₚ k → len (sers l) = len (sers k).
Proof. induction 1; rewrite ?sers_cons, ?len_app; lia. Qed.

Lemma insert_len x l : len (sers (insert_trak x l)) = len (ser x) + len (sers l).
Proof. rewrite (sers_perm _ _ (insert_trak_perm x l)), sers_cons, len_app. done. Qed.

Lemma forallb_perm (t : atom → bool) l k : l ≡ₚ k → forallb t l = forallb t k.
Proof. induction 1 as [|a l k _ IH|a b l|l k m _ IH1 _ IH2]; cbn [forallb]; [done|by rewrite IH|by rewrite !andb_assoc, (andb_comm (t b))|congruence]. Qed.

Lemma behind_header_in x k l : k ∈ behind_header x l → k = x ∨ k ∈ l.
Proof.
  induction l as [|a l IH]; cbn [behind_header]; [by intros ?%elem_of_nil|]. destruct (of_kind _ a); rewrite !elem_of_cons; naive_solver.
Qed.
Lemma behind_header_len x l : len (sers (behind_header x l)) ≤ len (sers l) + len (ser x).
Proof.
  pose proof (len_nonneg (ser x)). induction l as [|a l IH]; cbn [behind_header]; [change (len (sers [])) with 0; lia|].
  destruct (of_kind _ a); rewrite !sers_cons, !len_app; lia.
Qed.

(** A changed item keeps a movie sound, and no longer than it was and the change allows. *)
Lemma alter_first_movie t f items extra : movie_tree items → 0 ≤ extra → len (moov_ser items) + extra ≤ MAX_READ_EXACT_VEC_BYTES →
  (∀ a, sound a = true → t a = true → len (ser a) ≤ len (moov_ser items) → sound (f a) = true ∧ len (ser (f a)) ≤ len (ser a) + extra) →
  movie_tree (alter_first t f items) ∧ len (moov_ser (alter_first t f items)) ≤ len (moov_ser items) + extra.
Proof.
  intros [Hs Hm] H0 He Hf. rewrite !len_node in * by done.
  assert (H : forallb sound (alter_first t f items) = true ∧ len (sers (alter_first t f items)) ≤ len (sers items) + extra).
  { assert (Hle : ∀ a, a ∈ items → len (ser a) ≤ 8 + len (sers items)).
    { intros a (l1 & l2 & ->)%list_elem_of_split. rewrite sers_app, sers_cons, !len_app. pose proof (len_nonneg (sers l1)). pose proof (len_nonneg (sers l2)). lia. }
    clear Hm He. revert Hle Hf. generalize (8 + len (sers items)) as bound. intros bound. induction items as [|a l IH]; intros Hle Hf; cbn [alter_first]; [split; [done|lia]|].
    apply forallb_cons in Hs as [Ha Hl]. destruct (t a) eqn:Et.
    - destruct (Hf a Ha Et (Hle a (list_elem_of_here _ _))) as [H1 H2]. cbn [forallb]. rewrite H1, Hl, !sers_cons, !len_app. split; [done|lia].
    - destruct (IH Hl) as [H1 H2]; [intros b Hb; apply Hle; by right|done|]. cbn [forallb]. rewrite Ha, H1, !sers_cons, !len_app. split; [done|lia]. }
  destruct H as [H1 H2]. split; [split; [done|rewrite len_node by done; lia]|lia].
Qed.

Lemma ref_track_sound id audio a bound : sound a = true → has_id audio a = true → len (ser a) ≤ bound → bound + 20 < 2 ^ 32 →
  sound (ref_track id a) = true ∧ len (ser (ref_track id a)) ≤ len (ser a) + 20.
Proof.
  intros Ha [Hk%bool_decide_eq_true _]%andb_prop Hb Hbig. pose proof (sound_spec _ Ha) as Hs.
  assert (Ho : lit "trak" ∈ OPENED) by (apply (bool_decide_unpack _); by vm_compute). destruct (opened_node a _ Hs Hk Ho) as [Ea Hl].
  assert (Hlen : len (ser (ref_track id a)) ≤ len (ser a) + 20).
  { rewrite Ea at 2. unfold ref_track. rewrite !len_node by done. pose proof (behind_header_len (chap_ref id) (List.filter (not_kind (lit "tref")) (kids_of a))) as H1.
    rewrite len_chap_ref in H1. pose proof (filter_len (not_kind (lit "tref")) (kids_of a)). lia. }
  split; [|done]. unfold ref_track in *. apply sound_node; [done| |lia]. apply forallb_forall. intros k Hin%list_elem_of_In%behind_header_in.
  destruct Hin as [-> | Hin]; [by vm_compute|]. apply list_elem_of_In, List.filter_In in Hin as [Hin _]. rewrite <-Hk in Ho. apply (so_open _ Hs) in Ho as [_ Hsk].
  by apply (proj1 (forallb_forall _ _) Hsk).
Qed.

Lemma chpl_sound chapters : len (ser (chpl_leaf chapters)) < 2 ^ 32 → sound (chpl_leaf chapters) = true.
Proof. intros Hs. unfold chpl_leaf in *. cbn [sound kind_of content_of] in *. rewrite (proj2 (Z.ltb_lt _ _)) by done. by vm_compute. Qed.

Lemma list_chapters_sound chapters a : sound a = true → kind_of a = lit "udta" → len (ser a) + len (ser (chpl_leaf chapters)) < 2 ^ 32 →
  sound (list_chapters chapters a) = true ∧ len (ser (list_chapters chapters a)) ≤ len (ser a) + len (ser (chpl_leaf chapters)).
Proof.
  intros Ha Hk Hs. pose proof (sound_spec _ Ha) as Hsa. assert (Ho : lit "udta" ∈ OPENED) by (apply (bool_decide_unpack _); by vm_compute).
  destruct (opened_node a _ Hsa Hk Ho) as [Ea _]. pose proof (filter_len (not_kind (lit "chpl")) (kids_of a)) as Hfl.
  assert (Hla : len (ser (list_chapters chapters a)) ≤ len (ser a) + len (ser (chpl_leaf chapters))).
  { rewrite Ea at 2. unfold list_chapters. rewrite !len_node, sers_app, len_app, sers_one by done. lia. }
  split; [|done]. unfold list_chapters in *. pose proof (len_nonneg (ser a)). apply sound_node; [done| |lia]. rewrite forallb_app. cbn [forallb].
  rewrite <-Hk in Ho. apply (so_open _ Hsa) in Ho as [_ Hsk]. apply andb_true_iff. split.
  - apply forallb_forall. intros k [Hin _]%List.filter_In. by apply (proj1 (forallb_forall _ _) Hsk).
  - rewrite andb_true_r. by apply chpl_sound; lia.
Qed.

Lemma put_lists_movie chapters items : movie_tree items →
  len (moov_ser items) + len (ser (chpl_leaf chapters)) + 8 ≤ MAX_READ_EXACT_VEC_BYTES →
  movie_tree (put_lists chapters items) ∧ len (moov_ser (put_lists chapters items)) ≤ len (moov_ser items) + len (ser (chpl_leaf chapters)) + 8.
Proof.
  intros Ht Hs. assert (HM : MAX_READ_EXACT_VEC_BYTES = 67108864) by done. pose proof (len_nonneg (moov_ser items)). pose proof (len_nonneg (ser (chpl_leaf chapters))).
  unfold put_lists. destruct (pick (lit "udta") items) as [u|].
  - destruct (alter_first_movie (of_kind (lit "udta")) (list_chapters chapters) items (len (ser (chpl_leaf chapters))) Ht) as [H1 H2]; [lia|lia| |split; [done|lia]].
    intros a Ha Hk%bool_decide_eq_true Hle. apply list_chapters_sound; [done|done|lia].
  - assert (Hl : len (moov_ser (items ++ [node (lit "udta") [chpl_leaf chapters]])) = len (moov_ser items) + len (ser (chpl_leaf chapters)) + 8).
    { rewrite !len_node, sers_app, len_app, sers_one, len_node, sers_one by done. lia. }
    split; [split; [|lia]|lia]. rewrite forallb_app, (mt_sound _ Ht). cbn [forallb andb]. rewrite andb_true_r.
    apply sound_node; [apply (bool_decide_unpack _); by vm_compute| |rewrite len_node, sers_one by done; lia]. cbn [forallb]. rewrite chpl_sound by lia. done.
Qed.

Lemma find_insert_some t x l : is_Some (List.find t l) → is_Some (List.find t (insert_trak x l)).
Proof.
  intros [y Hy]. destruct (List.find t (insert_trak x l)) as [z|] eqn:E; [by eexists|]. exfalso. apply List.find_some in Hy as [Hin Hy].
  assert (Hin' : y ∈ insert_trak x l) by (rewrite insert_trak_perm; right; by apply list_elem_of_In).
  apply list_elem_of_In in Hin'. pose proof (List.find_none _ _ E y Hin'). congruence.
Qed.

(** [put_chapters] on the bytes of a tree: it fails only when no track has the id it refers to. *)
Lemma put_refines items chapters d ms sizes deltas offset :
  movie_tree items →
  let track := chapter_track d ms sizes deltas offset in
  let audio := default 1 (audio_id items) in
  is_Some (List.find (has_id audio) items) →
  len (moov_ser items) + len (ser (track (next_id items))) + len (ser (chpl_leaf chapters)) + 28 ≤ MAX_READ_EXACT_VEC_BYTES →
  put_chapters (moov_ser items) chapters d ms sizes deltas offset = Done (moov_ser (put_tree track chapters items))
  ∧ movie_tree (put_tree track chapters items)
  ∧ len (moov_ser (put_tree track chapters items)) ≤ len (moov_ser items) + len (ser (track (next_id items))) + len (ser (chpl_leaf chapters)) + 28.
Proof.
  intros Ht track audio Hf Hs. assert (HM : MAX_READ_EXACT_VEC_BYTES = 67108864) by done. assert (HU : U32_MAX = 2 ^ 32 - 1) by done.
  pose proof (len_nonneg (moov_ser items)). pose proof (len_nonneg (ser (track (next_id items)))). pose proof (len_nonneg (ser (chpl_leaf chapters))).
  unfold put_chapters, put_tree. rewrite (first_audio_tree items Ht). cbn [and_then]. rewrite (next_id_tree items Ht). cbn [and_then]. cbv zeta. fold audio.
  rewrite chapter_track_bytes. fold (track (next_id items)). set (id := next_id items) in *.
  rewrite (insert_tree items Ht) by lia. cbn [and_then].
  assert (Ht1 : movie_tree (insert_trak (track id) items)).
  { split; [|rewrite len_node, insert_len in * by done; lia]. rewrite (forallb_perm _ _ _ (insert_trak_perm _ _)). cbn [forallb].
    rewrite (mt_sound _ Ht), andb_true_r. apply chapter_track_sound. fold (track id). lia. }
  assert (L1 : len (moov_ser (insert_trak (track id) items)) = len (moov_ser items) + len (ser (track id))) by (rewrite !len_node, insert_len by done; lia).
  rewrite (ref_tree _ Ht1 audio id) by (by apply find_insert_some || lia). cbn [and_then].
  destruct (alter_first_movie (has_id audio) (ref_track id) _ 20 Ht1) as [Ht2 L2]; [lia|lia| |].
  { intros a Ha Hid Hle. eapply (ref_track_sound id audio a); [done|done|done|lia]. }
  rewrite (lists_tree _ Ht2) by lia. cbn [and_then]. set (l := alter_first _ _ _) in *.
  destruct (put_lists_movie chapters l Ht2) as [Ht3 L3]; [lia|]. pose proof (mt_small _ Ht3) as Hs3.
  split_and!; [|done|lia]. rewrite (buffer_ser (lit "moov") (put_lists _ _)). rewrite buffer_resized; [by rewrite buffer_ser|apply length_to_be|done|].
  rewrite len_node in Hs3 by done. lia.
Qed.
