(* ===== verification/Mp4ChaptersSpec.v ===== *)
(** * Chapters: what [write_audiobook_chapters] promises

    The edits of [chapters_mp4.rs] on the bytes of a [moov] are edits of its tree; writing chapters
    again replaces them; the titles are found through the chapter track, and lost where the [moov]
    ends the file. *)

From stdpp Require Import base option list sets numbers strings pretty.
From Stdlib Require Import ZArith Lia.
From S2P Require Import Prelude Mp4Bytes Mp4Edit Mp4Read Mp4File Mp4Chapters Mp4Walk Mp4Tree Mp4Layout Mp4Tables Mp4Slack Mp4ChaptersTree Mp4ChaptersPut.

Local Open Scope Z_scope.

(** ** The media of the titles *)

Lemma resize_same f : resize f (len f) = f.
Proof. unfold resize, len. rewrite Nat2Z.id, take_ge, Nat.sub_diag by done. apply app_nil_r. Qed.

Lemma write_over_end f new : write_over f (len f) new = f ++ new.
Proof.
  unfold write_over. rewrite Z.max_id, resize_same. cbv zeta. pose proof (len_nonneg new).
  rewrite take_ge, drop_ge by (unfold len in *; lia). by rewrite app_nil_r.
Qed.

Lemma find_any kind l pos : Exists (λ c, tb_kind c = kind) l → ∃ h, List.find (is_kind kind) (headers pos l) = Some h.
Proof.
  intros Hl. revert pos. induction Hl as [c l Hc|c l Hl IH]; intros pos; cbn [headers find]; unfold is_kind at 1;
    cbn [header_at bh_kind].
  - rewrite bool_decide_eq_true_2 by done. eauto.
  - case_bool_decide; eauto.
Qed.

Lemma append_behind_moov pre mb payload :
  readable pre mb [] [] → Exists (λ c, tb_kind c = lit "mdat") pre → len payload + 8 ≤ U32_MAX →
  let file := file_of pre mb [] [] in
  append_chapter_media file payload = Done (file ++ boxed (lit "mdat") payload, len file + 8).
Proof.
  intros [Hok _ Hmb Hj Hlen _] Hmd Hp file. unfold append_chapter_media.
  destruct (top_level_tsers _ _ Hok Hj Hlen) as [q Hq]. unfold file, file_of. rewrite Hq. cbn [and_then].
  destruct (find_any (lit "mdat") (pre ++ [mb]) 0) as [h ->]; [by apply Exists_app; left|]. cbn [ok_or and_then].
  rewrite last_header. unfold is_kind. cbn [header_at bh_kind bh_start]. rewrite Hmb, bool_decide_eq_false_2 by done.
  cbn [andb]. unfold set_len. rewrite resize_same, write_over_end.
  rewrite (proj2 (Z.ltb_ge _ _)) by done. unfold write_atom_header. rewrite (proj2 (Z.ltb_ge _ _)) by lia.
  unfold boxed. by rewrite <-!(assoc_L (++)).
Qed.

(** A run in which every step but the last returns. *)
Lemma chapters_written file chapters at_ whole m0 stripped m1 timescale duration payload sizes deltas file1 offset moov :
  chapters ≠ [] → read_moov file = Done (at_, whole) → strip_trailing_free whole = Done (m0, stripped) →
  strip_existing_chapters m0 = Done m1 → read_mvhd_timing m1 = Done (timescale, duration) → timescale ≠ 0 →
  let duration_ms := (duration * 1000 / timescale) mod 2 ^ 64 in
  build_chapter_samples chapters duration_ms = (payload, sizes, deltas) →
  append_chapter_media file payload = Done (file1, offset) →
  put_chapters m1 chapters duration duration_ms sizes deltas offset = Done moov →
  write_audiobook_chapters file chapters = write_moov file1 at_ moov.
Proof.
  intros Hne Hr Hs Hst Ht Hts ms Eb Ha Hp. unfold write_audiobook_chapters. destruct chapters as [|c chapters]; [done|].
  rewrite Hr. cbn [and_then]. rewrite Hs. cbn [and_then]. rewrite Hst. cbn [and_then]. rewrite Ht. cbn [and_then].
  rewrite (proj2 (Z.eqb_neq _ _)) by done. cbv zeta. fold ms. rewrite Eb, Ha. cbn [and_then]. rewrite Hp. done.
Qed.


(** ** Chapters over chapters *)

Section Alter.
Context (t : atom → bool).

Lemma alter_strip (s : atom → list atom) f l : (∀ x, x ∈ l → t x = true → s (f x) = s x) →
  concat (map s (alter_first t f l)) = concat (map s l).
Proof.
  induction l as [|a l IH]; intros Hs; cbn [alter_first map concat]; [done|]. destruct (t a) eqn:Et; cbn [map concat].
  - by rewrite Hs by (by left || done).
  - rewrite IH; [done|]. intros x Hx. apply Hs. by right.
Qed.

Lemma alter_stripped (s : atom → list atom) f g l : (∀ x, x ∈ l → s x = [x]) → (∀ x, x ∈ l → t x = true → s (f x) = [g x]) →
  concat (map s (alter_first t f l)) = alter_first t g l.
Proof.
  induction l as [|a l IH]; intros H1 H2; cbn [alter_first map concat]; [done|].
  assert (Hrest : concat (map s l) = l).
  { clear IH H2. assert (H : ∀ x, x ∈ l → s x = [x]) by (intros x Hx; apply H1; by right). clear H1.
    induction l as [|b l IH]; cbn [map concat]; [done|]. rewrite H, IH; [done| |by left]. intros x Hx. apply H. by right. }
  destruct (t a) eqn:Et; cbn [map concat].
  - rewrite H2, Hrest by (by left || done). done.
  - rewrite H1, IH; [done| | |by left]; intros x Hx; [apply H1|apply H2]; by right.
Qed.

Lemma alter_twice f g l : (∀ x, t x = true → t (g x) = true) → alter_first t f (alter_first t g l) = alter_first t (λ x, f (g x)) l.
Proof.
  intros Hg. induction l as [|a l IH]; cbn [alter_first]; [done|]. destruct (t a) eqn:Et; cbn [alter_first]; [by rewrite Hg|]. by rewrite Et, IH.
Qed.

Lemma alter_ext f g l : (∀ x, x ∈ l → t x = true → f x = g x) → alter_first t f l = alter_first t g l.
Proof.
  induction l as [|a l IH]; intros H; cbn [alter_first]; [done|]. destruct (t a) eqn:Et; [by rewrite H by (by left || done)|].
  rewrite IH; [done|]. intros x Hx. apply H. by right.
Qed.

Lemma alter_app f l k : is_Some (List.find t l) → alter_first t f (l ++ k) = alter_first t f l ++ k.
Proof.
  induction l as [|a l IH]; cbn [find alter_first app]; [by intros []|]. destruct (t a); [done|]. intros H. by rewrite IH.
Qed.

(** Changing a track and putting one in do not interfere. *)
Lemma alter_insert f c l : t c = false → (∀ x, x ∈ l → t x = true → of_kind (lit "udta") (f x) = of_kind (lit "udta") x) →
  alter_first t f (insert_trak c l) = insert_trak c (alter_first t f l).
Proof.
  intros Hc. induction l as [|a l IH]; intros Hf; cbn [insert_trak alter_first]; [by rewrite Hc|].
  destruct (of_kind (lit "udta") a) eqn:Eu; cbn [alter_first].
  - rewrite Hc. destruct (t a) eqn:Et; cbn [insert_trak]; [by rewrite Hf, Eu by (by left || done)|by rewrite Eu].
  - destruct (t a) eqn:Et; cbn [insert_trak]; [by rewrite Hf, Eu by (by left || done)|]. rewrite Eu, IH; [done|]. intros x Hx. apply Hf. by right.
Qed.

Lemma find_alter (u : atom → bool) f l : (∀ x, x ∈ l → t x = true → u (f x) = u x) →
  is_Some (List.find u (alter_first t f l)) ↔ is_Some (List.find u l).
Proof.
  induction l as [|a l IH]; intros H; cbn [alter_first find]; [done|]. destruct (t a) eqn:Et; cbn [find].
  - rewrite H by (by left || done). destruct (u a); [|done]. split; intros _; by eexists.
  - destruct (u a); [done|]. apply IH. intros x Hx. apply H. by right.
Qed.
End Alter.

Lemma strip_insert (s : atom → list atom) c l : s c = [] → concat (map s (insert_trak c l)) = concat (map s l).
Proof. intros Hc. induction l as [|a l IH]; cbn [insert_trak map concat]; [by rewrite Hc|]. destruct (of_kind _ a); cbn [map concat]; [by rewrite Hc|by rewrite IH]. Qed.

Lemma find_insert c l : of_kind (lit "udta") c = false →
  is_Some (List.find (of_kind (lit "udta")) (insert_trak c l)) ↔ is_Some (List.find (of_kind (lit "udta")) l).
Proof.
  intros Hc. induction l as [|a l IH]; cbn [insert_trak find]; [by rewrite Hc|]. destruct (of_kind (lit "udta") a) eqn:E; cbn [find]; rewrite E; [|done].
  rewrite Hc. split; intros _; by eexists.
Qed.

(** *** Trees without chapters *)

Definition clean (a : atom) : Prop :=
  (kind_of a = lit "trak" → strip_track a = a ∧ refs_of (kids_of a) = [] ∧ text_ids (kids_of a) = [])
  ∧ (kind_of a = lit "udta" → strip_lists a = a).

Lemma filter_idem (p : atom → bool) l : List.filter p (List.filter p l) = List.filter p l.
Proof. induction l as [|a l IH]; cbn [List.filter]; [done|]. destruct (p a) eqn:E; cbn [List.filter]; [by rewrite E, IH|done]. Qed.

Lemma filter_none (p : atom → bool) l : Forall (λ a, p a = true) l → List.filter p l = l.
Proof. induction 1 as [|a l Ha _ IH]; cbn [List.filter]; [done|]. by rewrite Ha, IH. Qed.

Lemma strip_refs_kinds k x : x ∈ strip_refs k → kind_of x = lit "tref" ∧ strip_refs x = [x] ∧ pick (lit "chap") (kids_of x) = None.
Proof.
  unfold strip_refs at 1. destruct (List.filter _ (kids_of k)) as [|o os] eqn:E; [by intros ?%elem_of_nil|]. intros ->%list_elem_of_singleton.
  rewrite <-E. split_and!; [done| |].
  - unfold strip_refs, node. cbn [kids_of]. rewrite filter_idem, E. done.
  - unfold node. cbn [kids_of]. apply pick_none. apply Forall_forall. intros y Hy%list_elem_of_In. apply List.filter_In in Hy as [_ Hy].
    unfold not_kind, of_kind in Hy. apply negb_true_iff, bool_decide_eq_false in Hy. done.
Qed.

Definition strip_kid (k : atom) : list atom := if of_kind (lit "tref") k then strip_refs k else [k].
Lemma strip_kid_idem k x : x ∈ strip_kid k → strip_kid x = [x].
Proof.
  unfold strip_kid at 1. destruct (of_kind (lit "tref") k) eqn:E.
  - intros (Hk & Hs & _)%strip_refs_kinds. unfold strip_kid, of_kind. by rewrite bool_decide_eq_true_2.
  - intros ->%list_elem_of_singleton. unfold strip_kid. by rewrite E.
Qed.

Lemma strip_kids_idem l : concat (map strip_kid (concat (map strip_kid l))) = concat (map strip_kid l).
Proof.
  assert (H : ∀ l, (∀ x, x ∈ l → strip_kid x = [x]) → concat (map strip_kid l) = l).
  { intros k. induction k as [|a k IH]; intros Hk; cbn [map concat]; [done|]. rewrite (Hk a) by (by left). cbn [app]. rewrite IH; [done|]. intros x Hx. apply Hk. by right. }
  apply H. intros x. induction l as [|a l IH]; cbn [map concat]; [by intros ?%elem_of_nil|]. rewrite elem_of_app. intros [Hx|Hx]; [by eapply strip_kid_idem|auto].
Qed.

(** Reading a track through types other than [tref] is not affected. *)
Lemma pick_strip k l : k ≠ lit "tref" → pick k (concat (map strip_kid l)) = pick k l.
Proof.
  intros Hk. induction l as [|a l IH]; cbn [map concat]; [done|]. rewrite pick_app, pick_cons, IH. unfold strip_kid, of_kind. case_bool_decide as Ha.
  - rewrite (bool_decide_eq_false_2 (kind_of a = k)) by congruence. rewrite pick_none; [done|].
    apply Forall_forall. intros x (Hx & _)%strip_refs_kinds. congruence.
  - rewrite pick_cons. by case_bool_decide.
Qed.

Lemma refs_stripped l : refs_of (concat (map strip_kid l)) = [].
Proof.
  unfold refs_of. destruct (pick (lit "tref") (concat (map strip_kid l))) as [x|] eqn:E; [|done]. pose proof E as E'. unfold pick in E'.
  apply List.find_some in E' as [Hin Hk%bool_decide_eq_true]. apply list_elem_of_In in Hin.
  assert (Hc : pick (lit "chap") (kids_of x) = None); [|by rewrite Hc]. clear E. induction l as [|a l IH]; cbn [map concat] in Hin; [by apply elem_of_nil in Hin|].
  apply elem_of_app in Hin as [Hin|Hin]; [|by apply IH]. unfold strip_kid in Hin. destruct (of_kind (lit "tref") a) eqn:Ea.
  - by apply strip_refs_kinds in Hin as (_ & _ & ?).
  - apply list_elem_of_singleton in Hin as ->. unfold of_kind in Ea. apply bool_decide_eq_false in Ea. done.
Qed.

Lemma track_id_strip l : track_id_of (concat (map strip_kid l)) = track_id_of l.
Proof. unfold track_id_of. by rewrite pick_strip. Qed.
Lemma text_ids_strip l : text_ids (concat (map strip_kid l)) = text_ids l.
Proof. unfold text_ids. by rewrite pick_strip, track_id_strip. Qed.

Lemma strip_tree_clean items : Forall clean (strip_tree items).
Proof.
  unfold strip_tree. set (ids := chapter_ids_of items). assert (Hids : ∀ t, t ∈ items → of_kind (lit "trak") t = true → ∀ i, i ∈ text_ids (kids_of t) → i ∈ ids).
  { intros t Ht Hk i Hi. unfold ids, chapter_ids_of. apply list_elem_of_In, in_concat. eexists. split; [|apply list_elem_of_In, elem_of_app; by right].
    apply in_map_iff. exists t. split; [done|]. apply List.filter_In. split; [by apply list_elem_of_In|done]. }
  apply Forall_forall. intros x Hx. apply list_elem_of_In, in_concat in Hx as (l & Hl & Hx%list_elem_of_In). apply in_map_iff in Hl as (a & <- & Ha%list_elem_of_In).
  unfold strip_item in Hx. destruct (of_kind (lit "trak") a) eqn:Ek.
  - destruct (removed ids a) eqn:Er; [by apply elem_of_nil in Hx|]. apply list_elem_of_singleton in Hx as ->. split; [intros _|done].
    unfold strip_track. fold strip_kid. unfold node. cbn [kids_of]. rewrite strip_kids_idem, refs_stripped, text_ids_strip. split_and!; [done|done|].
    destruct (text_ids (kids_of a)) as [|i l] eqn:Et; [done|]. exfalso. assert (Hi : i ∈ ids) by (eapply Hids; [done|done|rewrite Et; by left]).
    unfold text_ids in Et. destruct (pick _ _); [|done]. case_bool_decide; [|done]. unfold removed in Er.
    destruct (track_id_of (kids_of a)) as [j|]; [|done]. cbn in Et. injection Et as -> _. by apply bool_decide_eq_false in Er.
  - destruct (of_kind (lit "udta") a) eqn:Eu; apply list_elem_of_singleton in Hx as ->.
    + split; [done|]. intros _. unfold strip_lists, node. cbn [kids_of]. by rewrite filter_idem.
    + unfold of_kind in Ek, Eu. apply bool_decide_eq_false in Ek, Eu. split; done.
Qed.

(** *** The chapter track and the track that refers to it *)

Lemma next_id_fresh items : Forall (λ i, i < U32_MAX) (track_ids items) →
  2 ≤ next_id items ≤ U32_MAX ∧ Forall (λ i, i < next_id items) (track_ids items).
Proof.
  intros H. unfold next_id. set (m := fold_left Z.max (track_ids items) 0).
  assert (Hm : ∀ l acc, acc < U32_MAX → Forall (λ i, i < U32_MAX) l → acc ≤ fold_left Z.max l acc < U32_MAX ∧ Forall (λ i, i ≤ fold_left Z.max l acc) l).
  { intros l. induction l as [|a l IH]; intros acc Ha Hl; cbn [fold_left]; [split; [lia|done]|]. apply Forall_cons in Hl as [Hb Hl].
    destruct (IH (Z.max acc a)) as [H1 H2]; [lia|done|]. split; [lia|]. constructor; [lia|done]. }
  destruct (Hm (track_ids items) 0 ltac:(done) H) as [H1 H2]. fold m in H1, H2. assert (U32_MAX = 2 ^ 32 - 1) by done. split; [lia|].
  eapply Forall_impl; [exact H2|]. cbn. intros i Hi. lia.
Qed.

Lemma quads_one v : 0 ≤ v < 2 ^ 32 → quads (be32 v) = [v].
Proof.
  intros Hv. pose proof (from_to_be_small 4 v Hv) as E. pose proof (length_to_be 4 v) as L. destruct (be32 v) as [|a [|b [|c [|d [|e l]]]]]; try done.
  cbn [quads]. by rewrite E.
Qed.

Section Track.
Context (d ms : Z) (sizes deltas : list Z) (offset id : Z) (Hid : 0 ≤ id < 2 ^ 32).
Notation track := (chapter_track d ms sizes deltas offset id).

Lemma track_tkhd : pick (lit "tkhd") (kids_of track) = Some (chapter_header id (Z.min d U32_MAX)).
Proof. reflexivity. Qed.

Lemma header_id movie : id_of (chapter_header id movie) = id.
Proof.
  unfold id_of, chapter_header. cbn [content_of]. set (rest := be32 0 ++ be32 movie ++ _).
  change (slice (bytes_of [0; 0; 0; 2] ++ be32 0 ++ be32 0 ++ be32 id ++ rest) 0 1) with [Byte.x00]. change (from_be [Byte.x00] =? 0) with true. cbv iota.
  replace (slice (bytes_of [0; 0; 0; 2] ++ be32 0 ++ be32 0 ++ be32 id ++ rest) 12 16) with (be32 id); [by apply from_to_be_small|].
  symmetry. rewrite !(assoc_L (++)). rewrite <-(assoc_L (++) _ (be32 id) rest). exact (slice_mid (bytes_of [0; 0; 0; 2] ++ be32 0 ++ be32 0) (be32 id) rest).
Qed.

Lemma track_track_id : track_id_of (kids_of track) = Some id.
Proof. unfold track_id_of. rewrite track_tkhd. cbn [fmap option_fmap option_map]. by rewrite header_id. Qed.

Lemma track_has_id a : has_id a track = bool_decide (id = a).
Proof. unfold has_id. rewrite track_track_id. change (of_kind (lit "trak") track) with true. cbn [andb]. apply bool_decide_ext. naive_solver. Qed.

Lemma track_text : text_ids (kids_of track) = [id].
Proof. unfold text_ids. rewrite track_track_id. reflexivity. Qed.

Lemma track_refs : refs_of (kids_of track) = [].
Proof. reflexivity. Qed.

Lemma track_removed ids : strip_item ids track = if bool_decide (id ∈ ids) then [] else [strip_track track].
Proof. unfold strip_item, removed. rewrite track_track_id. reflexivity. Qed.
End Track.

Definition drop_refs (trak : atom) : atom := node (lit "trak") (List.filter (not_kind (lit "tref")) (kids_of trak)).

Section Ref.
Context (id : Z) (Hid : 0 ≤ id < 2 ^ 32) (trak : atom) (Hk : kind_of trak = lit "trak").
Notation others := (List.filter (not_kind (lit "tref")) (kids_of trak)).

Lemma pick_behind k x l : kind_of x ≠ k → pick k (behind_header x l) = pick k l.
Proof.
  intros Hne. induction l as [|a l IH]; cbn [behind_header]; [done|]. destruct (of_kind (lit "tkhd") a); rewrite !pick_cons; [|by rewrite IH].
  by rewrite (bool_decide_eq_false_2 (kind_of x = k)).
Qed.

Lemma pick_ref k : k ≠ lit "tref" → pick k (kids_of (ref_track id trak)) = pick k (kids_of trak).
Proof. intros Hne. unfold ref_track, node. cbn [kids_of]. rewrite pick_behind by (intros E; apply Hne; by rewrite <-E). by rewrite pick_without. Qed.

Lemma ref_track_id : track_id_of (kids_of (ref_track id trak)) = track_id_of (kids_of trak).
Proof. unfold track_id_of. by rewrite pick_ref. Qed.
Lemma ref_text : text_ids (kids_of (ref_track id trak)) = text_ids (kids_of trak).
Proof. unfold text_ids. by rewrite pick_ref, ref_track_id. Qed.

Lemma ref_refs i : i ∈ refs_of (kids_of (ref_track id trak)) → i = id.
Proof.
  unfold refs_of, ref_track, node. cbn [kids_of]. destruct (pick (lit "tref") _) as [x|] eqn:E; [|by intros ?%elem_of_nil].
  assert (x = chap_ref id) as ->.
  { unfold pick in E. apply List.find_some in E as [Hin Hx%bool_decide_eq_true]. apply list_elem_of_In, behind_header_in in Hin as [->|Hin]; [done|].
    apply list_elem_of_In, List.filter_In in Hin as [_ Hn]. unfold not_kind, of_kind in Hn. by rewrite bool_decide_eq_true_2 in Hn. }
  change (pick (lit "chap") (kids_of (chap_ref id))) with (Some (Leaf (lit "chap") (be32 id))). cbn [content_of]. rewrite quads_one by done.
  by intros ?%list_elem_of_singleton.
Qed.

Lemma ref_stripped : strip_track (ref_track id trak) = drop_refs trak.
Proof.
  unfold strip_track, ref_track, drop_refs. fold strip_kid. unfold node at 2. cbn [kids_of]. f_equal.
  assert (Ho : Forall (λ a, of_kind (lit "tref") a = false) others).
  { apply Forall_forall. intros a Ha%list_elem_of_In. apply List.filter_In in Ha as [_ Ha]. unfold not_kind in Ha. by apply negb_true_iff in Ha. }
  assert (Hsame : ∀ l, Forall (λ a, of_kind (lit "tref") a = false) l → concat (map strip_kid l) = l).
  { intros l. induction 1 as [|a l Ha _ IH]; cbn [map concat]; [done|]. unfold strip_kid at 1. by rewrite Ha, IH. }
  generalize dependent others. intros l Hl. induction Hl as [|a l Ha Hl IH]; cbn [behind_header]; [done|].
  destruct (of_kind (lit "tkhd") a); cbn [map concat]; unfold strip_kid at 1; rewrite Ha; cbn [app]; [|by rewrite IH]. f_equal.
  change (strip_kid (chap_ref id)) with (@nil atom). cbn [app]. by apply Hsame.
Qed.

Lemma ref_drop : ref_track id (drop_refs trak) = ref_track id trak.
Proof. unfold ref_track, drop_refs, node. cbn [kids_of]. by rewrite filter_idem. Qed.
End Ref.

(** *** Taking out what was put in *)

Lemma alter_first_in t f l x : x ∈ alter_first t f l → x ∈ l ∨ ∃ y, y ∈ l ∧ t y = true ∧ x = f y.
Proof.
  induction l as [|a l IH]; cbn [alter_first]; [by intros ?%elem_of_nil|]. destruct (t a) eqn:Et; intros [->|Hx]%elem_of_cons.
  - right. exists a. split_and!; [by left|done|done].
  - left. by right.
  - left. by left.
  - destruct (IH Hx) as [Hl|(y & Hy & Ht & ->)]; [left; by right|right]. exists y. split_and!; [by right|done|done].
Qed.
Lemma alter_first_other t f l x : x ∈ l → t x = false → x ∈ alter_first t f l.
Proof. induction l as [|a l IH]; cbn [alter_first]; [by intros ?%elem_of_nil|]. rewrite elem_of_cons. intros [->|Hx] Hf; [rewrite Hf; by left|]. destruct (t a); right; auto. Qed.

Section Replace.
Context (d ms : Z) (sizes deltas : list Z) (offset : Z) (chapters : list chapter).
Notation track := (chapter_track d ms sizes deltas offset).
Context (m : list atom) (Hclean : Forall clean m) (Hids : Forall (λ i, i < U32_MAX) (track_ids m)).
Notation audio := (default 1 (audio_id m)).
Notation id := (next_id m).
Context (Hf : is_Some (List.find (has_id audio) m)).

Lemma id_range : 0 ≤ id < 2 ^ 32.
Proof. destruct (next_id_fresh m Hids) as [H _]. unfold U32_MAX in H. lia. Qed.

Lemma member_id t i : t ∈ m → kind_of t = lit "trak" → track_id_of (kids_of t) = Some i → i < id.
Proof.
  intros Ht Hk Hi. destruct (next_id_fresh m Hids) as [_ H]. apply (proj1 (Forall_forall _ _) H). unfold track_ids. apply list_elem_of_In, in_concat.
  eexists. split; [apply in_map_iff; exists t; split; [done|]|rewrite Hi; by left]. apply List.filter_In. split; [by apply list_elem_of_In|]. by apply bool_decide_eq_true.
Qed.

Lemma audio_not_new : has_id audio (track id) = false.
Proof.
  rewrite track_has_id by apply id_range. apply bool_decide_eq_false. intros E. destruct Hf as [t Ht]. apply List.find_some in Ht as [Hin Hh].
  apply andb_prop in Hh as [Hk%bool_decide_eq_true Hi%bool_decide_eq_true]. apply list_elem_of_In in Hin.
  pose proof (member_id t _ Hin Hk Hi). lia.
Qed.

Lemma has_id_kind a x : has_id a x = true → kind_of x = lit "trak".
Proof. intros [Hk%bool_decide_eq_true _]%andb_prop. done. Qed.

Lemma track_put : track id ∈ put_tree track chapters m.
Proof.
  unfold put_tree. cbv zeta. set (l := alter_first _ _ _). assert (Hl : track id ∈ l) by (apply alter_first_other; [rewrite insert_trak_perm; by left|apply audio_not_new]).
  unfold put_lists. destruct (pick _ l); [by apply alter_first_other|]. apply elem_of_app. by left.
Qed.

(** Which ids are found afterwards: that of the new track alone. *)
Lemma new_ids : ∀ i, i ∈ chapter_ids_of (put_tree track chapters m) ↔ i = id.
Proof.
  intros i. pose proof id_range as Hid. set (l := alter_first (has_id audio) (ref_track id) (insert_trak (track id) m)).
  assert (Hmem : ∀ x, x ∈ put_tree track chapters m → kind_of x = lit "trak" → x ∈ l).
  { intros x Hx Hk. unfold put_tree in Hx. cbv zeta in Hx. fold l in Hx. unfold put_lists in Hx. destruct (pick _ l).
    - apply alter_first_in in Hx as [Hx|(y & _ & _ & ->)]; [done|]. by vm_compute in Hk.
    - apply elem_of_app in Hx as [Hx|Hx%list_elem_of_singleton]; [done|]. subst x. by vm_compute in Hk. }
  split.
  - unfold chapter_ids_of. intros Hi. apply list_elem_of_In, in_concat in Hi as (r & Hr & Hi). apply in_map_iff in Hr as (x & <- & Hx).
    apply List.filter_In in Hx as [Hx%list_elem_of_In Hk%bool_decide_eq_true]. specialize (Hmem x Hx Hk). apply list_elem_of_In in Hi.
    apply alter_first_in in Hmem as [Hin|(y & Hy & Hh & ->)].
    + rewrite insert_trak_perm in Hin. apply elem_of_cons in Hin as [->|Hin].
      * rewrite track_refs, track_text in Hi by done. by apply list_elem_of_singleton in Hi.
      * destruct (proj1 (Forall_forall _ _) Hclean x Hin) as [Hc _]. destruct (Hc Hk) as (_ & E1 & E2). rewrite E1, E2 in Hi. by apply elem_of_nil in Hi.
    + rewrite insert_trak_perm in Hy. apply elem_of_cons in Hy as [->|Hy]; [by rewrite audio_not_new in Hh|].
      apply elem_of_app in Hi as [Hi|Hi]; [by apply (ref_refs id Hid y)|]. rewrite ref_text in Hi.
      destruct (proj1 (Forall_forall _ _) Hclean y Hy) as [Hc _]. destruct (Hc (has_id_kind _ _ Hh)) as (_ & _ & E). rewrite E in Hi. by apply elem_of_nil in Hi.
  - intros ->. pose proof track_put as Hin.
    unfold chapter_ids_of. apply list_elem_of_In, in_concat. eexists. split; [apply in_map_iff; exists (track id); split; [done|]|].
    + apply List.filter_In. split; [by apply list_elem_of_In|done].
    + rewrite track_refs, track_text by done. by left.
Qed.

(** What is left after taking the chapters out again. *)
Lemma strip_put : strip_tree (put_tree track chapters m)
  = alter_first (has_id audio) drop_refs m ++ match pick (lit "udta") m with Some _ => [] | None => [node (lit "udta") []] end.
Proof.
  unfold strip_tree. pose proof new_ids as Hnew. set (ids := chapter_ids_of _) in *. pose proof id_range as Hid.
  assert (Hin : bool_decide (id ∈ ids) = true) by (apply bool_decide_eq_true; by apply Hnew).
  assert (HC : strip_item ids (track id) = []) by (rewrite track_removed by done; by rewrite Hin). clear Hin.
  assert (Hold : ∀ x, x ∈ m → removed ids x = false ∨ kind_of x ≠ lit "trak").
  { intros x Hx. destruct (decide (kind_of x = lit "trak")) as [Hk|]; [left|by right]. unfold removed. destruct (track_id_of (kids_of x)) as [j|] eqn:Ej; [|done].
    apply bool_decide_eq_false. intros ->%Hnew. pose proof (member_id x _ Hx Hk Ej). lia. }
  assert (Hsame : ∀ x, x ∈ m → strip_item ids x = [x]).
  { intros x Hx. destruct (proj1 (Forall_forall _ _) Hclean x Hx) as [Hc Hu]. unfold strip_item, of_kind. case_bool_decide as Hk.
    - destruct (Hold x Hx) as [-> | Hn]; [|by destruct Hn]. by destruct (Hc Hk) as [-> _].
    - case_bool_decide as Hk2; [|done]. by rewrite Hu. }
  assert (Href : ∀ x, x ∈ m → has_id audio x = true → strip_item ids (ref_track id x) = [drop_refs x]).
  { intros x Hx Hh. unfold strip_item. change (of_kind (lit "trak") (ref_track id x)) with true. cbv iota. unfold removed. rewrite ref_track_id.
    destruct (Hold x Hx) as [Hr|Hn]; [|by destruct Hn; eapply has_id_kind]. unfold removed in Hr. rewrite Hr. by rewrite ref_stripped. }
  assert (Hcore : concat (map (strip_item ids) (alter_first (has_id audio) (ref_track id) (insert_trak (track id) m))) = alter_first (has_id audio) drop_refs m).
  { rewrite alter_insert; [|apply audio_not_new|]. 2:{ intros x _ Hh%has_id_kind. unfold of_kind. rewrite Hh. done. }
    rewrite strip_insert by done. by apply alter_stripped. }
  unfold put_tree. cbv zeta. set (l := alter_first _ _ _) in *. unfold put_lists.
  assert (Hu : is_Some (pick (lit "udta") l) ↔ is_Some (pick (lit "udta") m)).
  { unfold l, pick. fold (of_kind (lit "udta")). rewrite find_alter.
    - by apply find_insert.
    - intros x _ Hh%has_id_kind. unfold of_kind. rewrite Hh. done. }
  destruct (pick (lit "udta") l) as [u|], (pick (lit "udta") m) as [v|]; [|by destruct (proj1 Hu ltac:(by eexists))|by destruct (proj2 Hu ltac:(by eexists))|].
  - rewrite app_nil_r, <-Hcore. apply alter_strip. intros x _ Hk%bool_decide_eq_true. unfold strip_item, of_kind.
    change (bool_decide (kind_of (list_chapters chapters x) = lit "trak")) with false. change (bool_decide (kind_of (list_chapters chapters x) = lit "udta")) with true.
    rewrite Hk. change (bool_decide (lit "udta" = lit "trak")) with false. change (bool_decide (lit "udta" = lit "udta")) with true. cbv iota.
    unfold strip_lists, list_chapters. f_equal. f_equal. unfold node. cbn [kids_of]. rewrite List.filter_app, filter_idem. by rewrite app_nil_r.
  - rewrite map_app, concat_app, Hcore. done.
Qed.

Lemma pick_drop k x : k ≠ lit "tref" → pick k (kids_of (drop_refs x)) = pick k (kids_of x).
Proof. intros Hk. unfold drop_refs, node. cbn [kids_of]. by apply pick_without. Qed.

Lemma drop_has_id a x : has_id a x = true → has_id a (drop_refs x) = true.
Proof. intros [Hk Hi]%andb_prop. unfold has_id, track_id_of in *. by rewrite pick_drop. Qed.

Lemma drop_track_ids a l : track_ids (alter_first (has_id a) drop_refs l) = track_ids l.
Proof.
  unfold track_ids. induction l as [|x l IH]; cbn [alter_first List.filter]; [done|]. destruct (has_id a x) eqn:E.
  - apply andb_prop in E as [Ek _]. cbn [List.filter]. rewrite Ek. change (of_kind (lit "trak") (drop_refs x)) with true. cbv iota. cbn [map concat].
    unfold track_id_of. by rewrite pick_drop.
  - cbn [List.filter]. destruct (of_kind (lit "trak") x); cbn [map concat]; by rewrite IH.
Qed.

Lemma drop_audio a l : audio_id (alter_first (has_id a) drop_refs l) = audio_id l.
Proof.
  induction l as [|x l IH]; cbn [alter_first audio_id]; [done|]. destruct (has_id a x) eqn:E; cbn [audio_id].
  - rewrite !pick_drop by done. apply andb_prop in E as [Ek _]. rewrite Ek. done.
  - by rewrite IH.
Qed.

Lemma audio_id_app l k : Forall (λ x, of_kind (lit "trak") x = false) k → audio_id (l ++ k) = audio_id l.
Proof.
  intros Hk. induction l as [|x l IH]; cbn [app audio_id]; [|by rewrite IH]. induction Hk as [|x k Hx _ IH]; cbn [audio_id]; [done|]. rewrite Hx, IH. cbn [andb].
  by repeat destruct (pick _ _).
Qed.

Lemma find_has_id_drop a l : is_Some (List.find (has_id a) l) → is_Some (List.find (has_id a) (alter_first (has_id a) drop_refs l)).
Proof. intros H. apply find_alter; [|done]. intros x _ Hx. rewrite Hx. by apply drop_has_id. Qed.

Notation left_over := (strip_tree (put_tree track chapters m)).

Lemma left_over_facts : next_id left_over = id ∧ audio_id left_over = audio_id m ∧ is_Some (List.find (has_id audio) left_over).
Proof.
  rewrite strip_put. set (rest := match pick (lit "udta") m with Some _ => [] | None => [node (lit "udta") []] end).
  assert (Hrest : Forall (λ x, of_kind (lit "trak") x = false) rest) by (unfold rest; destruct (pick _ m); by repeat constructor).
  assert (Hids' : track_ids (alter_first (has_id audio) drop_refs m ++ rest) = track_ids m).
  { rewrite <-(drop_track_ids audio m). unfold track_ids. rewrite List.filter_app, map_app, concat_app.
    assert (List.filter (of_kind (lit "trak")) rest = []) as -> by (unfold rest; by destruct (pick _ m)). by rewrite app_nil_r. }
  unfold next_id. rewrite Hids', audio_id_app, drop_audio by done. split_and!; [done|done|]. destruct (find_has_id_drop audio m Hf) as [x Hx].
  exists x. clear -Hx. induction (alter_first _ _ m) as [|a l IH]; cbn [find app] in *; [done|]. destruct (has_id _ a); [done|auto].
Qed.

(** Writing chapters over those that were written before gives what writing them over none gives. *)
Lemma put_again (track' : Z → atom) chapters' : has_id audio (track' id) = false → kind_of (track' id) = lit "trak" →
  put_tree track' chapters' left_over = put_tree track' chapters' m.
Proof.
  intros Hne Hkt. destruct left_over_facts as (E1 & E2 & _). unfold put_tree at 1. cbv zeta. rewrite E1, E2, strip_put. clear E1 E2.
  set (rest := match pick (lit "udta") m with Some _ => [] | None => [node (lit "udta") []] end). unfold put_tree. cbv zeta.
  set (f := ref_track id). set (h := has_id audio) in *.
  assert (Hkind : ∀ g, (∀ x, kind_of (g x) = lit "trak") → ∀ (l : list atom) x, x ∈ l → h x = true → of_kind (lit "udta") (g x) = of_kind (lit "udta") x).
  { intros g Hg l x _ Hx. apply has_id_kind in Hx. unfold of_kind. by rewrite Hg, Hx. }
  assert (Htwice : alter_first h f (alter_first h drop_refs m) = alter_first h f m).
  { rewrite alter_twice by (intros x; apply drop_has_id). apply alter_ext. intros x _ Hx. apply ref_drop. }
  unfold rest. destruct (pick (lit "udta") m) as [u|] eqn:Eu.
  - rewrite app_nil_r, !alter_insert by (done || by eapply Hkind). by rewrite Htwice.
  - assert (Hno : Forall (λ y, of_kind (lit "udta") y = false) m) by (apply none_where; exact Eu).
    assert (Hno' : ∀ g, (∀ x, kind_of (g x) = lit "trak") → Forall (λ y, of_kind (lit "udta") y = false) (alter_first h g m)).
    { intros g Hg. apply Forall_forall. intros x [Hx|(y & _ & _ & ->)]%alter_first_in; [by apply (proj1 (Forall_forall _ _) Hno)|]. unfold of_kind. by rewrite Hg. }
    rewrite (insert_trak_split _ (alter_first h drop_refs m) (node (lit "udta") []) []) by (done || by apply Hno').
    rewrite insert_trak_none by done. rewrite (alter_app h f (alter_first h drop_refs m)) by (by apply find_has_id_drop).
    rewrite (alter_app h f m) by done. rewrite Htwice. set (l := alter_first h f m). assert (Hl : Forall (λ y, of_kind (lit "udta") y = false) l) by (by apply Hno').
    assert (HCu : of_kind (lit "udta") (track' id) = false) by (unfold of_kind; by rewrite Hkt). unfold put_lists.
    assert (Hn : ∀ k, Forall (λ y, of_kind (lit "udta") y = false) k → pick (lit "udta") k = None).
    { intros k Hk. apply pick_none. eapply Forall_impl; [exact Hk|]. cbn. intros y Hy E. unfold of_kind in Hy. by rewrite bool_decide_eq_true_2 in Hy. }
    assert (HCk : bool_decide (kind_of (track' id) = lit "udta") = false) by exact HCu.
    rewrite (pick_app _ l (_ :: _)), (Hn l Hl), !pick_cons, HCk. cbn [kind_of node]. rewrite bool_decide_eq_true_2 by done.
    assert (Hlt : Forall (λ y, of_kind (lit "udta") y = false) (l ++ [track' id])) by (apply Forall_app; split; [done|by constructor]). rewrite (Hn _ Hlt).
    change (track' id :: [node (lit "udta") []]) with ([track' id] ++ [node (lit "udta") []]). rewrite (assoc_L (++)).
    rewrite alter_first_split by done. done.
Qed.
End Replace.

Lemma drop_refs_len a l : forallb sound l = true → len (sers (alter_first (has_id a) drop_refs l)) ≤ len (sers l).
Proof.
  induction l as [|x l IH]; intros Hs; cbn [alter_first]; [done|]. apply forallb_cons in Hs as [Hx Hs]. specialize (IH Hs).
  destruct (has_id a x) eqn:E; rewrite !sers_cons, !len_app; [|lia]. apply andb_prop in E as [Ek%bool_decide_eq_true _].
  destruct (opened_node x _ (sound_spec _ Hx) Ek ltac:(apply (bool_decide_unpack _); by vm_compute)) as [Ex _]. rewrite Ex at 2. unfold drop_refs.
  rewrite !len_node by done. pose proof (filter_len (not_kind (lit "tref")) (kids_of x)). lia.
Qed.

Lemma strip_refs_sound k : sound k = true → kind_of k = lit "tref" → forallb sound (strip_refs k) = true.
Proof.
  intros Hs Hk. pose proof (sound_spec _ Hs) as H. assert (Ho : lit "tref" ∈ OPENED) by (apply (bool_decide_unpack _); by vm_compute).
  pose proof (strip_refs_len k H Hk) as Hl. pose proof (so_size _ H). unfold strip_refs in *. set (p := not_kind (lit "chap")) in *.
  assert (Hsk : forallb sound (List.filter p (kids_of k)) = true).
  { pose proof Ho as Ho'. rewrite <-Hk in Ho'. apply (so_open _ H) in Ho' as [_ Hsk]. apply forallb_forall. intros x [Hin _]%List.filter_In. by apply (proj1 (forallb_forall _ _) Hsk). }
  destruct (List.filter p (kids_of k)) as [|o os]; [done|]. rewrite sers_one in Hl. cbn [forallb]. rewrite andb_true_r. apply sound_node; [done|done|lia].
Qed.

Lemma strip_item_sound ids a : sound a = true → forallb sound (strip_item ids a) = true.
Proof.
  intros Hs. pose proof (sound_spec _ Hs) as H. pose proof (strip_item_len ids a H) as Hl. pose proof (so_size _ H). unfold strip_item in *.
  destruct (of_kind (lit "trak") a) eqn:Ek; [|destruct (of_kind (lit "udta") a) eqn:Eu].
  - destruct (removed ids a); [done|]. apply bool_decide_eq_true in Ek. rewrite sers_one in Hl. cbn [forallb]. rewrite andb_true_r.
    assert (Ho : lit "trak" ∈ OPENED) by (apply (bool_decide_unpack _); by vm_compute). unfold strip_track in *. apply sound_node; [done| |lia].
    rewrite <-Ek in Ho. apply (so_open _ H) in Ho as [_ Hsk]. induction (kids_of a) as [|k l IH]; cbn [map concat]; [done|]. apply forallb_cons in Hsk as [Hk Hsk].
    rewrite forallb_app. rewrite IH by (done || (rewrite !len_node in * by done; cbn [map concat] in Hl; rewrite sers_app, len_app in Hl; pose proof (len_nonneg (sers (if of_kind (lit "tref") k then strip_refs k else [k]))); lia)).
    rewrite andb_true_r. destruct (of_kind (lit "tref") k) eqn:Ek2; [|cbn [forallb]; by rewrite Hk]. apply strip_refs_sound; [done|by apply bool_decide_eq_true in Ek2].
  - apply bool_decide_eq_true in Eu. rewrite sers_one in Hl. cbn [forallb]. rewrite andb_true_r.
    assert (Ho : lit "udta" ∈ OPENED) by (apply (bool_decide_unpack _); by vm_compute). unfold strip_lists in *. apply sound_node; [done| |lia].
    rewrite <-Eu in Ho. apply (so_open _ H) in Ho as [_ Hsk]. apply forallb_forall. intros x [Hin _]%List.filter_In. by apply (proj1 (forallb_forall _ _) Hsk).
  - cbn [forallb]. by rewrite Hs.
Qed.

Lemma strip_movie items : movie_tree items → movie_tree (strip_tree items) ∧ len (moov_ser (strip_tree items)) ≤ len (moov_ser items).
Proof.
  intros [Hs Hm]. unfold strip_tree. generalize (chapter_ids_of items) as ids. intros ids.
  assert (H : forallb sound (concat (map (strip_item ids) items)) = true ∧ len (sers (concat (map (strip_item ids) items))) ≤ len (sers items)).
  { clear Hm. induction items as [|a l IH]; [done|]. apply forallb_cons in Hs as [Ha Hl]. destruct (IH Hl) as [H1 H2]. cbn [map concat].
    rewrite forallb_app, H1, (strip_item_sound _ _ Ha), sers_app, sers_cons, !len_app. split; [done|]. pose proof (strip_item_len ids a (sound_spec _ Ha)). lia. }
  rewrite !len_node in * by done. split; [split; [by apply H|rewrite len_node by done; lia]|lia].
Qed.

(** C18: Chapters written over chapters replace them. On the bytes of a [moov] with tracks and
    user data in order: after any number of runs before it, a run takes out all that the run
    before it put in, and the [moov] it writes is byte for byte the one it would have written
    had there been no chapters. *)
Theorem chapters_are_replaced items chapters d ms sizes deltas offset chapters' d' ms' sizes' deltas' offset' :
  movie_tree items →
  let m := strip_tree items in
  Forall (λ i, i < U32_MAX) (track_ids m) → is_Some (List.find (has_id (default 1 (audio_id m))) m) →
  let track := chapter_track d ms sizes deltas offset (next_id m) in
  let track' := chapter_track d' ms' sizes' deltas' offset' (next_id m) in
  len (moov_ser items) + len (ser track) + len (chpl_atom chapters) + 28 ≤ MAX_READ_EXACT_VEC_BYTES →
  len (moov_ser items) + len (ser track') + len (chpl_atom chapters') + 36 ≤ MAX_READ_EXACT_VEC_BYTES →
  ∃ m1 m2 m3 final,
    strip_existing_chapters (moov_ser items) = Done m1
    ∧ put_chapters m1 chapters d ms sizes deltas offset = Done m2
    ∧ strip_existing_chapters m2 = Done m3
    ∧ put_chapters m3 chapters' d' ms' sizes' deltas' offset' = Done final
    ∧ put_chapters m1 chapters' d' ms' sizes' deltas' offset' = Done final.
Proof.
  intros Ht m Hids Hf track track' Hs Hs'. destruct (strip_movie items Ht) as [Htm Lm]. fold m in Htm, Lm. rewrite !chpl_bytes in *.
  pose proof (strip_tree_clean items) as Hclean. fold m in Hclean.
  destruct (put_refines m chapters d ms sizes deltas offset Htm Hf) as (P1 & T1 & _); [fold track; lia|].
  destruct (put_refines m chapters' d' ms' sizes' deltas' offset' Htm Hf) as (P2 & _); [fold track'; lia|].
  set (put := put_tree (chapter_track d ms sizes deltas offset) chapters m) in *. destruct (strip_movie put T1) as [T3 _].
  destruct (left_over_facts d ms sizes deltas offset chapters m Hclean Hids Hf) as (E1 & E2 & F3). fold put in E1, E2, F3.
  assert (L3 : len (moov_ser (strip_tree put)) ≤ len (moov_ser m) + 8).
  { rewrite !len_node by done. unfold put. rewrite (strip_put d ms sizes deltas offset chapters m Hclean Hids Hf), sers_app, len_app.
    assert (Hd : len (sers (alter_first (has_id (default 1 (audio_id m))) drop_refs m)) ≤ len (sers m)).
    { apply drop_refs_len, (mt_sound _ Htm). }
    destruct (pick _ m); [change (len (sers [])) with 0; lia|]. rewrite sers_one, len_node by done. change (len (sers [])) with 0. lia. }
  destruct (put_refines (strip_tree put) chapters' d' ms' sizes' deltas' offset' T3) as (P3 & _); [by rewrite E2|rewrite E1; fold track'; lia|].
  exists (moov_ser m), (moov_ser put), (moov_ser (strip_tree put)), (moov_ser (put_tree (chapter_track d' ms' sizes' deltas' offset') chapters' m)).
  split_and!; [by apply strip_refines|done|by apply strip_refines| |done].
  rewrite P3. unfold put. rewrite (put_again d ms sizes deltas offset chapters m Hclean Hids Hf); [done| |done].
  by apply (audio_not_new d' ms' sizes' deltas' offset').
Qed.
