(* ===== verification/Mp4RemuxSpec.v ===== *)
(** * Remuxing: what [write_progressive_m4b] promises

    The loop that makes chunk offsets and the length of the [moov] agree settles; the tables it writes
    are read back by the parser; and every sample is found where they say. *)

From stdpp Require Import base option list sets numbers strings pretty.
From Stdlib Require Import ZArith Lia.
From S2P Require Import Prelude Mp4Bytes Mp4Edit Mp4Read Mp4File Mp4Remux Mp4Walk Mp4Tree Mp4Splice Mp4Search Mp4Retable Mp4Layout Mp4Tables Mp4Slack.

Local Open Scope Z_scope.

(** ** Samples in their places *)

Notation total := (foldr Z.add 0).

Lemma lay_out_at sizes : ∀ offset i o, 0 ≤ offset → Forall (λ s, 0 ≤ s) sizes → offset + total sizes ≤ U64_MAX →
  lay_out offset sizes !! i = Some o → o = offset + total (take i sizes).
Proof.
  induction sizes as [|s sizes IH]; intros offset i o H0 Hs Hm E; cbn [lay_out] in E; [done|].
  apply Forall_cons in Hs as [Hs0 Hs]. cbn [foldr] in Hm.
  assert (0 ≤ total sizes) by (clear -Hs; induction Hs; cbn [foldr]; lia).
  destruct i as [|i]; cbn [lookup list_lookup take foldr] in *; [injection E as <-; lia|].
  unfold u64_saturating_add in E. rewrite Z.min_r in E by lia. apply IH in E; [lia|lia|done|lia].
Qed.

Lemma length_lay_out sizes : ∀ offset, length (lay_out offset sizes) = length sizes.
Proof. induction sizes as [|s sizes IH]; intros offset; cbn [lay_out length]; [done|]. by rewrite IH. Qed.

Lemma lay_out_range sizes : ∀ offset, 0 ≤ offset < 2 ^ 64 → Forall (λ s, 0 ≤ s) sizes →
  Forall (λ o, 0 ≤ o < 2 ^ 64) (lay_out offset sizes).
Proof.
  induction sizes as [|s sizes IH]; intros offset Ho Hs; cbn [lay_out]; [done|]. apply Forall_cons in Hs as [Hs0 Hs].
  constructor; [done|]. apply IH; [|done]. unfold u64_saturating_add, U64_MAX. lia.
Qed.

Lemma outgrown_mono sizes : ∀ a b, a ≤ b → outgrown (lay_out a sizes) = true → outgrown (lay_out b sizes) = true.
Proof.
  unfold outgrown. induction sizes as [|s sizes IH]; intros a b Hab; cbn [lay_out existsb]; [done|].
  intros [H|H]%orb_true_iff; apply orb_true_iff; [left; apply Z.ltb_lt in H; apply Z.ltb_lt; lia|right].
  eapply IH; [|exact H]. unfold u64_saturating_add. lia.
Qed.

(** What the closure yields for each sample, each of the size that was announced. *)
Lemma write_samples_spec fill sizes : ∀ i payload,
  (∀ j s, fill j = Done s → len s < 2 ^ 32) → write_samples fill i sizes = Done payload →
  ∃ samples, payload = concat samples ∧ map len samples = sizes
  ∧ ∀ k s, samples !! k = Some s → fill (i + k)%nat = Done s.
Proof.
  induction sizes as [|n sizes IH]; intros i payload Hf; cbn [write_samples].
  { intros [= <-]. by exists []. }
  intros (s & Es & H)%and_then_Done. destruct (negb _) eqn:En; [done|]. apply negb_false_iff, Z.eqb_eq in En.
  apply and_then_Done in H as (rest & Er & [= <-]). destruct (IH _ _ Hf Er) as (samples & -> & <- & Hs).
  exists (s :: samples). split_and!; [done| |].
  - cbn [map]. f_equal. rewrite <-En. symmetry. apply Z.mod_small. pose proof (len_nonneg s). pose proof (Hf _ _ Es). lia.
  - intros [|k] x; cbn [lookup list_lookup]; [intros [= <-]; by rewrite Nat.add_0_r|]. intros Hx%Hs. by rewrite <-Nat.add_succ_comm.
Qed.

Lemma write_samples_total fill sizes : ∀ i,
  (∀ k n, sizes !! k = Some n → 0 ≤ n < 2 ^ 32 ∧ ∃ s, fill (i + k)%nat = Done s ∧ len s = n) →
  ∃ payload, write_samples fill i sizes = Done payload.
Proof.
  induction sizes as [|n sizes IH]; intros i Hf; cbn [write_samples]; [by eexists|].
  destruct (Hf 0%nat n eq_refl) as (Hn & s & Es & Hs). rewrite Nat.add_0_r in Es. rewrite Es. cbn [and_then].
  rewrite Hs, Z.mod_small, Z.eqb_refl by done. cbn [negb]. destruct (IH (S i)) as [rest ->]; [|by eexists].
  intros k m Hk. destruct (Hf (S k) m Hk) as (Hm & x & Ex & Hx). split; [done|]. exists x. by rewrite Nat.add_succ_comm.
Qed.

Lemma len_samples samples : len (concat samples) = total (map len samples).
Proof. induction samples as [|s l IH]; cbn [map foldr concat]; [done|]. rewrite len_app. lia. Qed.

(** A sample among others. *)
Lemma slice_concat A samples : ∀ i s, samples !! i = Some s →
  let o := len A + total (take i (map len samples)) in slice (A ++ concat samples) o (o + len s) = s.
Proof.
  revert A. induction samples as [|x samples IH]; intros A i s E; [done|]. destruct i as [|i]; cbn [map take foldr concat] in *.
  - injection E as ->. rewrite Z.add_0_r. cbv zeta. apply slice_mid.
  - specialize (IH (A ++ x) i s E). cbv zeta in IH. rewrite len_app, <-(assoc_L (++)) in IH. cbv zeta. by rewrite Z.add_assoc.
Qed.

(** ** The loop *)

Definition media_start (moov_len : Z) : Z := len build_m4b_ftyp + moov_len + MDAT_HEADER_LEN.
Definition laid_out (input : ProgressiveWriteInput) (moov_len : Z) : list Z :=
  lay_out (media_start moov_len) (pw_sample_sizes input).

(** What a round builds for a [moov] of the length the round before found. *)
Definition round (input : ProgressiveWriteInput) (media_duration moov_len : Z) : outcome bytes :=
  let! built := rebuild_moov input (laid_out input moov_len) media_duration in
  pad_moov_to built (len built + RESERVED_MOOV_SLACK).

Lemma settle_round fuel input d n : settle (S fuel) input d n
  = (let! built := round input d n in if len built =? n then Done built else settle fuel input d (len built)).
Proof. cbn [settle]. unfold round, laid_out, media_start. by destruct (rebuild_moov _ _ _). Qed.

(** The loop ends at a fixed point only. *)
Lemma settle_fixed fuel : ∀ input d n moov, settle fuel input d n = Done moov → round input d (len moov) = Done moov.
Proof.
  induction fuel as [|fuel IH]; intros input d n moov; [done|]. rewrite settle_round.
  intros (built & Eb & H)%and_then_Done. destruct (Z.eqb_spec (len built) n) as [<-|]; [by injection H as <-|by eapply IH].
Qed.

(** What holds of the length a round starts from and of the one it finds holds of the final one. *)
Lemma settle_length (P : Z → Prop) fuel : ∀ input d n moov,
  (∀ n moov, P n → round input d n = Done moov → P (len moov)) → P n → settle fuel input d n = Done moov → P (len moov).
Proof.
  induction fuel as [|fuel IH]; intros input d n moov HP Hn; [done|]. rewrite settle_round.
  intros (built & Eb & H)%and_then_Done. destruct (Z.eqb_spec (len built) n) as [E|]; [injection H as <-; by rewrite E|].
  by eapply IH; [..|exact H]; eauto.
Qed.

(** Two lengths, the shorter one while the offsets fit 32 bits: three rounds are enough. *)
Lemma settle_two fuel input d narrow wide :
  0 ≤ narrow ≤ wide →
  (∀ n, n = 0 ∨ n = narrow ∨ n = wide → ∃ moov, round input d n = Done moov
     ∧ len moov = if outgrown (laid_out input n) then wide else narrow) →
  ∃ moov, settle (S (S (S fuel))) input d 0 = Done moov.
Proof.
  intros Hnw Hround.
  assert (Hend : ∀ fuel n, n = narrow ∨ n = wide → outgrown (laid_out input n) = bool_decide (n ≠ narrow) →
    ∃ moov, settle (S fuel) input d n = Done moov).
  { intros fl n Hn Ho. destruct (Hround n) as (moov & Er & El); [tauto|]. rewrite settle_round, Er. cbn [and_then].
    exists moov. rewrite Ho in El. rewrite (proj2 (Z.eqb_eq _ _)); [done|]. case_bool_decide; [|lia].
    destruct Hn as [-> | ->]; [lia|done]. }
  assert (Hmono : ∀ a b, a ≤ b → outgrown (laid_out input a) = true → outgrown (laid_out input b) = true).
  { intros a b Hab. apply outgrown_mono. unfold media_start. lia. }
  assert (Hwide : ∀ fuel a, a ≤ wide → outgrown (laid_out input a) = true → ∃ moov, settle (S fuel) input d wide = Done moov).
  { intros fl a Ha Ho. destruct (Z.eq_dec wide narrow) as [E|E].
    - destruct (Hround wide) as (moov & Er & El); [tauto|]. rewrite settle_round, Er. cbn [and_then]. exists moov.
      rewrite (proj2 (Z.eqb_eq _ _)); [done|]. rewrite El. destruct (outgrown (laid_out input wide)); lia.
    - apply Hend; [tauto|]. rewrite bool_decide_eq_true_2 by done. by eapply Hmono. }
  destruct (Hround 0) as (first & Ef & Lf); [tauto|]. rewrite settle_round, Ef. cbn [and_then].
  destruct (len first =? 0); [by exists first|]. destruct (outgrown (laid_out input 0)) eqn:Of; rewrite Lf.
  { eapply (Hwide (S fuel) 0); [lia|done]. }
  destruct (outgrown (laid_out input narrow)) eqn:Os.
  - destruct (Hround narrow) as (second & Es & Ls); [tauto|]. rewrite settle_round, Es. cbn [and_then]. rewrite Ls, Os.
    destruct (_ =? _); [by exists second|]. eapply (Hwide fuel narrow); [lia|done].
  - apply Hend; [tauto|]. by rewrite bool_decide_eq_false_2 by tauto.
Qed.

(** ** Boxes by type *)

Lemma swap_pick k b l : is_Some (pick k l) → ∃ l1 a l2, l = l1 ++ a :: l2 ∧ kind_of a = k
  ∧ Forall (λ c, kind_of c ≠ k) l1 ∧ swap k b l = Some (l1 ++ b :: l2).
Proof.
  unfold pick. induction l as [|a l IH]; cbn [find swap]; [by intros []|]. case_bool_decide as Hk.
  - intros _. by exists [], a, l.
  - intros (l1 & c & l2 & -> & Hc & Hl1 & ->)%IH. exists (a :: l1), c, l2. split_and!; [done..|by constructor|done].
Qed.

(** Another box in place of the first of its type: that one is now found, others as before. *)
Lemma pick_swapped k l1 a b l2 k' : kind_of a = k → kind_of b = k → Forall (λ c, kind_of c ≠ k) l1 →
  pick k' (l1 ++ b :: l2) = if bool_decide (k' = k) then Some b else pick k' (l1 ++ a :: l2).
Proof.
  intros Ha Hb Hl. rewrite !pick_app, !pick_cons, Ha, Hb. destruct (decide (k' = k)) as [->|Hk].
  - rewrite (pick_none k l1 Hl), bool_decide_eq_true_2 by done. done.
  - rewrite (bool_decide_eq_false_2 (k' = k)), (bool_decide_eq_false_2 (k = k')) by congruence. done.
Qed.

Definition kept (a : atom) : bool := negb (named [lit "saiz"; lit "saio"] a).
Lemma pick_kept k l : k ≠ lit "saiz" → k ≠ lit "saio" → pick k (List.filter kept l) = pick k l.
Proof.
  intros H1 H2. induction l as [|a l IH]; [done|]. cbn [List.filter]. rewrite pick_cons. destruct (kept a) eqn:Ea.
  - by rewrite pick_cons, IH.
  - rewrite IH. unfold kept in Ea. apply negb_false_iff, existsb_exists in Ea as (n & Hn & E%bool_decide_eq_true).
    rewrite bool_decide_eq_false_2; [done|]. rewrite E. destruct Hn as [<-|[<-|[]]]; congruence.
Qed.

Definition tabular (a : atom) : bool := is_table (kind_of a).
Lemma tabular_kind a : tabular a = true → kind_of a = lit "stco" ∨ kind_of a = lit "co64".
Proof. unfold tabular, is_table. intros [?%bool_decide_eq_true|?%bool_decide_eq_true]%orb_true_iff; auto. Qed.

(** The one table of chunk offsets. *)
Lemma one_table l1 a l2 t : List.filter tabular (l1 ++ a :: l2) = [t] → tabular a = true →
  Forall (λ c, tabular c = false) (l1 ++ l2).
Proof.
  rewrite List.filter_app. cbn [List.filter]. intros E Ha. rewrite Ha in E.
  destruct (List.filter tabular l1) as [|x xs] eqn:E1; [|destruct xs; discriminate]. cbn [app] in E. injection E as -> E2.
  assert (Hnone : ∀ l, List.filter tabular l = [] → Forall (λ c, tabular c = false) l).
  { intros l. induction l as [|c l IH]; cbn [List.filter]; [done|]. destruct (tabular c) eqn:Ec; [done|]. constructor; auto. }
  apply Forall_app. auto.
Qed.

Lemma offsets_tabular offsets : tabular (offsets_atom offsets) = true.
Proof. unfold tabular, offsets_atom. cbn [kind_of]. by destruct (outgrown offsets). Qed.

Lemma pick_offsets l1 l2 offsets k : Forall (λ c, tabular c = false) (l1 ++ l2) → is_table k = true →
  pick k (l1 ++ offsets_atom offsets :: l2)
  = if bool_decide (table_kind (outgrown offsets) = k) then Some (offsets_atom offsets) else None.
Proof.
  intros Hl Hk. assert (Hne : ∀ l, Forall (λ c, tabular c = false) l → pick k l = None).
  { intros l Hf. apply pick_none. eapply Forall_impl; [exact Hf|]. unfold tabular. intros c Hc E. rewrite E in Hc. congruence. }
  apply Forall_app in Hl as [H1 H2]. rewrite pick_app, pick_cons, (Hne _ H1), (Hne _ H2). done.
Qed.

Lemma pick_others l1 l2 a b k : tabular a = true → tabular b = true → is_table k = false →
  pick k (l1 ++ a :: l2) = pick k (l1 ++ b :: l2).
Proof.
  intros Ha Hb Hk. rewrite !pick_app, !pick_cons. rewrite !bool_decide_eq_false_2; [done|..]; intros <-; unfold tabular in *; congruence.
Qed.

(** ** Retouched trees *)

Lemma retouched_app l m x : retouched (l ++ m) x → ∃ l' m', x = l' ++ m' ∧ retouched l l' ∧ retouched m m'.
Proof.
  revert x. induction l as [|a l IH]; intros x H; cbn [app] in H; [exists [], x; split_and!; [done|constructor|done]|].
  inversion H; subst; match goal with Hr : retouched (l ++ m) _ |- _ => apply IH in Hr as (l1 & m1 & -> & ? & ?) end;
    (eexists (_ :: l1), m1; split_and!; [done|by constructor|done]).
Qed.

Lemma retouched_node kind pre kids post x : retouched [Node kind pre kids post] x →
  ∃ kids', x = [Node kind pre kids' post] ∧ retouched kids kids'.
Proof.
  intros H. inversion H; subst; match goal with Hr : retouched [] _ |- _ => inversion Hr; subst end; eexists; split; try done.
  apply retouched_refl.
Qed.

(** What a retouched forest has below a path. *)
Lemma retouched_below p xs l : retouched (tplug p xs) l →
  ∃ xs' pos, retouched xs xs' ∧ holds (sers l) pos (sers xs').
Proof.
  revert l. induction p as [|f p IH]; intros l H; cbn [tplug] in H; [exists l, 0; split; [done|apply holds_whole]|].
  apply retouched_app in H as (l1 & m & -> & _ & H). apply (retouched_app [_]) in H as (n & r & -> & H & _).
  apply retouched_node in H as (kids & -> & (xs' & pos & Hr & a & c & E & _)%IH).
  exists xs'. eexists. split; [done|]. rewrite !sers_app, (sers_cons _ []). cbn [ser]. fold (sers kids). rewrite E. unfold boxed.
  eexists (sers l1 ++ be32 _ ++ tf_kind f ++ tf_pre f ++ a), (c ++ sers r). split; [|done].
  change (sers []) with (@nil Init.Byte.byte). rewrite !app_nil_r. by rewrite <-!(assoc_L (++)).
Qed.

Definition childless (a : atom) : bool := match a with Node _ _ _ _ => false | _ => true end.

Lemma retouched_pick k l l' : retouched l l' → k ∉ TIMED → match pick k l with
  | Some a => childless a = true → pick k l' = Some a
  | None => pick k l' = None
  end.
Proof.
  intros H Hk. induction H as [|kind body body' l l' Ht _ _ IH|a l l' _ IH|kind pre kids kids' post l l' _ _ _ IH]; [done|..];
    rewrite !pick_cons; cbn [kind_of]; case_bool_decide; subst; done.
Qed.

(** ** A [moov] that can be remuxed *)

Definition moov_frame : tframe := mk_tframe [] (lit "moov") [] [].

(** One sample table in one track, with the boxes a remux rewrites. *)
Record remuxable (input : ProgressiveWriteInput) (q : list tframe) (f : tframe) (ks : list atom) : Prop := {
  rm_path : table_path (moov_frame :: q) f;
  rm_start : 8 ≤ len (pw_moov_bytes input) ∧ pw_moov_file_start input ≤ pw_sample_entry_type_offset input;
  rm_clear : clear_protection_markup (pw_moov_bytes input) (pw_sample_entry_type_offset input - pw_moov_file_start input)
    = Done (sers (tree (moov_frame :: q) f ks));
  rm_wf : forallb wf (tree (moov_frame :: q) f ks) = true;
  rm_stts : is_Some (pick (lit "stts") ks);
  rm_stsc : is_Some (pick (lit "stsc") ks);
  rm_stsz : is_Some (pick (lit "stsz") ks);
  rm_offsets : ∃ t, List.filter tabular ks = [t];
  rm_sizes : pw_sample_sizes input ≠ [] ∧ u32s (pw_sample_sizes input) ∧ u32s (pw_durations input)
    ∧ length (pw_durations input) = length (pw_sample_sizes input) ∧ count (pw_sample_sizes input) ≤ table_limit;
  rm_fits : len (sers (tree (moov_frame :: q) f ks)) + 80 + 20 * count (pw_sample_sizes input) + RESERVED_MOOV_SLACK ≤ U32_MAX;
}.

Section Rebuild.
Context (q : list tframe) (f : tframe) (Hp : table_path q f).
Notation tree := (tree q f).

(** Replacing the first box of a type. *)
Lemma replace_first k b ks : forallb wf (tree ks) = true → is_Some (pick k ks) → kind_of b = k → wf b = true →
  len (sers (tree ks)) + len (ser b) < 2 ^ 32 →
  ∃ ks', replace_stbl_child (sers (tree ks)) k (ser b) = Done (sers (tree ks'))
    ∧ forallb wf (tree ks') = true ∧ len (sers (tree ks')) ≤ len (sers (tree ks)) + len (ser b)
    ∧ (∀ k', pick k' ks' = if bool_decide (k' = k) then Some b else pick k' ks)
    ∧ (is_table k = false → List.filter tabular ks' = List.filter tabular ks).
Proof.
  intros Hw Hpk Hb Hwb Hsz. destruct (swap_pick k b ks Hpk) as (l1 & a & l2 & -> & Ha & Hl1 & Hs).
  exists (l1 ++ b :: l2). rewrite (replace_tree q f Hp k b _ _ Hw Hs).
  assert (Hlen : len (sers (tree (l1 ++ b :: l2))) ≤ len (sers (tree (l1 ++ a :: l2))) + len (ser b)).
  { unfold Mp4Retable.tree in *. rewrite (len_tplug _ _ (l1 ++ b :: l2) Hw), !sers_app, !sers_cons, !len_app.
    pose proof (len_nonneg (ser a)). lia. }
  split_and!; [done| |done|by intros k'; apply pick_swapped|].
  - apply (tplug_rewf _ _ _ Hw); [|unfold Mp4Retable.tree in *; lia]. destruct (stbl_wf q f Hp _ Hw) as [_ Hk].
    rewrite forallb_app in *. apply andb_prop in Hk as [-> [_ ?]%forallb_cons]. cbn [forallb andb]. by rewrite Hwb.
  - intros Hk. rewrite !List.filter_app. cbn [List.filter].
    assert (tabular a = false ∧ tabular b = false) as [-> ->]; [|done]. unfold tabular. by rewrite Ha, Hb.
Qed.

(** Replacing the table of chunk offsets, whichever it is. *)
Lemma replace_offsets ks t : forallb wf (tree ks) = true → List.filter tabular ks = [t] →
  ∃ l1 l2, ks = l1 ++ t :: l2 ∧ tabular t = true ∧ Forall (λ c, tabular c = false) (l1 ++ l2)
  ∧ ∀ b, replace_chunk_offset_box (sers (tree ks)) (ser b) = Done (sers (tree (l1 ++ b :: l2))).
Proof.
  intros Hw Ht. assert (Hin : List.In t (List.filter tabular ks)) by (rewrite Ht; by left).
  apply List.filter_In in Hin as [(l1 & l2 & ->)%List.in_split Htab]. exists l1, l2. pose proof (one_table _ _ _ _ Ht Htab) as Hno.
  split_and!; [done|done|done|]. intros b. apply (replace_offsets_tree q f Hp); [done|]. unfold swap_offsets.
  assert (Hsw : ∀ k l m, is_table k = true → Forall (λ c, tabular c = false) l → swap k b (l ++ m) = (l ++.) <$> swap k b m).
  { intros k l m Hk Hl. induction Hl as [|c l Hc _ IH]; cbn [app swap]; [by destruct (swap k b m)|].
    rewrite bool_decide_eq_false_2 by (intros <-; unfold tabular in Hc; congruence). rewrite IH. by destruct (swap k b m). }
  assert (Hmiss : swap (lit "stco") b l2 = None).
  { apply Forall_app in Hno as [_ H2]. specialize (Hsw (lit "stco") l2 [] eq_refl H2). by rewrite app_nil_r in Hsw. }
  apply Forall_app in Hno as [H1 _]. rewrite !Hsw by done. cbn [swap]. destruct (tabular_kind _ Htab) as [E|E]; rewrite E.
  - by rewrite bool_decide_eq_true_2.
  - rewrite bool_decide_eq_false_2, Hmiss by done. cbn [fmap option_fmap option_map]. by rewrite bool_decide_eq_true_2.
Qed.

(** Dropping the boxes of sample encryption. *)
Lemma drop_named ks : forallb wf (tree ks) = true → len (sers (tree ks)) < 2 ^ 32 →
  remove_stbl_children_named (sers (tree ks)) [lit "saiz"; lit "saio"] = Done (sers (tree (List.filter kept ks)))
  ∧ forallb wf (tree (List.filter kept ks)) = true ∧ len (sers (tree (List.filter kept ks))) ≤ len (sers (tree ks)).
Proof.
  intros Hw Hsz. destruct (stbl_wf q f Hp _ Hw) as [_ Hk].
  assert (Hless : len (sers (List.filter kept ks)) ≤ len (sers ks)).
  { clear. induction ks as [|a ks IH]; cbn [List.filter]; [done|]. pose proof (len_nonneg (ser a)).
    destruct (kept a); rewrite ?sers_cons, ?len_app in *; lia. }
  assert (Hlt : len (sers (tree (List.filter kept ks))) ≤ len (sers (tree ks))) by (unfold Mp4Retable.tree in *; rewrite (len_tplug _ _ (List.filter kept ks) Hw); lia).
  split_and!; [|apply (tplug_rewf _ _ _ Hw); [|unfold Mp4Retable.tree in *; lia]|done].
  - unfold remove_stbl_children_named. apply (remove_named_tree q f Hp); [done|done|]. unfold walk_fuel.
    assert (Hcnt : ∀ l, forallb wf l = true → count l ≤ len (sers l)).
    { intros l. unfold count. induction l as [|a l IH]; [done|]. intros [Hwa Hwl]%forallb_cons. specialize (IH Hwl).
      destruct (wf_size _ Hwa) as [Hs _]. rewrite sers_cons, len_app. cbn [length]. lia. }
    pose proof (Hcnt _ Hk) as Hc. pose proof (tree_holds q f Hp _ Hw) as Hh%holds_bounds. unfold stbl_node in Hh. cbn [ser] in Hh.
    fold (sers ks) in Hh. rewrite len_boxed, !len_app in Hh by done. change (len []) with 0 in Hh. unfold count, len in *. lia.
  - apply forallb_forall. intros a [Ha _]%List.filter_In. by apply (proj1 (forallb_forall _ _) Hk).
Qed.
End Rebuild.

(** The four tables, by type. *)
Definition tabled (durations sizes offsets : list Z) (ks : list atom) : Prop :=
  pick (lit "stts") ks = Some (stts_atom durations) ∧ pick (lit "stsc") ks = Some stsc_atom
  ∧ pick (lit "stsz") ks = Some (stsz_atom sizes)
  ∧ ∀ k, is_table k = true → pick k ks = if bool_decide (table_kind (outgrown offsets) = k) then Some (offsets_atom offsets) else None.

Lemma tabled_tables durations sizes offsets ks pos : tabled durations sizes offsets ks → remux_tables ks pos durations sizes offsets.
Proof.
  intros (H1 & H2 & H3 & H4). split; [by apply pick_first_at..| |].
  - intros Ho. apply pick_no_first_at. rewrite H4, Ho by done. done.
  - apply pick_first_at. rewrite H4 by (by destruct (outgrown offsets)). by rewrite bool_decide_eq_true_2.
Qed.

Lemma tabled_retouched durations sizes offsets ks ks' : retouched ks ks' → tabled durations sizes offsets ks → tabled durations sizes offsets ks'.
Proof.
  intros Hr (H1 & H2 & H3 & H4).
  assert (Hkeep : ∀ k, bool_decide (k ∈ TIMED) = false → (∀ a, pick k ks = Some a → childless a = true) → pick k ks' = pick k ks).
  { intros k Hk%bool_decide_eq_false Ha. pose proof (retouched_pick k _ _ Hr Hk) as Hm. destruct (pick k ks) as [a|]; [|done]. by apply Hm, Ha. }
  split_and!; [rewrite Hkeep; [done|by vm_compute|rewrite ?H1, ?H2, ?H3; by intros a [= <-]]..|].
  intros k Hk. rewrite Hkeep; [by apply H4| |].
  - unfold is_table in Hk. apply orb_true_iff in Hk as [->%bool_decide_eq_true | ->%bool_decide_eq_true]; by vm_compute.
  - intros a. rewrite H4 by done. case_bool_decide; [by intros [= <-]|done].
Qed.

Lemma tables_first durations sizes l1 l2 t :
  let ks := l1 ++ t :: l2 in
  tabular t = true → Forall (λ c, tabular c = false) (l1 ++ l2) →
  pick (lit "stts") ks = Some (stts_atom durations) → pick (lit "stsc") ks = Some stsc_atom →
  pick (lit "stsz") ks = Some (stsz_atom sizes) →
  ∀ offsets, tabled durations sizes offsets (List.filter kept l1 ++ offsets_atom offsets :: List.filter kept l2).
Proof.
  intros ks Ht Hno H1 H2 H3 offsets.
  assert (Hf : List.filter kept l1 ++ offsets_atom offsets :: List.filter kept l2 = List.filter kept (l1 ++ offsets_atom offsets :: l2)).
  { rewrite List.filter_app. cbn [List.filter]. assert (kept (offsets_atom offsets) = true) as ->; [|done].
    unfold kept, offsets_atom, named. cbn [kind_of]. by destruct (outgrown offsets). }
  rewrite Hf. unfold tabled. rewrite !pick_kept by done.
  rewrite !(pick_others l1 l2 (offsets_atom offsets) t) by (done || apply offsets_tabular). split_and!; [done..|].
  intros k Hk. rewrite pick_kept; [by apply pick_offsets|..]; intros ->; done.
Qed.

Lemma moov_tree q f ks : tree (moov_frame :: q) f ks = [moov_node (tree q f ks)].
Proof. done. Qed.

(** Restating the size of a box that is already right changes nothing. *)
Lemma restate_size kids : store_at (moov_of kids) 0 (be32 (len (moov_of kids))) = Done (moov_of kids).
Proof.
  unfold moov_of. rewrite (len_boxed (lit "moov")) by done. unfold boxed.
  exact (store_mid [] (be32 (8 + len (sers kids))) (lit "moov" ++ sers kids) (be32 (8 + len (sers kids))) eq_refl).
Qed.

(** The rebuilt [moov]: the tree with the four tables in place and durations restated, whatever the
    chunk offsets are. *)
Lemma rebuild_remuxable input q f ks d : remuxable input q f ks →
  ∃ l1 l2, ∀ offsets, Forall (λ o, 0 ≤ o < 2 ^ 64) offsets → count offsets = count (pw_sample_sizes input) →
  let ks' := l1 ++ offsets_atom offsets :: l2 in
  forallb wf (tree (moov_frame :: q) f ks') = true
  ∧ len (sers (tree (moov_frame :: q) f ks')) + RESERVED_MOOV_SLACK ≤ U32_MAX
  ∧ tabled (pw_durations input) (pw_sample_sizes input) offsets ks'
  ∧ ∃ kids, rebuild_moov input offsets d = Done (moov_of kids) ∧ retouched (tree (moov_frame :: q) f ks') [moov_node kids].
Proof.
  intros [Hp [Hst Hoff] Hclear Hw Hstts Hstsc Hstsz [t Ht] (_ & _ & _ & Hld & _) Hfit].
  set (n := count (pw_sample_sizes input)) in *. assert (Hn : 0 ≤ n) by (unfold n, count; lia).
  assert (HU : U32_MAX = 2 ^ 32 - 1) by done. assert (HS : 0 ≤ RESERVED_MOOV_SLACK) by done.
  set (Q := moov_frame :: q) in *. pose proof (len_nonneg (sers (tree Q f ks))).
  assert (Hdn : count (pw_durations input) ≤ n) by (unfold n, count; lia). pose proof (len_stts _ _ Hdn) as L1.
  pose proof (len_stsz (pw_sample_sizes input)) as L3. fold n in L3.
  destruct (replace_first Q f Hp (lit "stts") (stts_atom (pw_durations input)) ks Hw Hstts eq_refl) as (k1 & E1 & W1 & S1 & P1 & F1);
    [apply leaf_wf; [done|done|done|fold (stts_atom (pw_durations input)); lia]|lia|]. specialize (F1 eq_refl).
  destruct (replace_first Q f Hp (lit "stsc") stsc_atom k1 W1) as (k2 & E2 & W2 & S2 & P2 & F2);
    [by rewrite P1|done|done|rewrite len_stsc; lia|]. specialize (F2 eq_refl). rewrite len_stsc in S2.
  destruct (replace_first Q f Hp (lit "stsz") (stsz_atom (pw_sample_sizes input)) k2 W2) as (k3 & E3 & W3 & S3 & P3 & F3);
    [by rewrite P2, P1|done|apply leaf_wf; [done|done|done|fold (stsz_atom (pw_sample_sizes input)); lia]|lia|]. specialize (F3 eq_refl).
  destruct (replace_offsets Q f Hp k3 t W3) as (l1 & l2 & -> & Htab & Hno & E4); [by rewrite F3, F2, F1|].
  exists (List.filter kept l1), (List.filter kept l2). intros offsets Hr Hc. cbv zeta.
  pose proof (len_offsets offsets) as L4. rewrite Hc in L4.
  assert (L4' : len (ser (offsets_atom offsets)) ≤ 16 + 8 * n) by (destruct (outgrown offsets); lia).
  assert (S4 : len (sers (tree Q f (l1 ++ offsets_atom offsets :: l2))) ≤ len (sers (tree Q f (l1 ++ t :: l2))) + len (ser (offsets_atom offsets))).
  { unfold tree in *. rewrite (len_tplug _ _ (l1 ++ offsets_atom offsets :: l2) W3), !sers_app, !sers_cons, !len_app. pose proof (len_nonneg (ser t)). lia. }
  assert (W4 : forallb wf (tree Q f (l1 ++ offsets_atom offsets :: l2)) = true).
  { apply (tplug_rewf _ _ _ W3); [|unfold tree in *; lia]. destruct (stbl_wf Q f Hp _ W3) as [_ Hk]. rewrite forallb_app in *.
    apply andb_prop in Hk as [-> [_ Hk2]%forallb_cons]. cbn [forallb andb]. rewrite Hk2, offsets_wf by (done || lia). done. }
  destruct (drop_named Q f Hp _ W4) as (E5 & W5 & S5); [lia|].
  assert (Hf : List.filter kept (l1 ++ offsets_atom offsets :: l2) = List.filter kept l1 ++ offsets_atom offsets :: List.filter kept l2).
  { rewrite List.filter_app. cbn [List.filter]. assert (kept (offsets_atom offsets) = true) as ->; [|done].
    unfold kept, offsets_atom, named. cbn [kind_of]. by destruct (outgrown offsets). }
  rewrite Hf in *. split_and!; [done|lia| |].
  { apply (tables_first _ _ l1 l2 t); [done|done|rewrite P3, P2, P1; done|rewrite P3, P2; done|rewrite P3; done]. }
  set (movie := if (pw_mvhd_timescale input =? 0) || (pw_audio_timescale input =? 0) then d
    else (d * pw_mvhd_timescale input) mod 2 ^ 64 / pw_audio_timescale input).
  destruct (patch_durations_tree _ d movie W5) as (l & E6 & Hret). pose proof Hret as Hret'.
  unfold Q in Hret'. rewrite moov_tree in Hret'. apply retouched_node in Hret' as (kids & -> & _). exists kids. split; [|done].
  unfold rebuild_moov. rewrite (proj2 (Z.ltb_ge _ _)) by done. unfold u64_of. rewrite (proj2 (Z.leb_le 0 _)) by lia. cbn [ok_or and_then].
  rewrite Hclear. cbn [and_then]. unfold replacing. fold Q.
  rewrite encode_stts_ser, E1. cbn [map_err and_then]. rewrite encode_stsc_ser, E2. cbn [map_err and_then].
  rewrite encode_stsz_ser, E3. cbn [map_err and_then]. rewrite encode_offsets_ser, E4. cbn [map_err and_then].
  rewrite E5. cbn [and_then]. fold movie. rewrite E6. cbn [and_then]. fold (moov_node kids). rewrite ser_moov_node. apply restate_size.
Qed.

(** A round on a [moov] that can be remuxed. *)
Lemma round_remuxable input q f ks d : remuxable input q f ks →
  ∃ l1 l2 narrow wide, 0 ≤ narrow ≤ wide ∧ wide ≤ U32_MAX ∧ ∀ m, 0 ≤ m ≤ U32_MAX →
  let offsets := laid_out input m in
  let ks' := l1 ++ offsets_atom offsets :: l2 in
  ∃ kids, round input d m = Done (moov_of (kids ++ [slack RESERVED_MOOV_SLACK]))
    ∧ len (moov_of (kids ++ [slack RESERVED_MOOV_SLACK])) = (if outgrown offsets then wide else narrow)
    ∧ forallb wf (tree (moov_frame :: q) f ks') = true
    ∧ tabled (pw_durations input) (pw_sample_sizes input) offsets ks'
    ∧ retouched (tree (moov_frame :: q) f ks') [moov_node kids].
Proof.
  intros Hrm. destruct (rebuild_remuxable input q f ks d Hrm) as (l1 & l2 & Hall). destruct Hrm as [_ _ _ _ _ _ _ _ (Hne & Hu & _) _].
  set (n := count (pw_sample_sizes input)) in *. assert (Hn : 0 ≤ n) by (unfold n, count; lia).
  assert (Hnn : Forall (λ s, 0 ≤ s) (pw_sample_sizes input)) by (eapply Forall_impl; [exact Hu|]; cbn; lia).
  assert (HU : U32_MAX = 2 ^ 32 - 1) by done. assert (HS : RESERVED_MOOV_SLACK = 1048576) by done.
  assert (Hoff : ∀ m, 0 ≤ m ≤ U32_MAX → Forall (λ o, 0 ≤ o < 2 ^ 64) (laid_out input m) ∧ count (laid_out input m) = n).
  { intros m Hm. unfold laid_out, media_start. change (len build_m4b_ftyp) with 32. unfold MDAT_HEADER_LEN.
    split; [apply lay_out_range; [lia|done]|]. unfold count, n. by rewrite length_lay_out. }
  set (wide_offsets := replicate (length (pw_sample_sizes input)) (2 ^ 32)).
  set (base := len (sers (tree (moov_frame :: q) f (l1 ++ offsets_atom wide_offsets :: l2))) - len (ser (offsets_atom wide_offsets))).
  destruct (Hall wide_offsets) as (Ww & Sw & _).
  { unfold wide_offsets. by apply Forall_replicate. } { unfold wide_offsets, count. by rewrite length_replicate. }
  assert (Lw : len (ser (offsets_atom wide_offsets)) = 16 + 8 * n).
  { rewrite len_offsets. assert (outgrown wide_offsets = true) as -> by (unfold wide_offsets; by destruct (pw_sample_sizes input)).
    unfold wide_offsets, count, n. by rewrite length_replicate. }
  assert (Hlen : ∀ offsets, count offsets = n →
    len (sers (tree (moov_frame :: q) f (l1 ++ offsets_atom offsets :: l2))) = base + 16 + (if outgrown offsets then 8 else 4) * n).
  { intros offsets Hc. unfold base. unfold tree at 1. rewrite (len_tplug _ _ (l1 ++ offsets_atom offsets :: l2) Ww), !sers_app, !sers_cons, !len_app.
    fold (tree (moov_frame :: q) f (l1 ++ offsets_atom wide_offsets :: l2)). rewrite (len_offsets offsets), Hc. lia. }
  assert (Hbase : 0 ≤ base).
  { unfold base, tree. rewrite (len_tplug _ [] (l1 ++ offsets_atom wide_offsets :: l2)).
    - rewrite sers_app, sers_cons, !len_app. change (len (sers [])) with 0.
      pose proof (len_nonneg (sers l1)). pose proof (len_nonneg (sers l2)). pose proof (len_nonneg (sers (tplug ((moov_frame :: q) ++ [f]) []))). lia.
    - apply (tplug_rewf _ _ _ Ww); [done|]. rewrite (len_tplug _ _ [] Ww). change (len (sers [])) with 0.
      pose proof (len_nonneg (sers (l1 ++ offsets_atom wide_offsets :: l2))). unfold tree in Sw. lia. }
  exists l1, l2, (base + 16 + 4 * n + RESERVED_MOOV_SLACK), (base + 16 + 8 * n + RESERVED_MOOV_SLACK).
  split_and!; [lia|lia|unfold base in *; lia|]. intros m Hm. destruct (Hoff m Hm) as [Hr Hc].
  destruct (Hall _ Hr Hc) as (W & S & T & kids & E & Hret). exists kids. pose proof (Hlen _ Hc) as L.
  pose proof (retouched_len _ _ Hret) as Lr. rewrite ser_moov_node in Lr.
  assert (Hb : len (moov_of kids) = 8 + len (sers kids)) by (unfold moov_of; by rewrite len_boxed).
  rewrite <-padded_moov, len_padded by (done || lia). split_and!; [|destruct (outgrown (laid_out input m)); lia|done..].
  unfold round. rewrite E. cbn [and_then]. unfold moov_of at 1. rewrite pad_boxed by done. cbv zeta. rewrite Hb.
  rewrite (proj2 (Z.eqb_neq _ _)) by lia. rewrite bool_decide_eq_true_2 by lia. do 2 f_equal. lia.
Qed.

(** ** The file that is written *)

(** The parts of a finished file: its [moov] is what a round builds for a [moov] of that length. *)
Lemma written_parts input fill out :
  Forall (λ s, 0 ≤ s) (pw_sample_sizes input) → (∀ i s, fill i = Done s → len s < 2 ^ 32) → len out ≤ U64_MAX →
  write_progressive_m4b input fill = Done out →
  ∃ moov samples, round input (total (pw_durations input)) (len moov) = Done moov
    ∧ out = build_m4b_ftyp ++ moov ++ be32 1 ++ lit "mdat" ++ be64 (MDAT_HEADER_LEN + len (concat samples)) ++ concat samples
    ∧ map len samples = pw_sample_sizes input
    ∧ ∀ i o s, laid_out input (len moov) !! i = Some o → samples !! i = Some s → fill i = Done s ∧ slice out o (o + len s) = s.
Proof.
  intros Hs Hf Hout. unfold write_progressive_m4b. destruct (pw_sample_sizes input) as [|n sizes] eqn:Esz; [done|]. rewrite <-Esz in *.
  destruct (negb _); [done|]. cbv zeta. intros (moov & Em & H)%and_then_Done. apply and_then_Done in H as (payload & Ep & <-%Done_inj).
  apply settle_fixed in Em. destruct (write_samples_spec _ _ _ _ Hf Ep) as (samples & -> & Hlen & Hfill).
  assert (Htot : total (pw_sample_sizes input) = len (concat samples)) by (rewrite <-Hlen; symmetry; apply len_samples).
  exists moov, samples. split_and!; [done|by rewrite Htot, <-!(assoc_L (++))|done|].
  intros i o s Ho Hi. split; [by apply (Hfill i)|].
  set (A := build_m4b_ftyp ++ moov ++ be32 1 ++ lit "mdat" ++ be64 (MDAT_HEADER_LEN + total (pw_sample_sizes input))) in *.
  assert (HA : len A = media_start (len moov)).
  { unfold A, media_start. rewrite !len_app, !len_to_be. change (len (lit "mdat")) with 4. unfold MDAT_HEADER_LEN. lia. }
  assert (Hparts : build_m4b_ftyp ++ moov ++ (be32 1 ++ lit "mdat" ++ be64 (MDAT_HEADER_LEN + total (pw_sample_sizes input))) ++ concat samples
    = A ++ concat samples) by (unfold A; by rewrite <-!(assoc_L (++))).
  rewrite Hparts in *. rewrite len_app, HA, <-Htot in Hout. pose proof (len_nonneg A).
  unfold laid_out in Ho. apply lay_out_at in Ho as ->; [|lia|done|lia]. rewrite <-HA, <-Hlen. by apply slice_concat.
Qed.

(** Whatever [moov] a remux starts from, a file it finishes has its samples where its chunk offsets
    say: the offsets the written [moov] was built with are those of a file with a [moov] of its very
    length, and each of them leads to the bytes the closure produced for that sample. *)
Theorem written_samples_are_in_place input fill out :
  Forall (λ s, 0 ≤ s) (pw_sample_sizes input) → (∀ i s, fill i = Done s → len s < 2 ^ 32) → len out ≤ U64_MAX →
  write_progressive_m4b input fill = Done out →
  ∃ moov built offsets samples,
    rebuild_moov input offsets (total (pw_durations input)) = Done built
    ∧ pad_moov_to built (len built + RESERVED_MOOV_SLACK) = Done moov
    ∧ out = build_m4b_ftyp ++ moov ++ be32 1 ++ lit "mdat" ++ be64 (MDAT_HEADER_LEN + len (concat samples)) ++ concat samples
    ∧ length offsets = length samples ∧ map len samples = pw_sample_sizes input
    ∧ ∀ i o s, offsets !! i = Some o → samples !! i = Some s → fill i = Done s ∧ slice out o (o + len s) = s.
Proof.
  intros Hs Hf Hout Hw. destruct (written_parts input fill out Hs Hf Hout Hw) as (moov & samples & Er & Ho & Hl & Hi).
  unfold round in Er. apply and_then_Done in Er as (built & Eb & Ep).
  exists moov, built, (laid_out input (len moov)), samples. split_and!; [done|done|done| |done|exact Hi].
  unfold laid_out. by rewrite length_lay_out, <-Hl, length_map.
Qed.

Lemma timed_samples_spec offsets : ∀ index cts sizes durations,
  length offsets = length sizes → length durations = length sizes →
  let samples := timed_samples index cts offsets sizes durations in
  map si_offset samples = offsets ∧ map si_size samples = sizes ∧ map si_duration samples = durations ∧ clocked cts samples.
Proof.
  induction offsets as [|o offsets IH]; intros index cts [|s sizes] [|d durations] H1 H2; try done. cbn [timed_samples map].
  destruct (IH (index + 1) (u64_saturating_add cts d) sizes durations) as (E1 & E2 & E3 & E4); [by injection H1|by injection H2|].
  cbn [si_offset si_size si_duration clocked si_start_cts]. rewrite E1, E2, E3. done.
Qed.

(** A sample table inside a file. *)
Lemma stbl_in_file file at_ ks fuel : holds file at_ (ser (stbl_node ks)) → forallb wf ks = true → len file + 8 ≤ I64_MAX →
  (length ks < fuel)%nat → table_in file fuel at_ ks ∧ atom_header at_ (stbl_node ks) = table_header at_ ks.
Proof.
  intros Hh Hw Hl Hf. pose proof (holds_bounds _ _ _ Hh) as [H0 _]. unfold atom_header, table_header. unfold stbl_node in *. cbn [ser app kind_of] in *.
  fold (sers ks) in *. rewrite app_nil_r in *. rewrite len_boxed by done. split; [|done]. split; [by apply wf_sized| |done|done|done].
  unfold boxed in Hh. apply holds_app in Hh as [_ [_ Hh]%holds_app]. rewrite len_to_be in Hh. change (len (lit "stbl")) with 4 in Hh.
  by replace (at_ + 8) with (at_ + Z.of_nat 4 + 4) by lia.
Qed.

Lemma retouched_stbl q f ks kids : table_path (moov_frame :: q) f → retouched (tree (moov_frame :: q) f ks) [moov_node kids] →
  ∃ ks' at_, retouched ks ks' ∧ holds (sers kids) at_ (ser (stbl_node ks')).
Proof.
  intros Hp H. rewrite moov_tree in H. apply retouched_node in H as (kids' & [= <-] & H).
  assert (Hp' : table_path q f) by (destruct Hp as [? ? [_ ?]%forallb_cons ?]; by split).
  rewrite (tree_stbl q f Hp') in H. apply retouched_below in H as (xs & pos & H & Hh).
  apply retouched_app in H as (l & m & -> & _ & H). apply (retouched_app [_]) in H as (x & r & -> & H & _).
  apply retouched_node in H as (ks' & -> & H). exists ks', (pos + len (sers l)). split; [done|].
  rewrite !sers_app in Hh. apply holds_app in Hh as [_ [Hh _]%holds_app].
  by replace (ser (stbl_node ks')) with (sers [stbl_node ks']) by apply app_nil_r.
Qed.

(** A remux that is given its samples finishes: the loop settles within its rounds. *)
Lemma remux_finishes input q f ks fill :
  remuxable input q f ks → (∀ i s, fill i = Done s → len s < 2 ^ 32) →
  (∀ i n, pw_sample_sizes input !! i = Some n → ∃ s, fill i = Done s ∧ len s = n) →
  ∃ out, write_progressive_m4b input fill = Done out ∧ len out ≤ media_start U32_MAX + total (pw_sample_sizes input).
Proof.
  intros Hrm Hf Hfill. destruct (round_remuxable input q f ks (total (pw_durations input)) Hrm) as (l1 & l2 & narrow & wide & Hnw & HwU & Hround).
  pose proof Hrm as [_ _ _ _ _ _ _ _ (Hne & Hu & _ & Hld & _) _].
  destruct (settle_two 1 input (total (pw_durations input)) narrow wide Hnw) as [moov Es].
  { intros n Hn. destruct (Hround n) as (kids & E & L & _); [lia|]. eauto. }
  destruct (write_samples_total fill (pw_sample_sizes input) 0) as [payload Ep].
  { intros k n Hk. split; [exact (proj1 (Forall_lookup _ _) Hu _ _ Hk)|by apply Hfill]. }
  assert (Hlen : 0 ≤ len moov ≤ U32_MAX).
  { revert Es. apply (settle_length (λ n, 0 ≤ n ≤ U32_MAX)); [|lia]. intros n m Hn Hm. destruct (Hround n Hn) as (kids & E & L & _).
    rewrite E in Hm. apply Done_inj in Hm as <-. rewrite L. destruct (outgrown (laid_out input n)); lia. }
  assert (Hpay : len payload = total (pw_sample_sizes input)).
  { destruct (write_samples_spec _ _ _ _ Hf Ep) as (samples & -> & <- & _). apply len_samples. }
  unfold write_progressive_m4b. destruct (pw_sample_sizes input) as [|n sizes] eqn:Esz; [done|]. rewrite <-Esz in *.
  rewrite Hld, Nat.eqb_refl. cbn [negb]. cbv zeta. change settle_rounds with 4%nat. rewrite Es. cbn [and_then]. rewrite Ep. cbn [and_then].
  eexists. split; [done|]. unfold media_start. rewrite !len_app, !len_to_be, Hpay. change (len (lit "mdat")) with 4. unfold MDAT_HEADER_LEN. lia.
Qed.

(** C11: A remux round trip. A [moov] with one sample table, once its protection markup is
    cleared, is remuxed into a file; the loop that settles its length ends; and the sample table
    of the written file, read back by the parser, lists as many samples with the sizes and
    durations they were given, one after the other, each at the very bytes that were produced
    for it. *)
Theorem remuxed_samples_are_found_again input q f ks fill :
  remuxable input q f ks → total (pw_sample_sizes input) ≤ 2 ^ 62 →
  (∀ i s, fill i = Done s → len s < 2 ^ 32) →
  (∀ i n, pw_sample_sizes input !! i = Some n → ∃ s, fill i = Done s ∧ len s = n) →
  ∃ out at_ ks' samples,
    write_progressive_m4b input fill = Done out
    ∧ holds out at_ (ser (stbl_node ks'))
    ∧ (∀ fuel pos, (length ks' < fuel)%nat →
         ∃ pos', sample_table fuel out (atom_header at_ (stbl_node ks')) pos = Done (samples, pos'))
    ∧ map si_size samples = pw_sample_sizes input ∧ map si_duration samples = pw_durations input ∧ clocked 0 samples
    ∧ ∀ i s, samples !! i = Some s → fill i = Done (slice out (si_offset s) (si_offset s + si_size s)).
Proof.
  intros Hrm Htot Hf Hfill. destruct (round_remuxable input q f ks (total (pw_durations input)) Hrm) as (l1 & l2 & narrow & wide & Hnw & HwU & Hround).
  pose proof Hrm as [Hp _ _ _ _ _ _ _ (Hne & Hu & Hud & Hld & Hlim) _]. assert (HU : U32_MAX = 2 ^ 32 - 1) by done.
  assert (Hnn : Forall (λ s, 0 ≤ s) (pw_sample_sizes input)) by (eapply Forall_impl; [exact Hu|]; cbn; lia).
  destruct (remux_finishes input q f ks fill Hrm Hf Hfill) as (out & Eout & Lout).
  unfold media_start in Lout. change (len build_m4b_ftyp) with 32 in Lout. unfold MDAT_HEADER_LEN in Lout.
  destruct (written_parts input fill out Hnn Hf ltac:(unfold U64_MAX; lia) Eout) as (moov & samples & Er & Eo & Hsl & Hi).
  assert (Hlen : 0 ≤ len moov ≤ U32_MAX).
  { pose proof (len_nonneg moov). rewrite Eo, !len_app, !len_to_be, len_samples, Hsl in Lout. change (len build_m4b_ftyp) with 32 in Lout. change (len (lit "mdat")) with 4 in Lout. lia. }
  destruct (Hround (len moov)) as (kids & E & _ & W & T & Hret); [lia|]. rewrite E in Er. apply Done_inj in Er.
  destruct (retouched_stbl q f _ kids Hp Hret) as (ks' & at_ & Hr & Hh).
  assert (Hold : holds out (40 + at_) (ser (stbl_node ks'))).
  { destruct Hh as (a & c & Ea & <-). rewrite Eo, <-Er. unfold moov_of, boxed. rewrite sers_app, Ea.
    eexists (build_m4b_ftyp ++ be32 _ ++ lit "moov" ++ a), _. split; [by rewrite <-!(assoc_L (++))|].
    rewrite !len_app, len_to_be. change (len build_m4b_ftyp) with 32. change (len (lit "moov")) with 4. lia. }
  destruct (stbl_wf _ f Hp _ W) as [_ Wk]. pose proof (retouched_wf _ _ Hr Wk) as Wk'.
  set (offsets := laid_out input (len moov)) in *. assert (Hlo : length offsets = length (pw_sample_sizes input)) by apply length_lay_out.
  destruct (timed_samples_spec offsets 0 0 _ _ Hlo Hld) as (To & Ts & Td & Tc). cbv zeta in To, Ts, Td, Tc.
  exists out, (40 + at_), ks', (timed_samples 0 0 offsets (pw_sample_sizes input) (pw_durations input)). split_and!; [done|done| |done..|].
  - intros fuel pos Hfuel. destruct (stbl_in_file out (40 + at_) ks' fuel) as [Hin ->]; [done|done|unfold I64_MAX; lia|done|].
    apply sample_table_back; [done|by apply tabled_tables, (tabled_retouched _ _ _ _ _ Hr)|done|done|done| | |done|done].
    + intros En. rewrite En in Hlo. by destruct (pw_sample_sizes input).
    + apply lay_out_range; [|done]. unfold media_start. change (len build_m4b_ftyp) with 32. unfold MDAT_HEADER_LEN. lia.
  - intros i s Hs. assert (Ho : offsets !! i = Some (si_offset s)) by (rewrite <-To; change (map ?f ?l) with (f <$> l); by rewrite list_lookup_fmap, Hs).
    assert (Hsz : pw_sample_sizes input !! i = Some (si_size s)) by (rewrite <-Ts; change (map ?f ?l) with (f <$> l); by rewrite list_lookup_fmap, Hs).
    rewrite <-Hsl in Hsz. apply list_lookup_fmap_Some in Hsz as (x & -> & Hx). destruct (Hi i _ x Ho Hx) as [-> ->]. done.
Qed.

(** ** A file the parser does not come back from *)

(** A box whose 64-bit size leads from behind [pre] around to the start of the file. *)
Definition wrapping (pre : list tbox) (kind rest : bytes) : bytes :=
  tsers pre ++ be32 1 ++ kind ++ be64 (2 ^ 64 - len (tsers pre)) ++ rest.

Lemma wrapping_header pre kind rest : length kind = 4%nat → 8 ≤ len (tsers pre) ≤ I64_MAX →
  let file := wrapping pre kind rest in
  let pos := len (tsers pre) in
  pos + 16 ≤ len file ∧ read_box_header file pos = Done (mk_BoxHeader pos (2 ^ 64 - pos) 16 kind, pos + 16).
Proof.
  intros Hk Hp file pos. assert (HI : I64_MAX = 2 ^ 63 - 1) by done. assert (Hk4 : len kind = 4) by (unfold len; lia).
  assert (Hh : holds file pos (be32 1 ++ kind ++ be64 (2 ^ 64 - pos))).
  { exists (tsers pre), rest. unfold file, wrapping. by rewrite <-!(assoc_L (++)). }
  pose proof (holds_bounds _ _ _ Hh) as [_ Hb]. rewrite !len_app, !len_to_be, Hk4 in Hb. split; [lia|].
  apply holds_app in Hh as [H1 [H2 H3]%holds_app]. rewrite len_to_be in H2, H3. rewrite Hk4 in H3. change (Z.of_nat 4) with 4 in *.
  unfold read_box_header. rewrite (rbind_step _ _ _ pos pos) by done.
  rewrite (rbind_step _ _ _ 1 (pos + 4)) by (by apply read_u32_holds).
  rewrite (rbind_step _ _ _ kind (pos + 4 + 4)) by (by apply read_bytes_holds). change (1 =? 1) with true. cbv iota.
  rewrite (rbind_step _ _ _ (2 ^ 64 - pos, 16) (pos + 4 + 4 + 8)).
  2:{ rewrite (rbind_step _ _ _ (2 ^ 64 - pos) (pos + 4 + 4 + 8)); [done|]. apply read_u64_holds; [done|unfold pos in *; lia]. }
  cbv beta iota. rewrite (proj2 (Z.ltb_ge _ _)) by (unfold pos in *; lia). unfold rret. do 2 f_equal. lia.
Qed.

(** A walk over leading boxes is stuck when it is stuck behind them. *)
Lemma top_boxes_spin file l : ∀ fuel pos ftyp moov mdat p,
  forallb tb_ok l = true → holds file pos (tsers l) → len file + 8 ≤ I64_MAX →
  (∀ fuel' ftyp moov mdat p, (fuel' ≤ fuel)%nat → top_boxes file fuel' (pos + len (tsers l)) ftyp moov mdat p = Spin) →
  top_boxes file fuel pos ftyp moov mdat p = Spin.
Proof.
  assert (HI : I64_MAX = 2 ^ 63 - 1) by done.
  induction l as [|b l IH]; intros fuel pos ftyp moov mdat p Hok Hh Hm Hsp.
  { change (len (tsers [])) with 0 in Hsp. rewrite Z.add_0_r in Hsp. by apply Hsp. }
  destruct fuel as [|fuel]; [done|]. cbn [top_boxes]. apply forallb_cons in Hok as [Hb Hok]. rewrite tsers_cons in *. rewrite len_app in *.
  pose proof (tser_pos _ Hb). pose proof (holds_bounds _ _ _ Hh) as Hbd. rewrite len_app in Hbd. pose proof (len_nonneg (tsers l)).
  apply holds_app in Hh as [Hh Hl]. rewrite u64_add_small, (proj2 (Z.ltb_ge _ _)) by lia.
  rewrite (rbind_step _ _ _ () pos) by (apply seek_ok; lia). rewrite (rbind_step _ _ _ _ _ (read_header _ _ _ Hh Hb)). cbv zeta.
  cbn [header_at bh_size]. rewrite (proj2 (Z.eqb_neq _ _)) by lia. unfold bh_end. cbn [header_at bh_start bh_size].
  rewrite u64_add_small by lia. apply IH; [done|done|done|]. intros fuel' ftyp' moov' mdat' p' Hf. rewrite <-Z.add_assoc. apply Hsp. lia.
Qed.

Lemma top_level_pre file l : ∀ fuel pos out p,
  forallb tb_ok l = true → holds file pos (tsers l) → len file + 8 ≤ I64_MAX →
  ∃ p', top_level_from file (length l + fuel) pos out p = top_level_from file fuel (pos + len (tsers l)) (out ++ headers pos l) p'.
Proof.
  assert (HI : I64_MAX = 2 ^ 63 - 1) by done.
  induction l as [|b l IH]; intros fuel pos out p Hok Hh Hm; cbn [length Nat.add headers].
  { exists p. change (len (tsers [])) with 0. by rewrite Z.add_0_r, app_nil_r. }
  cbn [top_level_from]. apply forallb_cons in Hok as [Hb Hok]. rewrite tsers_cons in *. rewrite len_app in *.
  pose proof (tser_pos _ Hb). pose proof (holds_bounds _ _ _ Hh) as Hbd. rewrite len_app in Hbd. pose proof (len_nonneg (tsers l)).
  apply holds_app in Hh as [Hh Hl]. rewrite u64_add_small, (proj2 (Z.ltb_ge _ _)) by lia.
  rewrite (rbind_step _ _ _ () pos) by (apply seek_ok; lia). rewrite (rbind_step _ _ _ _ _ (read_header _ _ _ Hh Hb)).
  unfold bh_end. cbn [header_at bh_start bh_size]. rewrite u64_add_small, (proj2 (Z.leb_gt _ _)) by lia.
  destruct (IH fuel (pos + len (tser b)) (out ++ [header_at pos b]) (pos + header_len b) Hok Hl Hm) as [p' ->].
  exists p'. by rewrite <-(assoc_L (++)), Z.add_assoc.
Qed.

(** C31: The top-level walk of [parse_mp4] trusts the extents a file declares, and their sum
    wraps: a file whose second box claims to reach around to offset 0 keeps the parser busy for
    ever, whatever fuel it is given, where [top_level_boxes] notices that the box does not
    advance. *)
Theorem wrapped_size_hangs_the_parser pre kind rest :
  forallb tb_ok pre = true → pre ≠ [] → length kind = 4%nat →
  let file := wrapping pre kind rest in
  len file + 8 ≤ I64_MAX →
  (∀ fuel, parse_mp4 fuel file = Spin) ∧ ∃ why, top_level_boxes file 0 = Err (Container why).
Proof.
  intros Hok Hne Hk file Hm. assert (HI : I64_MAX = 2 ^ 63 - 1) by done.
  assert (Hpre : holds file 0 (tsers pre)) by (by exists [], (be32 1 ++ kind ++ be64 (2 ^ 64 - len (tsers pre)) ++ rest)).
  assert (H8 : 8 ≤ len (tsers pre)).
  { destruct pre as [|b l]; [done|]. apply forallb_cons in Hok as [Hb _]. pose proof (tser_pos _ Hb). rewrite tsers_cons, len_app. pose proof (len_nonneg (tsers l)). lia. }
  pose proof (holds_bounds _ _ _ Hpre) as [_ Hb]. destruct (wrapping_header pre kind rest Hk) as [Hroom Hhead]; [lia|]. fold file in Hroom, Hhead.
  assert (Hwrap : bh_end (mk_BoxHeader (len (tsers pre)) (2 ^ 64 - len (tsers pre)) 16 kind) = 0).
  { unfold bh_end, u64_add. cbn [bh_start bh_size]. by replace (len (tsers pre) + (2 ^ 64 - len (tsers pre))) with (2 ^ 64) by lia. }
  split.
  - intros fuel. unfold parse_mp4. assert (Hspin : ∀ ftyp moov mdat p, top_boxes file fuel 0 ftyp moov mdat p = Spin); [|unfold rbind; by rewrite Hspin].
    induction fuel as [fuel IH] using (well_founded_induction lt_wf). intros ftyp moov mdat p.
    apply (top_boxes_spin file pre); [done|done|done|]. intros [|fuel'] f1 m1 d1 p1 Hf; [done|]. cbn [top_boxes]. rewrite Z.add_0_l.
    rewrite u64_add_small, (proj2 (Z.ltb_ge _ _)) by lia. rewrite (rbind_step _ _ _ () (len (tsers pre))) by (apply seek_ok; lia).
    rewrite (rbind_step _ _ _ _ _ Hhead). cbv zeta. cbn [bh_size]. rewrite (proj2 (Z.eqb_neq _ _)), Hwrap by lia. apply IH. lia.
  - unfold top_level_boxes. assert (Hlf : (length pre ≤ length file)%nat).
    { assert (Hc : count pre ≤ len (tsers pre)); [|unfold count, len in *; lia]. clear -Hok. unfold count.
      induction pre as [|b l IH]; [done|]. apply forallb_cons in Hok as [Hb Hok]. specialize (IH Hok). pose proof (tser_pos _ Hb).
      rewrite tsers_cons, len_app. cbn [length]. lia. }
    replace (S (S (length file))) with (length pre + S (S (length file - length pre)))%nat by lia.
    destruct (top_level_pre file pre (S (S (length file - length pre))) 0 [] 0 Hok Hpre Hm) as [p' ->]. cbn [top_level_from].
    rewrite Z.add_0_l, u64_add_small, (proj2 (Z.ltb_ge _ _)) by lia. rewrite (rbind_step _ _ _ () (len (tsers pre))) by (apply seek_ok; lia).
    rewrite (rbind_step _ _ _ _ _ Hhead), Hwrap, (proj2 (Z.leb_le _ _)) by lia. by eexists.
Qed.
