(* ===== verification/Mp4Titles.v ===== *)
(** * Chapter titles, written and found again

    The text track that [build_chapter_trak] describes is read back by the parser as one sample per
    chapter, each at the bytes of its title; and on a file whose [moov] comes before its media, with
    room for the chapters, that is where [write_audiobook_chapters] leaves them. *)

From stdpp Require Import base option list sets numbers strings pretty.
From Stdlib Require Import ZArith Lia.
From S2P Require Import Prelude Mp4Bytes Mp4Edit Mp4Read Mp4File Mp4Remux Mp4Chapters Mp4Walk Mp4Tree Mp4Layout Mp4Tables Mp4Slack Mp4ChaptersTree Mp4ChaptersPut Mp4ChaptersSpec Mp4RemuxSpec.

Local Open Scope Z_scope.

(** ** Titles as samples *)

Lemma len_title_sample title : len (title_sample title) = 2 + Z.min (len title) U16_MAX + len ENCD.
Proof.
  unfold title_sample. rewrite !len_app, len_to_be. pose proof (len_nonneg title). unfold U16_MAX in *.
  assert (len (take (Z.to_nat (Z.min (len title) (2 ^ 16 - 1))) title) = Z.min (len title) (2 ^ 16 - 1)) by (unfold len in *; rewrite length_take; lia). lia.
Qed.

Lemma chapter_samples_spec chapters ms : let '(payload, sizes, deltas) := build_chapter_samples chapters ms in
  payload = concat (map (λ c, title_sample c.1) chapters) ∧ sizes = map (λ c, len (title_sample c.1)) chapters
  ∧ length deltas = length chapters ∧ u32s sizes ∧ u32s deltas.
Proof.
  induction chapters as [|[title start] rest IH]; cbn [build_chapter_samples]; [by split_and!; try constructor|]. destruct (build_chapter_samples rest ms) as [[payload sizes] deltas].
  destruct IH as (-> & -> & Hl & Hs & Hd). cbn [map concat fst length]. rewrite len_title_sample. split_and!; [done|done|by rewrite Hl| |].
  - constructor; [|done]. pose proof (len_nonneg title). change (len ENCD) with 12. unfold U16_MAX. lia.
  - constructor; [|done]. set (e := Z.max _ (u64_add start 1)). pose proof (Z.mod_pos_bound (e - start) (2 ^ 64) eq_refl). unfold U32_MAX. lia.
Qed.

(** ** The text track *)

Lemma chunk_offsets n : ∀ chunk o cts sizes durations i l cts' i',
  chunk_samples n chunk o cts sizes durations i = Done (l, cts', i') →
  0 ≤ o → Forall (λ s, 0 ≤ s) sizes → o + total (drop i sizes) < 2 ^ 64 →
  ∀ k s, l !! k = Some s → si_offset s = o + total (take k (drop i sizes)).
Proof.
  assert (Hnn : ∀ l, Forall (λ s, 0 ≤ s) l → 0 ≤ total l) by (intros l; induction 1; cbn [foldr]; lia).
  induction n as [|n IH]; intros chunk o cts sizes durations i l cts' i' E H0 Hs Hb k s Hk; cbn [chunk_samples] in E; [by injection E as <- _ _|].
  destruct (sizes !! i) as [sz|] eqn:Es; [|done]. destruct (durations !! i) as [d|] eqn:Ed; [|done].
  apply and_then_Done in E as ([[rest c2] i2] & Er & [= <- _ _]). rewrite (drop_S sizes sz i Es) in *. cbn [foldr] in Hb.
  assert (Hsz : 0 ≤ sz) by (by eapply (proj1 (Forall_lookup _ _) Hs)). pose proof (Hnn _ (Forall_drop _ (S i) _ Hs)).
  destruct k as [|k]; [injection Hk as <-; cbn [si_offset take foldr]; lia|]. cbn [lookup list_lookup take foldr] in *. rewrite u64_add_small in Er by lia.
  rewrite (IH _ _ _ _ _ _ _ _ _ Er) with (k := k) (s := s); [lia|lia|done|lia|done].
Qed.

Lemma expand_ones deltas : expand_stts (map (λ d, (1, d)) deltas) = deltas.
Proof. unfold expand_stts. rewrite map_map. induction deltas as [|d l IH]; cbn [map concat]; [done|]. rewrite IH. done. Qed.

(** One chunk with every sample. *)
Lemma build_one_chunk deltas sizes offset :
  sizes ≠ [] → length deltas = length sizes → 0 ≤ offset → Forall (λ s, 0 ≤ s) sizes → offset + total sizes < 2 ^ 64 →
  ∃ samples, build_samples (map (λ d, (1, d)) deltas) [mk_ChunkMapEntry 1 (count sizes) 1] sizes [offset] = Done samples
  ∧ map si_size samples = sizes ∧ map si_duration samples = deltas ∧ clocked 0 samples
  ∧ ∀ k s, samples !! k = Some s → si_offset s = offset + total (take k sizes).
Proof.
  intros Hne Hd Ho Hs Hb. unfold build_samples. rewrite expand_ones. unfold fit_durations. rewrite Hd, Nat.eqb_refl. cbn [and_then].
  cbn [length seq map spc_for first_chunk samples_per_chunk foldr zip]. change (1 <=? Z.of_nat 0 + 1) with true. cbv iota. cbv zeta. rewrite Z.add_0_r.
  unfold count. rewrite Z.eqb_refl. cbn [negb zip_with all_samples]. rewrite Nat2Z.id.
  destruct (chunk_samples_spec (length sizes) 0 offset 0 sizes deltas 0) as (l & E & H1 & H2 & H3 & _); [lia|done|]. rewrite E. cbn [and_then].
  exists (l ++ []). rewrite app_nil_r. rewrite !drop_0, !take_ge in * by lia. split_and!; [done..|].
  intros k s Hk. pose proof (chunk_offsets _ _ _ _ _ _ _ _ _ _ E Ho Hs Hb k s Hk) as Hoff. by rewrite drop_0 in Hoff.
Qed.

(** The table of a chapter track, read from a file that holds it. *)
Lemma chapter_table_back file fuel at_ sizes deltas offset pos :
  let ks := stbl_of sizes deltas offset in
  table_in file fuel at_ ks → u32s sizes → u32s deltas → sizes ≠ [] → length deltas = length sizes → count sizes ≤ table_limit →
  0 ≤ offset → offset + total sizes < 2 ^ 64 →
  ∃ samples q, sample_table fuel file (table_header at_ ks) pos = Done (samples, q)
  ∧ map si_size samples = sizes ∧ map si_duration samples = deltas ∧ clocked 0 samples
  ∧ ∀ k s, samples !! k = Some s → si_offset s = offset + total (take k sizes).
Proof.
  intros ks Hin Hs Hd Hne Hld Hn Ho Hb. unfold sample_table.
  assert (Hnn : Forall (λ s, 0 ≤ s) sizes) by (eapply Forall_impl; [exact Hs|]; cbn; lia).
  assert (Hcount : 0 ≤ count sizes < 2 ^ 32) by (unfold table_limit, MAX_MP4_TABLE_ENTRIES, count in *; lia).
  assert (Htab : Table (negb (offset <=? U32_MAX)) (be32 0 ++ be32 1) [offset] [] = offsets_atom [offset]).
  { unfold offsets_atom, outgrown. cbn [existsb]. rewrite orb_false_r. by rewrite Z.leb_antisym, negb_involutive. }
  assert (Hpick : ∀ k a, pick k ks = Some a → ∃ p, first_at k ks (at_ + 8) = Some (p, a)) by (intros k a; apply pick_first_at).
  destruct (Hpick (lit "stts") _ eq_refl) as [p1 H1]. destruct (Hpick (lit "stsc") _ eq_refl) as [p2 H2]. destruct (Hpick (lit "stsz") _ eq_refl) as [p3 H3].
  destruct (parse_stts_rows _ _ _ _ Hin (map (λ d, (1, d)) deltas) _ p1 pos H1) as [q1 E1].
  { unfold count. rewrite length_map, map_map. done. }
  { unfold count in *. rewrite length_map. lia. }
  { apply Forall_fmap. eapply Forall_impl; [exact Hd|]. cbn. lia. }
  destruct (parse_stsc_rows _ _ _ _ Hin (mk_ChunkMapEntry 1 (count sizes) 1) _ p2 q1 H2) as [q2 E2]; [done|done|done|done|].
  destruct (parse_stsz_back _ _ _ _ Hin sizes p3 q2 H3 Hn Hs) as [q3 E3].
  assert (Hoff : ∃ q, parse_chunk_offsets fuel file (table_header at_ ks) q3 = Done ([offset], q)).
  { destruct (Hpick (table_kind (outgrown [offset])) (offsets_atom [offset])) as [p4 H4].
    - unfold ks, stbl_of. cbv zeta. rewrite Htab, !pick_cons. unfold offsets_atom. cbn [kind_of]. by destruct (outgrown [offset]).
    - apply (parse_offsets_back _ _ _ _ Hin [offset] p4 q3); [|exact H4|done|constructor; [|done]].
      + intros Hw. apply pick_no_first_at. unfold ks, stbl_of. cbv zeta. rewrite Htab, !pick_cons. unfold offsets_atom. cbn [kind_of]. by rewrite Hw.
      + assert (0 ≤ total sizes) by (clear -Hnn; induction Hnn; cbn [foldr]; lia). lia. }
  destruct Hoff as [q4 E4].
  destruct (build_one_chunk deltas sizes offset Hne Hld Ho Hnn Hb) as (samples & Eb & R1 & R2 & R3 & R4). exists samples, q4. split_and!; [|done..].
  rewrite (rbind_step _ _ _ _ _ E1), (rbind_step _ _ _ _ _ E2), (rbind_step _ _ _ _ _ E3), (rbind_step _ _ _ _ _ E4). unfold lift. by rewrite Eb.
Qed.

(** ** A file with its [moov] first *)

Lemma append_behind_media pre mb media payload :
  readable pre mb [media] [] → Forall (λ c, tb_kind c ≠ lit "mdat") pre → tb_kind media = lit "mdat" → len payload + 8 ≤ U32_MAX →
  let file := file_of pre mb [media] [] in
  append_chapter_media file payload = Done (file ++ boxed (lit "mdat") payload, len file + 8).
Proof.
  intros [Hok _ Hmb Hj Hlen _] Hpre Hmd Hp file. unfold append_chapter_media.
  destruct (top_level_tsers _ _ Hok Hj Hlen) as [q Hq]. unfold file, file_of. rewrite Hq. cbn [and_then].
  replace (pre ++ [mb; media]) with ((pre ++ [mb]) ++ media :: []) by (by rewrite <-(assoc_L (++))).
  assert (Hno : Forall (λ c, tb_kind c ≠ lit "mdat") (pre ++ [mb])) by (apply Forall_app; split; [done|constructor; [by rewrite Hmb|done]]).
  rewrite (find_header (lit "mdat") (pre ++ [mb]) media [] 0 Hno Hmd). cbn [ok_or and_then]. rewrite last_header.
  unfold is_kind. cbn [header_at bh_kind bh_start]. rewrite Z.eqb_refl, andb_false_r. unfold set_len. rewrite resize_same, write_over_end.
  rewrite (proj2 (Z.ltb_ge _ _)) by done. unfold write_atom_header. rewrite (proj2 (Z.ltb_ge _ _)) by lia.
  unfold boxed. by rewrite <-!(assoc_L (++)).
Qed.

Lemma held_inside file q kind l x : length kind = 4%nat → holds file q (ser (node kind l)) → x ∈ l → ∃ r, holds file r (ser x).
Proof.
  intros Hk Hh (l1 & l2 & ->)%list_elem_of_split. unfold node in Hh. cbn [ser app] in Hh. fold (sers (l1 ++ x :: l2)) in Hh. rewrite app_nil_r in Hh. unfold boxed in Hh.
  apply holds_app in Hh as [_ [_ Hh]%holds_app]. rewrite sers_app, sers_cons in Hh. apply holds_app in Hh as [_ [Hh _]%holds_app]. by eexists.
Qed.

Lemma inside_len kind l x : length kind = 4%nat → x ∈ l → len (ser x) ≤ len (ser (node kind l)).
Proof.
  intros H4 (l1 & l2 & ->)%list_elem_of_split. rewrite len_node, sers_app, sers_cons, !len_app by done.
  pose proof (len_nonneg (sers l1)). pose proof (len_nonneg (sers l2)). lia.
Qed.

(** The sample table of the chapter track, where the track is. *)
Lemma chapter_stbl_held file q d ms sizes deltas offset id : holds file q (ser (chapter_track d ms sizes deltas offset id)) →
  len (ser (chapter_track d ms sizes deltas offset id)) < 2 ^ 32 →
  (∃ r, holds file r (ser (node (lit "stbl") (stbl_of sizes deltas offset)))) ∧ Forall sized (stbl_of sizes deltas offset).
Proof.
  intros Hh Hs. assert (Hstep : ∀ kind a b c r, holds file r (ser (node kind [a; b; c])) → length kind = 4%nat →
    (∃ r', holds file r' (ser c)) ∧ len (ser c) ≤ len (ser (node kind [a; b; c]))).
  { intros kind a b c r Hr Hk. assert (Hc : c ∈ [a; b; c]) by (right; right; by left). split; [by eapply held_inside|by apply inside_len]. }
  unfold chapter_track in *. destruct (Hstep _ _ _ _ _ Hh) as [[r1 R1] L1]; [done|]. destruct (Hstep _ _ _ _ _ R1) as [[r2 R2] L2]; [done|].
  destruct (Hstep _ _ _ _ _ (R2 : holds file r2 (ser (node (lit "minf") _)))) as [[r3 R3] L3]; [done|].
  split; [by exists r3|]. apply Forall_forall. intros x Hx. pose proof (inside_len (lit "stbl") _ x eq_refl Hx) as L4.
  assert (Hk : length (kind_of x) = 4%nat).
  { unfold stbl_of in Hx. cbv zeta in Hx. repeat (apply elem_of_cons in Hx as [-> | Hx]; [cbn [kind_of]; try done; by destruct (negb _)|]). by apply elem_of_nil in Hx. }
  split; [|done]. assert (8 ≤ len (ser x)) by (rewrite ser_content, len_boxed by done; pose proof (len_nonneg (content_of x)); lia).
  pose proof (Z.le_trans _ _ _ (Z.le_trans _ _ _ L4 L3) L2). lia.
Qed.

(** ** Chapters written and read *)

Lemma holds_within A B C p x : holds B p x → holds (A ++ B ++ C) (len A + p) x.
Proof. intros (a & c & -> & <-). exists (A ++ a), (c ++ C). split; [by rewrite <-!(assoc_L (++))|apply len_app]. Qed.

(** A [moov] with room to spare, in the place of the old one. *)
Lemma padded_in_place pre mb media tail items :
  len (moov_ser items) + 8 ≤ len (tser mb) → len (tser mb) ≤ MAX_READ_EXACT_VEC_BYTES →
  ∃ new, write_moov (tsers pre ++ tser mb ++ tail) (moov_at pre mb [media]) (moov_ser items) = Done (tsers pre ++ new ++ tail)
  ∧ len new = len (tser mb) ∧ holds new 8 (sers items).
Proof.
  intros Hroom Hmax. rewrite len_node in Hroom by done. exists (padded (lit "moov") (sers items) (len (tser mb) - (8 + len (sers items)))).
  assert (Hl : len (padded (lit "moov") (sers items) (len (tser mb) - (8 + len (sers items)))) = len (tser mb)) by (rewrite len_padded by (done || lia); lia).
  split_and!; [|done|].
  - assert (Hb : moov_ser items = boxed (lit "moov") (sers items)) by (unfold node; cbn [ser app]; fold (sers items); by rewrite app_nil_r).
    unfold write_moov, write_moov_in_place, moov_at. cbn [ml_len ml_start ml_is_last]. rewrite Hb, len_boxed by done.
    rewrite (proj2 (Z.eqb_neq _ _)) by lia. rewrite bool_decide_eq_false_2 by done. rewrite pad_boxed by done. cbv zeta. rewrite (proj2 (Z.eqb_neq _ _)) by lia.
    rewrite bool_decide_eq_true_2 by (unfold MAX_READ_EXACT_VEC_BYTES, U32_MAX in *; lia). cbn [and_then]. by rewrite write_over_mid.
  - unfold padded, boxed at 1. exists (be32 (8 + len (sers items ++ boxed (lit "free") (zeros (len (tser mb) - (8 + len (sers items)) - 8)))) ++ lit "moov").
    eexists. split; [by rewrite <-!(assoc_L (++))|]. rewrite len_app, len_to_be. done.
Qed.

Lemma slice_among A C samples i s : samples !! i = Some s →
  let o := len A + total (take i (map len samples)) in slice (A ++ concat samples ++ C) o (o + len s) = s.
Proof.
  intros E. pose proof (lookup_lt_Some _ _ _ E). pose proof (slice_concat A (samples ++ [C]) i s) as H'. cbv zeta in *.
  rewrite concat_app, map_app, take_app_le in H' by (rewrite length_map; lia). cbn [concat] in H'. rewrite app_nil_r in H'. apply H'. by rewrite lookup_app_l.
Qed.

(** The rows of the chapter track, from the moov they were written into. *)
Lemma titles_in_file file q r payload chapters d ms sizes deltas offset id items :
  holds file q (sers items) → chapter_track d ms sizes deltas offset id ∈ items → len (moov_ser items) < 2 ^ 32 →
  build_chapter_samples chapters ms = (payload, sizes, deltas) → chapters ≠ [] → count chapters ≤ table_limit →
  holds file r payload → offset = r → len file + 8 ≤ I64_MAX →
  ∃ at_, holds file at_ (ser (node (lit "stbl") (stbl_of sizes deltas offset)))
  ∧ ∀ fuel pos, (5 < fuel)%nat → ∃ samples p, sample_table fuel file (table_header at_ (stbl_of sizes deltas offset)) pos = Done (samples, p)
    ∧ length samples = length chapters ∧ map si_duration samples = deltas
    ∧ ∀ k s title start, samples !! k = Some s → chapters !! k = Some (title, start) →
        slice file (si_offset s) (si_offset s + si_size s) = title_sample title.
Proof.
  intros Hh Hin Hm Eb Hne Hn Hp -> Hf. pose proof (chapter_samples_spec chapters ms) as Hs. rewrite Eb in Hs. destruct Hs as (Hpay & Hsz & Hld & Hu & Hud).
  assert (Htot : total sizes = len payload) by (rewrite Hpay, len_samples, Hsz, map_map; done).
  pose proof (holds_bounds _ _ _ Hp) as [H0 Hb]. assert (HI : I64_MAX < 2 ^ 64) by done.
  assert (Hlt : len (ser (chapter_track d ms sizes deltas r id)) < 2 ^ 32).
  { pose proof (inside_len (lit "moov") _ _ eq_refl Hin). lia. }
  apply list_elem_of_split in Hin as (l1 & l2 & ->). rewrite sers_app, sers_cons in Hh. apply holds_app in Hh as [_ [Hh _]%holds_app].
  destruct (chapter_stbl_held _ _ _ _ _ _ _ _ Hh Hlt) as [[at_ Hat] Hok]. pose proof (holds_bounds _ _ _ Hat) as [Hat0 _].
  assert (Hkids : holds file (at_ + 8) (sers (stbl_of sizes deltas r))).
  { unfold node in Hat. cbn [ser app] in Hat. fold (sers (stbl_of sizes deltas r)) in Hat. rewrite app_nil_r in Hat. unfold boxed in Hat. rewrite (assoc_L (++)) in Hat.
    apply holds_app in Hat as [_ Hat]. rewrite len_app, len_to_be in Hat. exact Hat. }
  assert (Hlen : length sizes = length chapters) by (rewrite Hsz; apply length_map).
  assert (Hne' : sizes ≠ []) by (intros ->; by destruct chapters).
  exists at_. split; [done|]. intros fuel pos Hfuel.
  destruct (chapter_table_back file fuel at_ sizes deltas r pos) as (samples & p & E & R1 & R2 & _ & R4);
    [by split|done|done|done|by rewrite Hld, Hlen|unfold count in *; by rewrite Hlen|done|lia|].
  exists samples, p. split_and!; [done|by rewrite <-Hlen, <-R1, length_map|done|]. intros k s title start Hk Hc. rewrite (R4 k s Hk).
  assert (Hz : si_size s = len (title_sample title)).
  { assert (Hl : sizes !! k = Some (si_size s)) by (rewrite <-R1; change (map ?f ?l) with (f <$> l); by rewrite list_lookup_fmap, Hk).
    rewrite Hsz in Hl. change (map ?f ?l) with (f <$> l) in Hl. rewrite list_lookup_fmap, Hc in Hl. by injection Hl as <-. }
  rewrite Hz. destruct Hp as (A & C & -> & <-). rewrite Hpay, Hsz, <-(map_map (λ c : chapter, title_sample c.1) len). apply (slice_among A C (map (λ c, title_sample c.1) chapters)).
  change (map ?f ?l) with (f <$> l). by rewrite list_lookup_fmap, Hc.
Qed.

(** C12: Chapters on a file whose [moov] comes before its media and has room for them: the media
    stays where it is, and the chapter track's sample table, read from the new file the way the
    parser reads any track's, has one sample per chapter, whose bytes are that chapter's title. *)
Theorem chapter_titles_are_found pre mb media items stripped chapters timescale duration :
  readable pre mb [media] [] → Forall (λ c, tb_kind c ≠ lit "mdat") pre → tb_kind media = lit "mdat" →
  chapters ≠ [] → count chapters ≤ table_limit →
  strip_trailing_free (tser mb) = Done (moov_ser items, stripped) → movie_tree items →
  let m := strip_tree items in
  Forall (λ i, i < U32_MAX) (track_ids m) → is_Some (List.find (has_id (default 1 (audio_id m))) m) →
  read_mvhd_timing (moov_ser m) = Done (timescale, duration) → timescale ≠ 0 →
  let duration_ms := (duration * 1000 / timescale) mod 2 ^ 64 in
  let '(payload, sizes, deltas) := build_chapter_samples chapters duration_ms in
  let file := file_of pre mb [media] [] in
  let track := chapter_track duration duration_ms sizes deltas (len file + 8) (next_id m) in
  len payload + 8 ≤ U32_MAX → len file + len payload + 16 ≤ I64_MAX →
  len (moov_ser m) + len (ser track) + len (chpl_atom chapters) + 36 ≤ len (tser mb) →
  ∃ file' at_, write_audiobook_chapters file chapters = Done file'
  ∧ holds file' (len (tsers pre) + len (tser mb)) (tser media)
  ∧ holds file' at_ (ser (node (lit "stbl") (stbl_of sizes deltas (len file + 8))))
  ∧ ∀ fuel pos, (5 < fuel)%nat →
    ∃ samples p, sample_table fuel file' (table_header at_ (stbl_of sizes deltas (len file + 8))) pos = Done (samples, p)
    ∧ length samples = length chapters ∧ map si_duration samples = deltas
    ∧ ∀ k s title start, samples !! k = Some s → chapters !! k = Some (title, start) →
        slice file' (si_offset s) (si_offset s + si_size s) = title_sample title.
Proof.
  intros Hr Hpre Hmd Hne Hn Hs Ht m Hids Hf Hmv Hts duration_ms. destruct (build_chapter_samples chapters duration_ms) as [[payload sizes] deltas] eqn:Eb.
  intros file track Hp Hfile Hroom. rewrite chpl_bytes in Hroom. pose proof (rd_max _ _ _ _ Hr) as Hmax. destruct (strip_movie items Ht) as [Htm _]. fold m in Htm.
  destruct (put_refines m chapters duration duration_ms sizes deltas (len file + 8) Htm Hf) as (P1 & T1 & L1); [fold track; lia|]. fold track in L1.
  pose proof (append_behind_media pre mb media payload Hr Hpre Hmd Hp) as Ha. cbv zeta in Ha. fold file in Ha.
  set (put := put_tree _ chapters m) in *. set (tail := tser media ++ boxed (lit "mdat") payload).
  assert (Hparts : file ++ boxed (lit "mdat") payload = tsers pre ++ tser mb ++ tail).
  { unfold file. rewrite file_parts, app_nil_r. unfold tail. change (tsers [media]) with (tser media ++ []). by rewrite app_nil_r, <-!(assoc_L (++)). }
  destruct (padded_in_place pre mb media tail put) as (new & Ew & Ln & Hnew); [lia|done|].
  set (file' := tsers pre ++ new ++ tail) in *. assert (Hl : len file' = len file + 8 + len payload).
  { pose proof (f_equal len Hparts) as E. unfold file'. rewrite !len_app, len_boxed in * by done. lia. }
  destruct (titles_in_file file' (len (tsers pre) + 8) (len file + 8) payload chapters duration duration_ms sizes deltas (len file + 8) (next_id m) put)
    as (at_ & Hat & Hread); [by apply holds_within|by apply track_put|pose proof (mt_small _ T1); unfold MAX_READ_EXACT_VEC_BYTES in *; lia|done..| |done|lia|].
  { exists (tsers pre ++ new ++ tser media ++ be32 (8 + len payload) ++ lit "mdat"), []. rewrite app_nil_r. split; [unfold file', tail, boxed; by rewrite <-!(assoc_L (++))|].
    pose proof (f_equal len Hparts) as E. unfold tail in E. rewrite !len_app, len_boxed in E by done. rewrite !len_app, len_to_be. change (len (lit "mdat")) with 4. lia. }
  exists file', at_. split_and!; [| |done|done].
  - rewrite (chapters_written file chapters _ _ _ _ _ _ _ _ _ _ _ _ _ Hne (readable_read _ _ _ _ Hr) Hs (strip_refines items Ht) Hmv Hts Eb Ha P1).
    by rewrite Hparts.
  - exists (tsers pre ++ new), (boxed (lit "mdat") payload). split; [unfold file', tail; by rewrite <-!(assoc_L (++))|rewrite len_app; lia].
Qed.
