(* ===== verification/Mp4Witnesses.v ===== *)
(** * The MP4 theorems at a small book

    One track of two samples, as a file with its [moov] before or behind its media. *)

From stdpp Require Import base option list sets numbers strings pretty.
From Stdlib Require Import ZArith Lia.
From S2P Require Import Prelude Mp4Bytes Mp4Edit Mp4Read Mp4File Mp4Chapters Mp4Remux Mp4Walk Mp4Tree Mp4Splice Mp4Search Mp4Retable Mp4Layout Mp4Tables Mp4Slack Mp4ChaptersTree Mp4ChaptersPut Mp4ChaptersSpec Mp4RemuxSpec Mp4Titles.

Local Open Scope Z_scope.

(** ** The book *)

Definition chunk_table (offsets : list Z) : atom := Table false (be32 0 ++ be32 (count offsets)) offsets [].
Definition sample_entry (kind : string) : atom := Node (lit "stsd") (be32 0 ++ be32 1) [Node (lit kind) (zeros 28) [] []] [].
Definition boxes (kind : string) : list atom :=
  [sample_entry kind; stts_atom [10; 10]; stsc_atom; stsz_atom [3; 2]; Leaf (lit "saiz") (zeros 1); chunk_table [400; 403]].

Definition within : list tframe :=
  [mk_tframe [Leaf (lit "mvhd") (zeros 24)] (lit "trak") [] []; mk_tframe [] (lit "mdia") [] []; mk_tframe [] (lit "minf") [] []].
Definition table_frame : tframe := mk_tframe [] (lit "stbl") [] [].
Definition movie (kind : string) : list atom := tree (moov_frame :: within) table_frame (boxes kind).

Definition track : list atom := [Leaf (lit "mvhd") (zeros 4); Node (lit "trak") [] [chunk_table [100; 103]] []].

(** ** Editing *)


Lemma splice_is_substitution_witness :
  splice_replace (plug [mk_frame [] (lit "moov") [] []; mk_frame [Leaf (lit "mvhd") []] (lit "trak") [] (lit "...")] (lit "tkhd"))
    24 28 (lit "longer")
  = Done (plug [mk_frame [] (lit "moov") [] []; mk_frame [Leaf (lit "mvhd") []] (lit "trak") [] (lit "...")] (lit "longer")).
Proof.
  set (p := [mk_frame [] (lit "moov") [] []; mk_frame [Leaf (lit "mvhd") []] (lit "trak") [] (lit "...")]).
  assert (H1 : forallb frame_ok p = true) by (by vm_compute). assert (H2 : fits p (sers [] ++ lit "tkhd" ++ []) = true) by (by vm_compute).
  exact (splice_is_substitution p [] (lit "tkhd") [] (lit "longer") H1 eq_refl H2 ltac:(by vm_compute)).
Defined.

Lemma search_prefers_the_last_track_witness :
  find_box_range (sers [Node (lit "moov") [] [Node (lit "trak") [] [Leaf (lit "tkhd") (lit "1")] []; Node (lit "trak") [] [Leaf (lit "tkhd") (lit "2")] []] []])
    (lit "tkhd") = Done (Some (33, 42)).
Proof.
  set (t1 := Node (lit "trak") [] [Leaf (lit "tkhd") (lit "1")] []).
  destruct (search_prefers_the_last_track (lit "tkhd") [t1] [] [Leaf (lit "tkhd") (lit "2")] [] [] [] []) as (s & a & E & Hin);
    [done|apply (bool_decide_unpack _); by vm_compute|done|by vm_compute|done|].
  change (all_occurs (lit "tkhd") [Leaf (lit "tkhd") (lit "2")] (8 + len [] + len (sers [t1]) + 8 + len [])) with [(33, Leaf (lit "tkhd") (lit "2"))] in Hin.
  apply list_elem_of_singleton in Hin as [= -> ->]. exact E.
Defined.

Lemma slack_round_trip_witness :
  len (moov_of track) = 52 ∧ match pad_moov_to (moov_of track) 80 with
  | Done p => len p = 80 ∧ (p = moov_of track ∧ 80 = len (moov_of track) ∨ strip_trailing_free p = Done (moov_of track, true))
  | Err e => e = NoRoom (len (moov_of track)) 80 ∧ (80 < len (moov_of track) + 8 ∨ U32_MAX < 80) ∧ 80 ≠ len (moov_of track)
  | _ => False
  end.
Proof. split; [by vm_compute|]. exact (slack_round_trip track 80 eq_refl). Defined.

Lemma shift_round_trip_witness :
  let moved := [Leaf (lit "mvhd") (zeros 4); Node (lit "trak") [] [chunk_table [107; 110]] []] in
  shift_chunk_offsets (sers track) 50 7 = Done (sers moved) ∧ shift_chunk_offsets (sers moved) 50 (-7) = Done (sers track).
Proof. exact (shift_round_trip 50 7 track eq_refl ltac:(done) ltac:(done)). Defined.

(** ** Files *)

Definition brands : tbox := mk_tbox (lit "ftyp") false (lit "M4B ").
Definition media : tbox := mk_tbox (lit "mdat") false (lit "abcde").

Lemma media_last : readable [brands] (moov_box track) [media] [].
Proof. split; [by vm_compute|by repeat constructor|done|by vm_compute|by vm_compute|by vm_compute]. Qed.
Lemma media_first : readable [brands; media] (moov_box track) [] [].
Proof. split; [by vm_compute|by repeat constructor|done|by vm_compute|by vm_compute|by vm_compute]. Qed.

(** A [moov] of eight bytes less, and one of eight more. *)
Definition shorter : list atom := [Leaf (lit "mvhd") (zeros 4); Node (lit "trak") [] [chunk_table []] []].
Definition longer : list atom := [Leaf (lit "mvhd") (zeros 12); Node (lit "trak") [] [chunk_table [100; 103]] []].

Lemma rewritten_moov_reads_back_witness :
  ∃ file', write_moov_in_place (file_of [brands] (moov_box track) [media] []) (moov_at [brands] (moov_box track) [media]) (moov_of shorter)
    = Done file'
  ∧ ∃ new, read_moov file' = Done (mk_MoovLocation 12 (len new) false, new) ∧ strip_trailing_free new = Done (moov_of shorter, true).
Proof.
  destruct (rewritten_moov_reads_back [brands] (moov_box track) [media] [] shorter media_last) as (at_ & old & Hr & H);
    [done|by vm_compute|by vm_compute|].
  assert (E : at_ = moov_at [brands] (moov_box track) [media]) by (vm_compute in Hr; injection Hr as <- _; by vm_compute).
  subst at_. cbv zeta in H. destruct (write_moov_in_place _ _ _) as [file'| | |] eqn:Ew;
    [|destruct H as (_ & _ & H); vm_compute in H; done|done..].
  exists file'. split; [done|]. destruct H as (new & H1 & H2 & _). exists new. split; [exact H1|]. destruct H2 as [E|H2]; [|done].
  exfalso. vm_compute in Ew. injection Ew as <-. rewrite E in H1. vm_compute in H1. discriminate.
Defined.


(** ** Chapters *)

(** A movie of five seconds with one audio track and room behind it, and two chapters for it. *)
Definition five_seconds : list atom :=
  [Leaf (lit "mvhd") (be32 0 ++ be32 0 ++ be32 0 ++ be32 1000 ++ be32 5000);
   node (lit "trak") [Leaf (lit "tkhd") (be32 0 ++ be32 0 ++ be32 0 ++ be32 1 ++ zeros 20);
                      node (lit "mdia") [Leaf (lit "hdlr") (be32 0 ++ be32 0 ++ lit "soun" ++ zeros 4)]]].
Definition roomy : tbox := mk_tbox (lit "moov") false (sers (five_seconds ++ [Leaf (lit "free") (zeros 700)])).
Definition two : list chapter := [(lit "One", 0); (lit "Two", 2000)].
Definition titles : bytes := title_sample (lit "One") ++ title_sample (lit "Two").

Lemma five_tree : movie_tree five_seconds.
Proof. split; by vm_compute. Qed.
Lemma five_stripped : strip_tree five_seconds = five_seconds.
Proof. by vm_compute. Qed.
Lemma five_ids : Forall (λ i, i < U32_MAX) (track_ids five_seconds).
Proof. change (track_ids five_seconds) with [1]. by repeat constructor. Qed.
Lemma five_audio : is_Some (List.find (has_id (default 1 (audio_id five_seconds))) five_seconds).
Proof. by eexists. Qed.
Lemma five_timing : read_mvhd_timing (moov_ser five_seconds) = Done (1000, 5000).
Proof. by vm_compute. Qed.
Lemma roomy_free : strip_trailing_free (tser roomy) = Done (moov_ser five_seconds, true).
Proof. by vm_compute. Qed.
Lemma two_samples : build_chapter_samples two ((5000 * 1000 / 1000) mod 2 ^ 64) = (titles, [17; 17], [2000; 3000]).
Proof. by vm_compute. Qed.
Lemma roomy_first : readable [brands] roomy [media] [].
Proof. split; [by vm_compute|by repeat constructor|done|by vm_compute|by vm_compute|by vm_compute]. Qed.
Lemma roomy_last : readable [brands; media] roomy [] [].
Proof. split; [by vm_compute|by repeat constructor|done|by vm_compute|by vm_compute|by vm_compute]. Qed.


Lemma chapters_are_replaced_witness :
  ∃ m2 m3 final, put_chapters (moov_ser five_seconds) two 5000 5000 [17; 17] [2000; 3000] 900 = Done m2
  ∧ strip_existing_chapters m2 = Done m3
  ∧ put_chapters m3 [(lit "All", 0)] 5000 5000 [17] [5000] 950 = Done final
  ∧ put_chapters (moov_ser five_seconds) [(lit "All", 0)] 5000 5000 [17] [5000] 950 = Done final.
Proof.
  pose proof (chapters_are_replaced five_seconds two 5000 5000 [17; 17] [2000; 3000] 900 [(lit "All", 0)] 5000 5000 [17] [5000] 950 five_tree) as H.
  cbv zeta in H. rewrite five_stripped in H. destruct (H five_ids five_audio) as (m1 & m2 & m3 & final & H1 & H2 & H3 & H4 & H5); [by vm_compute..|].
  rewrite (strip_refines five_seconds five_tree), five_stripped in H1. apply Done_inj in H1. subst m1. exists m2, m3, final. by split_and!.
Defined.

Lemma chapter_titles_are_found_witness :
  let file := file_of [brands] roomy [media] [] in
  ∃ file' at_ samples p, write_audiobook_chapters file two = Done file'
  ∧ sample_table 6 file' (table_header at_ (stbl_of [17; 17] [2000; 3000] (len file + 8))) 0 = Done (samples, p)
  ∧ ∀ s, samples !! 1%nat = Some s → slice file' (si_offset s) (si_offset s + si_size s) = title_sample (lit "Two").
Proof.
  set (file := file_of [brands] roomy [media] []).
  pose proof (chapter_titles_are_found [brands] roomy media five_seconds true two 1000 5000 roomy_first ltac:(by repeat constructor) eq_refl ltac:(done)
    ltac:(by vm_compute) roomy_free five_tree) as H.
  cbv zeta in H. rewrite five_stripped in H. specialize (H five_ids five_audio five_timing ltac:(done)). rewrite two_samples in H.
  destruct H as (file' & at_ & E & _ & _ & Hread); [by vm_compute|by vm_compute|by vm_compute|].
  destruct (Hread 6%nat 0 ltac:(lia)) as (samples & p & Et & _ & _ & Hs). exists file', at_, samples, p. split_and!; [exact E|exact Et|].
  intros s Hk. exact (Hs 1%nat s (lit "Two") 2000 Hk eq_refl).
Defined.

(** ** Samples *)

Lemma any_tables_are_samples_or_refused_witness :
  build_samples [(1, 10)] [mk_ChunkMapEntry 1 2 1] [3; 2] [400]
  = Done [mk_SampleInfo 400 3 0 10 0; mk_SampleInfo 403 2 10 10 0]
  ∧ clocked 0 [mk_SampleInfo 400 3 0 10 0; mk_SampleInfo 403 2 10 10 0].
Proof.
  split; [done|].
  exact (proj1 (proj2 (any_tables_are_samples_or_refused [(1, 10)] [mk_ChunkMapEntry 1 2 1] [3; 2] [400] ltac:(by repeat constructor)))).
Defined.

Lemma wrapped_size_hangs_the_parser_witness :
  parse_mp4 100 (wrapping [brands] (lit "free") []) = Spin.
Proof. exact (proj1 (wrapped_size_hangs_the_parser [brands] (lit "free") [] eq_refl ltac:(done) eq_refl ltac:(by vm_compute)) 100%nat). Defined.

(** ** A remux *)

(** A protected book, its samples re-encoded into two of three and two bytes. *)
Definition plan : ProgressiveWriteInput := mk_ProgressiveWriteInput (sers (movie "aavd")) 0 92 1000 1000 [3; 2] [10; 10].
Definition fill (i : nat) : outcome bytes := match i with 0%nat => Done (lit "abc") | 1%nat => Done (lit "de") | _ => Err Io end.

Lemma plan_remuxable : remuxable plan within table_frame (boxes "mp4a").
Proof.
  split.
  - split; by vm_compute.
  - split; by vm_compute.
  - by vm_compute.
  - by vm_compute.
  - by eexists.
  - by eexists.
  - by eexists.
  - by eexists.
  - split_and!; [done|by repeat constructor|by repeat constructor|done|by vm_compute].
  - by vm_compute.
Qed.

Lemma fill_short i s : fill i = Done s → len s < 2 ^ 32.
Proof. destruct i as [|[|i]]; cbn [fill]; [intros [= <-]; by vm_compute..|done]. Qed.
Lemma fill_sizes i n : pw_sample_sizes plan !! i = Some n → ∃ s, fill i = Done s ∧ len s = n.
Proof. destruct i as [|[|i]]; cbn; [intros [= <-]; by eexists..|done]. Qed.

Lemma written_samples_are_in_place_witness :
  ∃ out o, write_progressive_m4b plan fill = Done out ∧ slice out o (o + 3) = lit "abc".
Proof.
  destruct (remux_finishes plan within table_frame (boxes "mp4a") fill plan_remuxable fill_short fill_sizes) as (out & E & L).
  assert (Hb : media_start U32_MAX + total (pw_sample_sizes plan) ≤ U64_MAX) by (by vm_compute).
  assert (Hs : Forall (λ s, 0 ≤ s) (pw_sample_sizes plan)) by (by repeat constructor).
  destruct (written_samples_are_in_place plan fill out Hs fill_short (Z.le_trans _ _ _ L Hb) E)
    as (moov & built & offsets & samples & _ & _ & _ & Hlen & Hsz & Hat).
  destruct samples as [|s samples]; [done|]. destruct offsets as [|o offsets]; [done|].
  destruct (Hat 0%nat o s eq_refl eq_refl) as [Hf Hslice]. apply Done_inj in Hf. subst s.
  exists out, o. split; [exact E|exact Hslice].
Defined.

Lemma remuxed_samples_are_found_again_witness :
  ∃ out at_ ks samples, write_progressive_m4b plan fill = Done out
    ∧ (∃ pos, sample_table (S (length ks)) out (atom_header at_ (stbl_node ks)) 0 = Done (samples, pos))
    ∧ map si_size samples = [3; 2].
Proof.
  destruct (remuxed_samples_are_found_again plan within table_frame (boxes "mp4a") fill plan_remuxable ltac:(by vm_compute) fill_short fill_sizes)
    as (out & at_ & ks & samples & E & _ & Hread & Hs & _).
  exists out, at_, ks, samples. split; [exact E|]. split; [|exact Hs]. apply Hread. lia.
Defined.
